(** * rust-project.json writer of GN: crate graph construction and output

    A shallow embedding of [src/gn/rust_project_writer.cc]: the flattening
    of link dependencies into crate dependencies ([GetRustDeps]), the
    argument scanners ([FindArgValue] and friends), the choice of a crate's
    main target ([PreferredTarget]), the synthesis of the sysroot crates
    ([AddSysrootCrate], [AddSysroot]), the recursive construction of the
    crate list ([AddCrate], [RenderJSON]) and the writer ([WriteCrates]).

    The debugging [printf] calls of the source write to the standard output
    only and are left out of the embedding. *)

From stdpp Require Import gmap strings list fin_maps pretty.
From Stdlib Require Import Ascii.

Set Warnings "-register-all,-clear-no-such-hyp".

(** ** The build graph, as far as the writer reads it *)

(** [SourceFile], [SourceDir], [OutputFile] and [Label] wrap one string each;
    the writer compares them for equality and prints them. *)
Abbreviation SourceFile := string (only parsing).
Abbreviation SourceDir := string (only parsing).
Abbreviation OutputFile := string (only parsing).
Abbreviation Label := string (only parsing).

(** [Target::OutputType]. *)
Inductive OutputType :=
  | UNKNOWN | GROUP | EXECUTABLE | SHARED_LIBRARY | LOADABLE_MODULE
  | STATIC_LIBRARY | SOURCE_SET | COPY_FILES | ACTION | ACTION_FOREACH
  | BUNDLE_DATA | CREATE_BUNDLE | GENERATED_FILE | RUST_LIBRARY
  | RUST_PROC_MACRO.

Global Instance OutputType_eq_dec : EqDecision OutputType.
Proof. solve_decision. Defined.

(** What the writer reads of a [const Target*].  The build graph is resolved
    and acyclic, and the writer never compares target pointers, so a target
    carries the targets of its link dependencies.

    - [label_name]       : [label().GetUserVisibleName(false)]
    - [toolchain_label]  : [toolchain()->label()]
    - [rust_source_used] : [source_types_used().RustSourceUsed()]
    - [crate_root], [crate_name] : [rust_values()]
    - [config_rustflags] : the [rustflags()] of every [ConfigValues] that
      [ConfigValuesIterator] visits, in its order
    - [rustenv]          : [config_values().rustenv()]
    - [tool_name], [tool_sysroot] : [name()] and [GetSysroot()] of
      [toolchain()->GetToolForTargetFinalOutputAsRust(target)]
    - [gen_dir_of]       : [GetBuildDirForTargetAsOutputFile(target, GEN)]
    - [linked_deps]      : [GetDeps(Target::DEPS_LINKED)] *)
Inductive Target := mkTarget {
  label_name : string;
  toolchain_label : Label;
  testonly : bool;
  output_type : OutputType;
  rust_source_used : bool;
  crate_root : SourceFile;
  crate_name : string;
  config_rustflags : list (list string);
  rustenv : list string;
  tool_name : string;
  tool_sysroot : string;
  computed_outputs : list OutputFile;
  gen_dir_of : OutputFile;
  linked_deps : list Target
}.

Abbreviation TargetsVector := (list Target) (only parsing).

(** [Target::IsBinary]. *)
Definition IsBinary (t : Target) : bool :=
  match output_type t with
  | EXECUTABLE | SHARED_LIBRARY | LOADABLE_MODULE | STATIC_LIBRARY
  | SOURCE_SET | RUST_LIBRARY | RUST_PROC_MACRO => true
  | _ => false
  end.

(** ** Dependency flattening *)

(** Modelled from the spec: [UniqueVector] (unique_vector.h) is not among the
    sources; the spec describes the result of neighbour discovery as a
    deduplicated, order-preserving set, insertion order preserved and
    duplicates collapsed.  [push_back] appends an element that is not yet
    present and leaves the vector alone otherwise. *)
Abbreviation DependencySet := (list SourceFile) (only parsing).

Definition push_back (x : SourceFile) (v : DependencySet) : DependencySet :=
  if decide (x ∈ v) then v else v ++ [x].

(** [GetRustDeps]: the loop over the link dependencies is the inner
    fixpoint, the call on a group the outer one. *)
Fixpoint GetRustDeps (target : Target) (rust_deps : DependencySet)
    : DependencySet :=
  let fix loop (deps : list Target) (rust_deps : DependencySet) :=
    match deps with
    | [] => rust_deps
    | dep :: rest =>
        if rust_source_used dep then
          loop rest (push_back (crate_root dep) rust_deps)
        else if decide (output_type dep = GROUP) then
          loop rest (GetRustDeps dep rust_deps)
        else loop rest rust_deps
    end in
  loop (linked_deps target) rust_deps.

(** The loop of [GetRustDeps] on its own, for the lemmas. *)
Fixpoint GetRustDeps_loop (deps : list Target) (rust_deps : DependencySet)
    : DependencySet :=
  match deps with
  | [] => rust_deps
  | dep :: rest =>
      if rust_source_used dep then
        GetRustDeps_loop rest (push_back (crate_root dep) rust_deps)
      else if decide (output_type dep = GROUP) then
        GetRustDeps_loop rest (GetRustDeps dep rust_deps)
      else GetRustDeps_loop rest rust_deps
  end.

(** The words of the spec (4.2): the crate roots met when walking the link
    dependencies, looking through pure grouping targets and stopping at
    every dependency that uses the language. *)
Fixpoint direct_rust_deps (target : Target) : list SourceFile :=
  let fix walk (deps : list Target) : list SourceFile :=
    match deps with
    | [] => []
    | dep :: rest =>
        (if rust_source_used dep then [crate_root dep]
         else if decide (output_type dep = GROUP) then direct_rust_deps dep
         else []) ++ walk rest
    end in
  walk (linked_deps target).

Fixpoint direct_rust_deps_walk (deps : list Target) : list SourceFile :=
  match deps with
  | [] => []
  | dep :: rest =>
      (if rust_source_used dep then [crate_root dep]
       else if decide (output_type dep = GROUP) then direct_rust_deps dep
       else []) ++ direct_rust_deps_walk rest
  end.

(** Pushing a sequence of roots, one after the other. *)
Definition push_back_all (v : DependencySet) (roots : list SourceFile)
    : DependencySet :=
  foldl (λ v root, push_back root v) v roots.

(** A crate root is reached from a target through a chain of link
    dependencies in which every target but the last is a grouping target
    without sources of the language, and the last one uses the language. *)
Inductive reaches : Target → SourceFile → Prop :=
  | reaches_rust target dep :
      dep ∈ linked_deps target →
      rust_source_used dep = true →
      reaches target (crate_root dep)
  | reaches_group target dep root :
      dep ∈ linked_deps target →
      rust_source_used dep = false →
      output_type dep = GROUP →
      reaches dep root →
      reaches target root.

(** ** Compiler arguments *)

(** [ExtractCompilerArgs]. *)
Definition ExtractCompilerArgs (target : Target) : list string :=
  concat (config_rustflags target).

(** [FindArgValue]: [previous] is the argument under the iterator before the
    increment, the head of [rest] the one after it. *)
Fixpoint FindArgValue (arg : string) (args : list string) : option string :=
  match args with
  | [] => None
  | previous :: rest =>
      match rest with
      | current :: _ =>
          if decide (previous = arg) then Some current
          else FindArgValue arg rest
      | [] => FindArgValue arg rest
      end
  end.

(** [std::string::substr(pos)] for [pos] up to the length. *)
Fixpoint substr (pos : nat) (s : string) : string :=
  match pos, s with
  | S pos', String _ s' => substr pos' s'
  | _, _ => s
  end.

(** [!arg.compare(0, prefix.size(), prefix)]: the first [prefix.size()]
    characters of [arg] (fewer when [arg] is shorter) equal [prefix]. *)
Definition compare_prefix (prefix arg : string) : bool :=
  String.prefix prefix arg.

(** [FindArgValueAfterPrefix]. *)
Fixpoint FindArgValueAfterPrefix (prefix : string) (args : list string)
    : option string :=
  match args with
  | [] => None
  | arg :: rest =>
      if compare_prefix prefix arg then Some (substr (String.length prefix) arg)
      else FindArgValueAfterPrefix prefix rest
  end.

(** [FindAllArgValuesAfterPrefix]. *)
Fixpoint FindAllArgValuesAfterPrefix (prefix : string) (args : list string)
    : list string :=
  match args with
  | [] => []
  | arg :: rest =>
      if compare_prefix prefix arg
      then substr (String.length prefix) arg
           :: FindAllArgValuesAfterPrefix prefix rest
      else FindAllArgValuesAfterPrefix prefix rest
  end.

(** The triple that [AddCrate] records for a main target. *)
Definition compiler_target_of (main_target : Target) : option string :=
  FindArgValue "--target" (ExtractCompilerArgs main_target).

(** The reading of the spec, for comparison: the value after a standalone
    [--target], otherwise the value after a [--target=] prefix. *)
Definition spec_compiler_target (args : list string) : option string :=
  match FindArgValue "--target" args with
  | Some v => Some v
  | None => FindArgValueAfterPrefix "--target=" args
  end.

(** The edition that [AddCrate] records. *)
Definition edition_of (compiler_args : list string) : string :=
  let edition :=
    match FindArgValueAfterPrefix "--edition=" compiler_args with
    | Some v => Some v
    | None => FindArgValue "--edition" compiler_args
    end in
  default "2015" edition.

(** ** Preferred target *)

(** The [score] lambda of [PreferredTarget]. *)
Definition score (default_toolchain : Label) (target : Target) : nat :=
  (if decide (toolchain_label target = default_toolchain) then 2 else 0) +
  (if testonly target then 0 else 1).

(** [std::max_element]: [largest] is replaced when [comp largest x] holds. *)
Fixpoint max_element_from {A} (comp : A → A → bool) (largest : A)
    (rest : list A) : A :=
  match rest with
  | [] => largest
  | x :: rest' =>
      if comp largest x then max_element_from comp x rest'
      else max_element_from comp largest rest'
  end.

(** [PreferredTarget]; [None] is the failed [assert(!targets.empty())]. *)
Definition PreferredTarget (default_toolchain : Label)
    (targets : TargetsVector) : option Target :=
  match targets with
  | [] => None
  | first :: rest =>
      Some (max_element_from
              (λ lhs rhs,
                 bool_decide (score default_toolchain lhs
                              < score default_toolchain rhs))
              first rest)
  end.

(** ** Environment entries *)

(** Modelled from the spec: [base::SplitString] (base/strings/string_split.h)
    is not among the sources.  The spec (4.3, step 10) has an entry cut at
    [=] and entries without a value ignored; the call in [AddCrate] fixes the
    rest: the separator set is ["="], the pieces are trimmed
    ([TRIM_WHITESPACE]) and all of them are wanted ([SPLIT_WANT_ALL]).  The
    input is cut at every separator character, ASCII white space is trimmed
    from both ends of each piece, and every piece is kept, empty ones
    included; the empty input has no piece. *)
Definition is_separator (separators : string) (c : ascii) : bool :=
  bool_decide (c ∈ String.list_ascii_of_string separators).

Fixpoint pieces (separators : string) (s : string) : list string :=
  match s with
  | "" => [""]
  | String c s' =>
      if is_separator separators c then "" :: pieces separators s'
      else match pieces separators s' with
           | p :: ps => String c p :: ps
           | [] => [String c ""]
           end
  end.

Fixpoint trim_leading (s : string) : string :=
  match s with
  | String c s' => if Ascii.is_space c then trim_leading s' else s
  | "" => ""
  end.

Definition TrimWhitespace (s : string) : string :=
  String.rev (trim_leading (String.rev (trim_leading s))).

Definition SplitString (input separators : string) : list string :=
  if decide (input = "") then []
  else TrimWhitespace <$> pieces separators input.

(** The body of the loop over [rustenv()] in [AddCrate]: the arguments that
    [AddRustenv] is called with, if it is called. *)
Definition rustenv_entry (env_var : string) : option (string * string) :=
  match SplitString env_var "=" with
  | part0 :: part1 :: _ => Some (part0, part1)
  | _ => None
  end.

(** The character [c] does not occur in [s]. *)
Definition free_of (c : ascii) (s : string) : Prop :=
  c ∉ String.list_ascii_of_string s.

(** The reading of the spec, for comparison: the name is what stands before
    the first [=], the value everything after it, and an entry without [=]
    gives nothing. *)
Fixpoint spec_rustenv_entry (env_var : string) : option (string * string) :=
  match env_var with
  | "" => None
  | String c rest =>
      if decide (c = "="%char) then Some ("", rest)
      else match spec_rustenv_entry rest with
           | Some (key, value) => Some (String c key, value)
           | None => None
           end
  end.

(** ** Collaborators outside the sources *)

(** What the writer asks of a [BuildSettings]:
    - [build_dir_full_path] : [FilePathToUTF8(GetFullPath(build_dir()))]
    - [GetFullPath_file], [GetFullPath_dir] : [FilePathToUTF8(GetFullPath(x))]
      for a source file and for a source directory
    - [AsSourceDir], [AsSourceFile] : the methods of [OutputFile] that take
      the build settings. *)
Record BuildSettings := mkBuildSettings {
  build_dir_full_path : string;
  GetFullPath_file : SourceFile → string;
  GetFullPath_dir : SourceDir → string;
  AsSourceDir : OutputFile → SourceDir;
  AsSourceFile : OutputFile → SourceFile
}.

(** Functions and constants that the writer calls and that are declared
    outside the sources; they are taken as parameters.
    - [make_SourceFile] : the constructor [SourceFile(std::string)]
    - [GetDir]          : [SourceFile::GetDir]
    - [EscapeJSONString]: [base::EscapeJSONString(s, false, &out)]
    - [kRsToolMacro]    : [RustTool::kRsToolMacro]
    - [OS_WINDOWS]      : whether the macro of that name is defined
    - [RustEnv] and its operations: the container behind [Crate::rustenv()]
      with the insertion done by [Crate::AddRustenv], the test [empty()] and
      the entries a range-for visits
    - [moved_from]      : the state in which the constructor of [Crate]
      leaves the [TargetsVector] that [AddCrate] hands over with
      [std::move]. *)
Class Helpers := {
  make_SourceFile : string → SourceFile;
  GetDir : SourceFile → SourceDir;
  EscapeJSONString : string → string;
  kRsToolMacro : string;
  OS_WINDOWS : bool;
  RustEnv : Type;
  rustenv_new : RustEnv;
  rustenv_add : string → string → RustEnv → RustEnv;
  rustenv_is_empty : RustEnv → bool;
  rustenv_entries : RustEnv → list (string * string);
  moved_from : TargetsVector → TargetsVector
}.

(** ** Crate records *)

(** [CrateIndex] is [size_t]; every index the writer makes is the size of the
    crate list at some moment, so it is modelled as a natural number. *)
Abbreviation CrateIndex := nat (only parsing).

(** Modelled from the spec: the class [Crate] (rust_project_writer_helpers.h)
    is not among the sources.  Following the data model of the spec (3), a
    record holds its handle, root, name, label and edition, the ordered list
    of compiler arguments, the optional target triple and generated-sources
    directory, the configuration flags in insertion order with duplicates
    kept, the ordered list of (handle, name) dependency pairs, the optional
    proc-macro artifact and the environment entries.  The constructor leaves
    every accumulated field empty. *)
Record Crate {helpers : Helpers} := mkCrate {
  root : SourceFile;
  crate_targets : TargetsVector;
  gen_dir : option OutputFile;
  index : CrateIndex;
  name : string;
  label : string;
  edition : string;
  configs : list string;
  dependencies : list (CrateIndex * string);
  CompilerTarget : option string;
  CompilerArgs : list string;
  proc_macro_path : option OutputFile;
  crate_rustenv : RustEnv
}.

Section CrateOperations.
Context {helpers : Helpers}.

Definition new_Crate (root : SourceFile) (targets : TargetsVector)
    (gen_dir : option OutputFile) (index : CrateIndex)
    (name label edition : string) : Crate :=
  {| root := root; crate_targets := targets; gen_dir := gen_dir;
     index := index; name := name; label := label; edition := edition;
     configs := []; dependencies := []; CompilerTarget := None;
     CompilerArgs := []; proc_macro_path := None;
     crate_rustenv := rustenv_new |}.

Definition AddConfigItem (cfg_item : string) (c : Crate) : Crate :=
  {| root := root c; crate_targets := crate_targets c; gen_dir := gen_dir c;
     index := index c; name := name c; label := label c;
     edition := edition c; configs := configs c ++ [cfg_item];
     dependencies := dependencies c; CompilerTarget := CompilerTarget c;
     CompilerArgs := CompilerArgs c; proc_macro_path := proc_macro_path c;
     crate_rustenv := crate_rustenv c |}.

Definition AddDependency (idx : CrateIndex) (dep_name : string) (c : Crate)
    : Crate :=
  {| root := root c; crate_targets := crate_targets c; gen_dir := gen_dir c;
     index := index c; name := name c; label := label c;
     edition := edition c; configs := configs c;
     dependencies := dependencies c ++ [(idx, dep_name)];
     CompilerTarget := CompilerTarget c; CompilerArgs := CompilerArgs c;
     proc_macro_path := proc_macro_path c;
     crate_rustenv := crate_rustenv c |}.

Definition AddRustenv (key value : string) (c : Crate) : Crate :=
  {| root := root c; crate_targets := crate_targets c; gen_dir := gen_dir c;
     index := index c; name := name c; label := label c;
     edition := edition c; configs := configs c;
     dependencies := dependencies c; CompilerTarget := CompilerTarget c;
     CompilerArgs := CompilerArgs c; proc_macro_path := proc_macro_path c;
     crate_rustenv := rustenv_add key value (crate_rustenv c) |}.

Definition SetCompilerArgs (args : list string) (c : Crate) : Crate :=
  {| root := root c; crate_targets := crate_targets c; gen_dir := gen_dir c;
     index := index c; name := name c; label := label c;
     edition := edition c; configs := configs c;
     dependencies := dependencies c; CompilerTarget := CompilerTarget c;
     CompilerArgs := args; proc_macro_path := proc_macro_path c;
     crate_rustenv := crate_rustenv c |}.

Definition SetCompilerTarget (target : string) (c : Crate) : Crate :=
  {| root := root c; crate_targets := crate_targets c; gen_dir := gen_dir c;
     index := index c; name := name c; label := label c;
     edition := edition c; configs := configs c;
     dependencies := dependencies c; CompilerTarget := Some target;
     CompilerArgs := CompilerArgs c; proc_macro_path := proc_macro_path c;
     crate_rustenv := crate_rustenv c |}.

Definition SetIsProcMacro (dylib : OutputFile) (c : Crate) : Crate :=
  {| root := root c; crate_targets := crate_targets c; gen_dir := gen_dir c;
     index := index c; name := name c; label := label c;
     edition := edition c; configs := configs c;
     dependencies := dependencies c; CompilerTarget := CompilerTarget c;
     CompilerArgs := CompilerArgs c; proc_macro_path := Some dylib;
     crate_rustenv := crate_rustenv c |}.

End CrateOperations.

(** ** Outcomes *)

(** The ways in which the construction of the crate list can stop early:
    [std::out_of_range] from [lookup.at], a failed [assert], and an access
    past the end of the crate list. *)
Inductive failure := out_of_range | assertion_failed | index_past_end.

(** [OutOfFuel] belongs to the embedding only: the recursion of [AddCrate]
    is bounded by a counter, and [BuildCrateList_fuel] shows that the counter
    handed out by [BuildCrateList] is never used up. *)
Inductive outcome (A : Type) :=
  | Ok (a : A)
  | Throws (e : failure)
  | OutOfFuel.
Arguments Ok {A} a.
Arguments Throws {A} e.
Arguments OutOfFuel {A}.

Global Instance outcome_bind : MBind outcome := λ A B f x,
  match x with
  | Ok a => f a
  | Throws e => Throws e
  | OutOfFuel => OutOfFuel
  end.

(** A loop whose body may stop the run. *)
Fixpoint for_each {S A} (body : S → A → outcome S) (st : S) (l : list A)
    : outcome S :=
  match l with
  | [] => Ok st
  | x :: l' => st' ← body st x; for_each body st' l'
  end.

(** The same for a body that can only run out of fuel. *)
Fixpoint for_each_opt {S A} (body : S → A → option S) (st : S) (l : list A)
    : option S :=
  match l with
  | [] => Some st
  | x :: l' => st' ← body st x; for_each_opt body st' l'
  end.

(** [m.emplace(k, v)]: a key that is present keeps its value. *)
Definition emplace {V} (k : string) (v : V) (m : gmap string V)
    : gmap string V :=
  match m !! k with
  | Some _ => m
  | None => <[k := v]> m
  end.

(** [m[k]]: a key that is absent is inserted with the default value. *)
Definition subscript {V} (dflt : V) (k : string) (m : gmap string V)
    : V * gmap string V :=
  match m !! k with
  | Some v => (v, m)
  | None => (dflt, <[k := dflt]> m)
  end.

(** ** Sysroot crates *)

Definition sysroot_crates : list string :=
  ["std"; "core"; "alloc"; "panic_unwind";
   "proc_macro"; "test"; "panic_abort"; "unwind"].

Definition sysroot_deps_map : gmap string (list string) :=
  list_to_map [("alloc", ["core"]);
               ("std", ["alloc"; "core"; "panic_abort"; "unwind"])].

(** The maps of rust_project_writer_helpers.h: crate name to index, and
    sysroot path to such a map. *)
Abbreviation SysrootCrateIndexMap := (gmap string CrateIndex) (only parsing).
Abbreviation SysrootIndexMap :=
  (gmap string (gmap string CrateIndex)) (only parsing).

Section Sysroot.
Context {helpers : Helpers}.

(** The path that [AddSysrootCrate] builds for a crate. *)
Definition sysroot_crate_path (build_settings : BuildSettings)
    (current_sysroot crate : string) : string :=
  build_dir_full_path build_settings +:+ current_sysroot +:+
  "/lib/rustlib/src/rust/library/" +:+ crate +:+ "/src/lib.rs".

(** The second loop over [deps] in [AddSysrootCrate]. *)
Definition add_sysroot_deps (deps : list string)
    (st : SysrootCrateIndexMap * Crate) : SysrootCrateIndexMap * Crate :=
  foldl (λ '(sysroot_crate_lookup, sysroot_crate) dep,
           let '(idx, sysroot_crate_lookup) :=
             subscript 0 dep sysroot_crate_lookup in
           (sysroot_crate_lookup, AddDependency idx dep sysroot_crate))
        st deps.

(** [AddSysrootCrate]; the counter bounds the depth of the recursion through
    [sysroot_deps_map], and [None] means that it ran out. *)
Fixpoint AddSysrootCrate (fuel : nat) (build_settings : BuildSettings)
    (crate current_sysroot : string)
    (st : SysrootCrateIndexMap * list Crate)
    : option (SysrootCrateIndexMap * list Crate) :=
  match fuel with
  | 0 => None
  | S fuel' =>
      if decide (is_Some (st.1 !! crate)) then Some st
      else
        let deps_lookup := sysroot_deps_map !! crate in
        st ← match deps_lookup with
             | Some deps =>
                 for_each_opt
                   (λ st dep, AddSysrootCrate fuel' build_settings dep
                                current_sysroot st)
                   st deps
             | None => Some st
             end;
        let '(sysroot_crate_lookup, crate_list) := st in
        let crate_index := length crate_list in
        let sysroot_crate_lookup :=
          emplace crate crate_index sysroot_crate_lookup in
        let crate_path :=
          sysroot_crate_path build_settings current_sysroot crate in
        let sysroot_crate :=
          new_Crate (make_SourceFile crate_path) [] None crate_index
                    crate crate "2018" in
        let sysroot_crate := AddConfigItem "debug_assertions" sysroot_crate in
        let '(sysroot_crate_lookup, sysroot_crate) :=
          match deps_lookup with
          | Some deps =>
              add_sysroot_deps deps (sysroot_crate_lookup, sysroot_crate)
          | None => (sysroot_crate_lookup, sysroot_crate)
          end in
        Some (sysroot_crate_lookup, crate_list ++ [sysroot_crate])
  end.

(** Enough for the chain std, alloc, core of [sysroot_deps_map], see
    [AddSysrootCrate_enough_fuel]. *)
Definition sysroot_fuel : nat := S (length sysroot_crates).

(** [AddSysroot]; [sysroot_lookup[sysroot]] is evaluated anew for every
    crate of the list. *)
Definition AddSysroot (build_settings : BuildSettings) (sysroot : string)
    (st : SysrootIndexMap * list Crate)
    : option (SysrootIndexMap * list Crate) :=
  if decide (is_Some (st.1 !! sysroot)) then Some st
  else
    for_each_opt
      (λ '(sysroot_lookup, crate_list) crate,
         let '(sysroot_crate_lookup, sysroot_lookup) :=
           subscript ∅ sysroot sysroot_lookup in
         '(sysroot_crate_lookup, crate_list) ←
           AddSysrootCrate sysroot_fuel build_settings crate sysroot
                           (sysroot_crate_lookup, crate_list);
         Some (<[sysroot := sysroot_crate_lookup]> sysroot_lookup,
               crate_list))
      st sysroot_crates.

(** The record that [AddSysrootCrate] appends for [crate] at index [idx],
    once its dependency pairs [deps] are known. *)
Definition sysroot_crate_record (build_settings : BuildSettings)
    (current_sysroot : string) (idx : CrateIndex) (crate : string)
    (deps : list (CrateIndex * string)) : Crate :=
  {| root :=
       make_SourceFile
         (sysroot_crate_path build_settings current_sysroot crate);
     crate_targets := []; gen_dir := None; index := idx; name := crate;
     label := crate; edition := "2018"; configs := ["debug_assertions"];
     dependencies := deps; CompilerTarget := None; CompilerArgs := [];
     proc_macro_path := None; crate_rustenv := rustenv_new |}.

(** The order in which the crates of a new sysroot are appended. *)
Definition synthesized_order : list string :=
  ["core"; "alloc"; "panic_abort"; "unwind";
   "std"; "panic_unwind"; "proc_macro"; "test"].

(** The index map of a sysroot synthesized when the crate list has [n]
    elements, and the records appended for it. *)
Definition synthesized_table (n : nat) : SysrootCrateIndexMap :=
  <["test" := n + 7]> (<["proc_macro" := n + 6]> (<["panic_unwind" := n + 5]>
  (<["std" := n + 4]> (<["unwind" := n + 3]> (<["panic_abort" := n + 2]>
  (<["alloc" := n + 1]> (<["core" := n]> ∅))))))).

Definition synthesized_crates (build_settings : BuildSettings)
    (current_sysroot : string) (n : nat) : list Crate :=
  let record := sysroot_crate_record build_settings current_sysroot in
  [record n "core" [];
   record (n + 1) "alloc" [(n, "core")];
   record (n + 2) "panic_abort" [];
   record (n + 3) "unwind" [];
   record (n + 4) "std"
     [(n + 1, "alloc"); (n, "core"); (n + 2, "panic_abort");
      (n + 3, "unwind")];
   record (n + 5) "panic_unwind" [];
   record (n + 6) "proc_macro" [];
   record (n + 7) "test" []].

(** [AddSysrootDependencyToCrate]. *)
Definition AddSysrootDependencyToCrate (crate : Crate)
    (sysroot : SysrootCrateIndexMap) (crate_name : string) : Crate :=
  match sysroot !! crate_name with
  | Some crate_idx => AddDependency crate_idx crate_name crate
  | None => crate
  end.

End Sysroot.

(** ** Construction of the crate list *)

(** [CrateInfo]. *)
Record CrateInfo := mkCrateInfo {
  targets : TargetsVector;
  seen : bool;
  info_index : option CrateIndex
}.

(** The value that [lookup[crate_root]] inserts for a new key. *)
Definition new_CrateInfo : CrateInfo :=
  {| targets := []; seen := false; info_index := None |}.

(** The three objects that [AddCrate] receives by reference and changes:
    [CrateInfoMap& lookup], [SysrootIndexMap& sysroot_lookup] and
    [CrateList& crate_list].  The [CrateInfo&] argument of [AddCrate] always
    refers to the entry of [crate_root] in [lookup], so it is read from and
    written to the map. *)
Record State {helpers : Helpers} := mkState {
  lookup : gmap SourceFile CrateInfo;
  sysroot_lookup : gmap string (gmap string CrateIndex);
  crate_list : list Crate
}.

Section Construction.
Context {helpers : Helpers}.

Definition set_lookup (f : gmap SourceFile CrateInfo → gmap SourceFile CrateInfo)
    (st : State) : State :=
  {| lookup := f (lookup st); sysroot_lookup := sysroot_lookup st;
     crate_list := crate_list st |}.

(** [crate_info.targets], read through the reference. *)
Definition targets_at (crate_root : SourceFile) (st : State) : TargetsVector :=
  match lookup st !! crate_root with
  | Some crate_info => targets crate_info
  | None => []
  end.

(** [crate_info.seen = true]. *)
Definition mark_seen (crate_root : SourceFile) (st : State) : State :=
  set_lookup
    (alter (λ ci, {| targets := targets ci; seen := true;
                     info_index := info_index ci |})
           crate_root) st.

(** [crate_info.index = crate_index], and the [std::move(all_targets)] of
    the call that constructs the record. *)
Definition assign_index (crate_root : SourceFile) (crate_index : CrateIndex)
    (st : State) : State :=
  set_lookup
    (alter (λ ci, {| targets := moved_from (targets ci); seen := seen ci;
                     info_index := Some crate_index |})
           crate_root) st.

(** The call of [AddSysroot] inside [AddCrate], with its guard. *)
Definition add_sysroot_if_new (build_settings : BuildSettings)
    (current_sysroot : string) (st : State) : outcome State :=
  if decide (current_sysroot ≠ ""
             ∧ sysroot_lookup st !! current_sysroot = None) then
    match AddSysroot build_settings current_sysroot
                     (sysroot_lookup st, crate_list st) with
    | Some (sysroot_lookup', crate_list') =>
        Ok {| lookup := lookup st; sysroot_lookup := sysroot_lookup';
              crate_list := crate_list' |}
    | None => OutOfFuel
    end
  else Ok st.

(** The loop that gathers [crate_deps] from the targets in the toolchain of
    the main target. *)
Definition gather_crate_deps (main_target : Target)
    (all_targets : TargetsVector) : DependencySet :=
  foldl (λ crate_deps target,
           if decide (toolchain_label target ≠ toolchain_label main_target)
           then crate_deps
           else GetRustDeps target crate_deps)
        [] all_targets.

(** The two loops that add the [--cfg=] values. *)
Definition add_configs (cfgs : list string) (crate : Crate) : Crate :=
  foldl (λ crate cfg, AddConfigItem cfg crate) crate cfgs.

Definition add_target_configs (main_target : Target)
    (all_targets : TargetsVector) (crate : Crate) : Crate :=
  foldl (λ crate target,
           if decide (toolchain_label target ≠ toolchain_label main_target)
           then crate
           else add_configs
                  (FindAllArgValuesAfterPrefix "--cfg="
                     (ExtractCompilerArgs target))
                  crate)
        crate all_targets.

(** The block that adds the sysroot dependencies. *)
Definition add_sysroot_dependencies (main_target : Target)
    (current_sysroot : string) (st : State) (crate : Crate)
    : State * Crate :=
  if decide (current_sysroot ≠ "") then
    let '(sysroot, sysroot_lookup') :=
      subscript ∅ current_sysroot (sysroot_lookup st) in
    let st := {| lookup := lookup st; sysroot_lookup := sysroot_lookup';
                 crate_list := crate_list st |} in
    let crate := AddSysrootDependencyToCrate crate sysroot "core" in
    let crate := AddSysrootDependencyToCrate crate sysroot "alloc" in
    let crate := AddSysrootDependencyToCrate crate sysroot "std" in
    let crate :=
      if decide (tool_name main_target = kRsToolMacro)
      then AddSysrootDependencyToCrate crate sysroot "proc_macro"
      else crate in
    (st, crate)
  else (st, crate).

(** The block that records the output of a proc macro. *)
Definition set_proc_macro (main_target : Target) (crate : Crate) : Crate :=
  if decide (tool_name main_target = kRsToolMacro) then
    match computed_outputs main_target with
    | output0 :: _ => SetIsProcMacro output0 crate
    | [] => crate
    end
  else crate.

(** The loop over [rustenv()]. *)
Definition add_rustenv (env_vars : list string) (crate : Crate) : Crate :=
  foldl (λ crate env_var,
           match rustenv_entry env_var with
           | Some (key, value) => AddRustenv key value crate
           | None => crate
           end)
        crate env_vars.

(** The last loop of [AddCrate].  [lookup[dep]] finds the entry that
    [lookup.at(dep)] found before; for a missing key it would insert
    [new_CrateInfo], on which the [assert] fails.  An entry without an index
    is passed over (the source prints a line and goes on).  [crate] is the
    last element of [earlier ++ [crate]], the crate list at that moment. *)
Definition add_crate_dependencies (crate_root : SourceFile)
    (crate_deps : DependencySet) (st : State) (crate : Crate)
    : outcome Crate :=
  for_each
    (λ crate dep,
       if decide (dep = crate_root) then Ok crate
       else
         match lookup st !! dep with
         | None => Throws assertion_failed
         | Some info =>
             if seen info then
               match info_index info with
               | None => Ok crate
               | Some idx =>
                   match (crate_list st ++ [crate]) !! idx with
                   | Some dep_crate =>
                       Ok (AddDependency idx (name dep_crate) crate)
                   | None => Throws index_past_end
                   end
               end
             else Throws assertion_failed
         end)
    crate crate_deps.

(** [AddCrate].  The caller's [lookup.at(dep)] is evaluated here, on entry;
    the top-level loop of [RenderJSON] passes keys of [lookup] only. *)
Fixpoint AddCrate (fuel : nat) (build_settings : BuildSettings)
    (default_toolchain : Label) (crate_root : SourceFile) (st : State)
    : outcome State :=
  match fuel with
  | 0 => OutOfFuel
  | S fuel' =>
      match lookup st !! crate_root with
      | None => Throws out_of_range
      | Some crate_info =>
          if seen crate_info then Ok st
          else
            let st := mark_seen crate_root st in
            match PreferredTarget default_toolchain
                                  (targets_at crate_root st) with
            | None => Throws assertion_failed
            | Some main_target =>
                let compiler_args := ExtractCompilerArgs main_target in
                let compiler_target :=
                  FindArgValue "--target" compiler_args in
                let current_sysroot := tool_sysroot main_target in
                st ← add_sysroot_if_new build_settings current_sysroot st;
                let crate_deps :=
                  gather_crate_deps main_target (targets_at crate_root st) in
                st ← for_each
                       (λ st dep,
                          if decide (dep = crate_root) then Ok st
                          else AddCrate fuel' build_settings
                                        default_toolchain dep st)
                       st crate_deps;
                let edition := edition_of compiler_args in
                let gen_dir := gen_dir_of main_target in
                let crate_index := length (crate_list st) in
                let all_targets := targets_at crate_root st in
                let st := assign_index crate_root crate_index st in
                let crate :=
                  new_Crate crate_root all_targets (Some gen_dir) crate_index
                            (crate_name main_target) (label_name main_target)
                            edition in
                let crate := SetCompilerArgs compiler_args crate in
                let crate :=
                  match compiler_target with
                  | Some triple => SetCompilerTarget triple crate
                  | None => crate
                  end in
                let crate := AddConfigItem "test" crate in
                let crate := AddConfigItem "debug_assertions" crate in
                let crate :=
                  add_configs
                    (FindAllArgValuesAfterPrefix "--cfg=" compiler_args)
                    crate in
                let crate :=
                  add_target_configs main_target (targets_at crate_root st)
                                     crate in
                let '(st, crate) :=
                  add_sysroot_dependencies main_target current_sysroot
                                           st crate in
                let crate := set_proc_macro main_target crate in
                let crate := add_rustenv (rustenv main_target) crate in
                crate ← add_crate_dependencies crate_root crate_deps st crate;
                Ok {| lookup := lookup st;
                      sysroot_lookup := sysroot_lookup st;
                      crate_list := crate_list st ++ [crate] |}
            end
      end
  end.

(** The first loop of [RenderJSON]: the targets grouped by crate root. *)
Definition collect_crates (all_targets : list Target)
    : gmap SourceFile CrateInfo :=
  foldl (λ lookup target,
           if negb (IsBinary target) || negb (rust_source_used target)
           then lookup
           else
             let '(info, lookup) :=
               subscript new_CrateInfo (crate_root target) lookup in
             <[crate_root target :=
                 {| targets := targets info ++ [target]; seen := seen info;
                    info_index := info_index info |}]> lookup)
        ∅ all_targets.

(** [lookup] is a [std::unordered_map], whose iteration order the language
    leaves open: [order] is an order in which the second loop of
    [RenderJSON] may visit the keys. *)
Definition iteration_order (lookup : gmap SourceFile CrateInfo)
    (order : list SourceFile) : Prop :=
  order ≡ₚ (map_to_list lookup).*1.

(** The second loop of [RenderJSON], started from the collected [lookup];
    every call gets a counter above the number of crates. *)
Definition BuildCrateList (build_settings : BuildSettings)
    (default_toolchain : Label) (all_targets : list Target)
    (order : list SourceFile) : outcome State :=
  let lookup := collect_crates all_targets in
  for_each
    (λ st crate_root,
       AddCrate (S (size lookup)) build_settings default_toolchain
                crate_root st)
    {| lookup := lookup; sysroot_lookup := ∅; crate_list := [] |}
    order.

(** ** Invariants of the construction *)

(** [crate] with [edges] added at the end of its dependency pairs. *)
Definition add_edges (edges : list (CrateIndex * string)) (crate : Crate)
    : Crate :=
  {| root := root crate; crate_targets := crate_targets crate;
     gen_dir := gen_dir crate; index := index crate; name := name crate;
     label := label crate; edition := edition crate;
     configs := configs crate;
     dependencies := dependencies crate ++ edges;
     CompilerTarget := CompilerTarget crate;
     CompilerArgs := CompilerArgs crate;
     proc_macro_path := proc_macro_path crate;
     crate_rustenv := crate_rustenv crate |}.

(** An operation on a record that changes neither its index, root and
    name, nor its edges, nor its target triple. *)
Definition keeps_edges (f : Crate → Crate) : Prop :=
  ∀ crate, index (f crate) = index crate
           ∧ dependencies (f crate) = dependencies crate
           ∧ name (f crate) = name crate
           ∧ root (f crate) = root crate
           ∧ CompilerTarget (f crate) = CompilerTarget crate.

(** An operation on a record that leaves its environment entries alone. *)
Definition keeps_rustenv (f : Crate → Crate) : Prop :=
  ∀ crate, crate_rustenv (f crate) = crate_rustenv crate.

(** The environment container after the loop over [rustenv()]. *)
Definition rustenv_of (env_vars : list string) (env : RustEnv) : RustEnv :=
  foldl (λ env env_var,
           match rustenv_entry env_var with
           | Some (key, value) => rustenv_add key value env
           | None => env
           end)
        env env_vars.

(** Every record sits at the position that is its index, and every edge of
    a record points to a smaller index. *)
Definition handles_ordered (crates : list Crate) : Prop :=
  ∀ i crate, crates !! i = Some crate →
    index crate = i
    ∧ ∀ h dep_name, (h, dep_name) ∈ dependencies crate → h < i.

(** The indices kept in [lookup] and in [sysroot_lookup] are positions of
    the crate list, and the list has its handles ordered. *)
Definition well_indexed (st : State) : Prop :=
  handles_ordered (crate_list st)
  ∧ (∀ crate_root info h,
       lookup st !! crate_root = Some info → info_index info = Some h →
       h < length (crate_list st))
  ∧ (∀ sysroot table crate_name h,
       sysroot_lookup st !! sysroot = Some table →
       table !! crate_name = Some h →
       h < length (crate_list st)).

(** The entry of [crate_root] is marked as seen. *)
Definition is_seen (crate_root : SourceFile) (st : State) : Prop :=
  ∃ info, lookup st !! crate_root = Some info ∧ seen info = true.

(** Every entry that is not marked has a target. *)
Definition unseen_have_targets (st : State) : Prop :=
  ∀ crate_root info,
    lookup st !! crate_root = Some info → seen info = false →
    targets info ≠ [].

(** The pair that the last loop of [AddCrate] records for the neighbour
    [dep], if it records one. *)
Definition recorded_edge (crate_root : SourceFile) (st : State)
    (crate : Crate) (dep : SourceFile) : option (CrateIndex * string) :=
  if decide (dep = crate_root) then None
  else
    info ← lookup st !! dep;
    idx ← info_index info;
    dep_crate ← (crate_list st ++ [crate]) !! idx;
    Some (idx, name dep_crate).

(** The crate roots of [lookup] that are not marked as seen. *)
Definition unseen (st : State) : gset SourceFile :=
  dom (filter (λ entry, seen entry.2 = false) (lookup st)).

(** The crate list that a run hands to the writer, if it gets that far. *)
Definition finished_crates (run : outcome State) : option (list Crate) :=
  match run with
  | Ok st => Some (crate_list st)
  | _ => None
  end.

End Construction.

(** ** The writer *)

(** What [WriteCrates] sends to the stream, one chunk for every operand of
    [<<]: [Lit] for a string literal of the source (adjacent literals and
    [NEWLINE] are one literal, as for the compiler), [Val] for a value taken
    from the crate list.  The text written is the concatenation of the
    chunks. *)
Inductive Chunk :=
  | Lit (s : string)
  | Val (s : string).

Global Instance Chunk_eq_dec : EqDecision Chunk.
Proof. solve_decision. Defined.

Definition chunk_text (c : Chunk) : string :=
  match c with Lit s | Val s => s end.

Definition stream_text (out : list Chunk) : string :=
  foldr (λ c text, chunk_text c +:+ text) "" out.

(** The double quote and the two line ends. *)
Definition dq : string := String (ascii_of_nat 34) "".
Definition LF : string := String (ascii_of_nat 10) "".
Definition CRLF : string := String (ascii_of_nat 13) LF.

(** How often the chunk [c] was sent. *)
Definition occurrences (c : Chunk) (out : list Chunk) : nat :=
  length (filter (λ x, x = c) out).

(** A loop of the writer that puts [sep] before every item but the first;
    [first] plays the flag [first_crate], [first_arg], ... *)
Fixpoint separated {A} (sep : list Chunk) (item : A → list Chunk)
    (first : bool) (l : list A) : list Chunk :=
  match l with
  | [] => []
  | x :: l' =>
      (if first then [] else sep) ++ item x ++ separated sep item false l'
  end.

Section Writer.
Context {helpers : Helpers}.

Definition NEWLINE : string := if OS_WINDOWS then CRLF else LF.

(** The literals that open an element of [crates] and the keys [cfg], [env]
    and [is_proc_macro]. *)
Definition crate_open : Chunk := Lit ("    {" +:+ NEWLINE).
Definition cfg_open : Chunk := Lit ("      " +:+ dq +:+ "cfg" +:+ dq +:+ ": [").
Definition env_open : Chunk := Lit ("      " +:+ dq +:+ "env" +:+ dq +:+ ": {").
Definition is_proc_macro_line : Chunk :=
  Lit ("      " +:+ dq +:+ "is_proc_macro" +:+ dq +:+ ": true," +:+ NEWLINE).

Definition write_gen_dir (build_settings : BuildSettings) (crate : Crate)
    : list Chunk :=
  match gen_dir crate with
  | Some gen_dir =>
      let gen_dir_path :=
        GetFullPath_dir build_settings (AsSourceDir build_settings gen_dir) in
      [Lit ("," +:+ NEWLINE); Lit ("               " +:+ dq);
       Val gen_dir_path; Lit (dq +:+ NEWLINE)]
  | None => [Lit NEWLINE]
  end.

Definition write_target (crate : Crate) : list Chunk :=
  match CompilerTarget crate with
  | Some compiler_target =>
      [Lit ("      " +:+ dq +:+ "target" +:+ dq +:+ ": " +:+ dq);
       Val compiler_target; Lit (dq +:+ "," +:+ NEWLINE)]
  | None => []
  end.

Definition write_compiler_args (crate : Crate) : list Chunk :=
  match CompilerArgs crate with
  | [] => []
  | compiler_args =>
      [Lit ("      " +:+ dq +:+ "compiler_args" +:+ dq +:+ ": [")] ++
      separated [Lit ", "]
        (λ arg, [Lit dq; Val (EscapeJSONString arg); Lit dq])
        true compiler_args ++
      [Lit "],"; Lit NEWLINE]
  end.

Definition write_deps (crate : Crate) : list Chunk :=
  [Lit ("      " +:+ dq +:+ "deps" +:+ dq +:+ ": [")] ++
  separated [Lit ","]
    (λ dep : CrateIndex * string,
       [Lit NEWLINE; Lit ("        {" +:+ NEWLINE);
        Lit ("          " +:+ dq +:+ "crate" +:+ dq +:+ ": ");
        Val (pretty dep.1); Lit ("," +:+ NEWLINE);
        Lit ("          " +:+ dq +:+ "name" +:+ dq +:+ ": " +:+ dq);
        Val dep.2; Lit (dq +:+ NEWLINE); Lit "        }"])
    true (dependencies crate) ++
  [Lit (NEWLINE +:+ "      ]," +:+ NEWLINE)].

Definition write_proc_macro (build_settings : BuildSettings) (crate : Crate)
    : list Chunk :=
  match proc_macro_path crate with
  | Some proc_macro_target =>
      let so_location :=
        GetFullPath_file build_settings
          (AsSourceFile build_settings proc_macro_target) in
      [is_proc_macro_line;
       Lit ("      " +:+ dq +:+ "proc_macro_dylib_path" +:+ dq +:+ ": " +:+ dq);
       Val so_location; Lit (dq +:+ "," +:+ NEWLINE)]
  | None => []
  end.

Definition write_cfg (crate : Crate) : list Chunk :=
  [cfg_open] ++
  separated [Lit ","]
    (λ cfg, [Lit NEWLINE; Lit ("        " +:+ dq);
             Val (EscapeJSONString cfg); Lit dq])
    true (configs crate) ++
  [Lit NEWLINE; Lit "      ]"].

Definition write_env (crate : Crate) : list Chunk :=
  if rustenv_is_empty (crate_rustenv crate) then [Lit NEWLINE]
  else
    [Lit ("," +:+ NEWLINE); env_open] ++
    separated [Lit ","]
      (λ env : string * string,
         [Lit NEWLINE; Lit ("        " +:+ dq);
          Val (EscapeJSONString env.1); Lit (dq +:+ ": " +:+ dq);
          Val (EscapeJSONString env.2); Lit dq])
      true (rustenv_entries (crate_rustenv crate)) ++
    [Lit NEWLINE; Lit ("      }" +:+ NEWLINE)].

(** The body of the loop over the crates, after the separating comma. *)
Definition write_crate (build_settings : BuildSettings) (crate : Crate)
    : list Chunk :=
  let crate_module := GetFullPath_file build_settings (root crate) in
  [Lit NEWLINE; crate_open;
   Lit ("      " +:+ dq +:+ "crate_id" +:+ dq +:+ ": ");
   Val (pretty (index crate)); Lit ("," +:+ NEWLINE);
   Lit ("      " +:+ dq +:+ "root_module" +:+ dq +:+ ": " +:+ dq);
   Val crate_module; Lit (dq +:+ "," +:+ NEWLINE);
   Lit ("      " +:+ dq +:+ "label" +:+ dq +:+ ": " +:+ dq);
   Val (label crate); Lit (dq +:+ "," +:+ NEWLINE);
   Lit ("      " +:+ dq +:+ "source" +:+ dq +:+ ": {" +:+ NEWLINE);
   Lit ("          " +:+ dq +:+ "include_dirs" +:+ dq +:+ ": [" +:+ NEWLINE);
   Lit ("               " +:+ dq);
   Val (GetFullPath_dir build_settings (GetDir (root crate)));
   Lit dq] ++
  write_gen_dir build_settings crate ++
  [Lit ("          ]," +:+ NEWLINE);
   Lit ("          " +:+ dq +:+ "exclude_dirs" +:+ dq +:+ ": []" +:+ NEWLINE);
   Lit ("      }," +:+ NEWLINE)] ++
  write_target crate ++
  write_compiler_args crate ++
  write_deps crate ++
  [Lit ("      " +:+ dq +:+ "edition" +:+ dq +:+ ": " +:+ dq);
   Val (edition crate); Lit (dq +:+ "," +:+ NEWLINE)] ++
  write_proc_macro build_settings crate ++
  write_cfg crate ++
  write_env crate ++
  [Lit "    }"].

(** [WriteCrates]. *)
Definition WriteCrates (build_settings : BuildSettings)
    (crate_list : list Crate) : list Chunk :=
  [Lit ("{" +:+ NEWLINE); Lit ("  " +:+ dq +:+ "crates" +:+ dq +:+ ": [")] ++
  separated [Lit ","] (write_crate build_settings) true crate_list ++
  [Lit (NEWLINE +:+ "  ]" +:+ NEWLINE); Lit ("}" +:+ NEWLINE)].

(** [RenderJSON]: the text sent to [rust_project]. *)
Definition RenderJSON (build_settings : BuildSettings)
    (default_toolchain : Label) (all_targets : list Target)
    (order : list SourceFile) : outcome string :=
  st ← BuildCrateList build_settings default_toolchain all_targets order;
  Ok (stream_text (WriteCrates build_settings (crate_list st))).

End Writer.

(** ** Sample inputs *)

(** One choice of the collaborators, used for the examples: paths are used
    as they are, nothing is escaped, the environment container is a map in
    which a name keeps its first value, and the [Crate] constructor takes
    over the vector it is given. *)
Definition sample_helpers : Helpers :=
  {| make_SourceFile := id;
     GetDir := id;
     EscapeJSONString := id;
     kRsToolMacro := "rust_macro";
     OS_WINDOWS := false;
     RustEnv := gmap string string;
     rustenv_new := ∅;
     rustenv_add := emplace;
     rustenv_is_empty := λ env, bool_decide (env = ∅);
     rustenv_entries := map_to_list;
     moved_from := λ _, [] |}.

Definition sample_settings : BuildSettings :=
  {| build_dir_full_path := "/root/out/";
     GetFullPath_file := id;
     GetFullPath_dir := id;
     AsSourceDir := id;
     AsSourceFile := id |}.

(** A Rust library target. *)
Definition rust_library (label toolchain root : string) (is_testonly : bool)
    (deps : list Target) : Target :=
  {| label_name := label; toolchain_label := toolchain;
     testonly := is_testonly; output_type := RUST_LIBRARY;
     rust_source_used := true; crate_root := root; crate_name := label;
     config_rustflags := []; rustenv := []; tool_name := "rust_rlib";
     tool_sysroot := ""; computed_outputs := []; gen_dir_of := "gen/";
     linked_deps := deps |}.

(** A group target. *)
Definition group (label : string) (deps : list Target) : Target :=
  {| label_name := label; toolchain_label := "//tc:default";
     testonly := false; output_type := GROUP;
     rust_source_used := false; crate_root := ""; crate_name := "";
     config_rustflags := []; rustenv := []; tool_name := "";
     tool_sysroot := ""; computed_outputs := []; gen_dir_of := "";
     linked_deps := deps |}.

(** Three candidates for one crate root: a test-only one and a plain one in
    the default toolchain, and one in another toolchain. *)
Definition sample_candidates : TargetsVector :=
  [rust_library "//a:a_test" "//tc:default" "//a/lib.rs" true [];
   rust_library "//a:a" "//tc:default" "//a/lib.rs" false [];
   rust_library "//a:a(//tc:host)" "//tc:host" "//a/lib.rs" false []].

(** A crate that depends on a group holding two Rust libraries, one of
    which has a Rust dependency of its own, and on a nested group. *)
Definition sample_grouped : Target :=
  rust_library "//app:app" "//tc:default" "//app/main.rs" false
    [group "//g:g"
       [rust_library "//x:x" "//tc:default" "//x/lib.rs" false
          [rust_library "//z:z" "//tc:default" "//z/lib.rs" false []];
        rust_library "//y:y" "//tc:default" "//y/lib.rs" false []];
     group "//h:h"
       [group "//h:inner"
          [rust_library "//x:x" "//tc:default" "//x/lib.rs" false []]]].

(** A library whose flags carry the target triple in the prefixed form. *)
Definition sample_prefix_target : Target :=
  {| label_name := "//a:a"; toolchain_label := "//tc:default";
     testonly := false; output_type := RUST_LIBRARY;
     rust_source_used := true; crate_root := "//a/lib.rs";
     crate_name := "a";
     config_rustflags := [["--target=x86_64-unknown-fuchsia"]];
     rustenv := []; tool_name := "rust_rlib"; tool_sysroot := "";
     computed_outputs := []; gen_dir_of := "gen/"; linked_deps := [] |}.

(** A library and its test, both built from [//a/lib.rs], where the test
    depends on a helper crate that depends on the library: the crate of
    [//a/lib.rs] and the crate of [//h/lib.rs] depend on each other. *)
Definition sample_lib : Target :=
  rust_library "//a:a" "//tc:default" "//a/lib.rs" false [].

Definition sample_helper : Target :=
  rust_library "//h:h" "//tc:default" "//h/lib.rs" false [sample_lib].

Definition sample_test : Target :=
  rust_library "//a:a_test" "//tc:default" "//a/lib.rs" true [sample_helper].

Definition sample_cycle : list Target :=
  [sample_lib; sample_helper; sample_test].

(** A library with environment entries and a sysroot. *)
Definition sample_env_target : Target :=
  {| label_name := "//e:e"; toolchain_label := "//tc:default";
     testonly := false; output_type := RUST_LIBRARY;
     rust_source_used := true; crate_root := "//e/lib.rs";
     crate_name := "e";
     config_rustflags := [["--edition=2018"; "--target"; "wasm32"]];
     rustenv := [" KEY = some value "; "A=b=c"; "NOVALUE"];
     tool_name := "rust_rlib"; tool_sysroot := "sysroot";
     computed_outputs := []; gen_dir_of := "gen/"; linked_deps := [] |}.

(** The state in which the second loop of [RenderJSON] starts. *)
Definition start_state `{Helpers} (all_targets : list Target) : State :=
  {| lookup := collect_crates all_targets; sysroot_lookup := ∅;
     crate_list := [] |}.

(** Two records as the writer may receive them: one without environment
    entries and artifact, one with both. *)
Definition sample_plain_crate `{Helpers} : Crate :=
  AddConfigItem "test" (new_Crate "//a/lib.rs" [] None 0 "a" "//a:a" "2018").

Definition sample_macro_crate `{Helpers} : Crate :=
  SetIsProcMacro "obj/m/libm.so"
    (AddRustenv "KEY" "value"
       (new_Crate "//m/lib.rs" [] None 1 "m" "//m:m" "2018")).

(** A proc-macro crate with a sysroot, flags and an output; an application
    in the same sysroot that depends on it through a group; and the test of
    the application, in another toolchain. *)
Definition sample_macro : Target :=
  {| label_name := "//m:m"; toolchain_label := "//tc:default";
     testonly := false; output_type := RUST_PROC_MACRO;
     rust_source_used := true; crate_root := "//m/lib.rs";
     crate_name := "m";
     config_rustflags :=
       [["--cfg=feature=x"; "--edition"; "2021"]; ["--cfg=nightly"]];
     rustenv := []; tool_name := "rust_macro"; tool_sysroot := "sysroot";
     computed_outputs := ["obj/m/libm.so"; "obj/m/libm.d"];
     gen_dir_of := "gen/m/"; linked_deps := [] |}.

Definition sample_app : Target :=
  {| label_name := "//app:app"; toolchain_label := "//tc:default";
     testonly := false; output_type := EXECUTABLE;
     rust_source_used := true; crate_root := "//app/main.rs";
     crate_name := "app";
     config_rustflags := [["--edition"; "2015"; "--edition=2018"]];
     rustenv := []; tool_name := "rust_bin"; tool_sysroot := "sysroot";
     computed_outputs := ["app"]; gen_dir_of := "gen/app/";
     linked_deps := [group "//g:g" [sample_macro]] |}.

Definition sample_app_test : Target :=
  {| label_name := "//app:app_test(//tc:host)"; toolchain_label := "//tc:host";
     testonly := true; output_type := EXECUTABLE;
     rust_source_used := true; crate_root := "//app/main.rs";
     crate_name := "app_test";
     config_rustflags := [["--cfg=test_only"]];
     rustenv := []; tool_name := "rust_bin"; tool_sysroot := "";
     computed_outputs := []; gen_dir_of := "gen/app_test/";
     linked_deps := [sample_lib] |}.

Definition sample_project : list Target :=
  [sample_app; group "//g:g" [sample_macro]; sample_macro; sample_app_test].

(** A library that depends on a generated target: the dependency has
    sources of the language but is not a binary target. *)
Definition sample_generated : Target :=
  {| label_name := "//gen:gen"; toolchain_label := "//tc:default";
     testonly := false; output_type := ACTION;
     rust_source_used := true; crate_root := "//gen/lib.rs";
     crate_name := "gen"; config_rustflags := []; rustenv := [];
     tool_name := ""; tool_sysroot := ""; computed_outputs := [];
     gen_dir_of := "gen/gen/"; linked_deps := [] |}.

Definition sample_user : Target :=
  rust_library "//u:u" "//tc:default" "//u/lib.rs" false [sample_generated].

(** ** Further descriptions of the construction *)

Section RecordDescriptions.
Context {helpers : Helpers}.

(** The [--cfg=] values that the second configuration loop of [AddCrate]
    adds: those of the targets in the toolchain of the main target. *)
Definition target_configs (main_target : Target)
    (all_targets : TargetsVector) : list string :=
  flat_map
    (λ target,
       if decide (toolchain_label target ≠ toolchain_label main_target)
       then []
       else FindAllArgValuesAfterPrefix "--cfg="
              (ExtractCompilerArgs target))
    all_targets.

(** The names of the sysroot crates that [AddCrate] links a record to. *)
Definition linked_sysroot_crates (main_target : Target) : list string :=
  ["core"; "alloc"; "std"]
  ++ (if decide (tool_name main_target = kRsToolMacro)
      then ["proc_macro"] else []).

(** The pairs that the block of the sysroot dependencies adds, read from
    the table of the sysroot. *)
Definition sysroot_edges (main_target : Target)
    (table : SysrootCrateIndexMap) : list (CrateIndex * string) :=
  omap (λ crate_name, (λ idx, (idx, crate_name)) <$> table !! crate_name)
       (linked_sysroot_crates main_target).

(** The artifact that the proc-macro block records. *)
Definition proc_macro_output (main_target : Target) : option OutputFile :=
  if decide (tool_name main_target = kRsToolMacro)
  then head (computed_outputs main_target)
  else None.

(** The record that [AddCrate] appends for [crate_root], given its main
    target, the targets of its entry, its index and its edges. *)
Definition crate_record (crate_root : SourceFile) (main_target : Target)
    (all_targets : TargetsVector) (crate_index : CrateIndex)
    (edges : list (CrateIndex * string)) : Crate :=
  {| root := crate_root;
     crate_targets := all_targets;
     gen_dir := Some (gen_dir_of main_target);
     index := crate_index;
     name := crate_name main_target;
     label := label_name main_target;
     edition := edition_of (ExtractCompilerArgs main_target);
     configs :=
       ["test"; "debug_assertions"]
       ++ FindAllArgValuesAfterPrefix "--cfg="
            (ExtractCompilerArgs main_target)
       ++ target_configs main_target (moved_from all_targets);
     dependencies := edges;
     CompilerTarget :=
       FindArgValue "--target" (ExtractCompilerArgs main_target);
     CompilerArgs := ExtractCompilerArgs main_target;
     proc_macro_path := proc_macro_output main_target;
     crate_rustenv := rustenv_of (rustenv main_target) rustenv_new |}.

(** The edges of the record that [AddCrate] appends for [crate_root], in
    the state [st] reached after the neighbours were visited: those of the
    sysroot, then those of the neighbours that have a handle. *)
Definition record_edges (crate_root : SourceFile) (main_target : Target)
    (all_targets : TargetsVector) (st : State)
    : list (CrateIndex * string) :=
  (if decide (tool_sysroot main_target ≠ "")
   then sysroot_edges main_target
          (default ∅ (sysroot_lookup st !! tool_sysroot main_target))
   else [])
  ++ omap (recorded_edge crate_root
             (assign_index crate_root (length (crate_list st)) st)
             (crate_record crate_root main_target all_targets
                (length (crate_list st)) []))
          (gather_crate_deps main_target all_targets).

(** The state in which [AddCrate] returns, from the state [st] reached
    after the neighbours were visited. *)
Definition appended (crate_root : SourceFile) (main_target : Target)
    (all_targets : TargetsVector) (st : State) : State :=
  {| lookup :=
       lookup (assign_index crate_root (length (crate_list st)) st);
     sysroot_lookup := sysroot_lookup st;
     crate_list :=
       crate_list st
       ++ [crate_record crate_root main_target all_targets
             (length (crate_list st))
             (record_edges crate_root main_target all_targets st)] |}.

(** Every table of [sysroot_lookup] is the table of a synthesized sysroot
    whose eight records are in the crate list. *)
Definition sysroots_synthesized (build_settings : BuildSettings)
    (st : State) : Prop :=
  ∀ sysroot table,
    sysroot_lookup st !! sysroot = Some table →
    ∃ n, table = synthesized_table n
         ∧ ∀ k crate,
             synthesized_crates build_settings sysroot n !! k = Some crate →
             crate_list st !! (n + k) = Some crate.

(** The registry and the crate list agree: a handle kept in [lookup] is the
    position of a record with that root, every record made for a crate root
    (one with a generated-sources directory) is the one its root's entry
    points to, and an entry that is not marked has no handle. *)
Definition registry_consistent (st : State) : Prop :=
  (∀ crate_root info h,
     lookup st !! crate_root = Some info → info_index info = Some h →
     ∃ crate, crate_list st !! h = Some crate ∧ root crate = crate_root
              ∧ is_Some (gen_dir crate))
  ∧ (∀ i crate,
       crate_list st !! i = Some crate → is_Some (gen_dir crate) →
       ∃ info, lookup st !! root crate = Some info
               ∧ info_index info = Some i)
  ∧ (∀ crate_root info,
       lookup st !! crate_root = Some info → seen info = false →
       info_index info = None).

(** The entry of [crate_root] is marked and has no handle yet: its record
    is under construction. *)
Definition in_progress (crate_root : SourceFile) (st : State) : Prop :=
  ∃ info, lookup st !! crate_root = Some info ∧ seen info = true
          ∧ info_index info = None.

(** A record of the crate list is one of the eight records of a synthesized
    sysroot, or the record of a crate as [crate_record] describes it, with
    the main target that [PreferredTarget] picks among the targets the
    record keeps. *)
Definition record_described (build_settings : BuildSettings)
    (default_toolchain : Label) (crate : Crate) : Prop :=
  (gen_dir crate = None
   ∧ ∃ sysroot n, crate ∈ synthesized_crates build_settings sysroot n)
  ∨ (∃ main_target,
       PreferredTarget default_toolchain (crate_targets crate)
       = Some main_target
       ∧ crate = crate_record (root crate) main_target (crate_targets crate)
                   (index crate) (dependencies crate)).

(** Every record of the crate list is described. *)
Definition records_described (build_settings : BuildSettings)
    (default_toolchain : Label) (st : State) : Prop :=
  ∀ crate, crate ∈ crate_list st →
    record_described build_settings default_toolchain crate.

(** The registry has the keys that the first loop of [RenderJSON] collected,
    an entry that is not marked is still the collected one, and a record
    made for a crate root keeps the targets collected for its root. *)
Definition entries_original (all_targets : list Target) (st : State)
    : Prop :=
  (∀ crate_root,
     is_Some (lookup st !! crate_root)
     ↔ is_Some (collect_crates all_targets !! crate_root))
  ∧ (∀ crate_root info,
       lookup st !! crate_root = Some info → seen info = false →
       collect_crates all_targets !! crate_root = Some info)
  ∧ (∀ crate,
       crate ∈ crate_list st → is_Some (gen_dir crate) →
       ∃ info, collect_crates all_targets !! root crate = Some info
               ∧ crate_targets crate = targets info).

(** The edge [(h, dep_name)] of [crate] points to a record of [crates] with
    that name.  A record of a sysroot is linked to records of sysroots
    only; a record of a crate root is linked to a record of the sysroot of
    its main target, under one of the names [AddCrate] asks for, or to the
    record of a neighbour of the crate. *)
Definition edge_explained (build_settings : BuildSettings)
    (default_toolchain : Label) (crates : list Crate) (crate : Crate)
    (h : CrateIndex) (dep_name : string) : Prop :=
  ∃ dep,
    crates !! h = Some dep ∧ name dep = dep_name
    ∧ (gen_dir crate = None → gen_dir dep = None)
    ∧ (∀ main_target,
         is_Some (gen_dir crate) →
         PreferredTarget default_toolchain (crate_targets crate)
         = Some main_target →
         match gen_dir dep with
         | None =>
             tool_sysroot main_target ≠ ""
             ∧ dep_name ∈ linked_sysroot_crates main_target
             ∧ root dep
               = make_SourceFile
                   (sysroot_crate_path build_settings
                      (tool_sysroot main_target) dep_name)
         | Some _ =>
             root dep ∈ gather_crate_deps main_target (crate_targets crate)
             ∧ root dep ≠ root crate
         end).

Definition edges_explained (build_settings : BuildSettings)
    (default_toolchain : Label) (st : State) : Prop :=
  ∀ crate h dep_name,
    crate ∈ crate_list st → (h, dep_name) ∈ dependencies crate →
    edge_explained build_settings default_toolchain (crate_list st)
                   crate h dep_name.

(** The edges of a record of a crate root begin with those of the sysroot
    of its main target, read from the table of that sysroot; the edges
    after them point to records of crate roots. *)
Definition sysroot_linked (default_toolchain : Label) (st : State) : Prop :=
  ∀ crate main_target,
    crate ∈ crate_list st → is_Some (gen_dir crate) →
    PreferredTarget default_toolchain (crate_targets crate)
    = Some main_target →
    ∃ table rest,
      dependencies crate
      = (if decide (tool_sysroot main_target ≠ "")
         then sysroot_edges main_target table else []) ++ rest
      ∧ (tool_sysroot main_target ≠ "" →
         sysroot_lookup st !! tool_sysroot main_target = Some table)
      ∧ ∀ h dep_name,
          (h, dep_name) ∈ rest →
          ∃ dep, crate_list st !! h = Some dep ∧ is_Some (gen_dir dep).

(** Every neighbour of a record of a crate root is marked in the registry,
    and if it has a handle below the handle of the record, the record has
    an edge to it. *)
Definition neighbours_linked (default_toolchain : Label) (st : State)
    : Prop :=
  ∀ crate main_target neighbour,
    crate ∈ crate_list st → is_Some (gen_dir crate) →
    PreferredTarget default_toolchain (crate_targets crate)
    = Some main_target →
    neighbour ∈ gather_crate_deps main_target (crate_targets crate) →
    neighbour ≠ root crate →
    ∃ info,
      lookup st !! neighbour = Some info ∧ seen info = true
      ∧ ∀ j, info_index info = Some j → j < index crate →
             ∃ dep, crate_list st !! j = Some dep
                    ∧ (j, name dep) ∈ dependencies crate.

(** The indices, the registry and the sysroot tables fit the crate list. *)
Definition well_formed (build_settings : BuildSettings) (st : State)
    : Prop :=
  well_indexed st ∧ registry_consistent st
  ∧ sysroots_synthesized build_settings st.

(** What holds of the registry, the sysroot tables and the crate list all
    along the construction. *)
Definition coherent (build_settings : BuildSettings)
    (default_toolchain : Label) (all_targets : list Target) (st : State)
    : Prop :=
  records_described build_settings default_toolchain st
  ∧ entries_original all_targets st
  ∧ edges_explained build_settings default_toolchain st
  ∧ sysroot_linked default_toolchain st
  ∧ neighbours_linked default_toolchain st.

(** The values among the chunks sent to the stream, in the order in which
    they are sent. *)
Definition values (out : list Chunk) : list string :=
  omap (λ chunk, match chunk with Val s => Some s | Lit _ => None end) out.

(** The roots that the targets in the toolchain of the main target reach,
    in the order of the walk. *)
Definition same_toolchain_deps (main_target : Target)
    (all_targets : list Target) : list SourceFile :=
  flat_map (λ target,
              if decide (toolchain_label target ≠ toolchain_label main_target)
              then [] else direct_rust_deps target)
           all_targets.

(** The state is well formed, its entries that are not marked have targets,
    and they are the collected ones. *)
Definition safe (build_settings : BuildSettings)
    (all_targets : list Target) (st : State) : Prop :=
  well_formed build_settings st ∧ unseen_have_targets st
  ∧ entries_original all_targets st.

(** Every neighbour of a collected crate root has an entry of its own: the
    roots that [AddCrate] asks [lookup.at] for are keys of the registry. *)
Definition neighbours_registered (default_toolchain : Label)
    (all_targets : list Target) : Prop :=
  ∀ crate_root info main_target neighbour,
    collect_crates all_targets !! crate_root = Some info →
    PreferredTarget default_toolchain (targets info) = Some main_target →
    neighbour ∈ gather_crate_deps main_target (targets info) →
    neighbour ≠ crate_root →
    is_Some (collect_crates all_targets !! neighbour).

(** The crate roots of [lookup] that have a handle. *)
Definition indexed (st : State) : gset SourceFile :=
  dom (filter (λ entry, is_Some (info_index entry.2)) (lookup st)).

(** The length of the crate list: eight records for every sysroot table and
    one for every crate root that has a handle. *)
Definition crates_counted (st : State) : Prop :=
  length (crate_list st)
  = 8 * size (sysroot_lookup st) + size (indexed st).

(** Every sysroot that has a table is not empty and is the sysroot of the
    main target of a collected crate root that is marked. *)
Definition sysroots_used (default_toolchain : Label)
    (all_targets : list Target) (st : State) : Prop :=
  ∀ sysroot,
    is_Some (sysroot_lookup st !! sysroot) →
    sysroot ≠ ""
    ∧ ∃ crate_root info main_target,
        collect_crates all_targets !! crate_root = Some info
        ∧ PreferredTarget default_toolchain (targets info)
          = Some main_target
        ∧ tool_sysroot main_target = sysroot
        ∧ is_seen crate_root st.

(** Two records agree in everything but their handle and their edges. *)
Definition same_but_handles (crate other : Crate) : Prop :=
  root crate = root other
  ∧ crate_targets crate = crate_targets other
  ∧ gen_dir crate = gen_dir other
  ∧ name crate = name other
  ∧ label crate = label other
  ∧ edition crate = edition other
  ∧ configs crate = configs other
  ∧ CompilerTarget crate = CompilerTarget other
  ∧ CompilerArgs crate = CompilerArgs other
  ∧ proc_macro_path crate = proc_macro_path other
  ∧ crate_rustenv crate = crate_rustenv other.

(** No record has two edges with the same handle. *)
Definition edges_distinct (st : State) : Prop :=
  ∀ crate, crate ∈ crate_list st → NoDup (dependencies crate).*1.

(** [neighbours_registered] as a test that can be run. *)
Definition neighbours_registered_check (default_toolchain : Label)
    (all_targets : list Target) : bool :=
  forallb
    (λ entry : SourceFile * CrateInfo,
       match PreferredTarget default_toolchain (targets entry.2) with
       | Some main_target =>
           forallb
             (λ neighbour,
                bool_decide (neighbour = entry.1)
                || bool_decide
                     (is_Some (collect_crates all_targets !! neighbour)))
             (gather_crate_deps main_target (targets entry.2))
       | None => true
       end)
    (map_to_list (collect_crates all_targets)).

End RecordDescriptions.

(** * Reading the manifest

    The manifest is a JSON text that another program reads.  What its
    [crates] array holds and which keys an element has is a matter of how
    a JSON reader takes the text.  The reader below is not code of the
    writer; it says what a text is read as, for the part of JSON the
    writer uses: objects, arrays, strings with the two-character escapes,
    natural numbers and the three literals.  With it, statements about
    the manifest are statements about the text that is written. *)

Module Manifest.

Inductive json :=
  | JNull
  | JBool (b : bool)
  | JNumber (n : nat)
  | JString (s : string)
  | JArray (items : list json)
  | JObject (members : list (string * json)).

Definition quote : ascii := ascii_of_nat 34.
Definition backslash : ascii := ascii_of_nat 92.

(** Space, line feed, carriage return and tab. *)
Definition is_space (c : ascii) : bool :=
  Ascii.eqb c " " || Ascii.eqb c (ascii_of_nat 10)
  || Ascii.eqb c (ascii_of_nat 13) || Ascii.eqb c (ascii_of_nat 9).

Definition is_digit (c : ascii) : bool :=
  (48 <=? nat_of_ascii c) && (nat_of_ascii c <=? 57).

Fixpoint skip_space (s : string) : string :=
  match s with
  | String c rest => if is_space c then skip_space rest else s
  | EmptyString => s
  end.

(** The character that stands after a backslash, and the one it means. *)
Definition unescape (c : ascii) : option ascii :=
  if Ascii.eqb c quote then Some quote
  else if Ascii.eqb c backslash then Some backslash
  else if Ascii.eqb c "/" then Some "/"%char
  else if Ascii.eqb c "b" then Some (ascii_of_nat 8)
  else if Ascii.eqb c "f" then Some (ascii_of_nat 12)
  else if Ascii.eqb c "n" then Some (ascii_of_nat 10)
  else if Ascii.eqb c "r" then Some (ascii_of_nat 13)
  else if Ascii.eqb c "t" then Some (ascii_of_nat 9)
  else None.

(** A string, read from behind its opening double quote up to the first
    double quote that no backslash protects: the text of the string and
    what follows it. *)
Fixpoint read_string (s : string) : option (string * string) :=
  match s with
  | EmptyString => None
  | String c rest =>
      if Ascii.eqb c quote then Some (EmptyString, rest)
      else if Ascii.eqb c backslash then
        match rest with
        | String e rest' =>
            d ← unescape e;
            '(text, rest'') ← read_string rest';
            Some (String d text, rest'')
        | EmptyString => None
        end
      else
        '(text, rest') ← read_string rest;
        Some (String c text, rest')
  end.

Fixpoint read_digits (acc : nat) (s : string) : nat * string :=
  match s with
  | String c rest =>
      if is_digit c
      then read_digits (10 * acc + (nat_of_ascii c - 48)) rest
      else (acc, s)
  | EmptyString => (acc, s)
  end.

(** [s] without the [word] it starts with. *)
Fixpoint strip (word s : string) : option string :=
  match word, s with
  | EmptyString, _ => Some s
  | String a word', String b s' =>
      if Ascii.eqb a b then strip word' s' else None
  | _, _ => None
  end.

(** A value, the items of an array after its bracket and the members of an
    object after its brace.  Of two calls, one after the other, at least
    one takes a character off the text, so twice the length of the text is
    enough [fuel]. *)
Fixpoint read_value (fuel : nat) (s : string) : option (json * string) :=
  match fuel with
  | 0 => None
  | S fuel =>
      match skip_space s with
      | String c rest =>
          if Ascii.eqb c "{" then
            match skip_space rest with
            | String c' rest' =>
                if Ascii.eqb c' "}" then Some (JObject [], rest')
                else '(members, rest'') ← read_members fuel rest;
                     Some (JObject members, rest'')
            | EmptyString => None
            end
          else if Ascii.eqb c "[" then
            match skip_space rest with
            | String c' rest' =>
                if Ascii.eqb c' "]" then Some (JArray [], rest')
                else '(items, rest'') ← read_items fuel rest;
                     Some (JArray items, rest'')
            | EmptyString => None
            end
          else if Ascii.eqb c quote then
            '(text, rest') ← read_string rest; Some (JString text, rest')
          else if is_digit c then
            let '(n, rest') := read_digits 0 (String c rest) in
            Some (JNumber n, rest')
          else
            match strip "true" (String c rest) with
            | Some rest' => Some (JBool true, rest')
            | None =>
                match strip "false" (String c rest) with
                | Some rest' => Some (JBool false, rest')
                | None =>
                    rest' ← strip "null" (String c rest); Some (JNull, rest')
                end
            end
      | EmptyString => None
      end
  end
with read_items (fuel : nat) (s : string) : option (list json * string) :=
  match fuel with
  | 0 => None
  | S fuel =>
      '(item, rest) ← read_value fuel s;
      match skip_space rest with
      | String c rest' =>
          if Ascii.eqb c "," then
            '(items, rest'') ← read_items fuel rest';
            Some (item :: items, rest'')
          else if Ascii.eqb c "]" then Some ([item], rest')
          else None
      | EmptyString => None
      end
  end
with read_members (fuel : nat) (s : string)
    : option (list (string * json) * string) :=
  match fuel with
  | 0 => None
  | S fuel =>
      match skip_space s with
      | String c rest =>
          if Ascii.eqb c quote then
            '(key, rest1) ← read_string rest;
            match skip_space rest1 with
            | String c1 rest2 =>
                if Ascii.eqb c1 ":" then
                  '(value, rest3) ← read_value fuel rest2;
                  match skip_space rest3 with
                  | String c3 rest4 =>
                      if Ascii.eqb c3 "," then
                        '(members, rest5) ← read_members fuel rest4;
                        Some ((key, value) :: members, rest5)
                      else if Ascii.eqb c3 "}"
                      then Some ([(key, value)], rest4)
                      else None
                  | EmptyString => None
                  end
                else None
            | EmptyString => None
            end
          else None
      | EmptyString => None
      end
  end.

(** The value that a text is, if it is one value and white space. *)
Definition parse (text : string) : option json :=
  '(value, rest) ← read_value (2 * String.length text + 1) text;
  match skip_space rest with
  | EmptyString => Some value
  | String _ _ => None
  end.

Definition keys (value : json) : list string :=
  match value with
  | JObject members => members.*1
  | _ => []
  end.

Definition member (key : string) (value : json) : option json :=
  match value with
  | JObject members =>
      snd <$> head (filter (λ m : string * json, m.1 = key) members)
  | _ => None
  end.

Definition items (value : json) : option (list json) :=
  match value with
  | JArray values => Some values
  | _ => None
  end.

(** The elements of the [crates] array of a manifest. *)
Definition crates (text : string) : option (list json) :=
  manifest ← parse text; array ← member "crates" manifest; items array.

(** A text without double quote and backslash. *)
Fixpoint plain (s : string) : bool :=
  match s with
  | EmptyString => true
  | String c rest =>
      negb (Ascii.eqb c quote) && negb (Ascii.eqb c backslash) && plain rest
  end.

(** [text] is the body of a string that the reader takes for [v],
    whatever follows the closing double quote. *)
Definition string_body (text v : string) : Prop :=
  ∀ rest, read_string (text +:+ String quote rest) = Some (v, rest).

(** With enough fuel the reader takes a value, the items of an array or
    the members of an object off [s] and leaves [rest]. *)
Definition reads_value (s : string) (v : json) (rest : string) : Prop :=
  ∃ fuel, read_value fuel s = Some (v, rest).

Definition reads_items (s : string) (vs : list json) (rest : string)
    : Prop :=
  ∃ fuel, read_items fuel s = Some (vs, rest).

Definition reads_members (s : string) (ms : list (string * json))
    (rest : string) : Prop :=
  ∃ fuel, read_members fuel s = Some (ms, rest).

End Manifest.

(** ** The manifest of a crate list

    The value that the format of the manifest gives for a record: the
    members in their order, with the optional ones left out when the record
    has nothing for them. *)

Section ManifestOfRecords.
Context {helpers : Helpers}.
Variable build_settings : BuildSettings.










(** What [EscapeJSONString] gives is the body of a string that is read
    back as the text that was escaped. *)
Definition escape_reads_back : Prop :=
  ∀ s, Manifest.string_body (EscapeJSONString s) s.


End ManifestOfRecords.

(** The keys of every element of [crates] in the manifest that a run of
    [RenderJSON] writes, and what every element has under [key]. *)
Definition manifest_keys (run : outcome string)
    : option (list (list string)) :=
  match run with
  | Ok text => option_map (map Manifest.keys) (Manifest.crates text)
  | _ => None
  end.

Definition manifest_members (key : string) (run : outcome string)
    : option (list (option Manifest.json)) :=
  match run with
  | Ok text => option_map (map (Manifest.member key)) (Manifest.crates text)
  | _ => None
  end.

(** ** A library whose flags carry JSON

    A choice of the collaborators that escapes: [EscapeJSONString] puts a
    backslash before a double quote and before a backslash.  The rest is
    as in [sample_helpers]. *)
Fixpoint escape_quotes (s : string) : string :=
  match s with
  | EmptyString => EmptyString
  | String c rest =>
      if Ascii.eqb c Manifest.quote || Ascii.eqb c Manifest.backslash
      then String Manifest.backslash (String c (escape_quotes rest))
      else String c (escape_quotes rest)
  end.

Definition escaping_helpers : Helpers :=
  {| make_SourceFile := id;
     GetDir := id;
     EscapeJSONString := escape_quotes;
     kRsToolMacro := "rust_macro";
     OS_WINDOWS := false;
     RustEnv := gmap string string;
     rustenv_new := ∅;
     rustenv_add := emplace;
     rustenv_is_empty := λ env, bool_decide (env = ∅);
     rustenv_entries := map_to_list;
     moved_from := λ _, [] |}.

(** A text that closes the string it is written in after [2018] and goes
    on with the members [is_proc_macro], [env] and [x], the last one up to
    the double quote that opens its value. *)
Definition injected_keys : string :=
  "2018" +:+ dq +:+ ", " +:+ dq +:+ "is_proc_macro" +:+ dq +:+ ": true, "
  +:+ dq +:+ "env" +:+ dq +:+ ": {}, " +:+ dq +:+ "x" +:+ dq +:+ ": " +:+ dq.

(** A library without environment entries, built by the tool for plain
    libraries, with one flag. *)
Definition flagged_library (flag : string) : Target :=
  {| label_name := "//a:a"; toolchain_label := "//tc:default";
     testonly := false; output_type := RUST_LIBRARY;
     rust_source_used := true; crate_root := "//a/lib.rs";
     crate_name := "a";
     config_rustflags := [[flag]];
     rustenv := []; tool_name := "rust_rlib"; tool_sysroot := "";
     computed_outputs := []; gen_dir_of := "gen/"; linked_deps := [] |}.



(** * Bundle file rules

    A shallow embedding of [tools/gn/bundle_file_rule.cc]: the expansion of
    a substitution pattern for a source file of a [bundle_data] target. *)

Module BundleFileRule.

(** [SubstitutionType], as far as [ApplyPatternToSource] tells its values
    apart: the six that its [switch] names, and [SUBSTITUTION_OTHER] for
    every value that takes the [default] branch. *)
Inductive SubstitutionType :=
  | SUBSTITUTION_LITERAL
  | SUBSTITUTION_BUNDLE_ROOT_DIR
  | SUBSTITUTION_BUNDLE_CONTENTS_DIR
  | SUBSTITUTION_BUNDLE_RESOURCES_DIR
  | SUBSTITUTION_BUNDLE_EXECUTABLE_DIR
  | SUBSTITUTION_BUNDLE_PLUGINS_DIR
  | SUBSTITUTION_OTHER (code : nat).

(** [SubstitutionPattern::Subrange]. *)
Record Subrange := mkSubrange {
  type : SubstitutionType;
  literal : string
}.

(** What the rule reads of a [SourceDir]: [value()] and [is_null()]. *)
Record SourceDir := mkSourceDir {
  value : string;
  is_null : bool
}.

(** What the rule reads of a [BundleData]. *)
Record BundleData := mkBundleData {
  root_dir : SourceDir;
  contents_dir : SourceDir;
  resources_dir : SourceDir;
  executable_dir : SourceDir;
  plugins_dir : SourceDir
}.

(** Functions, constants and types that the rule uses and that are
    declared outside the sources; they are taken as parameters.
    - [ParseNode]             : what [Target::defined_from] points to
    - [kBundleRootDir], ...   : the names in [variables::]
    - [GetSourceSubstitution] : [SubstitutionWriter::GetSourceSubstitution]
      for the target of the rule and its settings, with [OUTPUT_ABSOLUTE]
      and an empty [SourceDir]
    - [make_OutputFile]       : the constructor
      [OutputFile(settings->build_settings(), source_file)] *)
Class Collaborators := {
  ParseNode : Type;
  kBundleRootDir : string;
  kBundleContentsDir : string;
  kBundleResourcesDir : string;
  kBundleExecutableDir : string;
  kBundlePlugInsDir : string;
  GetSourceSubstitution : SourceFile → SubstitutionType → string;
  make_OutputFile : SourceFile → OutputFile
}.

(** [Err], with the three arguments of the constructor that is used. *)
Record Err {collaborators : Collaborators} := mkErr {
  location : ParseNode;
  message : string;
  help_text : string
}.

Section Rule.
Context {collaborators : Collaborators}.

(** [ErrMissingPropertyForExpansion]; [defined_from] is
    [target->defined_from()], and [bundle_data_target_label] the visible
    name of the label of the rule's target that the function computes from
    the settings. *)
Definition ErrMissingPropertyForExpansion (defined_from : ParseNode)
    (bundle_data_target_label property_name : string) : Err :=
  {| location := defined_from;
     message := "Property " +:+ property_name +:+ " is required.";
     help_text :=
       "In order to expand {{" +:+ property_name +:+ "}} in " +:+
       bundle_data_target_label +:+
       ", the property needs to be defined in the create_bundle target." |}.

(** The loop of [ApplyPatternToSource], from the ranges that are left and
    the path built so far: [inl] is [return false] with [*err] set, [inr]
    the path when the loop ends. *)
Fixpoint expand_ranges (defined_from : ParseNode)
    (bundle_data_target_label : string) (bundle_data : BundleData)
    (source_file : SourceFile) (ranges : list Subrange)
    (output_path : string) : Err + string :=
  match ranges with
  | [] => inr output_path
  | subrange :: rest =>
      let continue_with (piece : string) :=
        expand_ranges defined_from bundle_data_target_label bundle_data
                      source_file rest (output_path +:+ piece) in
      let missing (property_name : string) : Err + string :=
        inl (ErrMissingPropertyForExpansion defined_from
               bundle_data_target_label property_name) in
      match type subrange with
      | SUBSTITUTION_LITERAL => continue_with (literal subrange)
      | SUBSTITUTION_BUNDLE_ROOT_DIR =>
          if is_null (contents_dir bundle_data)
          then missing kBundleRootDir
          else continue_with (value (root_dir bundle_data))
      | SUBSTITUTION_BUNDLE_CONTENTS_DIR =>
          if is_null (contents_dir bundle_data)
          then missing kBundleContentsDir
          else continue_with (value (contents_dir bundle_data))
      | SUBSTITUTION_BUNDLE_RESOURCES_DIR =>
          if is_null (resources_dir bundle_data)
          then missing kBundleResourcesDir
          else continue_with (value (resources_dir bundle_data))
      | SUBSTITUTION_BUNDLE_EXECUTABLE_DIR =>
          if is_null (executable_dir bundle_data)
          then missing kBundleExecutableDir
          else continue_with (value (executable_dir bundle_data))
      | SUBSTITUTION_BUNDLE_PLUGINS_DIR =>
          if is_null (contents_dir bundle_data)
          then missing kBundlePlugInsDir
          else continue_with (value (plugins_dir bundle_data))
      | SUBSTITUTION_OTHER _ =>
          continue_with (GetSourceSubstitution source_file (type subrange))
      end
  end.

(** [BundleFileRule::ApplyPatternToSource] for a rule with the pattern
    [pattern]; the result is the path swapped into the [SourceFile]. *)
Definition ApplyPatternToSource (pattern : list Subrange)
    (defined_from : ParseNode) (bundle_data_target_label : string)
    (bundle_data : BundleData) (source_file : SourceFile)
    : Err + SourceFile :=
  expand_ranges defined_from bundle_data_target_label bundle_data
                source_file pattern "".

(** [BundleFileRule::ApplyPatternToSourceAsOutputFile]. *)
Definition ApplyPatternToSourceAsOutputFile (pattern : list Subrange)
    (defined_from : ParseNode) (bundle_data_target_label : string)
    (bundle_data : BundleData) (source_file : SourceFile)
    : Err + OutputFile :=
  match ApplyPatternToSource pattern defined_from bundle_data_target_label
                             bundle_data source_file with
  | inl err => inl err
  | inr expanded_source_file => inr (make_OutputFile expanded_source_file)
  end.

(** The directory whose [is_null] decides whether a range of the type can
    be expanded, and the name of the property reported when it cannot. *)
Definition tested_dir (bundle_data : BundleData) (t : SubstitutionType)
    : option (SourceDir * string) :=
  match t with
  | SUBSTITUTION_BUNDLE_ROOT_DIR =>
      Some (contents_dir bundle_data, kBundleRootDir)
  | SUBSTITUTION_BUNDLE_CONTENTS_DIR =>
      Some (contents_dir bundle_data, kBundleContentsDir)
  | SUBSTITUTION_BUNDLE_RESOURCES_DIR =>
      Some (resources_dir bundle_data, kBundleResourcesDir)
  | SUBSTITUTION_BUNDLE_EXECUTABLE_DIR =>
      Some (executable_dir bundle_data, kBundleExecutableDir)
  | SUBSTITUTION_BUNDLE_PLUGINS_DIR =>
      Some (contents_dir bundle_data, kBundlePlugInsDir)
  | SUBSTITUTION_LITERAL | SUBSTITUTION_OTHER _ => None
  end.

(** A range can be expanded: the directory tested for its type, if there
    is one, is not null. *)
Definition expandable (bundle_data : BundleData) (subrange : Subrange)
    : Prop :=
  ∀ dir property_name,
    tested_dir bundle_data (type subrange) = Some (dir, property_name) →
    is_null dir = false.

(** The text that a range contributes. *)
Definition piece_of (bundle_data : BundleData) (source_file : SourceFile)
    (subrange : Subrange) : string :=
  match type subrange with
  | SUBSTITUTION_LITERAL => literal subrange
  | SUBSTITUTION_BUNDLE_ROOT_DIR => value (root_dir bundle_data)
  | SUBSTITUTION_BUNDLE_CONTENTS_DIR => value (contents_dir bundle_data)
  | SUBSTITUTION_BUNDLE_RESOURCES_DIR => value (resources_dir bundle_data)
  | SUBSTITUTION_BUNDLE_EXECUTABLE_DIR =>
      value (executable_dir bundle_data)
  | SUBSTITUTION_BUNDLE_PLUGINS_DIR => value (plugins_dir bundle_data)
  | SUBSTITUTION_OTHER _ =>
      GetSourceSubstitution source_file (type subrange)
  end.

(** The pieces of a list of ranges, one after the other. *)
Definition pieces_of (bundle_data : BundleData) (source_file : SourceFile)
    (ranges : list Subrange) : string :=
  foldr (λ subrange text, piece_of bundle_data source_file subrange +:+ text)
        "" ranges.

End Rule.

(** One choice of the collaborators, and a bundle that has a contents
    directory but neither a resources nor a plug-ins directory. *)
Definition sample_collaborators : Collaborators :=
  {| ParseNode := string;
     kBundleRootDir := "bundle_root_dir";
     kBundleContentsDir := "bundle_contents_dir";
     kBundleResourcesDir := "bundle_resources_dir";
     kBundleExecutableDir := "bundle_executable_dir";
     kBundlePlugInsDir := "bundle_plugins_dir";
     GetSourceSubstitution := λ source_file _, source_file;
     make_OutputFile := id |}.

Definition sample_bundle : BundleData :=
  {| root_dir := {| value := "//out/App.app/"; is_null := false |};
     contents_dir :=
       {| value := "//out/App.app/Contents/"; is_null := false |};
     resources_dir := {| value := ""; is_null := true |};
     executable_dir :=
       {| value := "//out/App.app/Contents/MacOS/"; is_null := false |};
     plugins_dir := {| value := ""; is_null := true |} |}.

End BundleFileRule.

(** * Names of the ninja files

    A shallow embedding of [src/gn/ninja_utils.cc]. *)

Module NinjaUtils.

(** What [GetNinjaRulePrefixForToolchain] reads of a [Settings]:
    [is_default()] and [toolchain_label().name()]. *)
Record Settings := mkSettings {
  is_default : bool;
  toolchain_label_name : string
}.

(** [GetNinjaFileForTarget]; [obj_dir] is the value of
    [GetBuildDirForTargetAsSourceDir(target, BuildDirType::OBJ)] and
    [label_name] is [target->label().name()].  The result is made by the
    constructor [SourceFile(std::string)]. *)
Definition GetNinjaFileForTarget `{Helpers} (obj_dir label_name : string)
    : SourceFile :=
  make_SourceFile ((obj_dir +:+ label_name) +:+ ".ninja").

(** [GetNinjaFileForToolchain]; [toolchain_root] is the value of
    [GetBuildDirAsSourceDir(BuildDirContext(settings), TOOLCHAIN_ROOT)]. *)
Definition GetNinjaFileForToolchain `{Helpers} (toolchain_root : string)
    : SourceFile :=
  make_SourceFile (toolchain_root +:+ "toolchain.ninja").

(** [GetNinjaRulePrefixForToolchain]. *)
Definition GetNinjaRulePrefixForToolchain (settings : Settings) : string :=
  if is_default settings then ""
  else toolchain_label_name settings +:+ "_".

End NinjaUtils.
(** * Theorems *)

(** ** Preferred target *)

Section PreferredTargetFacts.
Variable default_toolchain : Label.

Local Abbreviation sc := (score default_toolchain).
Local Abbreviation lt_score :=
  (λ lhs rhs : Target, bool_decide (sc lhs < sc rhs)).

Lemma max_element_from_spec (largest : Target) (rest : list Target) :
  ∃ i, (largest :: rest) !! i = Some (max_element_from lt_score largest rest)
     ∧ (∀ t, t ∈ largest :: rest →
            sc t ≤ sc (max_element_from lt_score largest rest))
     ∧ (∀ j t, j < i → (largest :: rest) !! j = Some t →
            sc t < sc (max_element_from lt_score largest rest)).
Proof.
  revert largest. induction rest as [|x rest IH]; intros largest.
  - exists 0. split; [done|]. split.
    + intros t Ht. apply list_elem_of_singleton in Ht as ->. done.
    + intros j t Hj. lia.
  - cbn [max_element_from]. case_bool_decide as Hlt.
    + destruct (IH x) as (i & Hi & Hmax & Hbefore).
      assert (sc x ≤ sc (max_element_from lt_score x rest)) as Hx
        by (apply Hmax; left).
      exists (S i). split; [done|]. split.
      * intros t Ht. apply elem_of_cons in Ht as [->|Ht]; [lia|by apply Hmax].
      * intros [|j] t Hj Ht; simplify_eq/=; [lia|].
        apply (Hbefore j); [lia|done].
    + destruct (IH largest) as (i & Hi & Hmax & Hbefore).
      assert (sc largest ≤ sc (max_element_from lt_score largest rest)) as Hl
        by (apply Hmax; left).
      destruct i as [|i].
      * exists 0. split; [done|]. split; [|intros; lia].
        intros t Ht. apply elem_of_cons in Ht as [->|Ht]; [done|].
        apply elem_of_cons in Ht as [->|Ht]; [lia|].
        apply Hmax. by right.
      * exists (S (S i)). split; [done|]. split.
        -- intros t Ht. apply elem_of_cons in Ht as [->|Ht]; [done|].
           apply elem_of_cons in Ht as [->|Ht]; [lia|].
           apply Hmax. by right.
        -- intros [|[|j]] t Hj Ht; simplify_eq/=.
           ++ apply (Hbefore 0); [lia|done].
           ++ assert (sc largest < sc (max_element_from lt_score largest rest))
                by (apply (Hbefore 0); [lia|done]).
              lia.
           ++ apply (Hbefore (S j)); [lia|done].
Qed.

Lemma score_default (t : Target) :
  2 ≤ sc t ↔ toolchain_label t = default_toolchain.
Proof. unfold score. destruct (decide _), (testonly t); split; (done || lia). Qed.

Lemma score_bound (t : Target) : sc t ≤ 3.
Proof. unfold score. destruct (decide _), (testonly t); simpl; lia. Qed.

Lemma score_all (t : Target) :
  sc t = 3 ↔ toolchain_label t = default_toolchain ∧ testonly t = false.
Proof.
  unfold score. destruct (decide _), (testonly t); simpl; split;
    first [lia | done | intros [??]; done].
Qed.

Lemma score_not_testonly (t : Target) :
  toolchain_label t ≠ default_toolchain →
  (1 ≤ sc t ↔ testonly t = false).
Proof.
  unfold score. destruct (decide _), (testonly t); split;
    (done || lia).
Qed.

(** C4.  For a candidate set that is not empty, [PreferredTarget] returns a
    member whose score (2 for the default toolchain plus 1 for not being
    test-only) is maximal, and the first such member in the order of the
    set.  Hence a candidate of the default toolchain wins over the others, a
    candidate of the default toolchain that is not test-only wins over all
    others, and among candidates outside the default toolchain one that is
    not test-only wins. *)
Theorem PreferredTarget_first_maximal (targets : TargetsVector) :
  targets ≠ [] →
  ∃ i main_target,
    PreferredTarget default_toolchain targets = Some main_target
    ∧ targets !! i = Some main_target
    ∧ (∀ t, sc t = (if decide (toolchain_label t = default_toolchain)
                    then 2 else 0) + (if testonly t then 0 else 1))
    ∧ (∀ t, t ∈ targets → sc t ≤ sc main_target)
    ∧ (∀ j t, j < i → targets !! j = Some t → sc t < sc main_target)
    ∧ ((∃ t, t ∈ targets ∧ toolchain_label t = default_toolchain) →
         toolchain_label main_target = default_toolchain)
    ∧ ((∃ t, t ∈ targets ∧ toolchain_label t = default_toolchain
             ∧ testonly t = false) →
         toolchain_label main_target = default_toolchain
         ∧ testonly main_target = false)
    ∧ ((∀ t, t ∈ targets → toolchain_label t ≠ default_toolchain) →
       (∃ t, t ∈ targets ∧ testonly t = false) →
         testonly main_target = false).
Proof.
  intros Hne. destruct targets as [|first rest]; [done|].
  destruct (max_element_from_spec first rest) as (i & Hi & Hmax & Hbefore).
  exists i, (max_element_from lt_score first rest).
  assert (max_element_from lt_score first rest ∈ first :: rest) as Hin
    by (eapply list_elem_of_lookup_2; done).
  split_and!; try done.
  - intros (t & Ht & Hd). apply score_default.
    assert (2 ≤ sc t) by (by apply score_default). specialize (Hmax t Ht). lia.
  - intros (t & Ht & Hd). apply score_all.
    assert (sc t = 3) as Ht3 by (by apply score_all).
    specialize (Hmax t Ht).
    pose proof (score_bound (max_element_from lt_score first rest)). lia.
  - intros Hnone (t & Ht & Hd). apply score_not_testonly; [by apply Hnone|].
    specialize (Hmax t Ht).
    assert (1 ≤ sc t) by (by apply score_not_testonly; [apply Hnone|]). lia.
Qed.

End PreferredTargetFacts.



(** ** Compiler arguments *)

Lemma FindArgValue_Some (arg : string) (args : list string) (v : string) :
  FindArgValue arg args = Some v ↔
  ∃ i, args !! i = Some arg ∧ args !! S i = Some v
       ∧ ∀ j, j < i → args !! j ≠ Some arg.
Proof.
  induction args as [|previous rest IH]; cbn [FindArgValue].
  - split; [done|]. intros (i & Hi & _). by rewrite lookup_nil in Hi.
  - destruct rest as [|current rest'].
    + cbn [FindArgValue]. split; [done|].
      intros ([|i] & Hi & Hv & _); simplify_eq/=.
    + destruct (decide (previous = arg)) as [->|Hne].
      * split.
        -- intros [= <-]. exists 0. split_and!; [done..|]. intros; lia.
        -- intros ([|i] & Hi & Hv & Hfirst); simplify_eq/=; [done|].
           exfalso. apply (Hfirst 0); [lia|done].
      * rewrite IH. split.
        -- intros (i & Hi & Hv & Hfirst). exists (S i). split_and!; [done..|].
           intros [|j] Hj; simplify_eq/=; [congruence|].
           apply Hfirst. lia.
        -- intros ([|i] & Hi & Hv & Hfirst); simplify_eq/=.
           exists i. split_and!; [done..|].
           intros j Hj. apply (Hfirst (S j)). lia.
Qed.

Lemma FindArgValue_None (arg : string) (args : list string) :
  FindArgValue arg args = None ↔
  ∀ i, args !! i = Some arg → args !! S i = None.
Proof.
  induction args as [|previous rest IH]; cbn [FindArgValue].
  - split; [|done]. intros _ i. by rewrite lookup_nil.
  - destruct rest as [|current rest'].
    + cbn [FindArgValue]. split; [|done]. intros _ [|i]; by simplify_eq/=.
    + destruct (decide (previous = arg)) as [->|Hne].
      * split; [done|]. intros Hall. by specialize (Hall 0 eq_refl).
      * rewrite IH. split.
        -- intros Hall [|i] Hi; simplify_eq/=. by apply Hall.
        -- intros Hall i Hi. by apply (Hall (S i)).
Qed.



(** ** Dependency flattening *)

Lemma Target_nested_ind (P : Target → Prop) :
  (∀ t, Forall P (linked_deps t) → P t) → ∀ t, P t.
Proof.
  intros step. fix IH 1. intros t. apply step.
  destruct t as [? ? ? ? ? ? ? ? ? ? ? ? ? deps]. cbn [linked_deps].
  induction deps as [|dep deps IHdeps]; constructor; [apply IH | exact IHdeps].
Qed.

Lemma GetRustDeps_unfold (target : Target) (rust_deps : DependencySet) :
  GetRustDeps target rust_deps
  = GetRustDeps_loop (linked_deps target) rust_deps.
Proof.
  destruct target as [? ? ? ? ? ? ? ? ? ? ? ? ? deps].
  cbn [GetRustDeps linked_deps]. revert rust_deps.
  induction deps as [|dep deps IH]; intros rust_deps; [done|].
  cbn [GetRustDeps_loop].
  destruct (rust_source_used dep); [apply IH|].
  destruct (decide (output_type dep = GROUP)); apply IH.
Qed.

Lemma direct_rust_deps_unfold (target : Target) :
  direct_rust_deps target = direct_rust_deps_walk (linked_deps target).
Proof.
  destruct target as [? ? ? ? ? ? ? ? ? ? ? ? ? deps].
  cbn [direct_rust_deps linked_deps].
  induction deps as [|dep deps IH]; [done|].
  cbn [direct_rust_deps_walk]. by rewrite <- IH.
Qed.

Lemma push_back_all_app (v : DependencySet) (l1 l2 : list SourceFile) :
  push_back_all v (l1 ++ l2) = push_back_all (push_back_all v l1) l2.
Proof. apply foldl_app. Qed.

Lemma GetRustDeps_push_back_all (target : Target) :
  ∀ rust_deps,
    GetRustDeps target rust_deps
    = push_back_all rust_deps (direct_rust_deps target).
Proof.
  induction target as [target IH] using Target_nested_ind.
  intros rust_deps.
  rewrite GetRustDeps_unfold, direct_rust_deps_unfold.
  revert rust_deps.
  induction IH as [|dep deps Hdep _ IHdeps]; intros rust_deps; [done|].
  cbn [GetRustDeps_loop direct_rust_deps_walk].
  rewrite push_back_all_app.
  destruct (rust_source_used dep); [by rewrite IHdeps|].
  destruct (decide (output_type dep = GROUP)); rewrite IHdeps; [|done].
  by rewrite Hdep.
Qed.

Lemma elem_of_direct_rust_deps_walk (deps : list Target) (r : SourceFile) :
  r ∈ direct_rust_deps_walk deps ↔
  ∃ dep, dep ∈ deps
         ∧ ((rust_source_used dep = true ∧ r = crate_root dep)
            ∨ (rust_source_used dep = false ∧ output_type dep = GROUP
               ∧ r ∈ direct_rust_deps dep)).
Proof.
  induction deps as [|dep deps IH]; cbn [direct_rust_deps_walk].
  - split; [by intros ?%elem_of_nil|]. by intros (? & ?%elem_of_nil & _).
  - rewrite elem_of_app, IH. split.
    + intros [Hhere|(dep' & Hin & Hcase)].
      * exists dep. split; [left|].
        destruct (rust_source_used dep).
        -- left. by apply list_elem_of_singleton in Hhere.
        -- right. destruct (decide (output_type dep = GROUP)); [done|].
           by apply elem_of_nil in Hhere.
      * exists dep'. split; [by right|done].
    + intros (dep' & Hin & Hcase). apply elem_of_cons in Hin as [->|Hin].
      * left. destruct Hcase as [[-> ->]|(-> & Hg & Hr)].
        -- by apply list_elem_of_singleton.
        -- by rewrite decide_True.
      * right. by exists dep'.
Qed.

Lemma elem_of_direct_rust_deps (target : Target) (r : SourceFile) :
  r ∈ direct_rust_deps target ↔ reaches target r.
Proof.
  split.
  - revert r. induction target as [target IH] using Target_nested_ind.
    intros r. rewrite direct_rust_deps_unfold, elem_of_direct_rust_deps_walk.
    intros (dep & Hin & [[Hrust ->]|(Hrust & Hgroup & Hr)]).
    + by apply reaches_rust.
    + apply (reaches_group _ dep); [done..|].
      rewrite Forall_forall in IH. by apply IH.
  - induction 1 as [target dep Hin Hrust|target dep r Hin Hrust Hgroup _ IH];
      rewrite direct_rust_deps_unfold, elem_of_direct_rust_deps_walk;
      exists dep; split; auto.
Qed.

Lemma elem_of_push_back (x r : SourceFile) (v : DependencySet) :
  r ∈ push_back x v ↔ r ∈ v ∨ r = x.
Proof.
  unfold push_back. destruct (decide (x ∈ v)).
  - split; [by left|]. by intros [?| ->].
  - rewrite elem_of_app, list_elem_of_singleton. done.
Qed.

Lemma elem_of_push_back_all (v : DependencySet) (l : list SourceFile)
    (r : SourceFile) :
  r ∈ push_back_all v l ↔ r ∈ v ∨ r ∈ l.
Proof.
  revert v. induction l as [|x l IH]; intros v; cbn.
  - split; [by left|]. by intros [?|?%elem_of_nil].
  - unfold push_back_all in IH. rewrite IH, elem_of_push_back, elem_of_cons.
    naive_solver.
Qed.

Lemma NoDup_push_back (x : SourceFile) (v : DependencySet) :
  NoDup v → NoDup (push_back x v).
Proof.
  intros Hv. unfold push_back. destruct (decide (x ∈ v)); [done|].
  apply NoDup_app. split_and!; [done| |apply NoDup_singleton].
  intros y Hy ->%list_elem_of_singleton. done.
Qed.

Lemma NoDup_push_back_all (v : DependencySet) (l : list SourceFile) :
  NoDup v → NoDup (push_back_all v l).
Proof.
  revert v. induction l as [|x l IH]; intros v Hv; [done|].
  apply IH. by apply NoDup_push_back.
Qed.

Lemma prefix_push_back_all (v : DependencySet) (l : list SourceFile) :
  v `prefix_of` push_back_all v l.
Proof.
  revert v. induction l as [|x l IH]; intros v; [done|].
  cbn. etrans; [|apply IH].
  unfold push_back. destruct (decide (x ∈ v)); [done|]. by apply prefix_app_r.
Qed.

(** C6.  [GetRustDeps] pushes, in the order of the walk, the crate root of
    every link dependency that uses the language, and for a dependency that
    is a group without such sources whatever the walk of that group yields,
    to any depth; nothing is taken from below a dependency that uses the
    language, and a group contributes no root of its own.  The roots in the
    result are the ones already there and the ones reached through groups;
    what was there stays in front, and no root is entered twice. *)
Theorem GetRustDeps_flattens_groups (target : Target)
    (rust_deps : DependencySet) :
  GetRustDeps target rust_deps
  = push_back_all rust_deps (direct_rust_deps target)
  ∧ (∀ r, r ∈ GetRustDeps target rust_deps ↔
          r ∈ rust_deps ∨ reaches target r)
  ∧ rust_deps `prefix_of` GetRustDeps target rust_deps
  ∧ (NoDup rust_deps → NoDup (GetRustDeps target rust_deps)).
Proof.
  rewrite GetRustDeps_push_back_all. split_and!.
  - done.
  - intros r. by rewrite elem_of_push_back_all, elem_of_direct_rust_deps.
  - apply prefix_push_back_all.
  - apply NoDup_push_back_all.
Qed.

(** ** Sysroot crates *)

Section SysrootFacts.
Context {helpers : Helpers}.
Variable bs : BuildSettings.
Variable s : string.

Lemma add_sysroot_deps_present (deps : list string) (m : gmap string nat) (c : Crate) :
  (∀ dep, dep ∈ deps → is_Some (m !! dep)) →
  add_sysroot_deps deps (m, c)
  = (m, foldl (λ c dep, AddDependency (default 0 (m !! dep)) dep c) c deps).
Proof.
  revert c. induction deps as [|dep deps IH]; intros c Hall; [done|].
  cbn. destruct (Hall dep) as [i Hi]; [left|].
  unfold subscript. rewrite Hi. cbn. 
  unfold add_sysroot_deps in IH. rewrite IH; [done|].
  intros d Hd. apply Hall. by right.
Qed.

Lemma AddSysrootCrate_present fuel crate m cl i :
  m !! crate = Some i →
  AddSysrootCrate (S fuel) bs crate s (m, cl) = Some (m, cl).
Proof. intros Hm. cbn. rewrite decide_True; [done|]. by eexists. Qed.

Lemma AddSysrootCrate_leaf fuel crate (m : gmap string nat) cl :
  m !! crate = None → sysroot_deps_map !! crate = None →
  AddSysrootCrate (S fuel) bs crate s (m, cl)
  = Some (<[crate := length cl]> m, cl ++ [sysroot_crate_record bs s (length cl) crate []]).
Proof.
  intros Hm Hd. cbn [AddSysrootCrate fst]. rewrite decide_False; [|rewrite Hm; by intros [??]].
  rewrite Hd. cbn. unfold emplace. rewrite Hm. done.
Qed.

Lemma foldl_AddDependency (f : string → nat) (deps : list string) (c : Crate) :
  foldl (λ c dep, AddDependency (f dep) dep c) c deps
  = {| root := root c; crate_targets := crate_targets c; gen_dir := gen_dir c;
       index := index c; name := name c; label := label c;
       edition := edition c; configs := configs c;
       dependencies := dependencies c ++ ((λ dep, (f dep, dep)) <$> deps);
       CompilerTarget := CompilerTarget c; CompilerArgs := CompilerArgs c;
       proc_macro_path := proc_macro_path c;
       crate_rustenv := crate_rustenv c |}.
Proof.
  revert c. induction deps as [|dep deps IH]; intros c.
  - cbn. rewrite app_nil_r. by destruct c.
  - cbn [foldl]. rewrite IH. cbn. by rewrite <- app_assoc.
Qed.

Lemma AddSysrootCrate_node fuel crate deps (m m1 : gmap string nat) cl cl1 :
  m !! crate = None → sysroot_deps_map !! crate = Some deps →
  for_each_opt (λ st dep, AddSysrootCrate fuel bs dep s st) (m, cl) deps = Some (m1, cl1) →
  m1 !! crate = None →
  (∀ dep, dep ∈ deps → is_Some (m1 !! dep)) →
  AddSysrootCrate (S fuel) bs crate s (m, cl)
  = Some (<[crate := length cl1]> m1,
          cl1 ++ [sysroot_crate_record bs s (length cl1) crate
                    ((λ dep, (default 0 (m1 !! dep), dep)) <$> deps)]).
Proof.
  intros Hm Hd Hdeps Hm1 Hall. cbn [AddSysrootCrate fst].
  rewrite decide_False; [|rewrite Hm; by intros [??]].
  rewrite Hd, Hdeps. cbn [mbind option_bind]. unfold emplace. rewrite Hm1.
  rewrite add_sysroot_deps_present.
  - rewrite foldl_AddDependency. cbn.
    assert (((λ dep, (default 0 (<[crate:=length cl1]> m1 !! dep), dep)) <$> deps)
            = ((λ dep, (default 0 (m1 !! dep), dep)) <$> deps)) as ->; [|done].
    apply list_fmap_ext. intros i dep Hdep.
    rewrite lookup_insert_ne; [done|]. intros ->.
    destruct (Hall dep) as [? ?]; [by eapply list_elem_of_lookup_2|]. congruence.
  - intros dep Hdep. rewrite lookup_insert_ne; [by apply Hall|]. intros ->.
    destruct (Hall dep) as [? ?]; [done|]. congruence.
Qed.

Lemma AddSysrootCrate_leaf_at n fuel crate (m : gmap string nat) cl :
  m !! crate = None → sysroot_deps_map !! crate = None → length cl = n →
  AddSysrootCrate (S fuel) bs crate s (m, cl)
  = Some (<[crate := n]> m, cl ++ [sysroot_crate_record bs s n crate []]).
Proof. intros ?? <-. by apply AddSysrootCrate_leaf. Qed.

Lemma AddSysrootCrate_node_at n fuel crate deps (m m1 : gmap string nat) cl cl1 :
  m !! crate = None → sysroot_deps_map !! crate = Some deps →
  for_each_opt (λ st dep, AddSysrootCrate fuel bs dep s st) (m, cl) deps = Some (m1, cl1) →
  m1 !! crate = None →
  (∀ dep, dep ∈ deps → is_Some (m1 !! dep)) →
  length cl1 = n →
  AddSysrootCrate (S fuel) bs crate s (m, cl)
  = Some (<[crate := n]> m1,
          cl1 ++ [sysroot_crate_record bs s n crate
                    ((λ dep, (default 0 (m1 !! dep), dep)) <$> deps)]).
Proof. intros ????? <-. by apply AddSysrootCrate_node. Qed.

Local Ltac len := rewrite ?length_app; cbn [length]; lia.

Lemma AddSysrootCrate_alloc fuel cl n :
  length cl = n →
  AddSysrootCrate (S (S fuel)) bs "alloc" s (∅, cl)
  = Some (<["alloc" := n + 1]> (<["core" := n]> ∅),
          cl ++ [sysroot_crate_record bs s n "core" [];
                 sysroot_crate_record bs s (n + 1) "alloc" [(n, "core")]]).
Proof.
  intros Hn.
  rewrite (AddSysrootCrate_node_at (n + 1) _ "alloc" ["core"] ∅ (<["core" := n]> ∅) cl
             (cl ++ [sysroot_crate_record bs s n "core" []])).
  - rewrite <- app_assoc. cbn. by rewrite lookup_insert_eq.
  - done.
  - done.
  - cbn [for_each_opt]. rewrite (AddSysrootCrate_leaf_at n); done.
  - done.
  - intros dep ->%list_elem_of_singleton. by rewrite lookup_insert_eq.
  - len.
Qed.

Lemma AddSysrootCrate_std fuel cl n :
  length cl = n →
  AddSysrootCrate (S (S (S fuel))) bs "std" s (∅, cl)
  = Some (<["std" := n + 4]> (<["unwind" := n + 3]> (<["panic_abort" := n + 2]>
           (<["alloc" := n + 1]> (<["core" := n]> ∅)))),
          cl ++ take 5 (synthesized_crates bs s n)).
Proof.
  intros Hn.
  rewrite (AddSysrootCrate_node_at (n + 4) _ "std" ["alloc"; "core"; "panic_abort"; "unwind"] ∅
             (<["unwind" := n + 3]> (<["panic_abort" := n + 2]>
               (<["alloc" := n + 1]> (<["core" := n]> ∅))))
             cl (cl ++ take 4 (synthesized_crates bs s n))).
  - rewrite <- app_assoc. cbn. by simplify_map_eq.
  - done.
  - done.
  - cbn [for_each_opt]. rewrite (AddSysrootCrate_alloc _ _ n Hn). cbn [mbind option_bind].
    rewrite (AddSysrootCrate_present _ "core" _ _ n); [|by simplify_map_eq].
    cbn [mbind option_bind].
    rewrite (AddSysrootCrate_leaf_at (n + 2)); [|by simplify_map_eq|done|len].
    cbn [mbind option_bind].
    rewrite (AddSysrootCrate_leaf_at (n + 3)); [|by simplify_map_eq|done|len].
    cbn [mbind option_bind]. by rewrite <- !app_assoc.
  - by simplify_map_eq.
  - intros dep Hdep. repeat (apply elem_of_cons in Hdep as [->|Hdep]); [by simplify_map_eq..|].
    by apply elem_of_nil in Hdep.
  - cbn. len.
Qed.

Lemma AddSysrootCrate_all fuel cl n :
  length cl = n →
  for_each_opt (λ st crate, AddSysrootCrate (S (S (S fuel))) bs crate s st)
    (∅, cl) sysroot_crates
  = Some (synthesized_table n, cl ++ synthesized_crates bs s n).
Proof.
  intros Hn. unfold sysroot_crates. cbn [for_each_opt].
  rewrite (AddSysrootCrate_std _ _ n Hn). cbn [mbind option_bind].
  rewrite (AddSysrootCrate_present _ "core" _ _ n); [|by simplify_map_eq].
  cbn [mbind option_bind].
  rewrite (AddSysrootCrate_present _ "alloc" _ _ (n + 1)); [|by simplify_map_eq].
  cbn [mbind option_bind].
  rewrite (AddSysrootCrate_leaf_at (n + 5)); [|by simplify_map_eq|done|cbn; len].
  cbn [mbind option_bind].
  rewrite (AddSysrootCrate_leaf_at (n + 6)); [|by simplify_map_eq|done|cbn; len].
  cbn [mbind option_bind].
  rewrite (AddSysrootCrate_leaf_at (n + 7)); [|by simplify_map_eq|done|cbn; len].
  cbn [mbind option_bind].
  rewrite (AddSysrootCrate_present _ "panic_abort" _ _ (n + 2)); [|by simplify_map_eq].
  cbn [mbind option_bind].
  rewrite (AddSysrootCrate_present _ "unwind" _ _ (n + 3)); [|by simplify_map_eq].
  cbn [mbind option_bind]. by rewrite <- !app_assoc.
Qed.

Lemma subscript_present {V} (dflt v : V) (k : string) (m : gmap string V) :
  m !! k = Some v → subscript dflt k m = (v, m).
Proof. intros Hk. unfold subscript. by rewrite Hk. Qed.

Lemma subscript_absent {V} (dflt : V) (k : string) (m : gmap string V) :
  m !! k = None → subscript dflt k m = (dflt, <[k := dflt]> m).
Proof. intros Hk. unfold subscript. by rewrite Hk. Qed.

Local Abbreviation AddSysroot_body :=
  (λ '(sysroot_lookup, crate_list) crate,
     let '(sysroot_crate_lookup, sysroot_lookup) :=
       subscript ∅ s sysroot_lookup in
     '(sysroot_crate_lookup, crate_list) ←
       AddSysrootCrate sysroot_fuel bs crate s
                       (sysroot_crate_lookup, crate_list);
     Some (<[s := sysroot_crate_lookup]> sysroot_lookup, crate_list)).

Lemma AddSysroot_loop (crates : list string)
    (sl : gmap string (gmap string nat)) (cl : list Crate)
    (m : gmap string nat) :
  sl !! s = Some m →
  for_each_opt AddSysroot_body (sl, cl) crates
  = '(m', cl') ← for_each_opt
                   (λ st crate, AddSysrootCrate sysroot_fuel bs crate s st)
                   (m, cl) crates;
    Some (<[s := m']> sl, cl').
Proof.
  revert sl cl m. induction crates as [|crate crates IH]; intros sl cl m Hm.
  - cbn. by rewrite insert_id.
  - cbn [for_each_opt]. cbv beta iota.
    rewrite (subscript_present _ _ _ _ Hm).
    destruct (AddSysrootCrate sysroot_fuel bs crate s (m, cl))
      as [[m1 cl1]|]; cbn [mbind option_bind]; [|done].
    rewrite (IH _ _ m1); [|by rewrite lookup_insert_eq].
    destruct (for_each_opt _ (m1, cl1) crates) as [[m2 cl2]|];
      cbn [mbind option_bind]; [|done].
    by rewrite insert_insert_eq.
Qed.

Lemma AddSysroot_known (sl : gmap string (gmap string nat))
    (cl : list Crate) :
  is_Some (sl !! s) → AddSysroot bs s (sl, cl) = Some (sl, cl).
Proof. intros Hs. unfold AddSysroot. by rewrite decide_True. Qed.

Lemma AddSysroot_fresh (sl : gmap string (gmap string nat))
    (cl : list Crate) :
  sl !! s = None →
  AddSysroot bs s (sl, cl)
  = Some (<[s := synthesized_table (length cl)]> sl,
          cl ++ synthesized_crates bs s (length cl)).
Proof.
  intros Hs. unfold AddSysroot. cbn [fst].
  rewrite decide_False; [|rewrite Hs; by intros [??]].
  transitivity (for_each_opt AddSysroot_body (<[s := ∅]> sl, cl)
                             sysroot_crates).
  { unfold sysroot_crates. cbn [for_each_opt]. cbv beta iota.
    rewrite (subscript_absent _ _ _ Hs).
    by rewrite (subscript_present _ ∅ s (<[s := ∅]> sl))
      by (by rewrite lookup_insert_eq). }
  rewrite (AddSysroot_loop _ _ _ ∅); [|by rewrite lookup_insert_eq].
  change sysroot_fuel with (S (S (S 6))).
  rewrite (AddSysrootCrate_all _ _ (length cl) eq_refl).
  cbn [mbind option_bind]. by rewrite insert_insert_eq.
Qed.

(** [AddSysroot] always returns: the counter it hands to [AddSysrootCrate]
    is enough. *)
Lemma AddSysroot_total (st : gmap string (gmap string nat) * list Crate) :
  is_Some (AddSysroot bs s st).
Proof.
  destruct st as [sl cl]. destruct (sl !! s) eqn:Hs.
  - rewrite AddSysroot_known; [done|]. by rewrite Hs.
  - by rewrite AddSysroot_fresh.
Qed.

Lemma lookup_app_plus {A} (l1 l2 : list A) (k : nat) :
  (l1 ++ l2) !! (length l1 + k) = l2 !! k.
Proof.
  rewrite lookup_app_r by lia. f_equal. lia.
Qed.

(** C5.  A second request for a sysroot changes neither the table nor the
    crate list.  A first request for a path that is not in the table appends
    eight records, one for each built-in name; the record of [std] has the
    edges alloc, core, panic_abort, unwind, the record of [alloc] the edge
    core, each edge carrying the index of the record of that name, and the
    other six records have no edge. *)
Theorem AddSysroot_idempotent (sl : gmap string (gmap string nat))
    (cl : list Crate) :
  ∃ sl' cl',
    AddSysroot bs s (sl, cl) = Some (sl', cl')
    ∧ AddSysroot bs s (sl', cl') = Some (sl', cl')
    ∧ (sl !! s = None →
       ∃ core alloc panic_abort unwind std panic_unwind proc_macro test,
         cl' = cl ++ [core; alloc; panic_abort; unwind; std; panic_unwind;
                      proc_macro; test]
         ∧ name <$> [core; alloc; panic_abort; unwind; std; panic_unwind;
                     proc_macro; test]
           ≡ₚ sysroot_crates
         ∧ dependencies std
           = [(index alloc, "alloc"); (index core, "core");
              (index panic_abort, "panic_abort"); (index unwind, "unwind")]
         ∧ dependencies alloc = [(index core, "core")]
         ∧ dependencies core = []
         ∧ dependencies panic_abort = []
         ∧ dependencies unwind = []
         ∧ dependencies panic_unwind = []
         ∧ dependencies proc_macro = []
         ∧ dependencies test = []).
Proof.
  destruct (sl !! s) as [m|] eqn:Hs.
  - exists sl, cl. rewrite AddSysroot_known by (by rewrite Hs).
    split_and!; [done..|]. done.
  - eexists _, _. rewrite AddSysroot_fresh by done.
    split_and!; [done| |].
    + apply AddSysroot_known. by rewrite lookup_insert_eq.
    + intros _. unfold synthesized_crates.
      eexists _, _, _, _, _, _, _, _. split; [done|].
      split; [|by cbn].
      cbn. unfold sysroot_crates.
      apply (Permutation_trans (l' :=
               ["std"; "core"; "alloc"; "panic_abort"; "unwind";
                "panic_unwind"; "proc_macro"; "test"])).
      * symmetry. apply (Permutation_middle ["core"; "alloc"; "panic_abort"; "unwind"]).
      * do 3 constructor.
        symmetry.
        apply (Permutation_trans (l' :=
               ["panic_abort"; "unwind"; "panic_unwind"; "proc_macro"; "test"])).
        -- apply (Permutation_app_comm ["panic_unwind"; "proc_macro"; "test"]
                    ["panic_abort"; "unwind"]).
        -- done.
Qed.

(** C10.  For a path that is not in the table, [AddSysroot] appends eight
    records, named core, alloc, panic_abort, unwind, std, panic_unwind,
    proc_macro and test in this order, whose indices are the eight numbers
    from the length of the crate list on, and the table of the path maps
    each name to the index of its record. *)
Theorem AddSysroot_order (sl : gmap string (gmap string nat))
    (cl : list Crate) :
  sl !! s = None →
  ∃ sl' new table,
    AddSysroot bs s (sl, cl) = Some (sl', cl ++ new)
    ∧ length new = 8
    ∧ name <$> new
      = ["core"; "alloc"; "panic_abort"; "unwind";
         "std"; "panic_unwind"; "proc_macro"; "test"]
    ∧ index <$> new = seq (length cl) 8
    ∧ sl' !! s = Some table
    ∧ (∀ k crate, new !! k = Some crate →
         table !! name crate = Some (length cl + k)
         ∧ (cl ++ new) !! (length cl + k) = Some crate)
    ∧ dom table = list_to_set sysroot_crates.
Proof.
  intros Hs. eexists _, _, _. rewrite AddSysroot_fresh by done.
  split_and!; [done|done|done| | |  |].
  - cbn. repeat f_equal; lia.
  - by rewrite lookup_insert_eq.
  - intros k crate Hk. rewrite lookup_app_plus. split; [|done].
    unfold synthesized_crates in Hk.
    do 8 (destruct k as [|k]; [simplify_eq/=; unfold synthesized_table;
                               rewrite ?Nat.add_0_r; by simplify_map_eq|]).
    done.
  - unfold synthesized_table. rewrite !dom_insert_L, dom_empty_L. cbn.
    set_solver.
Qed.

(** C8, amended.  For a path that is not in the table, the record of every
    built-in name has as root the source file made from the full path of
    the build directory followed by the sysroot path,
    [/lib/rustlib/src/rust/library/], the name and [/src/lib.rs]; its
    edition is 2018, its only configuration flag is debug_assertions, and
    its edges are those of [sysroot_deps_map], each with the index of the
    record synthesized for that name, which is smaller than its own. *)
Theorem sysroot_crate_record_fields (sl : gmap string (gmap string nat))
    (cl : list Crate) :
  sl !! s = None →
  ∃ sl' cl' table,
    AddSysroot bs s (sl, cl) = Some (sl', cl')
    ∧ sl' !! s = Some table
    ∧ ∀ crate_name, crate_name ∈ sysroot_crates →
        ∃ h crate,
          table !! crate_name = Some h
          ∧ cl' !! h = Some crate
          ∧ length cl ≤ h
          ∧ index crate = h
          ∧ name crate = crate_name
          ∧ root crate
            = make_SourceFile
                (build_dir_full_path bs +:+ s +:+
                 "/lib/rustlib/src/rust/library/" +:+ crate_name +:+
                 "/src/lib.rs")
          ∧ edition crate = "2018"
          ∧ configs crate = ["debug_assertions"]
          ∧ dependencies crate
            = (λ dep, (default 0 (table !! dep), dep))
                <$> default [] (sysroot_deps_map !! crate_name)
          ∧ ∀ h' dep, (h', dep) ∈ dependencies crate →
              h' < h
              ∧ ∃ dep_crate, cl' !! h' = Some dep_crate
                             ∧ name dep_crate = dep
                             ∧ table !! dep = Some h'.
Proof.
  intros Hs. eexists _, _, _. rewrite AddSysroot_fresh by done.
  split; [done|]. split; [by rewrite lookup_insert_eq|].
  set (n := length cl).
  assert (∀ k, (cl ++ synthesized_crates bs s n) !! (n + k)
               = synthesized_crates bs s n !! k) as Hnew
    by (intros k; apply lookup_app_plus).
  assert (n + 0 = n) as Hn0 by lia.
  assert ((cl ++ synthesized_crates bs s n) !! n
          = synthesized_crates bs s n !! 0) as Hnew0
    by (by rewrite <- Hnew, Hn0).
  intros crate_name Hin. unfold sysroot_crates in Hin.
  repeat (apply elem_of_cons in Hin as [->|Hin]);
    [ exists (n + 4) | exists (n + 0) | exists (n + 1) | exists (n + 5)
    | exists (n + 6) | exists (n + 7) | exists (n + 2) | exists (n + 3)
    | by apply elem_of_nil in Hin ];
    (eexists; split; [unfold synthesized_table; rewrite ?Hn0;
                      by simplify_map_eq|];
     split; [rewrite Hnew; reflexivity|];
     split_and!; [lia|cbn; lia|done|done|done|done| |]).
  all: try (cbn; unfold synthesized_table; repeat f_equal;
            by simplify_map_eq).
  all: intros h' dep Hdep; cbn in Hdep;
    repeat (apply elem_of_cons in Hdep as [[= -> ->]|Hdep]);
    try (by apply elem_of_nil in Hdep).
  all: try (split; [lia|]).
  all: first [rewrite Hnew | rewrite Hnew0];
    eexists; split; [reflexivity|]; split; [done|];
    unfold synthesized_table; by simplify_map_eq.
Qed.

End SysrootFacts.

(** ** Construction of the crate list *)

Section ConstructionFacts.
Context {helpers : Helpers}.
Variable bs : BuildSettings.
Variable dt : Label.

Lemma add_edges_nil (c : Crate) : add_edges [] c = c.
Proof. destruct c. unfold add_edges. cbn. by rewrite app_nil_r. Qed.

Lemma add_edges_add_edges (e1 e2 : list (nat * string)) (c : Crate) :
  add_edges e2 (add_edges e1 c) = add_edges (e1 ++ e2) c.
Proof. unfold add_edges. cbn. by rewrite app_assoc. Qed.

Lemma AddDependency_add_edges (h : nat) (nm : string) (c : Crate) :
  AddDependency h nm c = add_edges [(h, nm)] c.
Proof. reflexivity. Qed.

Lemma keeps_edges_foldl {A} (f : Crate → A → Crate) (l : list A) :
  (∀ x, keeps_edges (λ c, f c x)) → keeps_edges (λ c, foldl f c l).
Proof.
  intros Hf. induction l as [|x l IH]; intros c; [done|].
  cbn [foldl]. destruct (IH (f c x)) as (-> & -> & -> & -> & ->). apply Hf.
Qed.

Lemma keeps_rustenv_foldl {A} (f : Crate → A → Crate) (l : list A) :
  (∀ x, keeps_rustenv (λ c, f c x)) → keeps_rustenv (λ c, foldl f c l).
Proof.
  intros Hf. induction l as [|x l IH]; intros c; [done|].
  cbn [foldl]. rewrite IH. apply Hf.
Qed.

Lemma keeps_edges_add_configs cfgs : keeps_edges (add_configs cfgs).
Proof. apply keeps_edges_foldl. intros x c. done. Qed.

Lemma keeps_rustenv_add_configs cfgs : keeps_rustenv (add_configs cfgs).
Proof. apply keeps_rustenv_foldl. intros x c. done. Qed.

Lemma keeps_edges_add_target_configs main_target all_targets :
  keeps_edges (add_target_configs main_target all_targets).
Proof.
  apply keeps_edges_foldl. intros t c. cbv beta.
  destruct (decide _); [done|]. apply keeps_edges_add_configs.
Qed.

Lemma keeps_rustenv_add_target_configs main_target all_targets :
  keeps_rustenv (add_target_configs main_target all_targets).
Proof.
  apply keeps_rustenv_foldl. intros t c. cbv beta.
  destruct (decide _); [done|]. apply keeps_rustenv_add_configs.
Qed.

Lemma keeps_edges_set_proc_macro main_target :
  keeps_edges (set_proc_macro main_target).
Proof.
  intros c. unfold set_proc_macro. destruct (decide _); [|done].
  by destruct (computed_outputs main_target).
Qed.

Lemma keeps_rustenv_set_proc_macro main_target :
  keeps_rustenv (set_proc_macro main_target).
Proof.
  intros c. unfold set_proc_macro. destruct (decide _); [|done].
  by destruct (computed_outputs main_target).
Qed.

Lemma keeps_edges_add_rustenv env_vars : keeps_edges (add_rustenv env_vars).
Proof.
  apply keeps_edges_foldl. intros e c. cbv beta.
  destruct (rustenv_entry e) as [[??]|]; done.
Qed.

Lemma crate_rustenv_add_rustenv env_vars (c : Crate) :
  crate_rustenv (add_rustenv env_vars c)
  = rustenv_of env_vars (crate_rustenv c).
Proof.
  revert c. induction env_vars as [|e env_vars IH]; intros c; [done|].
  cbn [add_rustenv rustenv_of foldl]. unfold add_rustenv, rustenv_of in IH.
  rewrite IH. by destruct (rustenv_entry e) as [[??]|].
Qed.

Lemma AddSysrootDependencyToCrate_edges (c : Crate) (table : gmap string nat) (nm : string) :
  ∃ edges, AddSysrootDependencyToCrate c table nm = add_edges edges c
           ∧ ∀ h d, (h, d) ∈ edges → table !! d = Some h.
Proof.
  unfold AddSysrootDependencyToCrate. destruct (table !! nm) as [h|] eqn:Hh.
  - exists [(h, nm)]. split; [done|]. by intros ?? [= -> ->]%list_elem_of_singleton.
  - exists []. split; [by rewrite add_edges_nil|]. by intros ?? ?%elem_of_nil.
Qed.

Lemma add_sysroot_dependencies_edges main_target s st c st' c' :
  add_sysroot_dependencies main_target s st c = (st', c') →
  lookup st' = lookup st ∧ crate_list st' = crate_list st
  ∧ (∀ s' table, sysroot_lookup st' !! s' = Some table →
        sysroot_lookup st !! s' = Some table ∨ table = ∅)
  ∧ ∃ edges, c' = add_edges edges c
      ∧ ∀ h d, (h, d) ∈ edges →
          ∃ table, sysroot_lookup st !! s = Some table ∧ table !! d = Some h.
Proof.
  unfold add_sysroot_dependencies. destruct (decide (s ≠ "")) as [Hs|Hs].
  2:{ intros [= <- <-]. split_and!; [done|done|by left|].
      exists []. split; [by rewrite add_edges_nil|]. by intros ?? ?%elem_of_nil. }
  destruct (sysroot_lookup st !! s) as [table|] eqn:Htable.
  - rewrite (subscript_present _ _ _ _ Htable).
    destruct (AddSysrootDependencyToCrate_edges c table "core") as (e1 & -> & He1).
    destruct (AddSysrootDependencyToCrate_edges (add_edges e1 c) table "alloc") as (e2 & -> & He2).
    destruct (AddSysrootDependencyToCrate_edges (add_edges e2 (add_edges e1 c)) table "std") as (e3 & -> & He3).
    destruct (decide (tool_name main_target = kRsToolMacro)).
    + destruct (AddSysrootDependencyToCrate_edges (add_edges e3 (add_edges e2 (add_edges e1 c))) table "proc_macro") as (e4 & -> & He4).
      intros [= <- <-]. cbn. split_and!; [done|done|by left|].
      rewrite !add_edges_add_edges. eexists. split; [done|].
      intros h d Hin. exists table. split; [done|].
      rewrite !elem_of_app in Hin. naive_solver.
    + intros [= <- <-]. cbn. split_and!; [done|done|by left|].
      rewrite !add_edges_add_edges. eexists. split; [done|].
      intros h d Hin. exists table. split; [done|].
      rewrite !elem_of_app in Hin. naive_solver.
  - rewrite (subscript_absent _ _ _ Htable).
    unfold AddSysrootDependencyToCrate. rewrite !lookup_empty.
    destruct (decide _); intros [= <- <-]; cbn.
    all: split_and!; [done|done| |exists []; split; [by rewrite add_edges_nil|by intros ?? ?%elem_of_nil]].
    all: intros s' table; rewrite lookup_insert; case_decide; [intros [= <-]; by right|by left].
Qed.


Lemma add_crate_dependencies_edges root deps st c c' :
  add_crate_dependencies root deps st c = Ok c' →
  ∃ edges, c' = add_edges edges c
    ∧ ∀ h nm, (h, nm) ∈ edges →
        ∃ dep info, dep ∈ deps ∧ dep ≠ root
                    ∧ lookup st !! dep = Some info
                    ∧ info_index info = Some h.
Proof.
  unfold add_crate_dependencies. revert c.
  induction deps as [|dep deps IH]; intros c.
  - intros [= <-]. exists []. split; [by rewrite add_edges_nil|].
    by intros ?? ?%elem_of_nil.
  - cbn [for_each]. destruct (decide (dep = root)) as [->|Hne].
    { cbn [mbind outcome_bind]. intros (edges & -> & Hedges)%IH.
      exists edges. split; [done|]. intros h nm Hin.
      destruct (Hedges h nm Hin) as (d & info & ? & ? & ? & ?).
      exists d, info. split_and!; [by right|done..]. }
    destruct (lookup st !! dep) as [info|] eqn:Hinfo; [|done].
    destruct (seen info); [|done].
    destruct (info_index info) as [idx|] eqn:Hidx.
    + destruct ((crate_list st ++ [c]) !! idx) as [dep_crate|]; [|done].
      cbn [mbind outcome_bind]. intros (edges & -> & Hedges)%IH.
      rewrite AddDependency_add_edges, add_edges_add_edges.
      eexists. split; [done|]. intros h nm [Hin|Hin]%elem_of_app.
      * apply list_elem_of_singleton in Hin as [= -> ->].
        exists dep, info. split_and!; [by left|done..].
      * destruct (Hedges h nm Hin) as (d & info' & ? & ? & ? & ?).
        exists d, info'. split_and!; [by right|done..].
    + cbn [mbind outcome_bind]. intros (edges & -> & Hedges)%IH.
      exists edges. split; [done|]. intros h nm Hin.
      destruct (Hedges h nm Hin) as (d & info' & ? & ? & ? & ?).
      exists d, info'. split_and!; [by right|done..].
Qed.

Lemma synthesized_table_bound (n : nat) (nm : string) (h : nat) :
  synthesized_table n !! nm = Some h → n ≤ h < n + 8.
Proof.
  unfold synthesized_table. rewrite !lookup_insert_Some, lookup_empty.
  intros H. repeat (destruct H as [[_ <-]|[_ H]]; [lia|]). done.
Qed.

Lemma handles_ordered_synthesized (cl : list Crate) (s : string) :
  handles_ordered cl →
  handles_ordered (cl ++ synthesized_crates bs s (length cl)).
Proof.
  intros Hcl i c Hi. apply lookup_app_Some in Hi as [Hi|[Hge Hi]].
  { by apply Hcl. }
  remember (i - length cl) as k eqn:Hk.
  assert (i = length cl + k) as -> by lia. clear Hk Hge. rename Hi into Hk.
  unfold synthesized_crates in Hk.
  do 8 (destruct k as [|k];
        [ injection Hk as <-; cbn; split; [lia|];
          intros h d Hin;
          repeat (apply elem_of_cons in Hin as [[= -> ->]|Hin]; [lia|]);
          by apply elem_of_nil in Hin |]).
  done.
Qed.

Lemma add_sysroot_if_new_well_indexed (s : string) (st st' : State) :
  well_indexed st → add_sysroot_if_new bs s st = Ok st' →
  well_indexed st' ∧ lookup st' = lookup st.
Proof.
  intros (Hord & Hlookup & Hsys). unfold add_sysroot_if_new.
  destruct (decide _) as [[Hne Hnew]|_]; [|by intros [= <-]].
  rewrite AddSysroot_fresh by done. intros [= <-]. split; [|done].
  split_and!; cbn.
  - by apply handles_ordered_synthesized.
  - intros root info h Hroot Hh. rewrite length_app.
    specialize (Hlookup root info h Hroot Hh). lia.
  - intros s' table nm h. rewrite lookup_insert. case_decide as Hs.
    + intros [= <-] Hnm%synthesized_table_bound. rewrite length_app. cbn. lia.
    + intros Hs' Hnm. rewrite length_app.
      specialize (Hsys s' table nm h Hs' Hnm). lia.
Qed.


Lemma for_each_invariant {S A} (P : S → Prop) (body : S → A → outcome S)
    (l : list A) :
  (∀ st x st', P st → body st x = Ok st' → P st') →
  ∀ st st', P st → for_each body st l = Ok st' → P st'.
Proof.
  intros Hbody. induction l as [|x l IH]; intros st st' Hst.
  - by intros [= <-].
  - cbn [for_each]. destruct (body st x) as [st1| |] eqn:Hx; [|done..].
    cbn [mbind outcome_bind]. apply IH. by eapply Hbody.
Qed.

Lemma handles_ordered_snoc (cl : list Crate) (c : Crate) :
  handles_ordered cl →
  index c = length cl →
  (∀ h nm, (h, nm) ∈ dependencies c → h < length cl) →
  handles_ordered (cl ++ [c]).
Proof.
  intros Hcl Hindex Hdeps i c' Hi.
  apply lookup_app_Some in Hi as [Hi|[Hge Hi]]; [by apply Hcl|].
  apply list_lookup_singleton_Some in Hi as [Hi <-].
  assert (i = length cl) as -> by lia. done.
Qed.

(** The steps of a call of [AddCrate] that returns. *)
Lemma AddCrate_Ok_inv (fuel : nat) (crate_root : SourceFile) (st st' : State) :
  AddCrate (S fuel) bs dt crate_root st = Ok st' →
  ∃ crate_info,
    lookup st !! crate_root = Some crate_info
    ∧ ((seen crate_info = true ∧ st' = st)
       ∨ (seen crate_info = false
          ∧ ∃ main_target st1 st2 c0 st3 c3 c4,
              PreferredTarget dt (targets_at crate_root (mark_seen crate_root st))
              = Some main_target
              ∧ add_sysroot_if_new bs (tool_sysroot main_target)
                                   (mark_seen crate_root st) = Ok st1
              ∧ for_each
                  (λ st dep, if decide (dep = crate_root) then Ok st
                             else AddCrate fuel bs dt dep st)
                  st1 (gather_crate_deps main_target (targets_at crate_root st1))
                = Ok st2
              ∧ index c0 = length (crate_list st2)
              ∧ dependencies c0 = []
              ∧ root c0 = crate_root
              ∧ name c0 = crate_name main_target
              ∧ CompilerTarget c0
                = FindArgValue "--target" (ExtractCompilerArgs main_target)
              ∧ crate_rustenv c0 = rustenv_new
              ∧ add_sysroot_dependencies main_target (tool_sysroot main_target)
                  (assign_index crate_root (length (crate_list st2)) st2) c0
                = (st3, c3)
              ∧ add_crate_dependencies crate_root
                  (gather_crate_deps main_target (targets_at crate_root st1))
                  st3
                  (add_rustenv (rustenv main_target)
                               (set_proc_macro main_target c3))
                = Ok c4
              ∧ st' = {| lookup := lookup st3;
                         sysroot_lookup := sysroot_lookup st3;
                         crate_list := crate_list st3 ++ [c4] |})).
Proof.
  cbn [AddCrate].
  destruct (lookup st !! crate_root) as [crate_info|] eqn:Hinfo; [|done].
  intros Hrun. exists crate_info. split; [done|]. revert Hrun.
  destruct (seen crate_info) eqn:Hseen; [intros [= <-]; by left|].
  intros Hrun. right. split; [done|]. revert Hrun.
  destruct (PreferredTarget _ _) as [main_target|]; [|done].
  destruct (add_sysroot_if_new _ _ _) as [st1| |] eqn:Hsys; [|done..].
  cbn [mbind outcome_bind].
  destruct (for_each _ _ _) as [st2| |] eqn:Hloop; [|done..].
  cbn [mbind outcome_bind].
  destruct (add_sysroot_dependencies _ _ _ _) as [st3 c3] eqn:Hsd.
  destruct (add_crate_dependencies _ _ _ _) as [c4| |] eqn:Hcd; [|done..].
  cbn [mbind outcome_bind]. intros [= <-].
  lazymatch type of Hsd with
  | add_sysroot_dependencies _ _ _
      (add_target_configs ?m ?ts (add_configs ?cfgs ?base)) = _ =>
      destruct (keeps_edges_add_target_configs m ts (add_configs cfgs base))
        as (E1 & E2 & E3 & E4 & E5);
      pose proof (keeps_rustenv_add_target_configs m ts
                    (add_configs cfgs base)) as E6;
      destruct (keeps_edges_add_configs cfgs base)
        as (F1 & F2 & F3 & F4 & F5);
      pose proof (keeps_rustenv_add_configs cfgs base) as F6;
      exists main_target, st1, st2,
        (add_target_configs m ts (add_configs cfgs base)), st3, c3, c4
  end.
  rewrite E1, E2, E3, E4, E5, E6, F1, F2, F3, F4, F5, F6.
  split_and!; try done;
    by destruct (FindArgValue "--target" (ExtractCompilerArgs main_target)).
Qed.

Lemma well_indexed_mark_seen (crate_root : SourceFile) (st : State) :
  well_indexed st → well_indexed (mark_seen crate_root st).
Proof.
  intros (Hord & Hlookup & Hsys). split_and!; [done| |done].
  intros k info h. cbn. rewrite lookup_alter_Some.
  intros [(_ & info' & Hk & ->)|[_ Hk]]; cbn; by eapply Hlookup.
Qed.

Lemma index_recorded (main_target : Target) (e e' : list (nat * string))
    (c0 : Crate) :
  index (add_edges e' (add_rustenv (rustenv main_target)
           (set_proc_macro main_target (add_edges e c0))))
  = index c0.
Proof.
  cbn. destruct (keeps_edges_add_rustenv (rustenv main_target)
                   (set_proc_macro main_target (add_edges e c0)))
    as (-> & _).
  by destruct (keeps_edges_set_proc_macro main_target (add_edges e c0))
    as (-> & _).
Qed.

Lemma dependencies_recorded (main_target : Target)
    (e e' : list (nat * string)) (c0 : Crate) :
  dependencies (add_edges e' (add_rustenv (rustenv main_target)
                  (set_proc_macro main_target (add_edges e c0))))
  = dependencies c0 ++ e ++ e'.
Proof.
  cbn. destruct (keeps_edges_add_rustenv (rustenv main_target)
                   (set_proc_macro main_target (add_edges e c0)))
    as (_ & -> & _).
  destruct (keeps_edges_set_proc_macro main_target (add_edges e c0))
    as (_ & -> & _).
  cbn. by rewrite app_assoc.
Qed.

Lemma AddCrate_well_indexed (fuel : nat) :
  ∀ crate_root st st',
    well_indexed st → AddCrate fuel bs dt crate_root st = Ok st' →
    well_indexed st'.
Proof.
  induction fuel as [|fuel IH]; intros crate_root st st' Hst Hrun; [done|].
  apply AddCrate_Ok_inv in Hrun
    as (ci & Hci & [[_ ->]|(Hseen & main_target & st1 & st2 & c0 & st3 & c3
          & c4 & Hpref & Hsys & Hloop & Hidx & Hdeps & Hroot & Hname & _ & _
          & Hsd & Hcd & ->)]); [done|].
  apply add_sysroot_if_new_well_indexed in Hsys as [Hst1 _];
    [|by apply well_indexed_mark_seen].
  assert (well_indexed st2) as (Hord2 & Hlk2 & Hsys2).
  { revert Hloop. apply for_each_invariant; [|done].
    intros s x s' Hs. destruct (decide _); [by intros [= <-]|]. by apply IH. }
  apply add_sysroot_dependencies_edges in Hsd
    as (Hl3 & Hcl3 & Hsl3 & e & -> & He).
  apply add_crate_dependencies_edges in Hcd as (e' & -> & He').
  split_and!; cbn [crate_list lookup sysroot_lookup].
  - rewrite Hcl3. cbn [assign_index set_lookup crate_list].
    apply handles_ordered_snoc; [done|by rewrite index_recorded|].
    intros h nm. rewrite dependencies_recorded, Hdeps. cbn [app].
    intros [Hin|Hin]%elem_of_app.
    + destruct (He h nm Hin) as (table & Htable & Hh). by eapply Hsys2.
    + destruct (He' h nm Hin) as (dep & info & _ & Hne & Hdep & Hh).
      rewrite Hl3 in Hdep. cbn in Hdep.
      rewrite lookup_alter_ne in Hdep by done. by eapply Hlk2.
  - intros k info h. rewrite Hl3, Hcl3, length_app. cbn.
    rewrite lookup_alter_Some.
    intros [(_ & info' & Hk & ->)|[_ Hk]]; cbn.
    + intros [= <-]. lia.
    + intros Hh. specialize (Hlk2 k info h Hk Hh). lia.
  - intros s table nm h Hs Hnm. rewrite Hcl3, length_app. cbn.
    destruct (Hsl3 s table Hs) as [Hold| ->]; [|by rewrite lookup_empty in Hnm].
    cbn in Hold. specialize (Hsys2 s table nm h Hold Hnm). lia.
Qed.


Lemma elem_of_unseen (k : SourceFile) (st : State) :
  k ∈ unseen st ↔ ∃ ci, lookup st !! k = Some ci ∧ seen ci = false.
Proof.
  unfold unseen. rewrite elem_of_dom. unfold is_Some.
  setoid_rewrite map_lookup_filter_Some. naive_solver.
Qed.

Lemma unseen_mark_seen (crate_root : SourceFile) (st : State) :
  unseen (mark_seen crate_root st) ⊆ unseen st ∖ {[crate_root]}.
Proof.
  intros k. rewrite elem_of_difference, !elem_of_unseen, not_elem_of_singleton.
  cbn. intros (ci & Hk & Hseen).
  apply lookup_alter_Some in Hk as [(_ & ci' & Hk & ->)|[Hne Hk]]; [done|].
  split; [by exists ci|done].
Qed.

Lemma unseen_assign_index (crate_root : SourceFile) (n : nat) (st : State) :
  unseen (assign_index crate_root n st) ⊆ unseen st.
Proof.
  intros k. rewrite !elem_of_unseen. cbn. intros (ci & Hk & Hseen).
  apply lookup_alter_Some in Hk as [(_ & ci' & Hk & ->)|[Hne Hk]];
    [by exists ci'|by exists ci].
Qed.

Lemma add_sysroot_if_new_lookup (s : string) (st st' : State) :
  add_sysroot_if_new bs s st = Ok st' → lookup st' = lookup st.
Proof.
  unfold add_sysroot_if_new. destruct (decide _); [|by intros [= <-]].
  destruct (AddSysroot _ _ _) as [[??]|]; [|done]. by intros [= <-].
Qed.

Lemma add_sysroot_if_new_fuel (s : string) (st : State) :
  add_sysroot_if_new bs s st ≠ OutOfFuel.
Proof.
  unfold add_sysroot_if_new. destruct (decide _); [|done].
  destruct (AddSysroot_total bs s (sysroot_lookup st, crate_list st))
    as [[??] ->]. done.
Qed.

Lemma unseen_eq (st st' : State) :
  lookup st' = lookup st → unseen st' = unseen st.
Proof. unfold unseen. by intros ->. Qed.

Lemma AddCrate_unseen (fuel : nat) :
  ∀ crate_root st st',
    AddCrate fuel bs dt crate_root st = Ok st' → unseen st' ⊆ unseen st.
Proof.
  induction fuel as [|fuel IH]; intros crate_root st st' Hrun; [done|].
  apply AddCrate_Ok_inv in Hrun
    as (ci & Hci & [[_ ->]|(Hseen & main_target & st1 & st2 & c0 & st3 & c3
          & c4 & _ & Hsys & Hloop & _ & _ & _ & _ & _ & _
          & Hsd & _ & ->)]); [done|].
  apply add_sysroot_if_new_lookup, unseen_eq in Hsys.
  assert (unseen st2 ⊆ unseen st1) as Hst2.
  { revert Hloop.
    apply (for_each_invariant (λ s, unseen s ⊆ unseen st1)); [|done].
    intros s x s' Hs. destruct (decide _); [by intros [= <-]|].
    intros Hx%IH. set_solver. }
  apply add_sysroot_dependencies_edges in Hsd as (Hl3 & _).
  match goal with
  | |- unseen ?final ⊆ _ =>
      assert (unseen final
              = unseen (assign_index crate_root (length (crate_list st2)) st2))
        as -> by (by apply unseen_eq)
  end.
  pose proof (unseen_assign_index crate_root (length (crate_list st2)) st2).
  pose proof (unseen_mark_seen crate_root st). set_solver.
Qed.

Lemma for_each_fuel {S A} (P : S → Prop) (body : S → A → outcome S)
    (l : list A) :
  (∀ st x, P st → body st x ≠ OutOfFuel
                  ∧ ∀ st', body st x = Ok st' → P st') →
  ∀ st, P st → for_each body st l ≠ OutOfFuel.
Proof.
  intros Hbody. induction l as [|x l IH]; intros st Hst; [done|].
  cbn [for_each]. destruct (Hbody st x Hst) as [Hfuel Hnext].
  destruct (body st x) as [st1| |]; [|done..].
  cbn [mbind outcome_bind]. apply IH. by apply Hnext.
Qed.

Lemma add_crate_dependencies_fuel crate_root deps st c :
  add_crate_dependencies crate_root deps st c ≠ OutOfFuel.
Proof.
  unfold add_crate_dependencies.
  apply (for_each_fuel (λ _, True)); [|done].
  intros c' dep _. split; [|done].
  destruct (decide _); [done|].
  destruct (lookup st !! dep) as [info|]; [|done].
  destruct (seen info); [|done].
  destruct (info_index info); [|done].
  by destruct (_ !! _).
Qed.

(** A counter above the number of crates that are not marked is never
    used up. *)
Lemma AddCrate_fuel (fuel : nat) :
  ∀ crate_root st,
    size (unseen st) < fuel → AddCrate fuel bs dt crate_root st ≠ OutOfFuel.
Proof.
  induction fuel as [|fuel IH]; intros crate_root st Hsize; [lia|].
  cbn [AddCrate].
  destruct (lookup st !! crate_root) as [crate_info|] eqn:Hinfo; [|done].
  destruct (seen crate_info) eqn:Hseen; [done|].
  destruct (PreferredTarget _ _) as [main_target|]; [|done].
  pose proof (add_sysroot_if_new_fuel (tool_sysroot main_target)
                (mark_seen crate_root st)) as Hsysfuel.
  destruct (add_sysroot_if_new _ _ _) as [st1| |] eqn:Hsys; [|done..].
  cbn [mbind outcome_bind].
  assert (size (unseen st1) < fuel) as Hst1.
  { apply add_sysroot_if_new_lookup, unseen_eq in Hsys. rewrite Hsys.
    assert (unseen (mark_seen crate_root st) ⊂ unseen st) as Hlt; [|apply subset_size in Hlt; lia].
    pose proof (unseen_mark_seen crate_root st).
    assert (crate_root ∈ unseen st) by (apply elem_of_unseen; by exists crate_info).
    set_solver. }
  match goal with
  | |- context [for_each ?body st1 ?deps] =>
      pose proof (for_each_fuel (λ s, size (unseen s) < fuel) body deps) as Hloopfuel
  end.
  destruct (for_each _ _ _) as [st2| |] eqn:Hloop; [|done|].
  2:{ exfalso. eapply Hloopfuel; [|exact Hst1|done].
      intros s x Hs.
      destruct (decide _); [split; [done|by intros ? [= <-]]|].
      split; [by apply IH|].
      intros s' Hx%AddCrate_unseen. apply subseteq_size in Hx. lia. }
  cbn [mbind outcome_bind].
  destruct (add_sysroot_dependencies _ _ _ _) as [st3 c3].
  match goal with
  | |- context [add_crate_dependencies ?r ?ds ?s ?c] =>
      pose proof (add_crate_dependencies_fuel r ds s c)
  end.
  by destruct (add_crate_dependencies _ _ _ _).
Qed.


Lemma collect_crates_fresh (all_targets : list Target) (k : SourceFile)
    (info : CrateInfo) :
  collect_crates all_targets !! k = Some info →
  seen info = false ∧ info_index info = None ∧ targets info ≠ [].
Proof.
  unfold collect_crates. revert k info.
  induction all_targets as [|t ts IH] using rev_ind; intros k info.
  { cbn. by rewrite lookup_empty. }
  rewrite foldl_app. cbn [foldl].
  match goal with
  | |- context [foldl ?f ∅ ts] => set (m := foldl f ∅ ts) in *
  end.
  destruct (negb (IsBinary t) || negb (rust_source_used t)); [apply IH|].
  destruct (m !! crate_root t) as [old|] eqn:Hold.
  - rewrite (subscript_present _ _ _ _ Hold).
    rewrite lookup_insert. case_decide as Hk; [|apply IH].
    intros [= <-]. cbn. destruct (IH _ _ Hold) as (? & ? & ?).
    split_and!; [done..|]. by destruct (targets old).
  - rewrite (subscript_absent _ _ _ Hold), insert_insert_eq.
    rewrite lookup_insert. case_decide as Hk; [|apply IH].
    by intros [= <-].
Qed.

Lemma initial_well_indexed (all_targets : list Target) :
  well_indexed {| lookup := collect_crates all_targets;
                  sysroot_lookup := ∅; crate_list := [] |}.
Proof.
  split_and!; cbn.
  - intros i c. by rewrite lookup_nil.
  - intros k info h Hk Hh. apply collect_crates_fresh in Hk as (_ & ? & _).
    congruence.
  - intros s table nm h. by rewrite lookup_empty.
Qed.

Lemma size_unseen (st : State) : size (unseen st) ≤ size (lookup st).
Proof.
  unfold unseen. rewrite size_dom. apply map_subseteq_size, map_filter_subseteq.
Qed.

(** The counter that [BuildCrateList] hands to [AddCrate] is never used
    up. *)
Lemma BuildCrateList_fuel (all_targets : list Target)
    (order : list SourceFile) :
  BuildCrateList bs dt all_targets order ≠ OutOfFuel.
Proof.
  unfold BuildCrateList.
  set (st0 := {| lookup := collect_crates all_targets;
                 sysroot_lookup := ∅; crate_list := [] |}).
  apply (for_each_fuel (λ st, unseen st ⊆ unseen st0)); [|done].
  intros st k Hst. split.
  - apply AddCrate_fuel. apply subseteq_size in Hst.
    pose proof (size_unseen st0). cbn in *. lia.
  - intros st' Hrun%AddCrate_unseen. set_solver.
Qed.

Lemma BuildCrateList_well_indexed (all_targets : list Target)
    (order : list SourceFile) (st : State) :
  BuildCrateList bs dt all_targets order = Ok st → well_indexed st.
Proof.
  unfold BuildCrateList. apply for_each_invariant.
  - intros s k s' Hs. by apply AddCrate_well_indexed.
  - apply initial_well_indexed.
Qed.

(** C1.  The construction of the crate list always comes to an end, and in
    the list it returns every record sits at the position given by its
    index and every dependency pair of a record, those of the synthesized
    sysroot records included, carries an index smaller than the index of
    the record; so along two edges from a to b and from b to c the indices
    decrease. *)
Theorem handle_ordering (all_targets : list Target)
    (order : list SourceFile) :
  BuildCrateList bs dt all_targets order ≠ OutOfFuel
  ∧ ∀ st,
      BuildCrateList bs dt all_targets order = Ok st →
      (∀ i crate, crate_list st !! i = Some crate → index crate = i)
      ∧ (∀ crate h dep_name,
           crate ∈ crate_list st →
           (h, dep_name) ∈ dependencies crate →
           h < index crate)
      ∧ (∀ a b c name_b name_c,
           a ∈ crate_list st → b ∈ crate_list st → c ∈ crate_list st →
           (index b, name_b) ∈ dependencies a →
           (index c, name_c) ∈ dependencies b →
           index c < index b ∧ index b < index a).
Proof.
  split; [apply BuildCrateList_fuel|].
  intros st (Hord & _)%BuildCrateList_well_indexed.
  assert (∀ crate h dep_name,
            crate ∈ crate_list st → (h, dep_name) ∈ dependencies crate →
            h < index crate) as Hedges.
  { intros crate h nm (i & Hi)%list_elem_of_lookup Hin.
    destruct (Hord i crate Hi) as [-> Hlt]. by eapply Hlt. }
  split_and!.
  - intros i crate Hi. by apply Hord.
  - exact Hedges.
  - intros a b c nb nc Ha Hb Hc Hab Hbc. split; by eapply Hedges.
Qed.

Lemma targets_at_mark_seen (crate_root : SourceFile) (st : State)
    (ci : CrateInfo) :
  lookup st !! crate_root = Some ci →
  targets_at crate_root (mark_seen crate_root st) = targets ci.
Proof.
  intros Hci. unfold targets_at, mark_seen. cbn.
  by rewrite lookup_alter_eq, Hci.
Qed.

(** The record that a call of [AddCrate] appends for a crate that was not
    marked. *)
Lemma AddCrate_record (fuel : nat) (crate_root : SourceFile)
    (st st' : State) (ci : CrateInfo) :
  lookup st !! crate_root = Some ci → seen ci = false →
  AddCrate fuel bs dt crate_root st = Ok st' →
  ∃ main_target earlier crate,
    PreferredTarget dt (targets ci) = Some main_target
    ∧ crate_list st' = earlier ++ [crate]
    ∧ root crate = crate_root
    ∧ index crate = length earlier
    ∧ CompilerTarget crate
      = FindArgValue "--target" (ExtractCompilerArgs main_target)
    ∧ crate_rustenv crate = rustenv_of (rustenv main_target) rustenv_new.
Proof.
  intros Hci Hseen Hrun. destruct fuel as [|fuel]; [done|].
  apply AddCrate_Ok_inv in Hrun
    as (ci' & Hci' & [[Hseen' _]|(_ & main_target & st1 & st2 & c0 & st3
          & c3 & c4 & Hpref & _ & _ & Hidx & _ & Hroot & _ & Htarget & Henv
          & Hsd & Hcd & ->)]); [congruence|].
  rewrite (targets_at_mark_seen _ _ ci) in Hpref by done.
  apply add_sysroot_dependencies_edges in Hsd as (_ & Hcl3 & _ & e & -> & _).
  apply add_crate_dependencies_edges in Hcd as (e' & -> & _).
  eexists main_target, (crate_list st3), _.
  split_and!; [done|reflexivity|..].
  - cbn. destruct (keeps_edges_add_rustenv (rustenv main_target)
                     (set_proc_macro main_target (add_edges e c0)))
      as (_ & _ & _ & -> & _).
    by destruct (keeps_edges_set_proc_macro main_target (add_edges e c0))
      as (_ & _ & _ & -> & _).
  - by rewrite index_recorded, Hidx, Hcl3.
  - cbn. destruct (keeps_edges_add_rustenv (rustenv main_target)
                     (set_proc_macro main_target (add_edges e c0)))
      as (_ & _ & _ & _ & ->).
    by destruct (keeps_edges_set_proc_macro main_target (add_edges e c0))
      as (_ & _ & _ & _ & ->).
  - cbn. rewrite crate_rustenv_add_rustenv, keeps_rustenv_set_proc_macro.
    cbn. by rewrite Henv.
Qed.

(** C3, amended.  The triple recorded for a crate is the argument that
    follows the first [--target] among the compiler arguments of its main
    target, and there is none when no [--target] is followed by an
    argument; arguments of the form [--target=...] play no part. *)
Theorem compiler_target_recorded (fuel : nat) (crate_root : SourceFile)
    (st st' : State) (ci : CrateInfo) :
  lookup st !! crate_root = Some ci → seen ci = false →
  AddCrate fuel bs dt crate_root st = Ok st' →
  ∃ main_target crate,
    PreferredTarget dt (targets ci) = Some main_target
    ∧ last (crate_list st') = Some crate
    ∧ CompilerTarget crate
      = FindArgValue "--target" (ExtractCompilerArgs main_target)
    ∧ (∀ v, CompilerTarget crate = Some v ↔
            ∃ i, ExtractCompilerArgs main_target !! i = Some "--target"
                 ∧ ExtractCompilerArgs main_target !! S i = Some v
                 ∧ ∀ j, j < i →
                     ExtractCompilerArgs main_target !! j ≠ Some "--target")
    ∧ (CompilerTarget crate = None ↔
       ∀ i, ExtractCompilerArgs main_target !! i = Some "--target" →
            ExtractCompilerArgs main_target !! S i = None).
Proof.
  intros Hci Hseen Hrun.
  destruct (AddCrate_record _ _ _ _ _ Hci Hseen Hrun)
    as (main_target & earlier & crate & Hpref & Hlist & _ & _ & Htarget & _).
  exists main_target, crate. split_and!; [done| |done|..].
  - by rewrite Hlist, last_snoc.
  - intros v. rewrite Htarget. apply FindArgValue_Some.
  - rewrite Htarget. apply FindArgValue_None.
Qed.

Lemma is_separator_eq (c : ascii) :
  is_separator "=" c = bool_decide (c = "="%char).
Proof.
  unfold is_separator. cbn. apply bool_decide_ext.
  by rewrite list_elem_of_singleton.
Qed.

Lemma free_of_String (c a : ascii) (s : string) :
  free_of c (String a s) ↔ c ≠ a ∧ free_of c s.
Proof. unfold free_of. cbn. by rewrite not_elem_of_cons. Qed.

Lemma pieces_free (s : string) : free_of "=" s → pieces "=" s = [s].
Proof.
  induction s as [|c s IH]; [done|].
  intros [Hc Hs]%free_of_String. cbn [pieces].
  rewrite is_separator_eq, bool_decide_eq_false_2 by done. by rewrite IH.
Qed.

Lemma pieces_cut (key value : string) :
  free_of "=" key →
  pieces "=" (key +:+ "=" +:+ value) = key :: pieces "=" value.
Proof.
  induction key as [|c key IH].
  - intros _. change ("" +:+ "=" +:+ value) with (String "=" value).
    cbn [pieces]. by rewrite is_separator_eq, bool_decide_eq_true_2.
  - intros [Hc Hkey]%free_of_String.
    change (String c key +:+ "=" +:+ value)
      with (String c (key +:+ "=" +:+ value)).
    cbn [pieces]. rewrite is_separator_eq, bool_decide_eq_false_2 by done.
    by rewrite IH.
Qed.

Lemma rustenv_entry_single (key value : string) :
  free_of "=" key → free_of "=" value →
  rustenv_entry (key +:+ "=" +:+ value)
  = Some (TrimWhitespace key, TrimWhitespace value).
Proof.
  intros Hkey Hvalue. unfold rustenv_entry, SplitString.
  rewrite decide_False by (by destruct key).
  by rewrite pieces_cut, pieces_free.
Qed.

Lemma rustenv_entry_none (env_var : string) :
  free_of "=" env_var → rustenv_entry env_var = None.
Proof.
  intros Hfree. unfold rustenv_entry, SplitString.
  destruct (decide (env_var = "")); [done|]. by rewrite pieces_free.
Qed.

(** C7, amended.  The environment entries of a record are those of its main
    target, taken in order: an entry with exactly one [=] is recorded with
    the text before the [=] as name and the text after it as value, both
    with the white space at their ends removed, and an entry without [=] is
    ignored. *)
Theorem rustenv_recorded (fuel : nat) (crate_root : SourceFile)
    (st st' : State) (ci : CrateInfo) :
  lookup st !! crate_root = Some ci → seen ci = false →
  AddCrate fuel bs dt crate_root st = Ok st' →
  ∃ main_target crate,
    PreferredTarget dt (targets ci) = Some main_target
    ∧ last (crate_list st') = Some crate
    ∧ crate_rustenv crate
      = foldl (λ env env_var,
                 match rustenv_entry env_var with
                 | Some (key, value) => rustenv_add key value env
                 | None => env
                 end)
              rustenv_new (rustenv main_target)
    ∧ (∀ key value,
         free_of "=" key → free_of "=" value →
         rustenv_entry (key +:+ "=" +:+ value)
         = Some (TrimWhitespace key, TrimWhitespace value))
    ∧ (∀ env_var, free_of "=" env_var → rustenv_entry env_var = None).
Proof.
  intros Hci Hseen Hrun.
  destruct (AddCrate_record _ _ _ _ _ Hci Hseen Hrun)
    as (main_target & earlier & crate & Hpref & Hlist & _ & _ & _ & Henv).
  exists main_target, crate. split_and!; [done| |done|..].
  - by rewrite Hlist, last_snoc.
  - apply rustenv_entry_single.
  - apply rustenv_entry_none.
Qed.

Lemma is_seen_mark_seen (k crate_root : SourceFile) (st : State) :
  is_seen k st ∨ (k = crate_root ∧ is_Some (lookup st !! k)) →
  is_seen k (mark_seen crate_root st).
Proof.
  unfold is_seen, mark_seen. cbn. setoid_rewrite lookup_alter_Some.
  intros [(info & Hk & Hseen)|[-> [info Hk]]].
  - destruct (decide (crate_root = k)) as [->|Hne].
    + eexists. split; [left; eauto|done].
    + exists info. split; [by right|done].
  - eexists. split; [left; eauto|done].
Qed.

Lemma is_seen_assign_index (k crate_root : SourceFile) (n : nat) (st : State) :
  is_seen k st → is_seen k (assign_index crate_root n st).
Proof.
  unfold is_seen, assign_index. cbn. setoid_rewrite lookup_alter_Some.
  intros (info & Hk & Hseen).
  destruct (decide (crate_root = k)) as [->|Hne].
  - eexists. split; [left; eauto|done].
  - exists info. split; [by right|done].
Qed.

Lemma is_seen_eq (k : SourceFile) (st st' : State) :
  lookup st' = lookup st → is_seen k st → is_seen k st'.
Proof. unfold is_seen. by intros ->. Qed.

Lemma AddCrate_seen_stays (fuel : nat) (k : SourceFile) :
  ∀ crate_root st st',
    is_seen k st → AddCrate fuel bs dt crate_root st = Ok st' → is_seen k st'.
Proof.
  induction fuel as [|fuel IH]; intros crate_root st st' Hk Hrun; [done|].
  apply AddCrate_Ok_inv in Hrun
    as (ci & Hci & [[_ ->]|(Hseen & main_target & st1 & st2 & c0 & st3 & c3
          & c4 & _ & Hsys & Hloop & _ & _ & _ & _ & _ & _
          & Hsd & _ & ->)]); [done|].
  apply add_sysroot_if_new_lookup in Hsys.
  assert (is_seen k st2) as Hst2.
  { revert Hloop. apply (for_each_invariant (is_seen k)).
    - intros s x s' Hs. destruct (decide _); [by intros [= <-]|]. by apply IH.
    - apply (is_seen_eq _ (mark_seen crate_root st)); [done|].
      apply is_seen_mark_seen. by left. }
  apply add_sysroot_dependencies_edges in Hsd as (Hl3 & _).
  apply (is_seen_eq _ (assign_index crate_root (length (crate_list st2)) st2));
    [done|]. by apply is_seen_assign_index.
Qed.

Lemma for_each_seen_stays (fuel : nat) (k crate_root : SourceFile)
    (deps : list SourceFile) (st st' : State) :
  is_seen k st →
  for_each (λ st dep, if decide (dep = crate_root) then Ok st
                      else AddCrate fuel bs dt dep st) st deps = Ok st' →
  is_seen k st'.
Proof.
  intros Hk. apply (for_each_invariant (is_seen k)); [|done].
  intros s x s' Hs. destruct (decide _); [by intros [= <-]|].
  by apply AddCrate_seen_stays.
Qed.

Lemma AddCrate_marks (fuel : nat) (crate_root : SourceFile) (st st' : State) :
  AddCrate fuel bs dt crate_root st = Ok st' → is_seen crate_root st'.
Proof.
  intros Hrun. destruct fuel as [|fuel]; [done|].
  apply AddCrate_Ok_inv in Hrun
    as (ci & Hci & [[Hseen ->]|(Hseen & main_target & st1 & st2 & c0 & st3
          & c3 & c4 & _ & Hsys & Hloop & _ & _ & _ & _ & _ & _
          & Hsd & _ & ->)]); [by exists ci|].
  apply add_sysroot_if_new_lookup in Hsys.
  apply for_each_seen_stays with (k := crate_root) in Hloop.
  - apply add_sysroot_dependencies_edges in Hsd as (Hl3 & _).
    apply (is_seen_eq _ (assign_index crate_root (length (crate_list st2)) st2));
      [done|]. by apply is_seen_assign_index.
  - apply (is_seen_eq _ (mark_seen crate_root st)); [done|].
    apply is_seen_mark_seen. right. by rewrite Hci.
Qed.

(** After the loop that resolves the neighbours, every neighbour other than
    the crate itself is marked. *)
Lemma neighbours_seen (fuel : nat) (crate_root : SourceFile)
    (deps : list SourceFile) :
  ∀ st st',
    for_each (λ st dep, if decide (dep = crate_root) then Ok st
                        else AddCrate fuel bs dt dep st) st deps = Ok st' →
    ∀ dep, dep ∈ deps → dep ≠ crate_root → is_seen dep st'.
Proof.
  induction deps as [|d deps IH]; intros st st' Hloop dep Hin Hne.
  { by apply elem_of_nil in Hin. }
  cbn [for_each] in Hloop.
  destruct (decide (d = crate_root)) as [->|Hd].
  - cbn [mbind outcome_bind] in Hloop.
    apply elem_of_cons in Hin as [->|Hin]; [done|]. by eapply IH.
  - destruct (AddCrate fuel bs dt d st) as [st1| |] eqn:Hd1; [|done..].
    cbn [mbind outcome_bind] in Hloop.
    apply elem_of_cons in Hin as [->|Hin]; [|by eapply IH].
    eapply for_each_seen_stays; [|done]. by eapply AddCrate_marks.
Qed.

Lemma unseen_have_targets_mark_seen (crate_root : SourceFile) (st : State) :
  unseen_have_targets st → unseen_have_targets (mark_seen crate_root st).
Proof.
  intros Hst k info. cbn. rewrite lookup_alter_Some.
  intros [(_ & info' & Hk & ->)|[_ Hk]]; [done|]. intros ?. by eapply Hst.
Qed.

Lemma unseen_have_targets_assign_index (crate_root : SourceFile) (n : nat)
    (st : State) :
  is_seen crate_root st →
  unseen_have_targets st →
  unseen_have_targets (assign_index crate_root n st).
Proof.
  intros (ci & Hci & Hseen) Hst k info. cbn. rewrite lookup_alter_Some.
  intros [(<- & info' & Hk & ->)|[_ Hk]]; [|intros ?; by eapply Hst].
  cbn. congruence.
Qed.

Lemma AddCrate_unseen_have_targets (fuel : nat) :
  ∀ crate_root st st',
    unseen_have_targets st → AddCrate fuel bs dt crate_root st = Ok st' →
    unseen_have_targets st'.
Proof.
  induction fuel as [|fuel IH]; intros crate_root st st' Hst Hrun; [done|].
  apply AddCrate_Ok_inv in Hrun
    as (ci & Hci & [[_ ->]|(Hseen & main_target & st1 & st2 & c0 & st3 & c3
          & c4 & _ & Hsys & Hloop & _ & _ & _ & _ & _ & _
          & Hsd & _ & ->)]); [done|].
  apply add_sysroot_if_new_lookup in Hsys.
  assert (unseen_have_targets st1) as Hst1.
  { unfold unseen_have_targets. rewrite Hsys.
    by apply unseen_have_targets_mark_seen. }
  assert (is_seen crate_root st2) as Hroot2.
  { eapply for_each_seen_stays; [|done].
    apply (is_seen_eq _ (mark_seen crate_root st)); [done|].
    apply is_seen_mark_seen. right. by rewrite Hci. }
  assert (unseen_have_targets st2) as Hst2.
  { revert Hloop. apply (for_each_invariant unseen_have_targets); [|done].
    intros s x s' Hs. destruct (decide _); [by intros [= <-]|]. by apply IH. }
  apply add_sysroot_dependencies_edges in Hsd as (Hl3 & _).
  unfold unseen_have_targets. cbn [lookup]. rewrite Hl3.
  by apply unseen_have_targets_assign_index.
Qed.

Lemma add_sysroot_if_new_no_throw (s : string) (st : State) (e : failure) :
  add_sysroot_if_new bs s st ≠ Throws e.
Proof.
  unfold add_sysroot_if_new. destruct (decide _); [|done].
  by destruct (AddSysroot _ _ _) as [[??]|].
Qed.

Lemma PreferredTarget_is_Some (targets : list Target) :
  targets ≠ [] → is_Some (PreferredTarget dt targets).
Proof. by destruct targets. Qed.

Lemma recorded_edge_add_edges (crate_root : SourceFile) (st : State)
    (e : list (nat * string)) (crate : Crate) (dep : SourceFile) :
  recorded_edge crate_root st (add_edges e crate) dep
  = recorded_edge crate_root st crate dep.
Proof.
  unfold recorded_edge. destruct (decide _); [done|].
  destruct (lookup st !! dep) as [info|]; [|done]. cbn [mbind option_bind].
  destruct (info_index info) as [idx|]; [|done]. cbn [mbind option_bind].
  destruct (decide (idx < length (crate_list st))) as [Hlt|Hge].
  - by rewrite !lookup_app_l by done.
  - rewrite !lookup_app_r by lia.
    by destruct (idx - length (crate_list st)).
Qed.

Lemma omap_recorded_edge_add_edges (crate_root : SourceFile) (st : State)
    (e : list (nat * string)) (crate : Crate) (deps : list SourceFile) :
  omap (recorded_edge crate_root st (add_edges e crate)) deps
  = omap (recorded_edge crate_root st crate) deps.
Proof.
  induction deps as [|dep deps IH]; [done|].
  cbn [omap list_omap]. by rewrite recorded_edge_add_edges, IH.
Qed.

(** The last loop of [AddCrate] on neighbours that are all marked and whose
    indices are positions of the list: it does not fail, and it records the
    pairs of the neighbours that have an index. *)
Lemma add_crate_dependencies_recorded (crate_root : SourceFile)
    (deps : list SourceFile) (st : State) :
  (∀ dep, dep ∈ deps → dep ≠ crate_root →
     ∃ info, lookup st !! dep = Some info ∧ seen info = true
             ∧ ∀ idx, info_index info = Some idx →
                      idx ≤ length (crate_list st)) →
  ∀ crate,
    add_crate_dependencies crate_root deps st crate
    = Ok (add_edges (omap (recorded_edge crate_root st crate) deps) crate).
Proof.
  unfold add_crate_dependencies.
  induction deps as [|dep deps IH]; intros Hdeps crate.
  { cbn. by rewrite add_edges_nil. }
  assert (∀ d, d ∈ deps → d ≠ crate_root →
            ∃ info, lookup st !! d = Some info ∧ seen info = true
                    ∧ ∀ idx, info_index info = Some idx →
                             idx ≤ length (crate_list st)) as Hrest
    by (intros d Hd; apply Hdeps; by right).
  specialize (IH Hrest). rename IH into IH'.
  cbn [for_each omap list_omap]. unfold recorded_edge at 1.
  destruct (decide (dep = crate_root)) as [->|Hne].
  { cbn [mbind outcome_bind]. apply IH'. }
  destruct (Hdeps dep) as (info & Hinfo & Hseen & Hidx); [by left|done|].
  rewrite Hinfo, Hseen. cbn [mbind option_bind].
  destruct (info_index info) as [idx|] eqn:Hi;
    cbn [mbind option_bind outcome_bind]; [|apply IH'].
  destruct (lookup_lt_is_Some_2 (crate_list st ++ [crate]) idx) as [dc Hdc].
  { rewrite length_app. cbn. specialize (Hidx idx eq_refl). lia. }
  rewrite Hdc. cbn [mbind option_bind outcome_bind]. rewrite IH'.
  rewrite AddDependency_add_edges, add_edges_add_edges.
  by rewrite omap_recorded_edge_add_edges.
Qed.


Lemma for_each_throws {S A} (P : S → Prop) (Q : failure → Prop)
    (body : S → A → outcome S) (l : list A) :
  (∀ st x, P st → (∀ e, body st x = Throws e → Q e)
                  ∧ ∀ st', body st x = Ok st' → P st') →
  ∀ st e, P st → for_each body st l = Throws e → Q e.
Proof.
  intros Hbody. induction l as [|x l IH]; intros st e Hst; [done|].
  cbn [for_each]. destruct (Hbody st x Hst) as [Hthrow Hnext].
  destruct (body st x) as [st1|e1|]; cbn [mbind outcome_bind]; [|..|done].
  - apply IH. by apply Hnext.
  - intros [= <-]. by apply Hthrow.
Qed.

(** A call of [AddCrate] fails in one way only: a neighbour has no entry in
    [lookup].  The assertions hold and the crate list is never read past
    its end. *)
Lemma AddCrate_failures (fuel : nat) :
  ∀ crate_root st e,
    well_indexed st → unseen_have_targets st →
    AddCrate fuel bs dt crate_root st = Throws e → e = out_of_range.
Proof.
  induction fuel as [|fuel IH]; intros crate_root st e Hwi Htargets; [done|].
  cbn [AddCrate].
  destruct (lookup st !! crate_root) as [crate_info|] eqn:Hinfo;
    [|by intros [= <-]].
  destruct (seen crate_info) eqn:Hseen; [done|].
  rewrite (targets_at_mark_seen _ _ crate_info) by done.
  destruct (PreferredTarget_is_Some (targets crate_info)) as [main_target ->];
    [by eapply Htargets|].
  pose proof (add_sysroot_if_new_no_throw (tool_sysroot main_target)
                (mark_seen crate_root st)) as Hsysthrow.
  destruct (add_sysroot_if_new _ _ _) as [st1|e1|] eqn:Hsys;
    [|by destruct (Hsysthrow e1)|done].
  cbn [mbind outcome_bind].
  pose proof Hsys as Hlookup1. apply add_sysroot_if_new_lookup in Hlookup1.
  apply add_sysroot_if_new_well_indexed in Hsys as [Hwi1 _];
    [|by apply well_indexed_mark_seen].
  assert (unseen_have_targets st1) as Htargets1.
  { unfold unseen_have_targets. rewrite Hlookup1.
    by apply unseen_have_targets_mark_seen. }
  set (crate_deps := gather_crate_deps main_target (targets_at crate_root st1)).
  destruct (for_each _ st1 crate_deps) as [st2|e2|] eqn:Hloop;
    cbn [mbind outcome_bind]; [|..|done].
  2:{ intros [= <-]. revert Hloop.
      apply (for_each_throws
               (λ s, well_indexed s ∧ unseen_have_targets s)
               (λ e, e = out_of_range)); [|done].
      intros s x [Hs1 Hs2]. destruct (decide _).
      - split; [done|]. by intros ? [= <-].
      - split; [intros e'; by apply IH|].
        intros s' Hx. split;
          [by eapply AddCrate_well_indexed
          |by eapply AddCrate_unseen_have_targets]. }
  assert (well_indexed st2) as (Hord2 & Hlk2 & Hsys2).
  { revert Hloop. apply for_each_invariant; [|done].
    intros s x s' Hs. destruct (decide _); [by intros [= <-]|].
    by apply AddCrate_well_indexed. }
  pose proof (neighbours_seen _ _ _ _ _ Hloop) as Hseen2.
  destruct (add_sysroot_dependencies _ _ _ _) as [st3 c3] eqn:Hsd.
  apply add_sysroot_dependencies_edges in Hsd as (Hl3 & Hcl3 & _).
  rewrite add_crate_dependencies_recorded; [done|].
  intros dep Hdep Hne. destruct (Hseen2 dep Hdep Hne) as (info & Hinfo2 & ?).
  exists info. rewrite Hl3, Hcl3. cbn.
  rewrite lookup_alter_ne by done. split_and!; [done..|].
  intros idx Hidx. specialize (Hlk2 dep info idx Hinfo2 Hidx). lia.
Qed.

Lemma initial_unseen_have_targets (all_targets : list Target) :
  unseen_have_targets {| lookup := collect_crates all_targets;
                         sysroot_lookup := ∅; crate_list := [] |}.
Proof.
  intros k info Hk _. by apply collect_crates_fresh in Hk as (_ & _ & ?).
Qed.

Lemma BuildCrateList_failures (all_targets : list Target)
    (order : list SourceFile) (e : failure) :
  BuildCrateList bs dt all_targets order = Throws e → e = out_of_range.
Proof.
  unfold BuildCrateList.
  apply (for_each_throws (λ s, well_indexed s ∧ unseen_have_targets s)
                         (λ e, e = out_of_range)).
  - intros s x [Hs1 Hs2]. split; [intros e'; by apply AddCrate_failures|].
    intros s' Hx. split;
      [by eapply AddCrate_well_indexed
      |by eapply AddCrate_unseen_have_targets].
  - split; [apply initial_well_indexed|apply initial_unseen_have_targets].
Qed.


(** C2, amended.  A neighbour whose handle is still unassigned when the
    edges are recorded is passed over: the last loop of [AddCrate] does not
    fail on neighbours that are marked, it records a pair for exactly the
    neighbours that have a handle, and none for one without.  The
    construction of the crate list as a whole fails in one way only, when a
    neighbour has no entry in the registry. *)
Theorem unassigned_neighbor_passed_over :
  (∀ all_targets order e,
     BuildCrateList bs dt all_targets order = Throws e → e = out_of_range)
  ∧ (∀ crate_root deps st crate,
       (∀ dep, dep ∈ deps → dep ≠ crate_root →
          ∃ info, lookup st !! dep = Some info ∧ seen info = true
                  ∧ ∀ idx, info_index info = Some idx →
                           idx ≤ length (crate_list st)) →
       add_crate_dependencies crate_root deps st crate
       = Ok (add_edges (omap (recorded_edge crate_root st crate) deps)
                       crate))
  ∧ (∀ crate_root st crate dep info,
       lookup st !! dep = Some info → info_index info = None →
       recorded_edge crate_root st crate dep = None).
Proof.
  split_and!.
  - apply BuildCrateList_failures.
  - intros crate_root deps st crate Hdeps.
    by apply add_crate_dependencies_recorded.
  - intros crate_root st crate dep info Hinfo Hidx. unfold recorded_edge.
    destruct (decide _); [done|]. rewrite Hinfo. cbn. by rewrite Hidx.
Qed.

End ConstructionFacts.

(** ** The writer *)

Section WriterFacts.
Context {helpers : Helpers}.
Variable bs : BuildSettings.

Lemma occurrences_app (k : Chunk) (l1 l2 : list Chunk) :
  occurrences k (l1 ++ l2) = occurrences k l1 + occurrences k l2.
Proof. unfold occurrences. by rewrite filter_app, length_app. Qed.

Lemma occurrences_not_elem_of (k : Chunk) (l : list Chunk) :
  occurrences k l = 0 → k ∉ l.
Proof.
  unfold occurrences. intros Hnil%length_zero_iff_nil.
  by eapply filter_nil_not_elem_of.
Qed.

Lemma occurrences_separated {A} (k : Chunk) (sep : list Chunk)
    (item : A → list Chunk) (first : bool) (l : list A) :
  occurrences k sep = 0 → (∀ x, occurrences k (item x) = 0) →
  occurrences k (separated sep item first l) = 0.
Proof.
  intros Hsep Hitem. revert first.
  induction l as [|x l IH]; intros first; [done|].
  cbn [separated]. rewrite !occurrences_app, Hitem, IH.
  destruct first; [done|by rewrite Hsep].
Qed.

Local Ltac count_literals :=
  unfold crate_open, cfg_open, env_open, is_proc_macro_line, NEWLINE;
  destruct OS_WINDOWS; vm_compute; reflexivity.

Local Ltac count_loop :=
  apply occurrences_separated; [|intros ?]; count_literals.

Lemma occurrences_write_gen_dir (k : Chunk) (crate : Crate) :
  k ∈ [crate_open; cfg_open; env_open; is_proc_macro_line] →
  occurrences k (write_gen_dir bs crate) = 0.
Proof.
  intros Hk. unfold write_gen_dir.
  repeat (apply elem_of_cons in Hk as [->|Hk]);
    [..|by apply elem_of_nil in Hk];
    destruct (gen_dir crate); count_literals.
Qed.

Lemma occurrences_write_target (k : Chunk) (crate : Crate) :
  k ∈ [crate_open; cfg_open; env_open; is_proc_macro_line] →
  occurrences k (write_target crate) = 0.
Proof.
  intros Hk. unfold write_target.
  repeat (apply elem_of_cons in Hk as [->|Hk]);
    [..|by apply elem_of_nil in Hk];
    destruct (CompilerTarget crate); count_literals.
Qed.

Lemma occurrences_write_compiler_args (k : Chunk) (crate : Crate) :
  k ∈ [crate_open; cfg_open; env_open; is_proc_macro_line] →
  occurrences k (write_compiler_args crate) = 0.
Proof.
  intros Hk. unfold write_compiler_args.
  destruct (CompilerArgs crate) as [|arg args]; [done|].
  rewrite !occurrences_app.
  repeat (apply elem_of_cons in Hk as [->|Hk]);
    [..|by apply elem_of_nil in Hk].
  all: rewrite occurrences_separated; [| count_literals | intros ?; count_literals].
  all: count_literals.
Qed.

Lemma occurrences_write_deps (k : Chunk) (crate : Crate) :
  k ∈ [crate_open; cfg_open; env_open; is_proc_macro_line] →
  occurrences k (write_deps crate) = 0.
Proof.
  intros Hk. unfold write_deps. rewrite !occurrences_app.
  repeat (apply elem_of_cons in Hk as [->|Hk]);
    [..|by apply elem_of_nil in Hk].
  all: rewrite occurrences_separated;
    [| count_literals | intros ?; count_literals].
  all: count_literals.
Qed.

Lemma occurrences_write_proc_macro (k : Chunk) (crate : Crate) :
  k ∈ [crate_open; cfg_open; env_open] →
  occurrences k (write_proc_macro bs crate) = 0.
Proof.
  intros Hk. unfold write_proc_macro.
  repeat (apply elem_of_cons in Hk as [->|Hk]);
    [..|by apply elem_of_nil in Hk];
    destruct (proc_macro_path crate); count_literals.
Qed.

Lemma is_proc_macro_line_write_proc_macro (crate : Crate) :
  occurrences is_proc_macro_line (write_proc_macro bs crate)
  = if proc_macro_path crate is Some _ then 1 else 0.
Proof.
  unfold write_proc_macro. destruct (proc_macro_path crate); count_literals.
Qed.

Lemma occurrences_write_cfg (k : Chunk) (crate : Crate) :
  k ∈ [crate_open; env_open; is_proc_macro_line] →
  occurrences k (write_cfg crate) = 0.
Proof.
  intros Hk. unfold write_cfg. rewrite !occurrences_app.
  repeat (apply elem_of_cons in Hk as [->|Hk]);
    [..|by apply elem_of_nil in Hk].
  all: rewrite occurrences_separated;
    [| count_literals | intros ?; count_literals].
  all: count_literals.
Qed.

Lemma cfg_open_write_cfg (crate : Crate) :
  occurrences cfg_open (write_cfg crate) = 1.
Proof.
  unfold write_cfg. rewrite !occurrences_app.
  rewrite occurrences_separated;
    [| count_literals | intros ?; count_literals].
  count_literals.
Qed.

Lemma occurrences_write_env (k : Chunk) (crate : Crate) :
  k ∈ [crate_open; cfg_open; is_proc_macro_line] →
  occurrences k (write_env crate) = 0.
Proof.
  intros Hk. unfold write_env.
  destruct (rustenv_is_empty (crate_rustenv crate)).
  { repeat (apply elem_of_cons in Hk as [->|Hk]);
      [..|by apply elem_of_nil in Hk]; count_literals. }
  rewrite !occurrences_app.
  repeat (apply elem_of_cons in Hk as [->|Hk]);
    [..|by apply elem_of_nil in Hk].
  all: rewrite occurrences_separated;
    [| count_literals | intros ?; count_literals].
  all: count_literals.
Qed.

Lemma env_open_write_env (crate : Crate) :
  occurrences env_open (write_env crate)
  = if rustenv_is_empty (crate_rustenv crate) then 0 else 1.
Proof.
  unfold write_env. destruct (rustenv_is_empty (crate_rustenv crate)).
  { count_literals. }
  rewrite !occurrences_app.
  rewrite occurrences_separated;
    [| count_literals | intros ?; count_literals].
  count_literals.
Qed.

(** The four counts for the chunks of one element of [crates]. *)
Lemma occurrences_write_crate (crate : Crate) :
  occurrences crate_open (write_crate bs crate) = 1
  ∧ occurrences cfg_open (write_crate bs crate) = 1
  ∧ occurrences env_open (write_crate bs crate)
    = (if rustenv_is_empty (crate_rustenv crate) then 0 else 1)
  ∧ occurrences is_proc_macro_line (write_crate bs crate)
    = (if proc_macro_path crate is Some _ then 1 else 0).
Proof.
  unfold write_crate. rewrite !occurrences_app.
  rewrite cfg_open_write_cfg, env_open_write_env,
    is_proc_macro_line_write_proc_macro.
  rewrite !occurrences_write_gen_dir, !occurrences_write_target,
    !occurrences_write_compiler_args, !occurrences_write_deps,
    !occurrences_write_proc_macro, !occurrences_write_cfg,
    !occurrences_write_env by (rewrite !elem_of_cons; tauto).
  split_and!;
    try destruct (rustenv_is_empty (crate_rustenv crate));
    try destruct (proc_macro_path crate);
    count_literals.
Qed.

Lemma occurrences_separated_sum {A} (k : Chunk) (sep : list Chunk)
    (item : A → list Chunk) (first : bool) (l : list A) :
  occurrences k sep = 0 →
  occurrences k (separated sep item first l)
  = sum_list ((λ x, occurrences k (item x)) <$> l).
Proof.
  intros Hsep. revert first.
  induction l as [|x l IH]; intros first; [done|].
  cbn [separated fmap list_fmap sum_list]. rewrite !occurrences_app, IH.
  destruct first; [done|by rewrite Hsep].
Qed.

Lemma sum_list_ones {A} (f : A → nat) (l : list A) :
  (∀ x, f x = 1) → sum_list (f <$> l) = length l.
Proof.
  intros Hf. induction l as [|x l IH]; [done|]. cbn. by rewrite Hf, IH.
Qed.

Lemma sum_list_indicator {A} (f : A → nat) (P : A → Prop)
    `{∀ x, Decision (P x)} (l : list A) :
  (∀ x, f x = if decide (P x) then 1 else 0) →
  sum_list (f <$> l) = length (filter P l).
Proof.
  intros Hf. induction l as [|x l IH]; [done|].
  cbn [fmap list_fmap sum_list]. rewrite filter_cons, Hf, IH.
  by destruct (decide (P x)).
Qed.

Lemma occurrences_WriteCrates (k : Chunk) (crates : list Crate) :
  k ∈ [crate_open; cfg_open; env_open; is_proc_macro_line] →
  occurrences k (WriteCrates bs crates)
  = sum_list ((λ crate, occurrences k (write_crate bs crate)) <$> crates).
Proof.
  intros Hk. unfold WriteCrates. rewrite !occurrences_app.
  rewrite (occurrences_separated_sum k [Lit ","]).
  2:{ repeat (apply elem_of_cons in Hk as [->|Hk]);
        [..|by apply elem_of_nil in Hk]; count_literals. }
  assert (occurrences k [Lit ("{" +:+ NEWLINE);
                         Lit ("  " +:+ dq +:+ "crates" +:+ dq +:+ ": [")] = 0
          ∧ occurrences k [Lit (NEWLINE +:+ "  ]" +:+ NEWLINE);
                           Lit ("}" +:+ NEWLINE)] = 0) as [-> ->]; [|lia].
  repeat (apply elem_of_cons in Hk as [->|Hk]);
    [..|by apply elem_of_nil in Hk]; split; count_literals.
Qed.

Lemma length_filter_none {A} (P : A → Prop) `{∀ x, Decision (P x)}
    (l : list A) :
  (∀ x, x ∈ l → ¬ P x) → length (filter P l) = 0.
Proof.
  induction l as [|x l IH]; intros Hall; [done|].
  rewrite filter_cons_False by (apply Hall; left).
  apply IH. intros y Hy. apply Hall. by right.
Qed.

(** X25.  Among the operands that [WriteCrates] sends to the stream for a
    crate list, the literal that opens an element of [crates] and the
    literal of the key [cfg] each occur once for every record, the literal
    of the key [env] once for every record whose environment container is
    not empty, and the literal of the line [is_proc_macro] once for every
    record with a proc-macro artifact.  For a list without environment
    entries and without proc-macro artifacts the last two literals are not
    sent at all.  This is about the literals of the source, not about the
    values written between them. *)
Theorem WriteCrates_shape (crates : list Crate) :
  occurrences crate_open (WriteCrates bs crates) = length crates
  ∧ occurrences cfg_open (WriteCrates bs crates) = length crates
  ∧ occurrences env_open (WriteCrates bs crates)
    = length (filter (λ crate, rustenv_is_empty (crate_rustenv crate) = false)
                     crates)
  ∧ occurrences is_proc_macro_line (WriteCrates bs crates)
    = length (filter (λ crate, is_Some (proc_macro_path crate)) crates)
  ∧ (∀ crate, crate ∈ crates →
       occurrences crate_open (write_crate bs crate) = 1
       ∧ occurrences cfg_open (write_crate bs crate) = 1
       ∧ (rustenv_is_empty (crate_rustenv crate) = true →
          env_open ∉ write_crate bs crate)
       ∧ (rustenv_is_empty (crate_rustenv crate) = false →
          occurrences env_open (write_crate bs crate) = 1)
       ∧ (proc_macro_path crate = None →
          is_proc_macro_line ∉ write_crate bs crate))
  ∧ ((∀ crate, crate ∈ crates →
        rustenv_is_empty (crate_rustenv crate) = true
        ∧ proc_macro_path crate = None) →
     (env_open ∉ WriteCrates bs crates)
     ∧ (is_proc_macro_line ∉ WriteCrates bs crates)).
Proof.
  assert (occurrences env_open (WriteCrates bs crates)
          = length (filter (λ crate, rustenv_is_empty (crate_rustenv crate)
                                     = false) crates)) as Henv.
  { rewrite occurrences_WriteCrates by (rewrite !elem_of_cons; tauto).
    apply sum_list_indicator. intros crate.
    destruct (occurrences_write_crate crate) as (_ & _ & -> & _).
    by destruct (rustenv_is_empty (crate_rustenv crate)). }
  assert (occurrences is_proc_macro_line (WriteCrates bs crates)
          = length (filter (λ crate, is_Some (proc_macro_path crate))
                           crates)) as Hmacro.
  { rewrite occurrences_WriteCrates by (rewrite !elem_of_cons; tauto).
    apply sum_list_indicator. intros crate.
    destruct (occurrences_write_crate crate) as (_ & _ & _ & ->).
    destruct (proc_macro_path crate); [by rewrite decide_True|].
    rewrite decide_False; [done|]. by intros [??]. }
  split_and!; [| |done|done| |].
  - rewrite occurrences_WriteCrates by (rewrite !elem_of_cons; tauto).
    apply sum_list_ones. intros crate.
    by destruct (occurrences_write_crate crate) as (-> & _).
  - rewrite occurrences_WriteCrates by (rewrite !elem_of_cons; tauto).
    apply sum_list_ones. intros crate.
    by destruct (occurrences_write_crate crate) as (_ & -> & _).
  - intros crate _.
    destruct (occurrences_write_crate crate) as (H1 & H2 & H3 & H4).
    split_and!; [done|done|..].
    + intros Hempty. apply occurrences_not_elem_of. by rewrite H3, Hempty.
    + intros Hempty. by rewrite H3, Hempty.
    + intros Hnone. apply occurrences_not_elem_of. by rewrite H4, Hnone.
  - intros Hall. split; apply occurrences_not_elem_of.
    + rewrite Henv. apply length_filter_none. intros crate Hin.
      destruct (Hall crate Hin) as [-> _]. done.
    + rewrite Hmacro. apply length_filter_none. intros crate Hin.
      destruct (Hall crate Hin) as [_ ->]. by intros [??].
Qed.
End WriterFacts.

(** ** The edition in the manifest *)

Section EditionInManifest.
#[local] Existing Instance escaping_helpers.

(** C9.  The edition is written between double quotes as it is, where the
    values of the configuration flags are escaped first.  The library
    whose flag is [--edition=] followed by [injected_keys] gives a crate
    list of one record, with that edition, without environment entries
    and without proc-macro artifact; in the manifest written for it the
    only element of [crates] has the keys [is_proc_macro] and [env], which
    hold [true] and the empty object.  The same text behind [--cfg=] is
    escaped: it is read back unchanged as the third entry of [cfg], and
    the element has neither of the two keys. *)
Theorem edition_written_unescaped :
  let records flag :=
    finished_crates
      (BuildCrateList sample_settings "//tc:default" [flagged_library flag]
                      ["//a/lib.rs"]) in
  let manifest flag :=
    RenderJSON sample_settings "//tc:default" [flagged_library flag]
               ["//a/lib.rs"] in
  option_map
    (map (λ crate, (edition crate, configs crate,
                    rustenv_is_empty (crate_rustenv crate),
                    proc_macro_path crate)))
    (records ("--edition=" +:+ injected_keys))
  = Some [(injected_keys, ["test"; "debug_assertions"], true, None)]
  ∧ manifest_keys (manifest ("--edition=" +:+ injected_keys))
    = Some [["crate_id"; "root_module"; "label"; "source"; "compiler_args";
             "deps"; "edition"; "is_proc_macro"; "env"; "x"; "cfg"]]
  ∧ manifest_members "edition" (manifest ("--edition=" +:+ injected_keys))
    = Some [Some (Manifest.JString "2018")]
  ∧ manifest_members "is_proc_macro"
      (manifest ("--edition=" +:+ injected_keys))
    = Some [Some (Manifest.JBool true)]
  ∧ manifest_members "env" (manifest ("--edition=" +:+ injected_keys))
    = Some [Some (Manifest.JObject [])]
  ∧ option_map
      (map (λ crate, (edition crate, configs crate,
                      rustenv_is_empty (crate_rustenv crate),
                      proc_macro_path crate)))
      (records ("--cfg=" +:+ injected_keys))
    = Some [("2015", ["test"; "debug_assertions"; injected_keys], true, None)]
  ∧ manifest_keys (manifest ("--cfg=" +:+ injected_keys))
    = Some [["crate_id"; "root_module"; "label"; "source"; "compiler_args";
             "deps"; "edition"; "cfg"]]
  ∧ manifest_members "cfg" (manifest ("--cfg=" +:+ injected_keys))
    = Some [Some (Manifest.JArray
                    [Manifest.JString "test";
                     Manifest.JString "debug_assertions";
                     Manifest.JString injected_keys])].
Proof. cbv zeta. split_and!; vm_compute; reflexivity. Qed.

End EditionInManifest.

(** * Further properties *)

(** ** Argument scanners *)

Lemma compare_prefix_cons (c a : Ascii.ascii) (prefix arg : string) :
  compare_prefix (String c prefix) (String a arg)
  = if decide (c = a) then compare_prefix prefix arg else false.
Proof.
  unfold compare_prefix. change (String.prefix (String c prefix) (String a arg))
    with (if Ascii.ascii_dec c a then String.prefix prefix arg else false).
  destruct (Ascii.ascii_dec c a); by case_decide.
Qed.

Lemma compare_prefix_app (prefix v : string) :
  compare_prefix prefix (prefix +:+ v) = true.
Proof.
  induction prefix as [|c p IH]; [by destruct v|].
  change (String c p +:+ v) with (String c (p +:+ v)).
  rewrite compare_prefix_cons. by case_decide.
Qed.

Lemma substr_app (prefix v : string) :
  substr (String.length prefix) (prefix +:+ v) = v.
Proof. induction prefix as [|c p IH]; [by destruct v|exact IH]. Qed.

Lemma compare_prefix_inv (prefix arg : string) :
  compare_prefix prefix arg = true →
  arg = prefix +:+ substr (String.length prefix) arg.
Proof.
  revert arg. induction prefix as [|c p IH]; intros arg.
  - by destruct arg.
  - destruct arg as [|a arg]; [done|]. rewrite compare_prefix_cons.
    case_decide as Hc; [|done]. subst a. intros Hp.
    change (String c arg = String c (p +:+ substr (String.length p) arg)).
    f_equal. by apply IH.
Qed.

Lemma compare_prefix_spec (prefix arg : string) :
  compare_prefix prefix arg = true ↔ ∃ v, arg = prefix +:+ v.
Proof.
  split.
  - intros Hp. eexists. by apply compare_prefix_inv.
  - intros [v ->]. apply compare_prefix_app.
Qed.

Lemma FindArgValueAfterPrefix_head (prefix : string) (args : list string) :
  FindArgValueAfterPrefix prefix args
  = head (FindAllArgValuesAfterPrefix prefix args).
Proof.
  induction args as [|arg args IH]; [done|]. cbn.
  by destruct (compare_prefix prefix arg).
Qed.

Lemma FindAllArgValuesAfterPrefix_app (prefix : string)
    (args1 args2 : list string) :
  FindAllArgValuesAfterPrefix prefix (args1 ++ args2)
  = FindAllArgValuesAfterPrefix prefix args1
    ++ FindAllArgValuesAfterPrefix prefix args2.
Proof.
  induction args1 as [|arg args1 IH]; [done|]. cbn.
  destruct (compare_prefix prefix arg); cbn; by rewrite IH.
Qed.

Lemma elem_of_FindAllArgValuesAfterPrefix (prefix : string)
    (args : list string) (v : string) :
  v ∈ FindAllArgValuesAfterPrefix prefix args ↔ prefix +:+ v ∈ args.
Proof.
  induction args as [|arg args IH]; cbn.
  - by rewrite !elem_of_nil.
  - destruct (compare_prefix prefix arg) eqn:Hp.
    + rewrite !elem_of_cons, IH. split; intros [H|H]; auto.
      * left. rewrite H. symmetry. by apply compare_prefix_inv.
      * left. rewrite <- H. by rewrite substr_app.
    + rewrite elem_of_cons, IH. split; [auto|]. intros [H|H]; [|done].
      rewrite <- H, compare_prefix_app in Hp. done.
Qed.

Lemma FindArgValueAfterPrefix_Some (prefix : string) (args : list string)
    (v : string) :
  FindArgValueAfterPrefix prefix args = Some v ↔
  ∃ i, args !! i = Some (prefix +:+ v)
       ∧ ∀ j arg, j < i → args !! j = Some arg →
                  compare_prefix prefix arg = false.
Proof.
  induction args as [|a args IH]; cbn.
  - split; [done|]. by intros (i & Hi & _).
  - destruct (compare_prefix prefix a) eqn:Hp.
    + split.
      * intros [= <-]. exists 0. split; [|intros; lia].
        cbn. f_equal. by apply compare_prefix_inv.
      * intros ([|i] & Hi & Hfirst).
        -- injection Hi as ->. by rewrite substr_app.
        -- rewrite (Hfirst 0 a) in Hp; [done|lia|done].
    + rewrite IH. split.
      * intros (i & Hi & Hfirst). exists (S i). split; [done|].
        intros [|j] arg Hj; cbn; [by intros [= <-]|].
        apply Hfirst. lia.
      * intros ([|i] & Hi & Hfirst).
        -- injection Hi as ->. by rewrite compare_prefix_app in Hp.
        -- exists i. split; [done|]. intros j arg Hj.
           apply (Hfirst (S j)). lia.
Qed.

Lemma FindArgValueAfterPrefix_None (prefix : string) (args : list string) :
  FindArgValueAfterPrefix prefix args = None ↔
  ∀ arg, arg ∈ args → compare_prefix prefix arg = false.
Proof.
  induction args as [|a args IH]; cbn.
  - split; [|done]. by intros _ arg ?%elem_of_nil.
  - destruct (compare_prefix prefix a) eqn:Hp.
    + split; [done|]. intros Hall. rewrite Hall in Hp; [done|].
      apply elem_of_cons. by left.
    + rewrite IH. split.
      * intros Hall arg [->|?]%elem_of_cons; [done|by apply Hall].
      * intros Hall arg ?. apply Hall, elem_of_cons. by right.
Qed.

(** X1.  [FindArgValueAfterPrefix] returns the rest of the first argument
    that starts with the prefix: it returns [v] exactly when some argument
    is the prefix followed by [v] and no argument before it starts with the
    prefix, and it returns nothing exactly when no argument starts with the
    prefix. *)
Theorem FindArgValueAfterPrefix_first_match (prefix : string)
    (args : list string) :
  (∀ v, FindArgValueAfterPrefix prefix args = Some v ↔
        ∃ i, args !! i = Some (prefix +:+ v)
             ∧ ∀ j arg, j < i → args !! j = Some arg →
                        ∀ w, arg ≠ prefix +:+ w)
  ∧ (FindArgValueAfterPrefix prefix args = None ↔
     ∀ arg w, arg ∈ args → arg ≠ prefix +:+ w).
Proof.
  assert (∀ arg, compare_prefix prefix arg = false ↔
                 ∀ w, arg ≠ prefix +:+ w) as Hno.
  { intros arg. rewrite <- not_true_iff_false, compare_prefix_spec.
    naive_solver. }
  split.
  - intros v. rewrite FindArgValueAfterPrefix_Some.
    split; intros (i & Hi & Hfirst); exists i; (split; [done|]);
      intros j arg Hj Harg; apply Hno; eauto.
  - rewrite FindArgValueAfterPrefix_None.
    split; intros Hall arg; [intros w Harg; by apply Hno, Hall|].
    intros Harg. apply Hno. intros w. by apply Hall.
Qed.

(** X2.  [FindAllArgValuesAfterPrefix] collects, in the order of the
    arguments, the rest of every argument that starts with the prefix: [v]
    is collected exactly when the prefix followed by [v] is an argument,
    the scan of a concatenation is the concatenation of the scans, a list
    of prefixed values gives back the values, and the first value collected
    is the result of [FindArgValueAfterPrefix]. *)
Theorem FindAllArgValuesAfterPrefix_all_matches (prefix : string) :
  (∀ args v,
     v ∈ FindAllArgValuesAfterPrefix prefix args ↔ prefix +:+ v ∈ args)
  ∧ (∀ args1 args2,
       FindAllArgValuesAfterPrefix prefix (args1 ++ args2)
       = FindAllArgValuesAfterPrefix prefix args1
         ++ FindAllArgValuesAfterPrefix prefix args2)
  ∧ (∀ vs,
       FindAllArgValuesAfterPrefix prefix ((λ v, prefix +:+ v) <$> vs) = vs)
  ∧ (∀ args,
       head (FindAllArgValuesAfterPrefix prefix args)
       = FindArgValueAfterPrefix prefix args).
Proof.
  split_and!.
  - apply elem_of_FindAllArgValuesAfterPrefix.
  - apply FindAllArgValuesAfterPrefix_app.
  - intros vs. induction vs as [|v vs IH]; [done|]. cbn.
    by rewrite compare_prefix_app, substr_app, IH.
  - intros args. by rewrite FindArgValueAfterPrefix_head.
Qed.

(** ** What a call of [AddCrate] leaves alone, and the record it appends *)

Section MoreConstructionFacts.
Context {helpers : Helpers}.
Variable bs : BuildSettings.
Variable dt : Label.

Local Abbreviation visit fuel crate_root :=
  (λ (st : State) (dep : SourceFile),
     if decide (dep = crate_root) then Ok st
     else AddCrate fuel bs dt dep st).

(** *** What a call leaves alone *)

Lemma AddCrate_seen_frozen (fuel : nat) (k : SourceFile) (info : CrateInfo) :
  seen info = true →
  ∀ crate_root st st',
    lookup st !! k = Some info →
    AddCrate fuel bs dt crate_root st = Ok st' →
    lookup st' !! k = Some info.
Proof.
  intros Hseen.
  induction fuel as [|fuel IH]; intros crate_root st st' Hk Hrun; [done|].
  apply AddCrate_Ok_inv in Hrun
    as (ci & Hci & [[_ ->]|(Hunseen & main_target & st1 & st2 & c0 & st3
          & c3 & c4 & _ & Hsys & Hloop & _ & _ & _ & _ & _ & _
          & Hsd & _ & ->)]); [done|].
  assert (k ≠ crate_root) as Hne by (intros ->; congruence).
  apply add_sysroot_if_new_lookup in Hsys.
  assert (lookup st2 !! k = Some info) as Hk2.
  { revert Hloop.
    apply (for_each_invariant (λ s, lookup s !! k = Some info)).
    - intros s x s' Hs. destruct (decide _); [by intros [= <-]|]. by apply IH.
    - rewrite Hsys. cbn. by rewrite lookup_alter_ne. }
  apply add_sysroot_dependencies_edges in Hsd as (Hl3 & _).
  cbn [lookup]. rewrite Hl3. cbn. by rewrite lookup_alter_ne.
Qed.

Lemma add_sysroot_if_new_prefix (s : string) (st st' : State) :
  add_sysroot_if_new bs s st = Ok st' →
  crate_list st `prefix_of` crate_list st'.
Proof.
  unfold add_sysroot_if_new. destruct (decide _) as [[_ Hnew]|_];
    [|by intros [= <-]].
  rewrite AddSysroot_fresh by done. intros [= <-]. cbn. by apply prefix_app_r.
Qed.

Lemma AddCrate_prefix (fuel : nat) :
  ∀ crate_root st st',
    AddCrate fuel bs dt crate_root st = Ok st' →
    crate_list st `prefix_of` crate_list st'.
Proof.
  induction fuel as [|fuel IH]; intros crate_root st st' Hrun; [done|].
  apply AddCrate_Ok_inv in Hrun
    as (ci & Hci & [[_ ->]|(Hunseen & main_target & st1 & st2 & c0 & st3
          & c3 & c4 & _ & Hsys & Hloop & _ & _ & _ & _ & _ & _
          & Hsd & _ & ->)]); [done|].
  apply add_sysroot_if_new_prefix in Hsys. cbn in Hsys.
  assert (crate_list st1 `prefix_of` crate_list st2) as H12.
  { revert Hloop.
    apply (for_each_invariant
             (λ s, crate_list st1 `prefix_of` crate_list s)); [|done].
    intros s x s' Hs. destruct (decide _); [by intros [= <-]|].
    intros Hx%IH. by etrans. }
  apply add_sysroot_dependencies_edges in Hsd as (_ & Hcl3 & _).
  cbn [crate_list]. rewrite Hcl3. cbn.
  etrans; [exact Hsys|]. etrans; [exact H12|]. by apply prefix_app_r.
Qed.

Lemma add_sysroot_if_new_tables (s : string) (st st' : State) :
  add_sysroot_if_new bs s st = Ok st' →
  sysroot_lookup st ⊆ sysroot_lookup st'.
Proof.
  unfold add_sysroot_if_new. destruct (decide _) as [[_ Hnew]|_];
    [|by intros [= <-]].
  rewrite AddSysroot_fresh by done. intros [= <-]. cbn.
  by apply insert_subseteq.
Qed.

Lemma add_sysroot_dependencies_tables main_target s st c st' c' :
  add_sysroot_dependencies main_target s st c = (st', c') →
  sysroot_lookup st ⊆ sysroot_lookup st'.
Proof.
  unfold add_sysroot_dependencies. destruct (decide _); [|by intros [= <- _]].
  destruct (sysroot_lookup st !! s) as [table|] eqn:Htable.
  - rewrite (subscript_present _ _ _ _ Htable). by intros [= <- _].
  - rewrite (subscript_absent _ _ _ Htable). intros [= <- _]. cbn.
    by apply insert_subseteq.
Qed.

Lemma AddCrate_tables (fuel : nat) :
  ∀ crate_root st st',
    AddCrate fuel bs dt crate_root st = Ok st' →
    sysroot_lookup st ⊆ sysroot_lookup st'.
Proof.
  induction fuel as [|fuel IH]; intros crate_root st st' Hrun; [done|].
  apply AddCrate_Ok_inv in Hrun
    as (ci & Hci & [[_ ->]|(Hunseen & main_target & st1 & st2 & c0 & st3
          & c3 & c4 & _ & Hsys & Hloop & _ & _ & _ & _ & _ & _
          & Hsd & _ & ->)]); [done|].
  apply add_sysroot_if_new_tables in Hsys. cbn in Hsys.
  assert (sysroot_lookup st1 ⊆ sysroot_lookup st2) as H12.
  { revert Hloop.
    apply (for_each_invariant
             (λ s, sysroot_lookup st1 ⊆ sysroot_lookup s)); [|done].
    intros s x s' Hs. destruct (decide _); [by intros [= <-]|].
    intros Hx%IH. by etrans. }
  apply add_sysroot_dependencies_tables in Hsd. cbn in Hsd.
  cbn [sysroot_lookup]. etrans; [exact Hsys|]. by etrans.
Qed.


(** *** The appended record, field by field *)

Lemma add_configs_explicit (cfgs : list string) (c : Crate) :
  add_configs cfgs c
  = {| root := root c; crate_targets := crate_targets c;
       gen_dir := gen_dir c; index := index c; name := name c;
       label := label c; edition := edition c;
       configs := configs c ++ cfgs; dependencies := dependencies c;
       CompilerTarget := CompilerTarget c; CompilerArgs := CompilerArgs c;
       proc_macro_path := proc_macro_path c;
       crate_rustenv := crate_rustenv c |}.
Proof.
  revert c. induction cfgs as [|cfg cfgs IH]; intros c.
  - cbn. rewrite app_nil_r. by destruct c.
  - cbn [add_configs foldl]. unfold add_configs in IH. rewrite IH. cbn.
    by rewrite <- app_assoc.
Qed.

Lemma add_target_configs_explicit (main_target : Target)
    (all_targets : list Target) (c : Crate) :
  add_target_configs main_target all_targets c
  = {| root := root c; crate_targets := crate_targets c;
       gen_dir := gen_dir c; index := index c; name := name c;
       label := label c; edition := edition c;
       configs := configs c ++ target_configs main_target all_targets;
       dependencies := dependencies c;
       CompilerTarget := CompilerTarget c; CompilerArgs := CompilerArgs c;
       proc_macro_path := proc_macro_path c;
       crate_rustenv := crate_rustenv c |}.
Proof.
  revert c. induction all_targets as [|t ts IH]; intros c.
  - cbn. rewrite app_nil_r. by destruct c.
  - cbn [add_target_configs foldl target_configs flat_map].
    unfold add_target_configs, target_configs in IH. rewrite IH.
    destruct (decide _); cbn; [done|].
    rewrite add_configs_explicit. cbn. by rewrite <- app_assoc.
Qed.

Lemma add_rustenv_explicit (env_vars : list string) (c : Crate) :
  add_rustenv env_vars c
  = {| root := root c; crate_targets := crate_targets c;
       gen_dir := gen_dir c; index := index c; name := name c;
       label := label c; edition := edition c;
       configs := configs c; dependencies := dependencies c;
       CompilerTarget := CompilerTarget c; CompilerArgs := CompilerArgs c;
       proc_macro_path := proc_macro_path c;
       crate_rustenv := rustenv_of env_vars (crate_rustenv c) |}.
Proof.
  revert c. induction env_vars as [|e env_vars IH]; intros c.
  - by destruct c.
  - cbn [add_rustenv foldl rustenv_of]. unfold add_rustenv, rustenv_of in IH.
    rewrite IH. by destruct (rustenv_entry e) as [[??]|].
Qed.

Lemma set_proc_macro_explicit (main_target : Target) (c : Crate) :
  proc_macro_path c = None →
  set_proc_macro main_target c
  = {| root := root c; crate_targets := crate_targets c;
       gen_dir := gen_dir c; index := index c; name := name c;
       label := label c; edition := edition c;
       configs := configs c; dependencies := dependencies c;
       CompilerTarget := CompilerTarget c; CompilerArgs := CompilerArgs c;
       proc_macro_path := proc_macro_output main_target;
       crate_rustenv := crate_rustenv c |}.
Proof.
  intros Hnone. unfold set_proc_macro, proc_macro_output.
  destruct (decide _).
  - destruct (computed_outputs main_target); cbn; [|done].
    rewrite <- Hnone. by destruct c.
  - rewrite <- Hnone. by destruct c.
Qed.

Lemma AddSysrootDependencyToCrate_explicit (c : Crate)
    (table : gmap string nat) (nm : string) :
  AddSysrootDependencyToCrate c table nm
  = add_edges (omap (λ crate_name,
                       (λ idx, (idx, crate_name)) <$> table !! crate_name)
                    [nm]) c.
Proof.
  unfold AddSysrootDependencyToCrate. cbn.
  destruct (table !! nm); cbn; [done|]. by rewrite add_edges_nil.
Qed.

Lemma add_sysroot_dependencies_present (main_target : Target) (s : string)
    (st : State) (c : Crate) (table : gmap string nat) :
  s ≠ "" → sysroot_lookup st !! s = Some table →
  add_sysroot_dependencies main_target s st c
  = (st, add_edges (sysroot_edges main_target table) c).
Proof.
  intros Hs Htable. unfold add_sysroot_dependencies.
  rewrite decide_True by done. rewrite (subscript_present _ _ _ _ Htable).
  rewrite !AddSysrootDependencyToCrate_explicit.
  unfold sysroot_edges, linked_sysroot_crates.
  destruct st as [lk sl cl]. cbn [lookup sysroot_lookup crate_list].
  destruct (decide (tool_name main_target = kRsToolMacro));
    rewrite !add_edges_add_edges; do 2 f_equal; cbn;
    by destruct (table !! "core"), (table !! "alloc"), (table !! "std"),
                (table !! "proc_macro").
Qed.

Lemma add_crate_dependencies_Ok (crate_root : SourceFile)
    (deps : list SourceFile) (st : State) :
  ∀ crate crate',
    add_crate_dependencies crate_root deps st crate = Ok crate' →
    crate' = add_edges (omap (recorded_edge crate_root st crate) deps) crate.
Proof.
  unfold add_crate_dependencies.
  induction deps as [|dep deps IH]; intros crate crate'.
  { intros [= <-]. cbn. by rewrite add_edges_nil. }
  cbn [for_each omap list_omap]. unfold recorded_edge at 1.
  destruct (decide (dep = crate_root)) as [->|Hne].
  { cbn [mbind outcome_bind]. apply IH. }
  destruct (lookup st !! dep) as [info|]; [|done].
  destruct (seen info); [|done]. cbn [mbind option_bind].
  destruct (info_index info) as [idx|];
    cbn [mbind option_bind outcome_bind]; [|apply IH].
  destruct ((crate_list st ++ [crate]) !! idx) as [dc|]; [|done].
  cbn [mbind option_bind outcome_bind]. intros ->%IH.
  rewrite AddDependency_add_edges, add_edges_add_edges.
  by rewrite omap_recorded_edge_add_edges.
Qed.


Lemma recorded_edge_name (crate_root : SourceFile) (st : State)
    (c c' : Crate) (dep : SourceFile) :
  name c = name c' →
  recorded_edge crate_root st c dep = recorded_edge crate_root st c' dep.
Proof.
  intros Hname. unfold recorded_edge. destruct (decide _); [done|].
  destruct (lookup st !! dep) as [info|]; [|done]. cbn [mbind option_bind].
  destruct (info_index info) as [idx|]; [|done]. cbn [mbind option_bind].
  destruct (decide (idx < length (crate_list st))) as [Hlt|Hge].
  - by rewrite !lookup_app_l by done.
  - rewrite !lookup_app_r by lia.
    destruct (idx - length (crate_list st)); cbn; [by rewrite Hname|done].
Qed.

Lemma omap_recorded_edge_name (crate_root : SourceFile) (st : State)
    (c c' : Crate) (deps : list SourceFile) :
  name c = name c' →
  omap (recorded_edge crate_root st c) deps
  = omap (recorded_edge crate_root st c') deps.
Proof.
  intros Hname. induction deps as [|dep deps IH]; [done|].
  cbn [omap list_omap]. by rewrite (recorded_edge_name _ _ c c'), IH.
Qed.

Lemma recorded_edge_state (crate_root : SourceFile) (st st' : State)
    (c : Crate) (dep : SourceFile) :
  lookup st' = lookup st → crate_list st' = crate_list st →
  recorded_edge crate_root st' c dep = recorded_edge crate_root st c dep.
Proof. unfold recorded_edge. by intros -> ->. Qed.

Lemma add_sysroot_if_new_present (s : string) (st st' : State) :
  s ≠ "" → add_sysroot_if_new bs s st = Ok st' →
  is_Some (sysroot_lookup st' !! s).
Proof.
  intros Hs. unfold add_sysroot_if_new.
  destruct (decide _) as [[_ Hnew]|Hold].
  - rewrite AddSysroot_fresh by done. intros [= <-]. cbn.
    by rewrite lookup_insert_eq.
  - intros [= <-]. destruct (sysroot_lookup st !! s); [done|].
    destruct Hold. done.
Qed.

Lemma for_each_seen_frozen (fuel : nat) (crate_root k : SourceFile)
    (info : CrateInfo) (deps : list SourceFile) (st st' : State) :
  seen info = true → lookup st !! k = Some info →
  for_each (visit fuel crate_root) st deps = Ok st' →
  lookup st' !! k = Some info.
Proof.
  intros Hseen Hk.
  apply (for_each_invariant (λ s, lookup s !! k = Some info)); [|done].
  intros s x s' Hs. destruct (decide _); [by intros [= <-]|].
  by apply AddCrate_seen_frozen.
Qed.

(** A call for a crate that is not marked: the state it returns, written
    out from the state after the neighbours were resolved. *)
Lemma AddCrate_new_record (fuel : nat) (crate_root : SourceFile)
    (st st' : State) (ci : CrateInfo) :
  lookup st !! crate_root = Some ci → seen ci = false →
  AddCrate (S fuel) bs dt crate_root st = Ok st' →
  ∃ main_target st1 st2,
    PreferredTarget dt (targets ci) = Some main_target
    ∧ add_sysroot_if_new bs (tool_sysroot main_target)
                         (mark_seen crate_root st) = Ok st1
    ∧ for_each (visit fuel crate_root) st1
               (gather_crate_deps main_target (targets ci)) = Ok st2
    ∧ lookup st2 !! crate_root
      = Some {| targets := targets ci; seen := true;
                info_index := info_index ci |}
    ∧ st' =
      {| lookup := lookup (assign_index crate_root (length (crate_list st2))
                                        st2);
         sysroot_lookup := sysroot_lookup st2;
         crate_list :=
           crate_list st2
           ++ [crate_record crate_root main_target (targets ci)
                 (length (crate_list st2))
                 ((if decide (tool_sysroot main_target ≠ "")
                   then sysroot_edges main_target
                          (default ∅ (sysroot_lookup st2
                                        !! tool_sysroot main_target))
                   else [])
                  ++ omap (recorded_edge crate_root
                             (assign_index crate_root
                                (length (crate_list st2)) st2)
                             (crate_record crate_root main_target
                                (targets ci) (length (crate_list st2)) []))
                          (gather_crate_deps main_target (targets ci)))] |}.
Proof.
  intros Hci Hunseen. cbn [AddCrate]. rewrite Hci, Hunseen.
  rewrite (targets_at_mark_seen _ _ ci) by done.
  destruct (PreferredTarget dt (targets ci)) as [main_target|]; [|done].
  destruct (add_sysroot_if_new _ _ _) as [st1| |] eqn:Hsys; [|done..].
  cbn [mbind outcome_bind].
  assert (lookup st1 !! crate_root
          = Some {| targets := targets ci; seen := true;
                    info_index := info_index ci |}) as Hroot1.
  { rewrite (add_sysroot_if_new_lookup _ _ _ _ Hsys). cbn.
    by rewrite lookup_alter_eq, Hci. }
  assert (targets_at crate_root st1 = targets ci) as ->
    by (unfold targets_at; by rewrite Hroot1).
  destruct (for_each _ st1 _) as [st2| |] eqn:Hloop; [|done..].
  cbn [mbind outcome_bind].
  assert (lookup st2 !! crate_root
          = Some {| targets := targets ci; seen := true;
                    info_index := info_index ci |}) as Hroot2
    by (by eapply for_each_seen_frozen).
  assert (targets_at crate_root st2 = targets ci) as ->
    by (unfold targets_at; by rewrite Hroot2).
  assert (targets_at crate_root
            (assign_index crate_root (length (crate_list st2)) st2)
          = moved_from (targets ci)) as ->.
  { unfold targets_at, assign_index. cbn.
    by rewrite lookup_alter_eq, Hroot2. }
  set (n := length (crate_list st2)).
  set (stA := assign_index crate_root n st2).
  match goal with
  | |- context [add_sysroot_dependencies _ _ stA ?c] => set (c0 := c)
  end.
  assert (c0 =
          {| root := crate_root; crate_targets := targets ci;
             gen_dir := Some (gen_dir_of main_target); index := n;
             name := crate_name main_target;
             label := label_name main_target;
             edition := edition_of (ExtractCompilerArgs main_target);
             configs :=
               ["test"; "debug_assertions"]
               ++ FindAllArgValuesAfterPrefix "--cfg="
                    (ExtractCompilerArgs main_target)
               ++ target_configs main_target (moved_from (targets ci));
             dependencies := [];
             CompilerTarget :=
               FindArgValue "--target" (ExtractCompilerArgs main_target);
             CompilerArgs := ExtractCompilerArgs main_target;
             proc_macro_path := None;
             crate_rustenv := rustenv_new |}) as Hc0.
  { unfold c0. rewrite add_target_configs_explicit, add_configs_explicit.
    destruct (FindArgValue "--target" (ExtractCompilerArgs main_target));
      cbn; rewrite <- ?app_assoc; reflexivity. }
  clearbody c0.
  assert (add_sysroot_dependencies main_target (tool_sysroot main_target)
                                   stA c0
          = (stA,
             add_edges
               (if decide (tool_sysroot main_target ≠ "")
                then sysroot_edges main_target
                       (default ∅ (sysroot_lookup st2
                                     !! tool_sysroot main_target))
                else []) c0)) as ->.
  { destruct (decide (tool_sysroot main_target ≠ "")) as [Hs|Hs].
    - destruct (add_sysroot_if_new_present _ _ _ Hs Hsys) as [table Htable].
      assert (sysroot_lookup st2 !! tool_sysroot main_target = Some table)
        as Htable2.
      { revert Hloop.
        apply (for_each_invariant
                 (λ s, sysroot_lookup s !! tool_sysroot main_target
                       = Some table)); [|done].
        intros s x s' Hs'. destruct (decide _); [by intros [= <-]|].
        intros Hx%AddCrate_tables. by eapply lookup_weaken. }
      rewrite Htable2. cbn [default].
      by apply add_sysroot_dependencies_present.
    - unfold add_sysroot_dependencies. rewrite decide_False by done.
      by rewrite add_edges_nil. }
  match goal with
  | |- context [add_crate_dependencies ?r ?ds ?s ?c] =>
      destruct (add_crate_dependencies r ds s c) as [c4| |] eqn:Hcd;
        [|done..]
  end.
  cbn [mbind outcome_bind]. intros [= <-].
  exists main_target, st1, st2. split_and!; [done..|].
  apply add_crate_dependencies_Ok in Hcd. rewrite Hcd.
  cbn [lookup sysroot_lookup crate_list]. do 3 f_equal.
  rewrite (omap_recorded_edge_name _ _ _
             (crate_record crate_root main_target (targets ci) n [])).
  2:{ rewrite add_rustenv_explicit. cbn.
      rewrite set_proc_macro_explicit by (by rewrite Hc0). cbn.
      by rewrite Hc0. }
  rewrite add_rustenv_explicit. cbn.
  rewrite set_proc_macro_explicit by (by rewrite Hc0). cbn.
  rewrite Hc0. reflexivity.
Qed.

End MoreConstructionFacts.

(** ** Invariants of the construction *)

Section Invariants.
Context {helpers : Helpers}.
Variable bs : BuildSettings.
Variable dt : Label.

Lemma sysroots_synthesized_grow (st st' : State) :
  sysroot_lookup st' = sysroot_lookup st →
  crate_list st `prefix_of` crate_list st' →
  sysroots_synthesized bs st → sysroots_synthesized bs st'.
Proof.
  intros Htables [new Hlist] Hst s table. rewrite Htables. intros Hs.
  destruct (Hst s table Hs) as (n & -> & Hrecords).
  exists n. split; [done|]. intros k c Hk. rewrite Hlist.
  apply lookup_app_l_Some. by apply Hrecords.
Qed.

Lemma add_sysroot_if_new_synthesized (s : string) (st st' : State) :
  sysroots_synthesized bs st → add_sysroot_if_new bs s st = Ok st' →
  sysroots_synthesized bs st'.
Proof.
  intros Hst. unfold add_sysroot_if_new.
  destruct (decide _) as [[_ Hnew]|_]; [|by intros [= <-]].
  rewrite AddSysroot_fresh by done. intros [= <-] s' table. cbn.
  rewrite lookup_insert. case_decide as Hs.
  - intros [= <-]. subst s'. exists (length (crate_list st)).
    split; [done|]. intros k c Hk. by rewrite lookup_app_plus.
  - intros Hs'. destruct (Hst s' table Hs') as (n & -> & Hrecords).
    exists n. split; [done|]. intros k c Hk.
    apply lookup_app_l_Some. by apply Hrecords.
Qed.

Lemma AddCrate_sysroots_synthesized (fuel : nat) :
  ∀ crate_root st st',
    sysroots_synthesized bs st →
    AddCrate fuel bs dt crate_root st = Ok st' →
    sysroots_synthesized bs st'.
Proof.
  induction fuel as [|fuel IH]; intros crate_root st st' Hst Hrun; [done|].
  pose proof Hrun as Hinv.
  apply AddCrate_Ok_inv in Hinv
    as (ci & Hci & [[_ ->]|(Hunseen & _)]); [done|].
  destruct (AddCrate_new_record bs dt _ _ _ _ _ Hci Hunseen Hrun)
    as (main_target & st1 & st2 & _ & Hsys & Hloop & _ & ->).
  apply add_sysroot_if_new_synthesized in Hsys; [|done].
  assert (sysroots_synthesized bs st2) as Hst2.
  { revert Hloop.
    apply (for_each_invariant (sysroots_synthesized bs)); [|done].
    intros s x s' Hs. destruct (decide (x = crate_root)); [by intros [= <-]|].
    by apply IH. }
  apply (sysroots_synthesized_grow st2); [done| |done].
  cbn. by apply prefix_app_r.
Qed.

Lemma registry_consistent_mark_seen (crate_root : SourceFile) (st : State) :
  registry_consistent st → registry_consistent (mark_seen crate_root st).
Proof.
  intros (H1 & H2 & H3). split_and!.
  - intros k info h. cbn. rewrite lookup_alter_Some.
    intros [(_ & info' & Hk & ->)|[_ Hk]]; cbn; by eapply H1.
  - intros i c Hi Hgen. destruct (H2 i c Hi Hgen) as (info & Hinfo & Hidx).
    cbn. destruct (decide (crate_root = root c)) as [->|Hne].
    + eexists. rewrite lookup_alter_eq, Hinfo. cbn. done.
    + exists info. by rewrite lookup_alter_ne.
  - intros k info. cbn. rewrite lookup_alter_Some.
    intros [(_ & info' & Hk & ->)|[_ Hk]]; cbn; [done|]. by eapply H3.
Qed.

Lemma synthesized_crates_gen_dir (s : string) (n : nat) (c : Crate) :
  c ∈ synthesized_crates bs s n → gen_dir c = None.
Proof.
  unfold synthesized_crates. intros Hc.
  repeat (apply elem_of_cons in Hc as [->|Hc]; [done|]).
  by apply elem_of_nil in Hc.
Qed.

Lemma add_sysroot_if_new_consistent (s : string) (st st' : State) :
  registry_consistent st → add_sysroot_if_new bs s st = Ok st' →
  registry_consistent st'.
Proof.
  intros (H1 & H2 & H3). unfold add_sysroot_if_new.
  destruct (decide _) as [[_ Hnew]|_]; [|by intros [= <-]].
  rewrite AddSysroot_fresh by done. intros [= <-]. split_and!; cbn.
  - intros k info h Hk Hh. destruct (H1 k info h Hk Hh) as (c & Hc & ?).
    exists c. split; [by apply lookup_app_l_Some|done].
  - intros i c Hi Hgen. apply lookup_app_Some in Hi as [Hi|[_ Hi]].
    + by apply H2.
    + apply list_elem_of_lookup_2, synthesized_crates_gen_dir in Hi.
      rewrite Hi in Hgen. by destruct Hgen.
  - done.
Qed.

Lemma AddCrate_consistent (fuel : nat) :
  ∀ crate_root st st',
    registry_consistent st →
    AddCrate fuel bs dt crate_root st = Ok st' →
    registry_consistent st'.
Proof.
  induction fuel as [|fuel IH]; intros crate_root st st' Hst Hrun; [done|].
  pose proof Hrun as Hinv.
  apply AddCrate_Ok_inv in Hinv
    as (ci & Hci & [[_ ->]|(Hunseen & _)]); [done|].
  destruct (AddCrate_new_record bs dt _ _ _ _ _ Hci Hunseen Hrun)
    as (main_target & st1 & st2 & _ & Hsys & Hloop & Hroot2 & ->).
  assert (info_index ci = None) as Hnone
    by (destruct Hst as (_ & _ & H3); by eapply H3).
  apply add_sysroot_if_new_consistent in Hsys;
    [|by apply registry_consistent_mark_seen].
  assert (registry_consistent st2) as (H1 & H2 & H3).
  { revert Hloop. apply (for_each_invariant registry_consistent); [|done].
    intros s x s' Hs. destruct (decide (x = crate_root)); [by intros [= <-]|].
    by apply IH. }
  split_and!; cbn.
  - intros k info h. rewrite lookup_alter_Some.
    intros [(<- & info' & Hk & ->)|[_ Hk]]; cbn.
    + intros [= <-]. eexists. rewrite lookup_app_r by done.
      rewrite Nat.sub_diag. cbn. split; [done|]. by cbn.
    + intros Hh. destruct (H1 k info h Hk Hh) as (c & Hc & ?).
      exists c. split; [by apply lookup_app_l_Some|done].
  - intros i c Hi Hgen. apply lookup_app_Some in Hi as [Hi|[Hge Hi]].
    + destruct (H2 i c Hi Hgen) as (info & Hinfo & Hidx).
      exists info. rewrite lookup_alter_ne; [done|]. intros Heq.
      rewrite <- Heq, Hroot2 in Hinfo. injection Hinfo as <-.
      cbn in Hidx. congruence.
    + apply list_lookup_singleton_Some in Hi as [Hi <-].
      assert (i = length (crate_list st2)) as -> by lia. clear Hgen.
      cbn [root crate_record]. eexists.
      rewrite lookup_alter_eq, Hroot2. by cbn.
  - intros k info. rewrite lookup_alter_Some.
    intros [(<- & info' & Hk & ->)|[_ Hk]]; cbn; [|by eapply H3].
    rewrite Hroot2 in Hk. by injection Hk as <-.
Qed.

Lemma for_each_reflects {S A} (P : S → Prop) (body : S → A → outcome S)
    (l : list A) :
  (∀ st x st', body st x = Ok st' → P st' → P st) →
  ∀ st st', for_each body st l = Ok st' → P st' → P st.
Proof.
  intros Hbody. induction l as [|x l IH]; intros st st'.
  - by intros [= <-].
  - cbn [for_each]. destruct (body st x) as [st1| |] eqn:Hx; [|done..].
    cbn [mbind outcome_bind]. intros Hl Hst'. eapply Hbody; [done|].
    by eapply IH.
Qed.

Lemma AddCrate_in_progress (fuel : nat) (k : SourceFile) :
  ∀ crate_root st st',
    AddCrate fuel bs dt crate_root st = Ok st' →
    in_progress k st' → in_progress k st.
Proof.
  induction fuel as [|fuel IH]; intros crate_root st st' Hrun; [done|].
  pose proof Hrun as Hinv.
  apply AddCrate_Ok_inv in Hinv
    as (ci & Hci & [[_ ->]|(Hunseen & _)]); [done|].
  destruct (AddCrate_new_record bs dt _ _ _ _ _ Hci Hunseen Hrun)
    as (main_target & st1 & st2 & _ & Hsys & Hloop & Hroot2 & ->).
  intros (info & Hk & Hseen & Hidx). cbn in Hk.
  apply lookup_alter_Some in Hk as [(_ & info' & _ & ->)|[Hne Hk]]; [done|].
  assert (in_progress k st2) as Hk2 by (by exists info).
  assert (in_progress k st1) as (info1 & Hk1 & Hseen1 & Hidx1).
  { revert Hloop Hk2. apply for_each_reflects.
    intros s x s'. destruct (decide (x = crate_root)); [by intros [= <-]|].
    apply IH. }
  rewrite (add_sysroot_if_new_lookup _ _ _ _ Hsys) in Hk1. cbn in Hk1.
  rewrite lookup_alter_ne in Hk1 by done. by exists info1.
Qed.

End Invariants.

(** ** A proof rule for the runs of [AddCrate] *)

Section RunRule.
Context {helpers : Helpers}.
Variable bs : BuildSettings.
Variable dt : Label.

Local Abbreviation visit fuel crate_root :=
  (λ (st : State) (dep : SourceFile),
     if decide (dep = crate_root) then Ok st
     else AddCrate fuel bs dt dep st).

(** A call for a crate that is not marked, with what is known of the state
    [st2] from which the record is appended. *)
Lemma AddCrate_appended (fuel : nat) (crate_root : SourceFile)
    (st st' : State) (ci : CrateInfo) :
  lookup st !! crate_root = Some ci → seen ci = false →
  AddCrate (S fuel) bs dt crate_root st = Ok st' →
  ∃ main_target st1 st2,
    PreferredTarget dt (targets ci) = Some main_target
    ∧ add_sysroot_if_new bs (tool_sysroot main_target)
                         (mark_seen crate_root st) = Ok st1
    ∧ for_each (visit fuel crate_root) st1
               (gather_crate_deps main_target (targets ci)) = Ok st2
    ∧ lookup st2 !! crate_root
      = Some {| targets := targets ci; seen := true;
                info_index := info_index ci |}
    ∧ (tool_sysroot main_target ≠ "" →
       is_Some (sysroot_lookup st2 !! tool_sysroot main_target))
    ∧ (∀ dep, dep ∈ gather_crate_deps main_target (targets ci) →
              dep ≠ crate_root → is_seen dep st2)
    ∧ st' = appended crate_root main_target (targets ci) st2.
Proof.
  intros Hci Hunseen Hrun.
  destruct (AddCrate_new_record bs dt _ _ _ _ _ Hci Hunseen Hrun)
    as (main_target & st1 & st2 & Hmain & Hsys & Hloop & Hroot2 & ->).
  exists main_target, st1, st2. split_and!; try done.
  - intros Hs. destruct (add_sysroot_if_new_present bs _ _ _ Hs Hsys)
      as [table Htable].
    exists table. revert Hloop.
    apply (for_each_invariant
             (λ s, sysroot_lookup s !! tool_sysroot main_target
                   = Some table)); [|done].
    intros s x s' Hs'. destruct (decide (x = crate_root));
      [by intros [= <-]|].
    intros Hx. by eapply lookup_weaken, AddCrate_tables.
  - by eapply neighbours_seen.
Qed.

Lemma well_formed_mark_seen (crate_root : SourceFile) (st : State) :
  well_formed bs st → well_formed bs (mark_seen crate_root st).
Proof.
  intros (Hidx & Hreg & Hsys). split_and!.
  - by apply well_indexed_mark_seen.
  - by apply registry_consistent_mark_seen.
  - by apply (sysroots_synthesized_grow bs st).
Qed.

Lemma add_sysroot_if_new_well_formed (s : string) (st st' : State) :
  well_formed bs st → add_sysroot_if_new bs s st = Ok st' →
  well_formed bs st'.
Proof.
  intros (Hidx & Hreg & Hsys) Hrun. split_and!.
  - by eapply add_sysroot_if_new_well_indexed.
  - by eapply add_sysroot_if_new_consistent.
  - by eapply add_sysroot_if_new_synthesized.
Qed.

Lemma AddCrate_well_formed (fuel : nat) (crate_root : SourceFile)
    (st st' : State) :
  well_formed bs st → AddCrate fuel bs dt crate_root st = Ok st' →
  well_formed bs st'.
Proof.
  intros (Hidx & Hreg & Hsys) Hrun. split_and!.
  - by eapply AddCrate_well_indexed.
  - by eapply AddCrate_consistent.
  - by eapply AddCrate_sysroots_synthesized.
Qed.

Lemma initial_well_formed (all_targets : list Target) :
  well_formed bs {| lookup := collect_crates all_targets;
                    sysroot_lookup := ∅; crate_list := [] |}.
Proof.
  split_and!.
  - apply initial_well_indexed.
  - split_and!; cbn.
    + intros k info h Hk Hh.
      apply collect_crates_fresh in Hk as (_ & Hnone & _). congruence.
    + by intros i crate ?.
    + intros k info Hk _. by apply collect_crates_fresh in Hk as (_ & ? & _).
  - intros s table. cbn. by rewrite lookup_empty.
Qed.

Section Rule.
Variable P : State → Prop.

Hypothesis P_mark_seen :
  ∀ crate_root ci st,
    well_formed bs st → P st →
    lookup st !! crate_root = Some ci → seen ci = false →
    P (mark_seen crate_root st).

Hypothesis P_sysroot :
  ∀ sysroot st st',
    well_formed bs st → P st →
    add_sysroot_if_new bs sysroot st = Ok st' → P st'.

Hypothesis P_appended :
  ∀ crate_root ci main_target st0 st2,
    well_formed bs st0 → P st0 →
    lookup st0 !! crate_root = Some ci → seen ci = false →
    well_formed bs st2 → P st2 →
    lookup st2 !! crate_root
    = Some {| targets := targets ci; seen := true;
              info_index := info_index ci |} →
    PreferredTarget dt (targets ci) = Some main_target →
    (tool_sysroot main_target ≠ "" →
     is_Some (sysroot_lookup st2 !! tool_sysroot main_target)) →
    (∀ dep, dep ∈ gather_crate_deps main_target (targets ci) →
            dep ≠ crate_root → is_seen dep st2) →
    P (appended crate_root main_target (targets ci) st2).

Lemma AddCrate_rule (fuel : nat) :
  ∀ crate_root st st',
    well_formed bs st → P st →
    AddCrate fuel bs dt crate_root st = Ok st' → P st'.
Proof.
  induction fuel as [|fuel IH]; intros crate_root st st' Hwf Hst Hrun;
    [done|].
  pose proof Hrun as Hinv.
  apply AddCrate_Ok_inv in Hinv
    as (ci & Hci & [[_ ->]|(Hunseen & _)]); [done|].
  destruct (AddCrate_appended _ _ _ _ _ Hci Hunseen Hrun)
    as (main_target & st1 & st2 & Hmain & Hsys & Hloop & Hroot2
        & Htable & Hseen & ->).
  assert (well_formed bs st2 ∧ P st2) as [Hwf2 Hst2].
  { revert Hloop.
    apply (for_each_invariant (λ s, well_formed bs s ∧ P s)).
    - intros s x s' [Hwfs Hs]. destruct (decide (x = crate_root));
        [by intros [= <-]|].
      intros Hx. split; [by eapply AddCrate_well_formed|by eapply IH].
    - split.
      + eapply add_sysroot_if_new_well_formed; [|done].
        by apply well_formed_mark_seen.
      + eapply P_sysroot; [|by eapply P_mark_seen|done].
        by apply well_formed_mark_seen. }
  by apply (P_appended _ ci _ st).
Qed.

Lemma BuildCrateList_rule (all_targets : list Target)
    (order : list SourceFile) (st : State) :
  P {| lookup := collect_crates all_targets; sysroot_lookup := ∅;
       crate_list := [] |} →
  BuildCrateList bs dt all_targets order = Ok st →
  well_formed bs st ∧ P st.
Proof.
  intros Hstart. unfold BuildCrateList.
  apply (for_each_invariant (λ s, well_formed bs s ∧ P s)).
  - intros s x s' [Hwf Hs] Hx.
    split; [by eapply AddCrate_well_formed|by eapply AddCrate_rule].
  - split; [apply initial_well_formed|done].
Qed.

End Rule.
End RunRule.

(** ** Coherence of the registry, the tables and the crate list *)

Section Coherence.
Context {helpers : Helpers}.
Variable bs : BuildSettings.
Variable dt : Label.

Lemma add_sysroot_if_new_cases (s : string) (st st' : State) :
  add_sysroot_if_new bs s st = Ok st' →
  st' = st
  ∨ (s ≠ "" ∧ sysroot_lookup st !! s = None
     ∧ st' = {| lookup := lookup st;
                sysroot_lookup :=
                  <[s := synthesized_table (length (crate_list st))]>
                    (sysroot_lookup st);
                crate_list :=
                  crate_list st
                  ++ synthesized_crates bs s (length (crate_list st)) |}).
Proof.
  unfold add_sysroot_if_new.
  destruct (decide _) as [[Hs Hnew]|_]; [|intros [= <-]; by left].
  rewrite AddSysroot_fresh by done. intros [= <-]. by right.
Qed.

Lemma synthesized_table_record (s : string) (n : nat) (nm : string)
    (h : nat) :
  synthesized_table n !! nm = Some h →
  ∃ k deps,
    h = n + k
    ∧ synthesized_crates bs s n !! k
      = Some (sysroot_crate_record bs s h nm deps).
Proof.
  unfold synthesized_table. rewrite !lookup_insert_Some, lookup_empty.
  intros H.
  destruct H as [[<- <-]|[_ H]]; [by exists 7, []|].
  destruct H as [[<- <-]|[_ H]]; [by exists 6, []|].
  destruct H as [[<- <-]|[_ H]]; [by exists 5, []|].
  destruct H as [[<- <-]|[_ H]]; [by eexists 4, _|].
  destruct H as [[<- <-]|[_ H]]; [by exists 3, []|].
  destruct H as [[<- <-]|[_ H]]; [by exists 2, []|].
  destruct H as [[<- <-]|[_ H]]; [by eexists 1, _|].
  destruct H as [[<- <-]|[_ H]]; [|done].
  exists 0, []. split; [lia|done].
Qed.

Lemma elem_of_sysroot_edges (main_target : Target)
    (table : gmap string nat) (h : nat) (nm : string) :
  (h, nm) ∈ sysroot_edges main_target table ↔
  nm ∈ linked_sysroot_crates main_target ∧ table !! nm = Some h.
Proof.
  unfold sysroot_edges. rewrite list_elem_of_omap. split.
  - intros (nm' & Hnm' & Hedge).
    destruct (table !! nm') as [h'|] eqn:Hh'; [|done].
    injection Hedge as <- <-. done.
  - intros [Hnm Hh]. exists nm. by rewrite Hh.
Qed.

Lemma recorded_edge_Some (crate_root : SourceFile) (st : State)
    (crate : Crate) (dep : SourceFile) (h : nat) (nm : string) :
  well_indexed st → registry_consistent st →
  recorded_edge crate_root
    (assign_index crate_root (length (crate_list st)) st) crate dep
  = Some (h, nm) ↔
  dep ≠ crate_root
  ∧ ∃ info dep_crate,
      lookup st !! dep = Some info ∧ info_index info = Some h
      ∧ crate_list st !! h = Some dep_crate ∧ nm = name dep_crate
      ∧ root dep_crate = dep ∧ is_Some (gen_dir dep_crate).
Proof.
  intros (_ & Hbound & _) (Hreg & _ & _). unfold recorded_edge.
  destruct (decide (dep = crate_root)) as [->|Hne]; [naive_solver|].
  cbn [lookup assign_index set_lookup crate_list].
  rewrite lookup_alter_ne by done.
  destruct (lookup st !! dep) as [info|] eqn:Hinfo;
    cbn [mbind option_bind]; [|naive_solver].
  destruct (info_index info) as [idx|] eqn:Hidx;
    cbn [mbind option_bind]; [|naive_solver].
  pose proof (Hbound _ _ _ Hinfo Hidx) as Hlt.
  destruct (Hreg _ _ _ Hinfo Hidx) as (dep_crate & Hdep & Hroot & Hgen).
  rewrite lookup_app_l, Hdep by done. cbn [mbind option_bind]. split.
  - intros [= <- <-]. split; [done|]. by exists info, dep_crate.
  - intros (_ & info' & dep_crate' & [= <-] & Hidx' & Hdep' & -> & _).
    congruence.
Qed.

(** *** [records_described] *)

Lemma records_described_sysroot (s : string) (st st' : State) :
  records_described bs dt st → add_sysroot_if_new bs s st = Ok st' →
  records_described bs dt st'.
Proof.
  intros Hst [->|(_ & _ & ->)]%add_sysroot_if_new_cases; [done|].
  intros crate. cbn. rewrite elem_of_app. intros [Hc|Hc]; [by apply Hst|].
  left. split; [by eapply synthesized_crates_gen_dir|eauto].
Qed.

Lemma records_described_appended (crate_root : SourceFile)
    (main_target : Target) (all_targets : list Target) (st : State) :
  records_described bs dt st →
  PreferredTarget dt all_targets = Some main_target →
  records_described bs dt (appended crate_root main_target all_targets st).
Proof.
  intros Hst Hmain crate. cbn. rewrite elem_of_app.
  intros [Hc| ->%list_elem_of_singleton]; [by apply Hst|].
  right. by exists main_target.
Qed.

(** *** [entries_original] *)

Lemma entries_original_mark_seen (all_targets : list Target)
    (crate_root : SourceFile) (st : State) :
  entries_original all_targets st →
  entries_original all_targets (mark_seen crate_root st).
Proof.
  intros (Hkeys & Hfresh & Hrec). split_and!; [| |done].
  - intros k. rewrite <- Hkeys. cbn.
    destruct (decide (crate_root = k)) as [->|Hne].
    + by rewrite lookup_alter_eq, fmap_is_Some.
    + by rewrite lookup_alter_ne.
  - intros k info. cbn. rewrite lookup_alter_Some.
    intros [(_ & info' & Hk & ->)|[_ Hk]]; [done|]. by apply Hfresh.
Qed.

Lemma entries_original_sysroot (all_targets : list Target) (s : string)
    (st st' : State) :
  entries_original all_targets st → add_sysroot_if_new bs s st = Ok st' →
  entries_original all_targets st'.
Proof.
  intros Hst [->|(_ & _ & ->)]%add_sysroot_if_new_cases; [done|].
  destruct Hst as (Hkeys & Hfresh & Hrec). split_and!; [done..|].
  intros crate. cbn. rewrite elem_of_app. intros [Hc|Hc]; [by apply Hrec|].
  apply synthesized_crates_gen_dir in Hc as ->. by intros [??].
Qed.

Lemma entries_original_appended (all_targets : list Target)
    (crate_root : SourceFile) (main_target : Target) (ci : CrateInfo)
    (st : State) :
  entries_original all_targets st →
  collect_crates all_targets !! crate_root = Some ci →
  lookup st !! crate_root
  = Some {| targets := targets ci; seen := true;
            info_index := info_index ci |} →
  entries_original all_targets
    (appended crate_root main_target (targets ci) st).
Proof.
  intros (Hkeys & Hfresh & Hrec) Hci Hroot. split_and!.
  - intros k. rewrite <- Hkeys. cbn.
    destruct (decide (crate_root = k)) as [->|Hne].
    + by rewrite lookup_alter_eq, fmap_is_Some.
    + by rewrite lookup_alter_ne.
  - intros k info. cbn. rewrite lookup_alter_Some.
    intros [(<- & info' & Hk & ->)|[_ Hk]]; [|by apply Hfresh].
    rewrite Hroot in Hk. by injection Hk as <-.
  - intros crate. cbn. rewrite elem_of_app.
    intros [Hc| ->%list_elem_of_singleton]; [by apply Hrec|].
    intros _. by exists ci.
Qed.

(** *** [edges_explained] *)

Lemma edge_explained_grow (crates crates' : list Crate) (crate : Crate)
    (h : nat) (nm : string) :
  crates `prefix_of` crates' →
  edge_explained bs dt crates crate h nm →
  edge_explained bs dt crates' crate h nm.
Proof.
  intros [new ->] (dep & Hdep & Hrest). exists dep.
  split; [by apply lookup_app_l_Some|done].
Qed.

Lemma edges_explained_sysroot (s : string) (st st' : State) :
  edges_explained bs dt st → add_sysroot_if_new bs s st = Ok st' →
  edges_explained bs dt st'.
Proof.
  intros Hst [->|(_ & _ & ->)]%add_sysroot_if_new_cases; [done|].
  intros crate h nm. cbn. rewrite elem_of_app. intros [Hc|Hc] Hedge.
  { eapply edge_explained_grow; [by apply prefix_app_r|by apply Hst]. }
  assert (synthesized_table (length (crate_list st)) !! nm = Some h)
    as Hh.
  { unfold synthesized_crates in Hc. unfold synthesized_table.
    repeat (apply elem_of_cons in Hc as [->|Hc];
            [cbn in Hedge;
             repeat (apply elem_of_cons in Hedge as [[= -> ->]|Hedge];
                     [by simplify_map_eq|]);
             by apply elem_of_nil in Hedge|]).
    by apply elem_of_nil in Hc. }
  destruct (synthesized_table_record s _ _ _ Hh) as (k & deps & -> & Hk).
  eexists. split; [by rewrite lookup_app_plus|]. split; [done|].
  split; [done|]. intros main_target [? Hgen].
  apply synthesized_crates_gen_dir in Hc. congruence.
Qed.

Lemma edges_explained_appended (crate_root : SourceFile)
    (main_target : Target) (all_targets : list Target) (st : State) :
  well_formed bs st → edges_explained bs dt st →
  PreferredTarget dt all_targets = Some main_target →
  (tool_sysroot main_target ≠ "" →
   is_Some (sysroot_lookup st !! tool_sysroot main_target)) →
  edges_explained bs dt (appended crate_root main_target all_targets st).
Proof.
  intros (Hidx & Hreg & Hsys) Hst Hmain Htable crate h nm. cbn.
  rewrite elem_of_app. intros [Hc| ->%list_elem_of_singleton] Hedge.
  { eapply edge_explained_grow; [by apply prefix_app_r|by apply Hst]. }
  cbn in Hedge. unfold record_edges in Hedge.
  apply elem_of_app in Hedge as [Hedge|Hedge].
  - destruct (decide (tool_sysroot main_target ≠ "")) as [Hs|];
      [|by apply elem_of_nil in Hedge].
    destruct (Htable Hs) as [table Ht]. rewrite Ht in Hedge.
    cbn [default] in Hedge.
    apply elem_of_sysroot_edges in Hedge as [Hnm Hh].
    destruct (Hsys _ _ Ht) as (n & -> & Hrecords).
    destruct (synthesized_table_record (tool_sysroot main_target) _ _ _ Hh)
      as (k & deps & -> & Hk).
    eexists. split; [by apply lookup_app_l_Some, Hrecords|].
    split; [done|]. split; [done|].
    intros main_target' _. cbn. rewrite Hmain. by intros [= <-].
  - apply list_elem_of_omap in Hedge as (dep & Hdep & Hedge).
    apply recorded_edge_Some in Hedge
      as (Hne & info & dep_crate & Hinfo & Hh & Hcrate & -> & Hroot & Hgen);
      [|done..].
    exists dep_crate. split; [by apply lookup_app_l_Some|].
    split; [done|]. split; [done|].
    intros main_target' _. cbn. rewrite Hmain. intros [= <-].
    destruct Hgen as [g ->]. by rewrite Hroot.
Qed.

(** *** [sysroot_linked] *)

Lemma sysroot_linked_sysroot (s : string) (st st' : State) :
  sysroot_linked dt st → add_sysroot_if_new bs s st = Ok st' →
  sysroot_linked dt st'.
Proof.
  intros Hst [->|(_ & Hnew & ->)]%add_sysroot_if_new_cases; [done|].
  intros crate main_target. cbn. rewrite elem_of_app.
  intros [Hc|Hc] Hgen Hmain.
  - destruct (Hst crate main_target Hc Hgen Hmain)
      as (table & rest & Hdeps & Htable & Hrest).
    exists table, rest. split; [done|]. split.
    + intros Hs. rewrite lookup_insert_ne; [by apply Htable|].
      intros ->. by rewrite (Htable Hs) in Hnew.
    + intros h nm Hedge. destruct (Hrest h nm Hedge) as (dep & Hdep & ?).
      exists dep. split; [by apply lookup_app_l_Some|done].
  - apply synthesized_crates_gen_dir in Hc. rewrite Hc in Hgen.
    by destruct Hgen.
Qed.

Lemma sysroot_linked_appended (crate_root : SourceFile)
    (main_target : Target) (all_targets : list Target) (st : State) :
  well_formed bs st → sysroot_linked dt st →
  PreferredTarget dt all_targets = Some main_target →
  (tool_sysroot main_target ≠ "" →
   is_Some (sysroot_lookup st !! tool_sysroot main_target)) →
  sysroot_linked dt (appended crate_root main_target all_targets st).
Proof.
  intros (Hidx & Hreg & Hsys) Hst Hmain Htable crate main_target'. cbn.
  rewrite elem_of_app. intros [Hc| ->%list_elem_of_singleton] Hgen Hmain'.
  - destruct (Hst crate main_target' Hc Hgen Hmain')
      as (table & rest & Hdeps & Ht & Hrest).
    exists table, rest. split; [done|]. split; [done|].
    intros h nm Hedge. destruct (Hrest h nm Hedge) as (dep & Hdep & ?).
    exists dep. split; [by apply lookup_app_l_Some|done].
  - cbn in Hmain'. rewrite Hmain in Hmain'. injection Hmain' as <-.
    eexists _, _. split; [reflexivity|]. split.
    + intros Hs. destruct (Htable Hs) as [table ->]. done.
    + intros h nm Hedge.
      apply list_elem_of_omap in Hedge as (dep & Hdep & Hedge).
      apply recorded_edge_Some in Hedge
        as (Hne & info & dep_crate & Hinfo & Hh & Hcrate & -> & Hroot
            & Hgen'); [|done..].
      exists dep_crate. split; [by apply lookup_app_l_Some|done].
Qed.

(** *** [neighbours_linked] *)

Lemma neighbours_linked_mark_seen (crate_root : SourceFile)
    (ci : CrateInfo) (st : State) :
  neighbours_linked dt st →
  lookup st !! crate_root = Some ci → seen ci = false →
  neighbours_linked dt (mark_seen crate_root st).
Proof.
  intros Hst Hci Hunseen crate main_target d Hc Hgen Hmain Hd Hne.
  destruct (Hst crate main_target d Hc Hgen Hmain Hd Hne)
    as (info & Hinfo & Hseen & Hedge).
  exists info. split; [|done]. cbn. rewrite lookup_alter_ne; [done|].
  intros <-. congruence.
Qed.

Lemma neighbours_linked_sysroot (s : string) (st st' : State) :
  neighbours_linked dt st → add_sysroot_if_new bs s st = Ok st' →
  neighbours_linked dt st'.
Proof.
  intros Hst [->|(_ & _ & ->)]%add_sysroot_if_new_cases; [done|].
  intros crate main_target d. cbn. rewrite elem_of_app.
  intros [Hc|Hc] Hgen Hmain Hd Hne.
  - destruct (Hst crate main_target d Hc Hgen Hmain Hd Hne)
      as (info & Hinfo & Hseen & Hedge).
    exists info. split; [done|]. split; [done|]. intros j Hj Hlt.
    destruct (Hedge j Hj Hlt) as (dep & Hdep & ?). exists dep.
    split; [by apply lookup_app_l_Some|done].
  - apply synthesized_crates_gen_dir in Hc. rewrite Hc in Hgen.
    by destruct Hgen.
Qed.

Lemma neighbours_linked_appended (crate_root : SourceFile)
    (main_target : Target) (ci : CrateInfo) (st : State) :
  well_formed bs st → neighbours_linked dt st →
  lookup st !! crate_root
  = Some {| targets := targets ci; seen := true;
            info_index := info_index ci |} →
  PreferredTarget dt (targets ci) = Some main_target →
  (∀ dep, dep ∈ gather_crate_deps main_target (targets ci) →
          dep ≠ crate_root → is_seen dep st) →
  neighbours_linked dt (appended crate_root main_target (targets ci) st).
Proof.
  intros (Hidx & Hreg & Hsys) Hst Hroot Hmain Hseen crate main_target' d.
  cbn [crate_list appended]. rewrite elem_of_app.
  intros [Hc| ->%list_elem_of_singleton] Hgen Hmain' Hd Hne.
  - destruct (Hst crate main_target' d Hc Hgen Hmain' Hd Hne)
      as (info & Hinfo & Hs & Hedge).
    apply list_elem_of_lookup in Hc as [i Hi].
    pose proof Hidx as (Hord & _ & _).
    destruct (Hord i crate Hi) as [Hindex _].
    apply lookup_lt_Some in Hi.
    destruct (decide (d = crate_root)) as [->|Hd'].
    + eexists. cbn. rewrite lookup_alter_eq, Hroot. cbn.
      split; [done|]. split; [done|]. intros j [= <-]. lia.
    + exists info. cbn. rewrite lookup_alter_ne by done.
      split; [done|]. split; [done|]. intros j Hj Hlt.
      destruct (Hedge j Hj Hlt) as (dep & Hdep & ?). exists dep.
      split; [by apply lookup_app_l_Some|done].
  - cbn in Hmain', Hd, Hne. rewrite Hmain in Hmain'.
    injection Hmain' as <-.
    destruct (Hseen d Hd Hne) as (info & Hinfo & Hs).
    exists info. cbn. rewrite lookup_alter_ne by done.
    split; [done|]. split; [done|]. intros j Hj Hlt.
    pose proof Hreg as (Hreg1 & _ & _).
    destruct (Hreg1 _ _ _ Hinfo Hj) as (dep & Hdep & Hrd & Hgd).
    exists dep. split; [by apply lookup_app_l_Some|].
    unfold record_edges. apply elem_of_app. right.
    apply list_elem_of_omap. exists d. split; [done|].
    apply recorded_edge_Some; [done..|]. split; [done|].
    by exists info, dep.
Qed.

(** *** All of it *)

Lemma coherent_start (all_targets : list Target) :
  coherent bs dt all_targets
    {| lookup := collect_crates all_targets; sysroot_lookup := ∅;
       crate_list := [] |}.
Proof.
  split_and!.
  - by intros crate ?%elem_of_nil.
  - split_and!; cbn; [done| |by intros crate ?%elem_of_nil].
    by intros k info Hk _.
  - by intros crate h nm ?%elem_of_nil.
  - by intros crate mt ?%elem_of_nil.
  - by intros crate mt d ?%elem_of_nil.
Qed.

Lemma BuildCrateList_coherent (all_targets : list Target)
    (order : list SourceFile) (st : State) :
  BuildCrateList bs dt all_targets order = Ok st →
  well_formed bs st ∧ coherent bs dt all_targets st.
Proof.
  apply (BuildCrateList_rule bs dt (coherent bs dt all_targets)).
  - intros crate_root ci st0 Hwf (H1 & H2 & H3 & H4 & H5) Hci Hunseen.
    split_and!; [done| |done|done|].
    + by apply entries_original_mark_seen.
    + by eapply neighbours_linked_mark_seen.
  - intros s st0 st' Hwf (H1 & H2 & H3 & H4 & H5) Hrun. split_and!.
    + by eapply records_described_sysroot.
    + by eapply entries_original_sysroot.
    + by eapply edges_explained_sysroot.
    + by eapply sysroot_linked_sysroot.
    + by eapply neighbours_linked_sysroot.
  - intros crate_root ci main_target st0 st2 _ (_ & Horig0 & _) Hci Hunseen
      Hwf (H1 & H2 & H3 & H4 & H5) Hroot Hmain Htable Hseen. split_and!.
    + by apply records_described_appended.
    + apply entries_original_appended; [done| |done].
      destruct Horig0 as (_ & Hfresh & _). by apply Hfresh.
    + by apply edges_explained_appended.
    + by apply sysroot_linked_appended.
    + by apply neighbours_linked_appended.
  - apply coherent_start.
Qed.

End Coherence.

(** ** The crate list that [RenderJSON] hands to the writer *)

Section FinishedList.
Context {helpers : Helpers}.
Variable bs : BuildSettings.
Variable dt : Label.

(** The targets that the first loop of [RenderJSON] keeps for a root. *)
Lemma collect_crates_lookup (all_targets : list Target) (k : SourceFile) :
  collect_crates all_targets !! k
  = match filter (λ t, IsBinary t = true ∧ rust_source_used t = true
                       ∧ crate_root t = k) all_targets with
    | [] => None
    | ts => Some {| targets := ts; seen := false; info_index := None |}
    end.
Proof.
  unfold collect_crates.
  induction all_targets as [|t ts IH] using rev_ind.
  { cbn. by rewrite lookup_empty. }
  rewrite foldl_app, filter_app. cbn [foldl].
  match goal with
  | |- context [foldl ?f ∅ ts] => set (m := foldl f ∅ ts) in *
  end.
  rewrite filter_cons, filter_nil.
  destruct (IsBinary t) eqn:Hbin; cbn [negb orb].
  2:{ rewrite decide_False by naive_solver. by rewrite app_nil_r. }
  destruct (rust_source_used t) eqn:Hrust; cbn [negb orb].
  2:{ rewrite decide_False by naive_solver. by rewrite app_nil_r. }
  destruct (decide (crate_root t = k)) as [<-|Hne].
  - rewrite decide_True by done.
    destruct (m !! crate_root t) as [old|] eqn:Hold.
    + rewrite (subscript_present _ _ _ _ Hold), lookup_insert_eq.
      destruct (filter _ ts) as [|t0 ts0]; [done|].
      by injection IH as ->.
    + rewrite (subscript_absent _ _ _ Hold), insert_insert_eq.
      rewrite lookup_insert_eq. by destruct (filter _ ts).
  - rewrite decide_False by naive_solver. rewrite app_nil_r.
    destruct (m !! crate_root t) as [old|] eqn:Hold.
    + by rewrite (subscript_present _ _ _ _ Hold), lookup_insert_ne.
    + rewrite (subscript_absent _ _ _ Hold), insert_insert_eq.
      by rewrite lookup_insert_ne.
Qed.

Lemma collect_crates_targets (all_targets : list Target) (k : SourceFile)
    (info : CrateInfo) (t : Target) :
  collect_crates all_targets !! k = Some info →
  t ∈ targets info ↔
  t ∈ all_targets ∧ IsBinary t = true ∧ rust_source_used t = true
  ∧ crate_root t = k.
Proof.
  rewrite collect_crates_lookup.
  destruct (filter _ all_targets) as [|t0 ts0] eqn:Hf; [done|].
  intros [= <-]. cbn. rewrite <- Hf, list_elem_of_filter. naive_solver.
Qed.

Lemma PreferredTarget_elem_of (targets : list Target) (main_target : Target) :
  PreferredTarget dt targets = Some main_target → main_target ∈ targets.
Proof.
  destruct targets as [|first rest]; [done|]. intros [= <-].
  destruct (max_element_from_spec dt first rest) as (i & Hi & _).
  by eapply list_elem_of_lookup_2.
Qed.

Lemma top_level_marks (fuel : nat) (order : list SourceFile) :
  ∀ st st',
    for_each (λ st crate_root, AddCrate fuel bs dt crate_root st) st order
    = Ok st' →
    ∀ k, k ∈ order → is_seen k st'.
Proof.
  induction order as [|x order IH]; intros st st'; cbn [for_each].
  { by intros _ k ?%elem_of_nil. }
  destruct (AddCrate fuel bs dt x st) as [st1| |] eqn:Hx; [|done..].
  cbn [mbind outcome_bind]. intros Hrest k [->|Hk]%elem_of_cons.
  - revert Hrest. apply (for_each_invariant (is_seen x)).
    + intros s y s' Hs. by apply AddCrate_seen_stays.
    + by eapply AddCrate_marks.
  - by eapply IH.
Qed.

Lemma BuildCrateList_none_in_progress (all_targets : list Target)
    (order : list SourceFile) (st : State) :
  BuildCrateList bs dt all_targets order = Ok st →
  ∀ k, ¬ in_progress k st.
Proof.
  unfold BuildCrateList.
  apply (for_each_invariant (λ s, ∀ k, ¬ in_progress k s)).
  - intros s x s' Hs Hx k Hk. apply (Hs k).
    by eapply AddCrate_in_progress.
  - intros k (info & Hk & Hseen & _). cbn in Hk.
    apply collect_crates_fresh in Hk as (? & _). congruence.
Qed.

Lemma BuildCrateList_assigned (all_targets : list Target)
    (order : list SourceFile) (st : State) (k : SourceFile) :
  BuildCrateList bs dt all_targets order = Ok st →
  is_seen k st →
  ∃ info h, lookup st !! k = Some info ∧ seen info = true
            ∧ info_index info = Some h.
Proof.
  intros Hrun (info & Hk & Hseen).
  destruct (info_index info) as [h|] eqn:Hh; [by exists info, h|].
  destruct (BuildCrateList_none_in_progress _ _ _ Hrun k). by exists info.
Qed.

Lemma BuildCrateList_order_assigned (all_targets : list Target)
    (order : list SourceFile) (st : State) (k : SourceFile) :
  BuildCrateList bs dt all_targets order = Ok st → k ∈ order →
  ∃ info h, lookup st !! k = Some info ∧ seen info = true
            ∧ info_index info = Some h.
Proof.
  intros Hrun Hk. apply (BuildCrateList_assigned all_targets order); [done|].
  revert Hk. by eapply top_level_marks.
Qed.

(** X3.  The first loop of [RenderJSON] groups the targets by crate root:
    the entry of a root holds, in the order of the build graph, exactly the
    binary targets with sources of the language that have this root, it is
    neither marked nor indexed, and a root has an entry only if such a
    target exists.  A target that is not binary or has no such sources is
    in no entry. *)
Theorem collect_crates_groups_by_root (all_targets : list Target) :
  (∀ key info,
     collect_crates all_targets !! key = Some info ↔
     info = {| targets :=
                 filter (λ t, IsBinary t = true ∧ rust_source_used t = true
                              ∧ crate_root t = key)
                        all_targets;
               seen := false; info_index := None |}
     ∧ ∃ t, t ∈ all_targets ∧ IsBinary t = true
            ∧ rust_source_used t = true
            ∧ crate_root t = key)
  ∧ (∀ t, t ∈ all_targets →
       if IsBinary t && rust_source_used t
       then ∃ info, collect_crates all_targets !! crate_root t
                    = Some info
                    ∧ t ∈ targets info
       else ∀ key info,
              collect_crates all_targets !! key = Some info →
              t ∉ targets info).
Proof.
  split.
  - intros k info. rewrite collect_crates_lookup.
    destruct (filter _ all_targets) as [|t0 ts0] eqn:Hf.
    + split; [done|]. intros (_ & t & Ht & Hbin & Hrust & Hroot).
      assert (t ∈ filter (λ t, IsBinary t = true
                                ∧ rust_source_used t = true
                                ∧ crate_root t = k) all_targets)
        as Hin by (by apply list_elem_of_filter).
      rewrite Hf in Hin. by apply elem_of_nil in Hin.
    + split; [intros [= <-]|by intros [-> _]]. split; [done|].
      assert (t0 ∈ filter (λ t, IsBinary t = true
                                 ∧ rust_source_used t = true
                                 ∧ crate_root t = k) all_targets)
        as Hin by (rewrite Hf; by left).
      apply list_elem_of_filter in Hin as [(? & ? & ?) ?]. by exists t0.
  - intros t Ht.
    destruct (IsBinary t) eqn:Hbin, (rust_source_used t) eqn:Hrust;
      cbn [andb].
    + destruct (collect_crates all_targets !! crate_root t)
        as [info|] eqn:Hinfo.
      * exists info. split; [done|].
        by apply (collect_crates_targets all_targets _ _ _ Hinfo).
      * rewrite collect_crates_lookup in Hinfo.
        destruct (filter _ all_targets) as [|t0 ts0] eqn:Hf; [|done].
        assert (t ∈ filter (λ t', IsBinary t' = true
                                   ∧ rust_source_used t' = true
                                   ∧ crate_root t'
                                     = crate_root t) all_targets)
          as Hin by (by apply list_elem_of_filter).
        rewrite Hf in Hin. by apply elem_of_nil in Hin.
    + intros k info Hk Hin.
      apply (collect_crates_targets _ _ _ _ Hk) in Hin
        as (_ & ? & ? & _). congruence.
    + intros k info Hk Hin.
      apply (collect_crates_targets _ _ _ _ Hk) in Hin
        as (_ & ? & ? & _). congruence.
    + intros k info Hk Hin.
      apply (collect_crates_targets _ _ _ _ Hk) in Hin
        as (_ & ? & ? & _). congruence.
Qed.

(** X4.  When the construction of the crate list succeeds, every crate
    root that was visited has a record in the list, made from the targets
    collected for it; no two records made for crate roots have the same
    root; and every such record belongs to a collected root and keeps the
    targets collected for it. *)
Theorem one_record_per_crate_root (all_targets : list Target)
    (order : list SourceFile) (st : State) :
  BuildCrateList bs dt all_targets order = Ok st →
  (∀ crate_root, crate_root ∈ order →
     ∃ info i crate,
       collect_crates all_targets !! crate_root = Some info
       ∧ crate_list st !! i = Some crate
       ∧ root crate = crate_root ∧ is_Some (gen_dir crate)
       ∧ crate_targets crate = targets info)
  ∧ (∀ i j crate_i crate_j,
       crate_list st !! i = Some crate_i →
       crate_list st !! j = Some crate_j →
       is_Some (gen_dir crate_i) → is_Some (gen_dir crate_j) →
       root crate_i = root crate_j → i = j)
  ∧ (∀ crate,
       crate ∈ crate_list st → is_Some (gen_dir crate) →
       ∃ info, collect_crates all_targets !! root crate = Some info
               ∧ crate_targets crate = targets info).
Proof.
  intros Hrun.
  destruct (BuildCrateList_coherent bs dt _ _ _ Hrun)
    as ((_ & (Hreg1 & Hreg2 & _) & _) & _ & (_ & _ & Hrec) & _).
  split_and!.
  - intros k Hk.
    destruct (BuildCrateList_order_assigned _ _ _ _ Hrun Hk)
      as (info' & h & Hinfo' & _ & Hh).
    destruct (Hreg1 _ _ _ Hinfo' Hh) as (crate & Hcrate & Hroot & Hgen).
    destruct (Hrec crate) as (info & Hinfo & Htargets);
      [by eapply list_elem_of_lookup_2|done|].
    exists info, h, crate. rewrite Hroot in Hinfo. done.
  - intros i j ci cj Hi Hj Hgi Hgj Hroot.
    destruct (Hreg2 _ _ Hi Hgi) as (info_i & Hinfo_i & Hidx_i).
    destruct (Hreg2 _ _ Hj Hgj) as (info_j & Hinfo_j & Hidx_j).
    rewrite Hroot in Hinfo_i. congruence.
  - done.
Qed.


Lemma elem_of_flat_map {A B} (f : A → list B) (l : list A) (y : B) :
  y ∈ flat_map f l ↔ ∃ x, y ∈ f x ∧ x ∈ l.
Proof.
  induction l as [|a l IH]; cbn.
  - split; [by intros ?%elem_of_nil|]. by intros (x & _ & ?%elem_of_nil).
  - rewrite elem_of_app, IH. split.
    + intros [?|(x & ? & ?)]; [exists a|exists x]; split; try done;
        apply elem_of_cons; auto.
    + intros (x & Hy & [->|Hx]%elem_of_cons); [by left|right; by exists x].
Qed.

Lemma edition_of_cases (args : list string) :
  (∀ i v,
     args !! i = Some ("--edition=" +:+ v) →
     (∀ j arg w, j < i → args !! j = Some arg → arg ≠ "--edition=" +:+ w) →
     edition_of args = v)
  ∧ ((∀ arg w, arg ∈ args → arg ≠ "--edition=" +:+ w) →
     (∀ i v,
        args !! i = Some "--edition" → args !! S i = Some v →
        (∀ j, j < i → args !! j ≠ Some "--edition") →
        edition_of args = v)
     ∧ ((∀ i, args !! i = Some "--edition" → args !! S i = None) →
        edition_of args = "2015")).
Proof.
  unfold edition_of. split.
  - intros i v Hi Hfirst.
    assert (FindArgValueAfterPrefix "--edition=" args = Some v) as ->; [|done].
    apply FindArgValueAfterPrefix_Some. exists i. split; [done|].
    intros j arg Hj Harg. apply not_true_iff_false.
    intros [w ->]%compare_prefix_spec. by eapply Hfirst.
  - intros Hnone.
    assert (FindArgValueAfterPrefix "--edition=" args = None) as ->.
    { apply FindArgValueAfterPrefix_None. intros arg Harg.
      apply not_true_iff_false. intros [w ->]%compare_prefix_spec.
      by eapply Hnone. }
    split.
    + intros i v Hi Hv Hfirst.
      assert (FindArgValue "--edition" args = Some v) as ->; [|done].
      apply FindArgValue_Some. by exists i.
    + intros Hlast.
      assert (FindArgValue "--edition" args = None) as ->; [|done].
      by apply FindArgValue_None.
Qed.

Lemma sysroot_edges_synthesized (main_target : Target) (n : nat) :
  sysroot_edges main_target (synthesized_table n)
  = [(n, "core"); (n + 1, "alloc"); (n + 4, "std")]
    ++ (if decide (tool_name main_target = kRsToolMacro)
        then [(n + 6, "proc_macro")] else []).
Proof.
  unfold sysroot_edges, linked_sysroot_crates, synthesized_table.
  destruct (decide _); cbn [app omap list_omap];
    repeat (rewrite lookup_insert_ne by done);
    rewrite ?lookup_insert_eq; cbn; 
    repeat (rewrite lookup_insert_ne by done);
    rewrite ?lookup_insert_eq; cbn;
    repeat (rewrite lookup_insert_ne by done);
    rewrite ?lookup_insert_eq; cbn;
    repeat (rewrite lookup_insert_ne by done);
    rewrite ?lookup_insert_eq; cbn; done.
Qed.

Lemma described_record (all_targets : list Target)
    (order : list SourceFile) (st : State) (crate : Crate)
    (main_target : Target) :
  BuildCrateList bs dt all_targets order = Ok st →
  crate ∈ crate_list st → is_Some (gen_dir crate) →
  PreferredTarget dt (crate_targets crate) = Some main_target →
  crate = crate_record (root crate) main_target (crate_targets crate)
            (index crate) (dependencies crate).
Proof.
  intros Hrun Hc Hgen Hmain.
  destruct (BuildCrateList_coherent bs dt _ _ _ Hrun)
    as (_ & Hdesc & _).
  destruct (Hdesc crate Hc) as [[Hnone _]|(mt & Hmt & Heq)].
  - rewrite Hnone in Hgen. by destruct Hgen.
  - congruence.
Qed.

(** X5.  Every record of the finished crate list is one of two kinds.  It
    is one of the eight records of a synthesized sysroot, without targets
    and without a generated-sources directory; or it is the record of a
    crate root, whose main target is the preferred one among its own
    targets, is a binary target of the build graph with this root, and
    supplies the generated-sources directory, the name, the label and the
    compiler arguments of the record. *)
Theorem records_of_the_crate_list (all_targets : list Target)
    (order : list SourceFile) (st : State) :
  BuildCrateList bs dt all_targets order = Ok st →
  ∀ crate, crate ∈ crate_list st →
    (gen_dir crate = None ∧ crate_targets crate = []
     ∧ ∃ sysroot n, crate ∈ synthesized_crates bs sysroot n)
    ∨ (∃ main_target,
         PreferredTarget dt (crate_targets crate) = Some main_target
         ∧ main_target ∈ all_targets
         ∧ IsBinary main_target = true
         ∧ rust_source_used main_target = true
         ∧ crate_root main_target = root crate
         ∧ gen_dir crate = Some (gen_dir_of main_target)
         ∧ name crate = crate_name main_target
         ∧ label crate = label_name main_target
         ∧ CompilerArgs crate = ExtractCompilerArgs main_target).
Proof.
  intros Hrun crate Hc.
  destruct (BuildCrateList_coherent bs dt _ _ _ Hrun)
    as (_ & Hdesc & (_ & _ & Hrec) & _).
  destruct (Hdesc crate Hc) as [[Hnone (s & n & Hs)]|(mt & Hmt & Heq)].
  - left. split; [done|]. split; [|by exists s, n].
    unfold synthesized_crates in Hs.
    repeat (apply elem_of_cons in Hs as [->|Hs]; [done|]).
    by apply elem_of_nil in Hs.
  - right. exists mt.
    assert (is_Some (gen_dir crate)) as Hgen by (by rewrite Heq).
    destruct (Hrec crate Hc Hgen) as (info & Hinfo & Htargets).
    pose proof (PreferredTarget_elem_of _ _ Hmt) as Hin.
    rewrite Htargets in Hin.
    apply (collect_crates_targets _ _ _ _ Hinfo) in Hin
      as (? & ? & ? & ?).
    split_and!; try done; by rewrite Heq.
Qed.

(** X6.  The edition of the record of a crate root: the rest of the first
    argument of the main target that starts with [--edition=]; if there is
    no such argument, the argument after the first [--edition]; and [2015]
    if there is neither, or if [--edition] is only the last argument.  The
    prefixed form wins wherever it stands. *)
Theorem edition_recorded (all_targets : list Target)
    (order : list SourceFile) (st : State) (crate : Crate)
    (main_target : Target) :
  BuildCrateList bs dt all_targets order = Ok st →
  crate ∈ crate_list st → is_Some (gen_dir crate) →
  PreferredTarget dt (crate_targets crate) = Some main_target →
  (∀ i v,
     ExtractCompilerArgs main_target !! i = Some ("--edition=" +:+ v) →
     (∀ j arg w, j < i → ExtractCompilerArgs main_target !! j = Some arg →
                 arg ≠ "--edition=" +:+ w) →
     edition crate = v)
  ∧ ((∀ arg w, arg ∈ ExtractCompilerArgs main_target →
               arg ≠ "--edition=" +:+ w) →
     (∀ i v,
        ExtractCompilerArgs main_target !! i = Some "--edition" →
        ExtractCompilerArgs main_target !! S i = Some v →
        (∀ j, j < i →
              ExtractCompilerArgs main_target !! j ≠ Some "--edition") →
        edition crate = v)
     ∧ ((∀ i, ExtractCompilerArgs main_target !! i = Some "--edition" →
              ExtractCompilerArgs main_target !! S i = None) →
        edition crate = "2015")).
Proof.
  intros Hrun Hc Hgen Hmain.
  rewrite (described_record _ _ _ _ _ Hrun Hc Hgen Hmain).
  cbn [edition crate_record]. apply edition_of_cases.
Qed.

(** X7.  The configuration flags of the record of a crate root are [test]
    and [debug_assertions], then the [--cfg=] values of the main target in
    the order of its arguments, then the [--cfg=] values of the targets of
    the main target's toolchain that the vector of targets still holds
    after it was handed to the record with [std::move].  If the vector is
    left empty, the other targets contribute nothing. *)
Theorem configs_recorded (all_targets : list Target)
    (order : list SourceFile) (st : State) (crate : Crate)
    (main_target : Target) :
  BuildCrateList bs dt all_targets order = Ok st →
  crate ∈ crate_list st → is_Some (gen_dir crate) →
  PreferredTarget dt (crate_targets crate) = Some main_target →
  ∃ own others,
    configs crate = ["test"; "debug_assertions"] ++ own ++ others
    ∧ own = FindAllArgValuesAfterPrefix "--cfg="
              (ExtractCompilerArgs main_target)
    ∧ (∀ v, v ∈ own ↔ "--cfg=" +:+ v ∈ ExtractCompilerArgs main_target)
    ∧ (∀ v, v ∈ others ↔
            ∃ target,
              target ∈ moved_from (crate_targets crate)
              ∧ toolchain_label target = toolchain_label main_target
              ∧ "--cfg=" +:+ v ∈ ExtractCompilerArgs target)
    ∧ (moved_from (crate_targets crate) = [] → others = []).
Proof.
  intros Hrun Hc Hgen Hmain.
  exists (FindAllArgValuesAfterPrefix "--cfg="
            (ExtractCompilerArgs main_target)),
         (target_configs main_target (moved_from (crate_targets crate))).
  split_and!.
  - by rewrite (described_record _ _ _ _ _ Hrun Hc Hgen Hmain) at 1.
  - done.
  - intros v. apply elem_of_FindAllArgValuesAfterPrefix.
  - intros v. unfold target_configs. rewrite elem_of_flat_map.
    split.
    + intros (t & Hv & Ht). destruct (decide _) as [|Heq%dec_stable];
        [by apply elem_of_nil in Hv|].
      apply elem_of_FindAllArgValuesAfterPrefix in Hv. by exists t.
    + intros (t & Ht & Htc & Hv). exists t. split; [|done].
      rewrite decide_False by (by intros ?).
      by apply elem_of_FindAllArgValuesAfterPrefix.
  - by intros ->.
Qed.

(** X8.  A record has a proc-macro artifact exactly when the tool of its
    main target is the proc-macro tool and the target has an output, and
    the artifact is the first output.  The records of a sysroot have none. *)
Theorem proc_macro_recorded (all_targets : list Target)
    (order : list SourceFile) (st : State) (crate : Crate) :
  BuildCrateList bs dt all_targets order = Ok st →
  crate ∈ crate_list st →
  (gen_dir crate = None → proc_macro_path crate = None)
  ∧ (∀ main_target,
       is_Some (gen_dir crate) →
       PreferredTarget dt (crate_targets crate) = Some main_target →
       ∀ output,
         proc_macro_path crate = Some output ↔
         tool_name main_target = kRsToolMacro
         ∧ computed_outputs main_target !! 0 = Some output).
Proof.
  intros Hrun Hc. split.
  - intros Hnone.
    destruct (BuildCrateList_coherent bs dt _ _ _ Hrun)
      as (_ & Hdesc & _).
    destruct (Hdesc crate Hc) as [[_ (s & n & Hs)]|(mt & Hmt & Heq)].
    + unfold synthesized_crates in Hs.
      repeat (apply elem_of_cons in Hs as [->|Hs]; [done|]).
      by apply elem_of_nil in Hs.
    + by rewrite Heq in Hnone.
  - intros main_target Hgen Hmain output.
    rewrite (described_record _ _ _ _ _ Hrun Hc Hgen Hmain) at 1.
    cbn [proc_macro_path crate_record]. unfold proc_macro_output.
    rewrite <- head_lookup. destruct (decide _); naive_solver.
Qed.

(** X9.  The edges of the record of a crate root start with those to its
    sysroot: if the main target has no sysroot, all edges point to records
    of crate roots; otherwise the edges begin with [core], [alloc] and
    [std] (and [proc_macro] for the proc-macro tool, and only then), with
    the handles of the eight records synthesized for that sysroot, which
    are in the list, and the edges after them point to records of crate
    roots. *)
Theorem sysroot_edges_recorded (all_targets : list Target)
    (order : list SourceFile) (st : State) (crate : Crate)
    (main_target : Target) :
  BuildCrateList bs dt all_targets order = Ok st →
  crate ∈ crate_list st → is_Some (gen_dir crate) →
  PreferredTarget dt (crate_targets crate) = Some main_target →
  ∃ rest,
    (∀ h dep_name,
       (h, dep_name) ∈ rest →
       ∃ dep, crate_list st !! h = Some dep ∧ is_Some (gen_dir dep))
    ∧ (tool_sysroot main_target = "" → dependencies crate = rest)
    ∧ (tool_sysroot main_target ≠ "" →
       ∃ n,
         dependencies crate
         = [(n, "core"); (n + 1, "alloc"); (n + 4, "std")]
           ++ (if decide (tool_name main_target = kRsToolMacro)
               then [(n + 6, "proc_macro")] else [])
           ++ rest
         ∧ ∀ k sysroot_crate,
             synthesized_crates bs (tool_sysroot main_target) n !! k
             = Some sysroot_crate →
             crate_list st !! (n + k) = Some sysroot_crate).
Proof.
  intros Hrun Hc Hgen Hmain.
  destruct (BuildCrateList_coherent bs dt _ _ _ Hrun)
    as ((_ & _ & Hsys) & _ & _ & _ & Hlinked & _).
  destruct (Hlinked crate main_target Hc Hgen Hmain)
    as (table & rest & Hdeps & Htable & Hrest).
  exists rest. split; [done|]. split.
  - intros Hs. by rewrite decide_False in Hdeps by (by intros ?).
  - intros Hs. rewrite decide_True in Hdeps by done.
    destruct (Hsys _ _ (Htable Hs)) as (n & -> & Hrecords).
    exists n. split; [|done].
    by rewrite Hdeps, sysroot_edges_synthesized, <- app_assoc.
Qed.

(** X10.  Every edge of the finished crate list points to a record of the
    list that has the handle and the name written in the edge.  A record of
    a sysroot is linked to records of sysroots only.  An edge from the
    record of a crate root to the record of another crate root goes to a
    neighbour of the crate, never to the crate itself; an edge to a record
    of a sysroot goes to the sysroot of the main target, under one of the
    names [core], [alloc], [std], [proc_macro]. *)
Theorem edges_name_their_records (all_targets : list Target)
    (order : list SourceFile) (st : State) (crate : Crate)
    (h : CrateIndex) (dep_name : string) :
  BuildCrateList bs dt all_targets order = Ok st →
  crate ∈ crate_list st → (h, dep_name) ∈ dependencies crate →
  ∃ dep,
    crate_list st !! h = Some dep ∧ index dep = h ∧ name dep = dep_name
    ∧ (gen_dir crate = None → gen_dir dep = None)
    ∧ (is_Some (gen_dir dep) →
       ∃ main_target,
         PreferredTarget dt (crate_targets crate) = Some main_target
         ∧ root dep ∈ gather_crate_deps main_target (crate_targets crate)
         ∧ root dep ≠ root crate)
    ∧ (is_Some (gen_dir crate) → gen_dir dep = None →
       ∃ main_target,
         PreferredTarget dt (crate_targets crate) = Some main_target
         ∧ tool_sysroot main_target ≠ ""
         ∧ dep_name ∈ ["core"; "alloc"; "std"; "proc_macro"]
         ∧ (dep_name = "proc_macro" →
            tool_name main_target = kRsToolMacro)
         ∧ root dep
           = make_SourceFile
               (sysroot_crate_path bs (tool_sysroot main_target) dep_name)).
Proof.
  intros Hrun Hc Hedge.
  destruct (BuildCrateList_coherent bs dt _ _ _ Hrun)
    as (((Hord & _) & _) & Hdesc & _ & Hedges & _).
  destruct (Hedges crate h dep_name Hc Hedge)
    as (dep & Hdep & Hname & Hsysroot & Hkind).
  exists dep. destruct (Hord h dep Hdep) as [Hindex _].
  split_and!; try done.
  - intros [g Hg].
    destruct (Hdesc crate Hc) as [[Hnone _]|(mt & Hmt & Heq)].
    { rewrite (Hsysroot Hnone) in Hg. done. }
    exists mt. split; [done|].
    assert (is_Some (gen_dir crate)) as Hgen by (by rewrite Heq).
    specialize (Hkind mt Hgen Hmt). by rewrite Hg in Hkind.
  - intros Hgen Hnone.
    destruct (Hdesc crate Hc) as [[Hn _]|(mt & Hmt & Heq)].
    { rewrite Hn in Hgen. by destruct Hgen. }
    exists mt. split; [done|].
    specialize (Hkind mt Hgen Hmt). rewrite Hnone in Hkind.
    destruct Hkind as (Hs & Hlinked & Hroot).
    split; [done|]. unfold linked_sysroot_crates in Hlinked.
    split_and!; [|intros ->|done].
    + destruct (decide _); set_solver.
    + destruct (decide _); [done|]. set_solver.
Qed.

(** X11.  In the finished crate list every neighbour of a crate root has a
    record of its own, and the record of the crate has an edge to it
    exactly when the neighbour's record comes earlier in the list: a
    neighbour whose record comes later (the two crates reach each other)
    gets no edge. *)
Theorem neighbours_linked_by_order (all_targets : list Target)
    (order : list SourceFile) (st : State) (crate : Crate)
    (main_target : Target) (neighbour : SourceFile) :
  BuildCrateList bs dt all_targets order = Ok st →
  crate ∈ crate_list st → is_Some (gen_dir crate) →
  PreferredTarget dt (crate_targets crate) = Some main_target →
  neighbour ∈ gather_crate_deps main_target (crate_targets crate) →
  neighbour ≠ root crate →
  ∃ j dep,
    crate_list st !! j = Some dep ∧ root dep = neighbour
    ∧ is_Some (gen_dir dep) ∧ j ≠ index crate
    ∧ ((j, name dep) ∈ dependencies crate ↔ j < index crate).
Proof.
  intros Hrun Hc Hgen Hmain Hn Hne.
  destruct (BuildCrateList_coherent bs dt _ _ _ Hrun)
    as (((Hord & _) & (Hreg & _) & _) & _ & _ & _ & _ & Hnb).
  destruct (Hnb crate main_target neighbour Hc Hgen Hmain Hn Hne)
    as (info & Hinfo & Hseen & Hedge).
  destruct (BuildCrateList_assigned all_targets order st neighbour Hrun)
    as (info' & j & Hinfo' & _ & Hj); [by exists info|].
  assert (info' = info) as -> by congruence.
  destruct (Hreg _ _ _ Hinfo Hj) as (dep & Hdep & Hroot & Hgd).
  exists j, dep. apply list_elem_of_lookup in Hc as [i Hi].
  destruct (Hord i crate Hi) as [Hindex Hbelow].
  split_and!; try done.
  - intros ->. rewrite Hindex in Hdep. congruence.
  - split.
    + intros Hin. rewrite Hindex. by eapply Hbelow.
    + intros Hlt. destruct (Hedge j Hj Hlt) as (dep' & Hdep' & ?).
      congruence.
Qed.

End FinishedList.

(** ** Neighbours, and the runs that succeed *)

Section Neighbours.
Context {helpers : Helpers}.
Variable bs : BuildSettings.
Variable dt : Label.

Lemma gather_loop_push_back_all (main_target : Target)
    (all_targets : list Target) (v : list SourceFile) :
  foldl (λ crate_deps target,
           if decide (toolchain_label target ≠ toolchain_label main_target)
           then crate_deps else GetRustDeps target crate_deps)
        v all_targets
  = push_back_all v (same_toolchain_deps main_target all_targets).
Proof.
  unfold same_toolchain_deps. revert v.
  induction all_targets as [|t ts IH]; intros v; [done|].
  cbn [foldl flat_map]. rewrite push_back_all_app, IH.
  destruct (decide _); [done|]. by rewrite GetRustDeps_push_back_all.
Qed.

Lemma gather_crate_deps_push_back_all (main_target : Target)
    (all_targets : list Target) :
  gather_crate_deps main_target all_targets
  = push_back_all [] (same_toolchain_deps main_target all_targets).
Proof. apply gather_loop_push_back_all. Qed.

Lemma elem_of_gather_crate_deps (main_target : Target)
    (all_targets : list Target) (r : SourceFile) :
  r ∈ gather_crate_deps main_target all_targets ↔
  ∃ target, target ∈ all_targets
            ∧ toolchain_label target = toolchain_label main_target
            ∧ reaches target r.
Proof.
  rewrite gather_crate_deps_push_back_all, elem_of_push_back_all.
  unfold same_toolchain_deps. rewrite elem_of_flat_map. split.
  - intros [?%elem_of_nil|(t & Hr & Ht)]; [done|].
    destruct (decide _) as [|Heq%dec_stable]; [by apply elem_of_nil in Hr|].
    exists t. by rewrite <- elem_of_direct_rust_deps.
  - intros (t & Ht & Htc & Hr). right. exists t. split; [|done].
    rewrite decide_False by (by intros ?).
    by apply elem_of_direct_rust_deps.
Qed.

Lemma neighbours_registered_check_sound (all_targets : list Target) :
  neighbours_registered_check dt all_targets = true →
  neighbours_registered dt all_targets.
Proof.
  unfold neighbours_registered_check. rewrite forallb_forall.
  intros Hcheck crate_root info main_target neighbour Hinfo Hmain Hn Hne.
  specialize (Hcheck (crate_root, info)). cbn [fst snd] in Hcheck.
  rewrite Hmain, forallb_forall in Hcheck.
  assert (bool_decide (neighbour = crate_root)
          || bool_decide
               (is_Some (collect_crates all_targets !! neighbour)) = true)
    as Hb.
  { apply Hcheck.
    - apply list_elem_of_In. by apply elem_of_map_to_list.
    - by apply list_elem_of_In. }
  apply orb_true_iff in Hb as [Hb|Hb].
  - by apply bool_decide_eq_true in Hb.
  - by apply bool_decide_eq_true in Hb.
Qed.

Lemma for_each_no_throw {S A} (P : S → Prop) (body : S → A → outcome S)
    (l : list A) :
  (∀ st x, x ∈ l → P st →
           (∀ e, body st x ≠ Throws e)
           ∧ ∀ st', body st x = Ok st' → P st') →
  ∀ st e, P st → for_each body st l ≠ Throws e.
Proof.
  induction l as [|x l IH]; intros Hbody st e Hst; [done|].
  cbn [for_each]. destruct (Hbody st x) as [Hthrow Hnext]; [by left|done|].
  destruct (body st x) as [st1|e1|]; cbn [mbind outcome_bind];
    [|by destruct (Hthrow e1)|done].
  apply IH; [|by apply Hnext]. intros s y Hy. apply Hbody. by right.
Qed.

Lemma AddCrate_entries_original (all_targets : list Target) (fuel : nat)
    (crate_root : SourceFile) (st st' : State) :
  well_formed bs st → entries_original all_targets st →
  AddCrate fuel bs dt crate_root st = Ok st' →
  entries_original all_targets st'.
Proof.
  apply (AddCrate_rule bs dt (entries_original all_targets)).
  - intros r ci s _ Hs _ _. by apply entries_original_mark_seen.
  - intros s0 s s' _ Hs Hrun. by eapply entries_original_sysroot.
  - intros r ci mt s0 s2 _ (_ & Hfresh & _) Hci Hunseen _ Hs2 Hroot _ _ _.
    apply entries_original_appended; [done| |done]. by apply Hfresh.
Qed.

Lemma AddCrate_safe (all_targets : list Target) (fuel : nat)
    (crate_root : SourceFile) (st st' : State) :
  safe bs all_targets st → AddCrate fuel bs dt crate_root st = Ok st' →
  safe bs all_targets st'.
Proof.
  intros (Hwf & Htargets & Horig) Hrun. split_and!.
  - by eapply AddCrate_well_formed.
  - by eapply AddCrate_unseen_have_targets.
  - by eapply AddCrate_entries_original.
Qed.

Lemma safe_start (all_targets : list Target) :
  safe bs all_targets {| lookup := collect_crates all_targets;
                      sysroot_lookup := ∅; crate_list := [] |}.
Proof.
  split_and!.
  - apply initial_well_formed.
  - apply initial_unseen_have_targets.
  - split_and!; cbn; [done| |by intros crate ?%elem_of_nil].
    by intros k info Hk _.
Qed.

Lemma AddCrate_no_throw (all_targets : list Target) (fuel : nat) :
  neighbours_registered dt all_targets →
  ∀ crate_root st e,
    safe bs all_targets st → is_Some (lookup st !! crate_root) →
    AddCrate fuel bs dt crate_root st ≠ Throws e.
Proof.
  intros Hreg.
  induction fuel as [|fuel IH];
    intros crate_root st e (Hwf & Htargets & Horig) [crate_info Hinfo];
    [done|].
  cbn [AddCrate]. rewrite Hinfo.
  destruct (seen crate_info) eqn:Hseen; [done|].
  rewrite (targets_at_mark_seen _ _ crate_info) by done.
  destruct (PreferredTarget_is_Some dt (targets crate_info))
    as [main_target Hmain]; [by eapply Htargets|].
  rewrite Hmain.
  pose proof (add_sysroot_if_new_no_throw bs (tool_sysroot main_target)
                (mark_seen crate_root st)) as Hsysthrow.
  destruct (add_sysroot_if_new _ _ _) as [st1|e1|] eqn:Hsys;
    [|by destruct (Hsysthrow e1)|done].
  cbn [mbind outcome_bind].
  pose proof Hsys as Hlookup1. apply add_sysroot_if_new_lookup in Hlookup1.
  assert (targets_at crate_root st1 = targets crate_info) as Htargets_at.
  { unfold targets_at. rewrite Hlookup1. cbn.
    by rewrite lookup_alter_eq, Hinfo. }
  rewrite Htargets_at.
  assert (safe bs all_targets st1) as Hsafe1.
  { split_and!.
    - eapply add_sysroot_if_new_well_formed; [|done].
      by apply well_formed_mark_seen.
    - unfold unseen_have_targets. rewrite Hlookup1.
      by apply unseen_have_targets_mark_seen.
    - eapply entries_original_sysroot; [|done].
      by apply entries_original_mark_seen. }
  set (crate_deps := gather_crate_deps main_target (targets crate_info)).
  destruct (for_each _ st1 crate_deps) as [st2|e2|] eqn:Hloop;
    cbn [mbind outcome_bind]; [|..|done].
  2:{ exfalso. revert Hloop.
      apply (for_each_no_throw (safe bs all_targets)); [|done].
      intros s x Hx Hs. destruct (decide (x = crate_root)).
      - split; [done|]. by intros ? [= <-].
      - split; [|intros s' Hrun; by eapply AddCrate_safe].
        intros e'. apply IH; [done|].
        destruct Hs as (_ & _ & Hkeys & _). apply Hkeys.
        destruct Horig as (_ & Hfresh & _).
        by eapply Hreg; [apply (Hfresh _ _ Hinfo Hseen)|..]. }
  assert (well_indexed st2) as (Hord2 & Hlk2 & Hsys2).
  { revert Hloop. apply for_each_invariant; [|by destruct Hsafe1 as [[??]?]].
    intros s x s' Hs. destruct (decide _); [by intros [= <-]|].
    by apply AddCrate_well_indexed. }
  pose proof (neighbours_seen _ _ _ _ _ _ _ Hloop) as Hseen2.
  destruct (add_sysroot_dependencies _ _ _ _) as [st3 c3] eqn:Hsd.
  apply add_sysroot_dependencies_edges in Hsd as (Hl3 & Hcl3 & _).
  rewrite add_crate_dependencies_recorded; [done|].
  intros dep Hdep Hne. destruct (Hseen2 dep Hdep Hne) as (info & Hinfo2 & ?).
  exists info. rewrite Hl3, Hcl3. cbn.
  rewrite lookup_alter_ne by done. split_and!; [done..|].
  intros idx Hidx. specialize (Hlk2 dep info idx Hinfo2 Hidx). lia.
Qed.

Lemma BuildCrateList_no_throw (all_targets : list Target)
    (order : list SourceFile) (e : failure) :
  neighbours_registered dt all_targets →
  (∀ k, k ∈ order → is_Some (collect_crates all_targets !! k)) →
  BuildCrateList bs dt all_targets order ≠ Throws e.
Proof.
  intros Hreg Horder. unfold BuildCrateList.
  apply (for_each_no_throw (safe bs all_targets)); [|apply safe_start].
  intros s x Hx Hs. split; [|intros s' Hrun; by eapply AddCrate_safe].
  intros e'. apply (AddCrate_no_throw all_targets); [done..|].
  destruct Hs as (_ & _ & Hkeys & _). apply Hkeys. by apply Horder.
Qed.

(** X12.  The neighbours gathered for a crate have no duplicates; a root
    is among them exactly when a target of the crate that is in the
    toolchain of the main target reaches it through link dependencies and
    groups; and they are listed in the order of the first visit. *)
Theorem gather_crate_deps_reached (main_target : Target)
    (all_targets : list Target) :
  NoDup (gather_crate_deps main_target all_targets)
  ∧ (∀ crate_root,
       crate_root ∈ gather_crate_deps main_target all_targets ↔
       ∃ target, target ∈ all_targets
                 ∧ toolchain_label target = toolchain_label main_target
                 ∧ reaches target crate_root)
  ∧ gather_crate_deps main_target all_targets
    = push_back_all []
        (flat_map (λ target,
                     if decide (toolchain_label target
                                ≠ toolchain_label main_target)
                     then [] else direct_rust_deps target)
                  all_targets).
Proof.
  split_and!.
  - rewrite gather_crate_deps_push_back_all.
    apply NoDup_push_back_all, NoDup_nil_2.
  - intros r. apply elem_of_gather_crate_deps.
  - apply gather_crate_deps_push_back_all.
Qed.

(** X13.  If every neighbour of every collected crate root has an entry
    of its own, the construction of the crate list returns, for every
    order of visiting the collected roots, and [RenderJSON] writes the
    list it built. *)
Theorem BuildCrateList_succeeds (all_targets : list Target)
    (order : list SourceFile) :
  neighbours_registered dt all_targets →
  (∀ crate_root, crate_root ∈ order →
                 is_Some (collect_crates all_targets !! crate_root)) →
  ∃ st, BuildCrateList bs dt all_targets order = Ok st
        ∧ RenderJSON bs dt all_targets order
          = Ok (stream_text (WriteCrates bs (crate_list st))).
Proof.
  intros Hreg Horder.
  pose proof (BuildCrateList_no_throw all_targets order) as Hthrow.
  pose proof (BuildCrateList_fuel bs dt all_targets order) as Hfuel.
  unfold RenderJSON.
  destruct (BuildCrateList bs dt all_targets order) as [st|e|].
  - by exists st.
  - by destruct (Hthrow e).
  - done.
Qed.

(** X14.  If a collected crate root that is visited has a neighbour
    without an entry in the registry (a dependency with sources of the
    language that is not a binary target), the construction fails with
    [std::out_of_range], whatever the order, and nothing is written. *)
Theorem BuildCrateList_unregistered_neighbour (all_targets : list Target)
    (order : list SourceFile) (crate_root neighbour : SourceFile)
    (info : CrateInfo) (main_target : Target) :
  crate_root ∈ order →
  collect_crates all_targets !! crate_root = Some info →
  PreferredTarget dt (targets info) = Some main_target →
  neighbour ∈ gather_crate_deps main_target (targets info) →
  neighbour ≠ crate_root →
  collect_crates all_targets !! neighbour = None →
  BuildCrateList bs dt all_targets order = Throws out_of_range
  ∧ RenderJSON bs dt all_targets order = Throws out_of_range.
Proof.
  intros Hk Hinfo Hmain Hn Hne Hnone.
  pose proof (BuildCrateList_failures bs dt all_targets order) as Hthrow.
  pose proof (BuildCrateList_fuel bs dt all_targets order) as Hfuel.
  unfold RenderJSON.
  destruct (BuildCrateList bs dt all_targets order) as [st|e|] eqn:Hrun.
  - exfalso.
    destruct (BuildCrateList_order_assigned bs dt _ _ _ _ Hrun Hk)
      as (info' & h & Hinfo' & _ & Hh).
    destruct (BuildCrateList_coherent bs dt _ _ _ Hrun)
      as ((_ & (Hreg1 & _) & _) & _ & (Hkeys & _ & Hrec) & _ & _ & Hnb).
    destruct (Hreg1 _ _ _ Hinfo' Hh) as (crate & Hcrate & Hroot & Hgen).
    apply list_elem_of_lookup_2 in Hcrate.
    destruct (Hrec crate Hcrate Hgen) as (info0 & Hinfo0 & Htargets).
    rewrite Hroot, Hinfo in Hinfo0. injection Hinfo0 as <-.
    destruct (Hnb crate main_target neighbour)
      as (info_n & Hinfo_n & _); [done|done|by rewrite Htargets..| |].
    { by rewrite Hroot. }
    destruct (proj1 (Hkeys neighbour)) as [? Hsome]; [by exists info_n|].
    congruence.
  - by rewrite (Hthrow e eq_refl).
  - done.
Qed.

End Neighbours.

(** ** The values that the writer sends *)

Section WriterValues.
Context {helpers : Helpers}.
Variable bs : BuildSettings.

Lemma values_app (out1 out2 : list Chunk) :
  values (out1 ++ out2) = values out1 ++ values out2.
Proof. apply omap_app. Qed.

Lemma values_separated {A} (sep : list Chunk) (item : A → list Chunk)
    (first : bool) (l : list A) :
  values sep = [] →
  values (separated sep item first l)
  = flat_map (λ x, values (item x)) l.
Proof.
  intros Hsep. revert first.
  induction l as [|x l IH]; intros first; [done|].
  cbn [separated flat_map]. rewrite !values_app, IH.
  destruct first; [done|by rewrite Hsep].
Qed.

Lemma flat_map_singleton {A B} (f : A → B) (l : list A) :
  flat_map (λ x, [f x]) l = f <$> l.
Proof. induction l as [|x l IH]; [done|]. cbn. by rewrite IH. Qed.

Lemma values_write_crate (crate : Crate) :
  values (write_crate bs crate)
  = [pretty (index crate); GetFullPath_file bs (root crate); label crate;
     GetFullPath_dir bs (GetDir (root crate))]
    ++ (match gen_dir crate with
        | Some dir => [GetFullPath_dir bs (AsSourceDir bs dir)]
        | None => []
        end)
    ++ (match CompilerTarget crate with
        | Some triple => [triple]
        | None => []
        end)
    ++ (EscapeJSONString <$> CompilerArgs crate)
    ++ flat_map (λ dep : nat * string, [pretty dep.1; dep.2])
                (dependencies crate)
    ++ [edition crate]
    ++ (match proc_macro_path crate with
        | Some dylib => [GetFullPath_file bs (AsSourceFile bs dylib)]
        | None => []
        end)
    ++ (EscapeJSONString <$> configs crate)
    ++ (if rustenv_is_empty (crate_rustenv crate) then []
        else flat_map (λ env : string * string,
                         [EscapeJSONString env.1; EscapeJSONString env.2])
                      (rustenv_entries (crate_rustenv crate))).
Proof.
  unfold write_crate. rewrite !values_app.
  assert (values (write_gen_dir bs crate)
          = match gen_dir crate with
            | Some dir => [GetFullPath_dir bs (AsSourceDir bs dir)]
            | None => []
            end) as -> by (unfold write_gen_dir; by destruct (gen_dir crate)).
  assert (values (write_target crate)
          = match CompilerTarget crate with
            | Some triple => [triple]
            | None => []
            end) as ->
    by (unfold write_target; by destruct (CompilerTarget crate)).
  assert (values (write_compiler_args crate)
          = EscapeJSONString <$> CompilerArgs crate) as ->.
  { unfold write_compiler_args.
    destruct (CompilerArgs crate) as [|arg args] eqn:Hargs; [done|].
    rewrite !values_app, values_separated by done.
    cbn [values omap list_omap app]. rewrite app_nil_r.
    apply (flat_map_singleton EscapeJSONString). }
  assert (values (write_deps crate)
          = flat_map (λ dep : nat * string, [pretty dep.1; dep.2])
                     (dependencies crate)) as ->.
  { unfold write_deps. rewrite !values_app, values_separated by done.
    cbn [values omap list_omap app]. by rewrite app_nil_r. }
  assert (values (write_proc_macro bs crate)
          = match proc_macro_path crate with
            | Some dylib => [GetFullPath_file bs (AsSourceFile bs dylib)]
            | None => []
            end) as ->
    by (unfold write_proc_macro; by destruct (proc_macro_path crate)).
  assert (values (write_cfg crate) = EscapeJSONString <$> configs crate)
    as ->.
  { unfold write_cfg. rewrite !values_app, values_separated by done.
    cbn [values omap list_omap app]. rewrite app_nil_r.
    apply (flat_map_singleton EscapeJSONString). }
  assert (values (write_env crate)
          = if rustenv_is_empty (crate_rustenv crate) then []
            else flat_map (λ env : string * string,
                             [EscapeJSONString env.1;
                              EscapeJSONString env.2])
                          (rustenv_entries (crate_rustenv crate))) as ->.
  { unfold write_env. destruct (rustenv_is_empty _); [done|].
    rewrite !values_app, values_separated by done.
    cbn [values omap list_omap app]. by rewrite app_nil_r. }
  cbn [values omap list_omap app]. by rewrite app_nil_r.
Qed.

(** X15.  The values that [WriteCrates] sends are those of the records,
    in the order of the list; for a record: handle, full path of the
    root, label, include directory of the root, the generated-sources
    directory if there is one, the target triple if there is one, the
    compiler arguments, handle and name of every edge, the edition, the
    proc-macro artifact if there is one, the configuration flags and the
    environment entries.  Only the compiler arguments, the flags and the
    environment entries pass through [EscapeJSONString]; the name of the
    record is written nowhere but in the edges of other records. *)
Theorem WriteCrates_values (crates : list Crate) :
  values (WriteCrates bs crates)
  = flat_map (λ crate, values (write_crate bs crate)) crates
  ∧ ∀ crate,
      values (write_crate bs crate)
      = [pretty (index crate); GetFullPath_file bs (root crate);
         label crate; GetFullPath_dir bs (GetDir (root crate))]
        ++ (match gen_dir crate with
            | Some dir => [GetFullPath_dir bs (AsSourceDir bs dir)]
            | None => []
            end)
        ++ (match CompilerTarget crate with
            | Some triple => [triple]
            | None => []
            end)
        ++ (EscapeJSONString <$> CompilerArgs crate)
        ++ flat_map (λ dep : nat * string, [pretty dep.1; dep.2])
                    (dependencies crate)
        ++ [edition crate]
        ++ (match proc_macro_path crate with
            | Some dylib => [GetFullPath_file bs (AsSourceFile bs dylib)]
            | None => []
            end)
        ++ (EscapeJSONString <$> configs crate)
        ++ (if rustenv_is_empty (crate_rustenv crate) then []
            else flat_map (λ env : string * string,
                             [EscapeJSONString env.1;
                              EscapeJSONString env.2])
                          (rustenv_entries (crate_rustenv crate))).
Proof.
  split; [|apply values_write_crate].
  unfold WriteCrates. rewrite !values_app, values_separated by done.
  cbn [values omap list_omap app]. by rewrite app_nil_r.
Qed.

End WriterValues.

(** ** What a call changes, and the project without crates *)

Section Frame.
Context {helpers : Helpers}.
Variable bs : BuildSettings.
Variable dt : Label.

Lemma AddCrate_keys (fuel : nat) :
  ∀ crate_root st st',
    AddCrate fuel bs dt crate_root st = Ok st' →
    ∀ k, is_Some (lookup st' !! k) ↔ is_Some (lookup st !! k).
Proof.
  induction fuel as [|fuel IH]; intros crate_root st st' Hrun; [done|].
  pose proof Hrun as Hinv.
  apply AddCrate_Ok_inv in Hinv
    as (ci & Hci & [[_ ->]|(Hunseen & _)]); [done|].
  destruct (AddCrate_appended bs dt _ _ _ _ _ Hci Hunseen Hrun)
    as (main_target & st1 & st2 & _ & Hsys & Hloop & _ & _ & _ & ->).
  apply add_sysroot_if_new_lookup in Hsys.
  assert (∀ k, is_Some (lookup st2 !! k) ↔ is_Some (lookup st1 !! k))
    as Hkeys.
  { revert Hloop.
    apply (for_each_invariant
             (λ s, ∀ k, is_Some (lookup s !! k)
                        ↔ is_Some (lookup st1 !! k))); [|done].
    intros s x s' Hs. destruct (decide (x = crate_root));
      [by intros [= <-]|].
    intros Hx k. by rewrite (IH _ _ _ Hx k). }
  intros k. cbn. 
  assert (∀ (f : CrateInfo → CrateInfo) (m : gmap string CrateInfo),
            is_Some (alter f crate_root m !! k) ↔ is_Some (m !! k)) as Halter.
  { intros f m. destruct (decide (crate_root = k)) as [->|Hne].
    - by rewrite lookup_alter_eq, fmap_is_Some.
    - by rewrite lookup_alter_ne. }
  rewrite Halter, Hkeys, Hsys. cbn. apply Halter.
Qed.

Lemma AddCrate_unseen_untouched (fuel : nat) :
  ∀ crate_root st st',
    AddCrate fuel bs dt crate_root st = Ok st' →
    ∀ k info, lookup st' !! k = Some info → seen info = false →
              lookup st !! k = Some info.
Proof.
  induction fuel as [|fuel IH]; intros crate_root st st' Hrun; [done|].
  pose proof Hrun as Hinv.
  apply AddCrate_Ok_inv in Hinv
    as (ci & Hci & [[_ ->]|(Hunseen & _)]); [done|].
  destruct (AddCrate_appended bs dt _ _ _ _ _ Hci Hunseen Hrun)
    as (main_target & st1 & st2 & _ & Hsys & Hloop & Hroot2 & _ & _ & ->).
  apply add_sysroot_if_new_lookup in Hsys.
  intros k info. cbn. rewrite lookup_alter_Some.
  intros [(<- & info' & Hk & ->)|[Hne Hk]] Hseen.
  { rewrite Hroot2 in Hk. by injection Hk as <-. }
  assert (lookup st1 !! k = Some info) as Hk1.
  { revert Hloop Hk.
    apply (for_each_reflects (λ s, lookup s !! k = Some info)).
    intros s x s'. destruct (decide (x = crate_root));
      [by intros [= <-]|].
    intros Hx Hs'. by eapply IH. }
  rewrite Hsys in Hk1. cbn in Hk1. by rewrite lookup_alter_ne in Hk1.
Qed.

Lemma collect_crates_empty (all_targets : list Target) :
  (∀ t, t ∈ all_targets →
        IsBinary t = false ∨ rust_source_used t = false) →
  collect_crates all_targets = ∅.
Proof.
  intros Hnone. apply map_eq. intros k.
  rewrite lookup_empty, collect_crates_lookup.
  destruct (filter _ all_targets) as [|t ts] eqn:Hf; [done|].
  assert (t ∈ filter (λ t, IsBinary t = true ∧ rust_source_used t = true
                           ∧ crate_root t = k) all_targets)
    as Hin by (rewrite Hf; by left).
  apply list_elem_of_filter in Hin as [(Hbin & Hrust & _) Ht].
  destruct (Hnone t Ht); congruence.
Qed.

(** X16.  A call of [AddCrate] that returns only adds: the crate list it
    had is a prefix of the one it leaves, the sysroot tables are kept, the
    registry keeps its keys, an entry that was marked is not touched, an
    entry that is not marked afterwards was not touched, the entry of the
    crate is marked afterwards, and a call for a crate that is already
    marked changes nothing. *)
Theorem AddCrate_only_appends (fuel : nat) (crate_root : SourceFile)
    (st st' : State) :
  AddCrate fuel bs dt crate_root st = Ok st' →
  crate_list st `prefix_of` crate_list st'
  ∧ sysroot_lookup st ⊆ sysroot_lookup st'
  ∧ (∀ k, is_Some (lookup st' !! k) ↔ is_Some (lookup st !! k))
  ∧ (∀ k info, lookup st !! k = Some info → seen info = true →
               lookup st' !! k = Some info)
  ∧ (∀ k info, lookup st' !! k = Some info → seen info = false →
               lookup st !! k = Some info)
  ∧ is_seen crate_root st'
  ∧ (is_seen crate_root st → st' = st).
Proof.
  intros Hrun. split_and!.
  - by eapply AddCrate_prefix.
  - by eapply AddCrate_tables.
  - exact (AddCrate_keys _ _ _ _ Hrun).
  - intros k info Hk Hseen. by eapply AddCrate_seen_frozen.
  - exact (AddCrate_unseen_untouched _ _ _ _ Hrun).
  - by eapply AddCrate_marks.
  - intros (info & Hinfo & Hseen). destruct fuel as [|fuel]; [done|].
    apply AddCrate_Ok_inv in Hrun
      as (ci & Hci & [[_ ->]|(Hunseen & _)]); [done|]. congruence.
Qed.

(** X17.  A build graph without a binary target that has sources of the
    language has no crate root to visit, and [RenderJSON] writes an object
    whose [crates] array is empty. *)
Theorem RenderJSON_without_crates (all_targets : list Target)
    (order : list SourceFile) :
  (∀ t, t ∈ all_targets →
        IsBinary t = false ∨ rust_source_used t = false) →
  iteration_order (collect_crates all_targets) order →
  order = []
  ∧ RenderJSON bs dt all_targets order
    = Ok ("{" +:+ NEWLINE +:+ "  " +:+ dq +:+ "crates" +:+ dq +:+ ": ["
          +:+ NEWLINE +:+ "  ]" +:+ NEWLINE +:+ "}" +:+ NEWLINE).
Proof.
  intros Hnone Horder. unfold iteration_order in Horder.
  rewrite (collect_crates_empty _ Hnone), map_to_list_empty in Horder.
  apply Permutation_nil_r in Horder as ->. split; [done|].
  unfold RenderJSON, BuildCrateList. cbn [for_each mbind outcome_bind].
  unfold WriteCrates, NEWLINE. cbn [crate_list separated app].
  destruct OS_WINDOWS; reflexivity.
Qed.

End Frame.

(** ** The size of the crate list, and the sysroots in it *)

Section Counting.
Context {helpers : Helpers}.
Variable bs : BuildSettings.
Variable dt : Label.

Lemma elem_of_indexed (k : SourceFile) (st : State) :
  k ∈ indexed st ↔
  ∃ info, lookup st !! k = Some info ∧ is_Some (info_index info).
Proof.
  unfold indexed. rewrite elem_of_dom. unfold is_Some at 1.
  setoid_rewrite map_lookup_filter_Some. naive_solver.
Qed.

Lemma indexed_mark_seen (crate_root : SourceFile) (st : State) :
  indexed (mark_seen crate_root st) = indexed st.
Proof.
  apply set_eq. intros k. rewrite !elem_of_indexed. cbn.
  setoid_rewrite lookup_alter_Some. split.
  - intros (info & [(<- & info' & Hk & ->)|[_ Hk]] & Hidx);
      [by exists info'|by exists info].
  - intros (info & Hk & Hidx).
    destruct (decide (crate_root = k)) as [->|Hne].
    + eexists. split; [left; eauto|done].
    + exists info. split; [by right|done].
Qed.

Lemma indexed_appended (crate_root : SourceFile) (main_target : Target)
    (all_targets : list Target) (st : State) :
  is_Some (lookup st !! crate_root) →
  indexed (appended crate_root main_target all_targets st)
  = {[crate_root]} ∪ indexed st.
Proof.
  intros [ci Hci]. apply set_eq. intros k.
  rewrite elem_of_union, elem_of_singleton, !elem_of_indexed. cbn.
  setoid_rewrite lookup_alter_Some. split.
  - intros (info & [(<- & info' & Hk & ->)|[_ Hk]] & Hidx);
      [by left|right; by exists info].
  - intros [->|(info & Hk & Hidx)].
    + eexists. split; [left; eauto|]. by cbn.
    + destruct (decide (crate_root = k)) as [->|Hne].
      * eexists. split; [left; eauto|]. by cbn.
      * exists info. split; [by right|done].
Qed.

Lemma crates_counted_sysroot (s : string) (st st' : State) :
  crates_counted st → add_sysroot_if_new bs s st = Ok st' →
  crates_counted st'.
Proof.
  unfold crates_counted.
  intros Hst [->|(_ & Hnew & ->)]%add_sysroot_if_new_cases; [done|].
  cbn [crate_list sysroot_lookup]. rewrite length_app.
  rewrite map_size_insert_None by done.
  change (indexed _) with (indexed st).
  change (length (synthesized_crates bs s (length (crate_list st)))) with 8.
  lia.
Qed.

Lemma AddCrate_crates_counted (fuel : nat) (crate_root : SourceFile)
    (st st' : State) :
  well_formed bs st → crates_counted st →
  AddCrate fuel bs dt crate_root st = Ok st' → crates_counted st'.
Proof.
  apply (AddCrate_rule bs dt crates_counted).
  - intros r ci s _ Hs _ _. unfold crates_counted in *.
    by rewrite indexed_mark_seen.
  - intros s0 s s' _ Hs Hrun. by eapply crates_counted_sysroot.
  - intros r ci mt s0 s2 (_ & (_ & _ & Hfresh) & _) _ Hci Hunseen _ Hs2
      Hroot _ _ _.
    unfold crates_counted in *. rewrite indexed_appended by (by eexists).
    cbn [crate_list sysroot_lookup appended]. rewrite length_app.
    rewrite size_union, size_singleton; [cbn; lia|].
    apply disjoint_singleton_l. rewrite elem_of_indexed.
    intros (info & Hinfo & Hidx). rewrite Hroot in Hinfo.
    injection Hinfo as <-. cbn in Hidx.
    rewrite (Hfresh _ _ Hci Hunseen) in Hidx. by destruct Hidx.
Qed.

Lemma AddCrate_sysroots_used (all_targets : list Target) (fuel : nat) :
  ∀ crate_root st st',
    well_formed bs st → entries_original all_targets st →
    sysroots_used dt all_targets st →
    AddCrate fuel bs dt crate_root st = Ok st' →
    sysroots_used dt all_targets st'.
Proof.
  induction fuel as [|fuel IH];
    intros crate_root st st' Hwf Horig Hst Hrun; [done|].
  pose proof Hrun as Hinv.
  apply AddCrate_Ok_inv in Hinv
    as (ci & Hci & [[_ ->]|(Hunseen & _)]); [done|].
  destruct (AddCrate_appended bs dt _ _ _ _ _ Hci Hunseen Hrun)
    as (main_target & st1 & st2 & Hmain & Hsys & Hloop & _ & _ & _ & ->).
  assert (well_formed bs st1 ∧ entries_original all_targets st1
          ∧ sysroots_used dt all_targets st1) as Hst1.
  { split_and!.
    - eapply add_sysroot_if_new_well_formed; [|done].
      by apply well_formed_mark_seen.
    - eapply entries_original_sysroot; [|done].
      by apply entries_original_mark_seen.
    - assert (sysroots_used dt all_targets (mark_seen crate_root st))
        as Hmarked.
      { intros s Hs. destruct (Hst s Hs) as (Hne & k & info & mt & ?&?&?&?).
        split; [done|]. exists k, info, mt. split_and!; [done..|].
        apply is_seen_mark_seen. by left. }
      pose proof Hsys as Hlookup. apply add_sysroot_if_new_lookup in Hlookup.
      apply add_sysroot_if_new_cases in Hsys as [->|(Hne & _ & ->)];
        [done|].
      intros s. cbn [sysroot_lookup]. rewrite lookup_insert_is_Some.
      intros [<-|[_ Hs]].
      + split; [done|]. exists crate_root, ci, main_target.
        destruct Horig as (_ & Hfresh & _). split_and!; [by apply Hfresh|done..|].
        apply is_seen_mark_seen. right. by rewrite Hci.
      + destruct (Hmarked s Hs) as (? & k & info & mt & ?&?&?&?).
        split; [done|]. by exists k, info, mt. }
  assert (well_formed bs st2 ∧ entries_original all_targets st2
          ∧ sysroots_used dt all_targets st2) as (_ & _ & Hst2).
  { revert Hloop.
    apply (for_each_invariant
             (λ s, well_formed bs s ∧ entries_original all_targets s
                   ∧ sysroots_used dt all_targets s)); [|done].
    intros s x s' (Hwfs & Hos & Hs). destruct (decide (x = crate_root));
      [by intros [= <-]|].
    intros Hx. split_and!.
    - by eapply AddCrate_well_formed.
    - by eapply AddCrate_entries_original.
    - by eapply IH. }
  intros s Hs. destruct (Hst2 s Hs) as (Hne & k & info & mt & ?&?&?&?).
  split; [done|]. exists k, info, mt. split_and!; [done..|].
  by apply is_seen_assign_index.
Qed.

Lemma BuildCrateList_counted (all_targets : list Target)
    (order : list SourceFile) (st : State) :
  BuildCrateList bs dt all_targets order = Ok st →
  crates_counted st ∧ sysroots_used dt all_targets st.
Proof.
  intros Hrun.
  assert (well_formed bs st ∧ entries_original all_targets st
          ∧ crates_counted st ∧ sysroots_used dt all_targets st)
    as (_ & _ & ? & ?); [|done].
  revert Hrun. unfold BuildCrateList.
  apply (for_each_invariant
           (λ s, well_formed bs s ∧ entries_original all_targets s
                 ∧ crates_counted s ∧ sysroots_used dt all_targets s)).
  - intros s x s' (Hwf & Horig & Hcount & Hused) Hx. split_and!.
    + by eapply AddCrate_well_formed.
    + by eapply AddCrate_entries_original.
    + by eapply AddCrate_crates_counted.
    + by eapply AddCrate_sysroots_used.
  - split_and!.
    + apply initial_well_formed.
    + by destruct (safe_start bs all_targets) as (_ & _ & ?).
    + unfold crates_counted. cbn [crate_list sysroot_lookup length].
      rewrite map_size_empty.
      assert (indexed {| lookup := collect_crates all_targets;
                         sysroot_lookup := ∅; crate_list := [] |} = ∅) as ->.
      { apply set_eq. intros k. rewrite elem_of_indexed. cbn.
        split; [|by intros ?%elem_of_empty].
        intros (info & Hk & Hidx).
        apply collect_crates_fresh in Hk as (_ & Hnone & _).
        rewrite Hnone in Hidx. by destruct Hidx. }
      by rewrite size_empty.
    + intros s. cbn. rewrite lookup_empty. by intros [??].
Qed.

(** X18.  When all collected crate roots are visited, the finished crate
    list has eight records for every sysroot that has a table and one
    record for every collected crate root, and no others. *)
Theorem crate_list_length (all_targets : list Target)
    (order : list SourceFile) (st : State) :
  BuildCrateList bs dt all_targets order = Ok st →
  iteration_order (collect_crates all_targets) order →
  length (crate_list st)
  = 8 * size (sysroot_lookup st) + size (collect_crates all_targets).
Proof.
  intros Hrun Horder.
  destruct (BuildCrateList_counted _ _ _ Hrun) as [-> _].
  f_equal. rewrite <- (size_dom (D := gset string)). f_equal.
  destruct (BuildCrateList_coherent bs dt _ _ _ Hrun)
    as (_ & _ & (Hkeys & _) & _).
  apply set_eq. intros k. rewrite elem_of_indexed, elem_of_dom, <- Hkeys.
  split; [intros (info & -> & _); by eexists|]. intros Hk.
  apply Hkeys in Hk as [info0 Hk].
  destruct (BuildCrateList_order_assigned bs dt _ _ _ k Hrun)
    as (info & h & Hinfo & _ & Hh).
  { unfold iteration_order in Horder. rewrite Horder.
    apply list_elem_of_fmap. exists (k, info0). split; [done|].
    by apply elem_of_map_to_list. }
  exists info. by rewrite Hh.
Qed.

(** X19.  In the finished state a sysroot has a table, and so its eight
    records in the list, exactly when it is not empty and is the sysroot
    of the main target of a record of a crate root. *)
Theorem sysroots_of_main_targets (all_targets : list Target)
    (order : list SourceFile) (st : State) (sysroot : string) :
  BuildCrateList bs dt all_targets order = Ok st →
  is_Some (sysroot_lookup st !! sysroot) ↔
  sysroot ≠ ""
  ∧ ∃ crate main_target,
      crate ∈ crate_list st ∧ is_Some (gen_dir crate)
      ∧ PreferredTarget dt (crate_targets crate) = Some main_target
      ∧ tool_sysroot main_target = sysroot.
Proof.
  intros Hrun.
  destruct (BuildCrateList_counted _ _ _ Hrun) as [_ Hused].
  destruct (BuildCrateList_coherent bs dt _ _ _ Hrun)
    as ((_ & (Hreg & _) & _) & _ & (_ & _ & Hrec) & _ & Hlinked & _).
  split.
  - intros Hs. destruct (Hused _ Hs) as (Hne & k & info0 & mt & Hk & Hmt
                                          & Htool & Hseen).
    split; [done|].
    destruct (BuildCrateList_assigned bs dt _ _ _ k Hrun Hseen)
      as (info & h & Hinfo & _ & Hh).
    destruct (Hreg _ _ _ Hinfo Hh) as (crate & Hcrate & Hroot & Hgen).
    apply list_elem_of_lookup_2 in Hcrate.
    destruct (Hrec crate Hcrate Hgen) as (info1 & Hinfo1 & Htargets).
    rewrite Hroot, Hk in Hinfo1. injection Hinfo1 as <-.
    exists crate, mt. by rewrite Htargets.
  - intros (Hne & crate & mt & Hcrate & Hgen & Hmt & <-).
    destruct (Hlinked crate mt Hcrate Hgen Hmt) as (table & _ & _ & Ht & _).
    exists table. by apply Ht.
Qed.

End Counting.

(** ** Strings *)

Lemma append_assoc (s1 s2 s3 : string) :
  (s1 +:+ s2) +:+ s3 = s1 +:+ (s2 +:+ s3).
Proof.
  induction s1 as [|c s1 IH]; [done|].
  change (String c ((s1 +:+ s2) +:+ s3) = String c (s1 +:+ (s2 +:+ s3))).
  by rewrite IH.
Qed.

Lemma length_append (s1 s2 : string) :
  String.length (s1 +:+ s2) = String.length s1 + String.length s2.
Proof.
  induction s1 as [|c s1 IH]; [done|].
  change (S (String.length (s1 +:+ s2))
          = S (String.length s1 + String.length s2)).
  by rewrite IH.
Qed.

Lemma append_inj_r (s1 s2 t : string) : s1 +:+ t = s2 +:+ t → s1 = s2.
Proof.
  revert s2. induction s1 as [|c s1 IH]; intros [|d s2] Heq.
  - done.
  - apply (f_equal String.length) in Heq.
    rewrite !length_append in Heq. cbn [String.length] in Heq. lia.
  - apply (f_equal String.length) in Heq.
    rewrite !length_append in Heq. cbn [String.length] in Heq. lia.
  - change (String c (s1 +:+ t) = String d (s2 +:+ t)) in Heq.
    injection Heq as -> Heq. f_equal. by apply IH.
Qed.

(** ** Bundle file rules *)

Section BundleFacts.
Import BundleFileRule.
Context {collaborators : Collaborators}.
Variable defined_from : ParseNode.
Variable bundle_data_target_label : string.
Variable bundle_data : BundleData.
Variable source_file : SourceFile.

Local Abbreviation run :=
  (expand_ranges defined_from bundle_data_target_label bundle_data
                 source_file).

Lemma expand_ranges_cons_expandable (subrange : Subrange)
    (rest : list Subrange) (output_path : string) :
  expandable bundle_data subrange →
  run (subrange :: rest) output_path
  = run rest (output_path
              +:+ piece_of bundle_data source_file subrange).
Proof.
  unfold expandable, piece_of. intros Hok. cbn [expand_ranges].
  destruct (type subrange) eqn:Ht; cbn [tested_dir] in Hok;
    try done; by rewrite (Hok _ _ eq_refl).
Qed.

Lemma expand_ranges_cons_missing (subrange : Subrange)
    (rest : list Subrange) (output_path : string) (dir : SourceDir)
    (property_name : string) :
  tested_dir bundle_data (type subrange) = Some (dir, property_name) →
  is_null dir = true →
  run (subrange :: rest) output_path
  = inl (ErrMissingPropertyForExpansion defined_from
           bundle_data_target_label property_name).
Proof.
  intros Ht Hnull. cbn [expand_ranges].
  destruct (type subrange); cbn [tested_dir] in Ht; try done;
    injection Ht as <- <-; by rewrite Hnull.
Qed.

Lemma expand_ranges_expandable (ranges : list Subrange) :
  ∀ output_path,
    Forall (expandable bundle_data) ranges →
    run ranges output_path
    = inr (output_path +:+ pieces_of bundle_data source_file ranges).
Proof.
  induction ranges as [|subrange rest IH]; intros output_path Hok.
  - cbn. f_equal. clear. induction output_path as [|c s IH]; [done|].
    change (String c s = String c (s +:+ "")). by rewrite <- IH.
  - apply Forall_cons in Hok as [Hhere Hrest].
    rewrite expand_ranges_cons_expandable, IH by done.
    by rewrite append_assoc.
Qed.

Lemma expand_ranges_stops (before after : list Subrange)
    (subrange : Subrange) (dir : SourceDir) (property_name : string) :
  ∀ output_path,
    Forall (expandable bundle_data) before →
    tested_dir bundle_data (type subrange) = Some (dir, property_name) →
    is_null dir = true →
    run (before ++ subrange :: after) output_path
    = inl (ErrMissingPropertyForExpansion defined_from
             bundle_data_target_label property_name).
Proof.
  induction before as [|r before IH]; intros output_path Hok Ht Hnull.
  - by eapply expand_ranges_cons_missing.
  - apply Forall_cons in Hok as [Hhere Hrest]. cbn [app].
    rewrite expand_ranges_cons_expandable by done. by apply IH.
Qed.

Lemma expandable_dec (subrange : Subrange) :
  expandable bundle_data subrange
  ∨ ∃ dir property_name,
      tested_dir bundle_data (type subrange) = Some (dir, property_name)
      ∧ is_null dir = true.
Proof.
  unfold expandable.
  destruct (tested_dir bundle_data (type subrange)) as [[dir nm]|];
    [|by left].
  destruct (is_null dir) eqn:Hnull; [right; by exists dir, nm|].
  left. by intros ?? [= <- <-].
Qed.

Lemma first_not_expandable (ranges : list Subrange) :
  Forall (expandable bundle_data) ranges
  ∨ ∃ before subrange after dir property_name,
      ranges = before ++ subrange :: after
      ∧ Forall (expandable bundle_data) before
      ∧ tested_dir bundle_data (type subrange) = Some (dir, property_name)
      ∧ is_null dir = true.
Proof.
  induction ranges as [|r ranges IH]; [by left|].
  destruct (expandable_dec r) as [Hr|(dir & nm & Ht & Hnull)].
  - destruct IH as [Hall|(before & s & after & dir & nm & -> & Hb & Ht & Hn)].
    + left. by constructor.
    + right. exists (r :: before), s, after, dir, nm.
      split_and!; [done|by constructor|done..].
  - right. by exists [], r, ranges, dir, nm.
Qed.

(** X20.  [ApplyPatternToSource] expands the ranges of the pattern from
    left to right.  If every range can be expanded, it returns the pieces
    of all ranges, one after the other; otherwise it fails at the first
    range whose tested directory is null, with the error that names the
    property of that range, and it succeeds in no other case.  The
    expansions of the root, the contents and the plug-ins directory all
    depend on the contents directory alone: when it is set they are
    expanded, whether or not the root or the plug-ins directory is null.
    [ApplyPatternToSourceAsOutputFile] fails in the same cases with the
    same error, and otherwise converts the expanded file. *)
Theorem ApplyPatternToSource_first_missing_property
    (pattern : list Subrange) :
  (Forall (expandable bundle_data) pattern →
   ApplyPatternToSource pattern defined_from bundle_data_target_label
                        bundle_data source_file
   = inr (pieces_of bundle_data source_file pattern))
  ∧ (∀ before subrange after dir property_name,
       pattern = before ++ subrange :: after →
       Forall (expandable bundle_data) before →
       tested_dir bundle_data (type subrange) = Some (dir, property_name) →
       is_null dir = true →
       ApplyPatternToSource pattern defined_from bundle_data_target_label
                            bundle_data source_file
       = inl (ErrMissingPropertyForExpansion defined_from
                bundle_data_target_label property_name))
  ∧ ((∃ file,
        ApplyPatternToSource pattern defined_from bundle_data_target_label
                             bundle_data source_file = inr file)
     ↔ Forall (expandable bundle_data) pattern)
  ∧ (∀ subrange,
       is_null (contents_dir bundle_data) = false →
       type subrange ∈ [SUBSTITUTION_BUNDLE_ROOT_DIR;
                        SUBSTITUTION_BUNDLE_CONTENTS_DIR;
                        SUBSTITUTION_BUNDLE_PLUGINS_DIR] →
       expandable bundle_data subrange)
  ∧ (∀ err,
       ApplyPatternToSourceAsOutputFile pattern defined_from
         bundle_data_target_label bundle_data source_file = inl err
       ↔ ApplyPatternToSource pattern defined_from
           bundle_data_target_label bundle_data source_file = inl err)
  ∧ (∀ file,
       ApplyPatternToSource pattern defined_from bundle_data_target_label
                            bundle_data source_file = inr file →
       ApplyPatternToSourceAsOutputFile pattern defined_from
         bundle_data_target_label bundle_data source_file
       = inr (make_OutputFile file)).
Proof.
  unfold ApplyPatternToSourceAsOutputFile, ApplyPatternToSource.
  split_and!.
  - intros Hok. by rewrite expand_ranges_expandable.
  - intros before subrange after dir nm -> Hok Ht Hnull.
    by eapply expand_ranges_stops.
  - split.
    + intros [file Hfile].
      destruct (first_not_expandable pattern)
        as [Hall|(before & s & after & dir & nm & -> & Hb & Ht & Hn)];
        [done|].
      by rewrite (expand_ranges_stops _ _ _ _ _ _ Hb Ht Hn) in Hfile.
    + intros Hok. rewrite expand_ranges_expandable by done. by eexists.
  - intros subrange Hcontents Htype dir nm Ht.
    repeat (apply elem_of_cons in Htype as [Htype|Htype];
            [rewrite Htype in Ht; by injection Ht as <- <-|]).
    by apply elem_of_nil in Htype.
  - intros err. destruct (run pattern ""); naive_solver.
  - by intros file ->.
Qed.

End BundleFacts.

(** ** Names of the ninja files *)

(** X21.  The rule prefix of a toolchain is empty exactly for the default
    toolchain: the prefix of another toolchain, the name of its label
    followed by an underscore, is never empty.  Two toolchains that are not
    the default one have the same prefix exactly when their labels have the
    same name. *)
Theorem GetNinjaRulePrefixForToolchain_distinguishes
    (settings other : NinjaUtils.Settings) :
  (NinjaUtils.GetNinjaRulePrefixForToolchain settings = ""
   ↔ NinjaUtils.is_default settings = true)
  ∧ (NinjaUtils.is_default settings = false →
     NinjaUtils.is_default other = false →
     NinjaUtils.GetNinjaRulePrefixForToolchain settings
     = NinjaUtils.GetNinjaRulePrefixForToolchain other
     ↔ NinjaUtils.toolchain_label_name settings
       = NinjaUtils.toolchain_label_name other).
Proof.
  unfold NinjaUtils.GetNinjaRulePrefixForToolchain.
  split.
  - destruct (NinjaUtils.is_default settings); [done|].
    split; [|done]. intros Heq. apply (f_equal String.length) in Heq.
    rewrite length_append in Heq. cbn in Heq. lia.
  - intros -> ->. split; [apply append_inj_r|by intros ->].
Qed.

(** ** What does not depend on the order of the visits *)

Section OrderIndependence.
Context {helpers : Helpers}.
Variable bs : BuildSettings.
Variable dt : Label.

Lemma iteration_order_elem_of (all_targets : list Target)
    (order : list SourceFile) (k : SourceFile) :
  iteration_order (collect_crates all_targets) order →
  k ∈ order ↔ is_Some (collect_crates all_targets !! k).
Proof.
  unfold iteration_order. intros ->. rewrite list_elem_of_fmap. split.
  - intros ([k' info] & -> & Hk%elem_of_map_to_list). by exists info.
  - intros [info Hk]. exists (k, info). split; [done|].
    by apply elem_of_map_to_list.
Qed.

Lemma BuildCrateList_Ok_registered (all_targets : list Target)
    (order : list SourceFile) (st : State) :
  BuildCrateList bs dt all_targets order = Ok st →
  ∀ crate_root info main_target neighbour,
    crate_root ∈ order →
    collect_crates all_targets !! crate_root = Some info →
    PreferredTarget dt (targets info) = Some main_target →
    neighbour ∈ gather_crate_deps main_target (targets info) →
    neighbour ≠ crate_root →
    is_Some (collect_crates all_targets !! neighbour).
Proof.
  intros Hrun k info mt nb Hk Hinfo Hmain Hn Hne.
  destruct (BuildCrateList_order_assigned bs dt _ _ _ _ Hrun Hk)
    as (info' & h & Hinfo' & _ & Hh).
  destruct (BuildCrateList_coherent bs dt _ _ _ Hrun)
    as ((_ & (Hreg1 & _) & _) & _ & (Hkeys & _ & Hrec) & _ & _ & Hnb).
  destruct (Hreg1 _ _ _ Hinfo' Hh) as (crate & Hcrate & Hroot & Hgen).
  apply list_elem_of_lookup_2 in Hcrate.
  destruct (Hrec crate Hcrate Hgen) as (info0 & Hinfo0 & Htargets).
  rewrite Hroot, Hinfo in Hinfo0. injection Hinfo0 as <-.
  destruct (Hnb crate mt nb)
    as (info_n & Hinfo_n & _); [done|done|by rewrite Htargets..| |].
  { by rewrite Hroot. }
  apply Hkeys. by exists info_n.
Qed.

Lemma crate_root_record (all_targets : list Target)
    (order : list SourceFile) (st : State) (k : SourceFile)
    (info : CrateInfo) :
  BuildCrateList bs dt all_targets order = Ok st → k ∈ order →
  collect_crates all_targets !! k = Some info →
  ∃ crate main_target,
    crate ∈ crate_list st
    ∧ PreferredTarget dt (targets info) = Some main_target
    ∧ crate = crate_record k main_target (targets info) (index crate)
                (dependencies crate).
Proof.
  intros Hrun Hk Hinfo.
  destruct (BuildCrateList_order_assigned bs dt _ _ _ _ Hrun Hk)
    as (info' & h & Hinfo' & _ & Hh).
  destruct (BuildCrateList_coherent bs dt _ _ _ Hrun)
    as ((_ & (Hreg1 & _) & _) & Hdesc & (_ & _ & Hrec) & _).
  destruct (Hreg1 _ _ _ Hinfo' Hh) as (crate & Hcrate & Hroot & Hgen).
  apply list_elem_of_lookup_2 in Hcrate.
  destruct (Hrec crate Hcrate Hgen) as (info0 & Hinfo0 & Htargets).
  rewrite Hroot, Hinfo in Hinfo0. injection Hinfo0 as <-.
  destruct (Hdesc crate Hcrate) as [[Hnone _]|(mt & Hmt & Heq)].
  { rewrite Hnone in Hgen. by destruct Hgen. }
  exists crate, mt. rewrite Htargets in Hmt, Heq. rewrite Hroot in Heq.
  done.
Qed.

(** X22.  Whether the construction succeeds does not depend on the order
    in which the registry is visited: for every order of its keys, the
    construction returns a crate list exactly when every neighbour of
    every collected crate root has an entry of its own, and otherwise it
    fails with [std::out_of_range]. *)
Theorem success_independent_of_order (all_targets : list Target)
    (order : list SourceFile) :
  iteration_order (collect_crates all_targets) order →
  ((∃ st, BuildCrateList bs dt all_targets order = Ok st)
   ↔ neighbours_registered dt all_targets)
  ∧ ((∃ st, BuildCrateList bs dt all_targets order = Ok st)
     ∨ BuildCrateList bs dt all_targets order = Throws out_of_range).
Proof.
  intros Horder. split.
  - split.
    + intros [st Hrun] k info mt nb Hinfo Hmain Hn Hne.
      eapply BuildCrateList_Ok_registered; [done| |done..].
      apply (iteration_order_elem_of all_targets); [done|by exists info].
    + intros Hreg.
      pose proof (BuildCrateList_no_throw bs dt all_targets order) as Hthrow.
      pose proof (BuildCrateList_fuel bs dt all_targets order) as Hfuel.
      destruct (BuildCrateList bs dt all_targets order) as [st|e|];
        [by exists st| |done].
      exfalso. apply (Hthrow e Hreg); [|done]. intros k Hk.
      by apply (iteration_order_elem_of all_targets order).
  - pose proof (BuildCrateList_failures bs dt all_targets order) as Hthrow.
    pose proof (BuildCrateList_fuel bs dt all_targets order) as Hfuel.
    destruct (BuildCrateList bs dt all_targets order) as [st|e|];
      [left; by exists st|right|done].
    by rewrite (Hthrow e eq_refl).
Qed.

(** X23.  Two runs that visit the registry in different orders build crate
    lists of the same length, synthesize the same sysroots, and make, for
    every crate root, records that agree in everything but their handle
    and their edges. *)
Theorem records_independent_of_order (all_targets : list Target)
    (order1 order2 : list SourceFile) (st1 st2 : State) :
  iteration_order (collect_crates all_targets) order1 →
  iteration_order (collect_crates all_targets) order2 →
  BuildCrateList bs dt all_targets order1 = Ok st1 →
  BuildCrateList bs dt all_targets order2 = Ok st2 →
  length (crate_list st1) = length (crate_list st2)
  ∧ (∀ sysroot, is_Some (sysroot_lookup st1 !! sysroot)
                ↔ is_Some (sysroot_lookup st2 !! sysroot))
  ∧ (∀ crate1,
       crate1 ∈ crate_list st1 → is_Some (gen_dir crate1) →
       ∃ crate2, crate2 ∈ crate_list st2
                 ∧ same_but_handles crate1 crate2).
Proof.
  intros Horder1 Horder2 Hrun1 Hrun2.
  assert (∀ order st,
            iteration_order (collect_crates all_targets) order →
            BuildCrateList bs dt all_targets order = Ok st →
            ∀ s, is_Some (sysroot_lookup st !! s) ↔
                 s ≠ "" ∧ ∃ k info mt,
                   collect_crates all_targets !! k = Some info
                   ∧ PreferredTarget dt (targets info) = Some mt
                   ∧ tool_sysroot mt = s) as Hsysroots.
  { intros order st Horder Hrun s.
    destruct (BuildCrateList_counted bs dt _ _ _ Hrun) as [_ Hused].
    destruct (BuildCrateList_coherent bs dt _ _ _ Hrun)
      as (_ & _ & _ & _ & Hlinked & _).
    split.
    - intros Hs. destruct (Hused s Hs) as (? & k & info & mt & ? & ? & ? & _).
      split; [done|]. by exists k, info, mt.
    - intros (Hne & k & info & mt & Hinfo & Hmt & <-).
      destruct (crate_root_record _ order st k info Hrun)
        as (crate & mt' & Hcrate & Hmt' & Heq); [|done|].
      { apply (iteration_order_elem_of all_targets); [done|by exists info]. }
      assert (mt' = mt) as -> by congruence.
      destruct (Hlinked crate mt Hcrate) as (table & _ & _ & Ht & _).
      + by rewrite Heq.
      + by rewrite Heq.
      + exists table. by apply Ht. }
  assert (∀ s, is_Some (sysroot_lookup st1 !! s)
               ↔ is_Some (sysroot_lookup st2 !! s)) as Hsame.
  { intros s. by rewrite (Hsysroots order1 st1), (Hsysroots order2 st2). }
  split_and!.
  - destruct (BuildCrateList_counted bs dt _ _ _ Hrun1) as [Hc1 _].
    destruct (BuildCrateList_counted bs dt _ _ _ Hrun2) as [Hc2 _].
    unfold crates_counted in Hc1, Hc2. rewrite Hc1, Hc2.
    assert (∀ order st,
              iteration_order (collect_crates all_targets) order →
              BuildCrateList bs dt all_targets order = Ok st →
              indexed st = dom (collect_crates all_targets)) as Hindexed.
    { intros order st Horder Hrun.
      destruct (BuildCrateList_coherent bs dt _ _ _ Hrun)
        as (_ & _ & (Hkeys & _) & _).
      apply set_eq. intros k. rewrite elem_of_indexed, elem_of_dom, <- Hkeys.
      split; [intros (info & -> & _); by eexists|]. intros Hk.
      destruct (BuildCrateList_order_assigned bs dt _ _ _ k Hrun)
        as (info & h & Hinfo & _ & Hh).
      { apply (iteration_order_elem_of all_targets); [done|]. by apply Hkeys. }
      exists info. by rewrite Hh. }
    rewrite (Hindexed order1 st1), (Hindexed order2 st2) by done.
    f_equal. f_equal.
    rewrite <- !(size_dom (D := gset string)). f_equal.
    apply set_eq. intros s. by rewrite !elem_of_dom.
  - done.
  - intros crate1 Hc1 Hgen1.
    destruct (BuildCrateList_coherent bs dt _ _ _ Hrun1)
      as (_ & Hdesc1 & (_ & _ & Hrec1) & _).
    destruct (Hrec1 crate1 Hc1 Hgen1) as (info & Hinfo & Htargets).
    destruct (Hdesc1 crate1 Hc1) as [[Hnone _]|(mt & Hmt & Heq1)].
    { rewrite Hnone in Hgen1. by destruct Hgen1. }
    destruct (crate_root_record _ order2 st2 (root crate1) info Hrun2)
      as (crate2 & mt2 & Hc2 & Hmt2 & Heq2); [|done|].
    { apply (iteration_order_elem_of all_targets); [done|by exists info]. }
    rewrite Htargets in Hmt, Heq1.
    assert (mt2 = mt) as -> by congruence.
    exists crate2. split; [done|]. rewrite Heq1, Heq2.
    unfold same_but_handles. by cbn.
Qed.

End OrderIndependence.

(** ** Edges without duplicates *)

Section DistinctEdges.
Context {helpers : Helpers}.
Variable bs : BuildSettings.
Variable dt : Label.

Lemma NoDup_omap_fst {A B C} (f : A → option (B * C)) (l : list A) :
  NoDup l →
  (∀ x y a b, x ∈ l → y ∈ l → f x = Some a → f y = Some b →
              a.1 = b.1 → x = y) →
  NoDup (omap f l).*1.
Proof.
  induction 1 as [|x l Hx Hl IH]; intros Hinj; [constructor|].
  cbn [omap list_omap]. destruct (f x) as [a|] eqn:Hfx.
  - cbn [fmap list_fmap]. constructor.
    + intros Hin. apply list_elem_of_fmap in Hin as (b & Hab & Hb).
      apply list_elem_of_omap in Hb as (y & Hy & Hfy).
      assert (x = y) as ->; [|done].
      eapply Hinj; [by left|by right|done..].
    + apply IH. intros y z a' b' Hy Hz. apply Hinj; by right.
  - apply IH. intros y z a' b' Hy Hz. apply Hinj; by right.
Qed.

Lemma edges_distinct_sysroot (s : string) (st st' : State) :
  edges_distinct st → add_sysroot_if_new bs s st = Ok st' →
  edges_distinct st'.
Proof.
  intros Hst [->|(_ & _ & ->)]%add_sysroot_if_new_cases; [done|].
  intros crate. cbn. rewrite elem_of_app. intros [Hc|Hc]; [by apply Hst|].
  unfold synthesized_crates in Hc.
  repeat (apply elem_of_cons in Hc as [->|Hc];
          [cbn; repeat (constructor; [set_solver by lia|]); constructor|]).
  by apply elem_of_nil in Hc.
Qed.

Lemma edges_distinct_appended (crate_root : SourceFile)
    (main_target : Target) (all_targets : list Target) (st : State) :
  well_formed bs st → edges_distinct st →
  (tool_sysroot main_target ≠ "" →
   is_Some (sysroot_lookup st !! tool_sysroot main_target)) →
  edges_distinct (appended crate_root main_target all_targets st).
Proof.
  intros (Hidx & Hreg & Hsys) Hst Htable crate. cbn.
  rewrite elem_of_app. intros [Hc| ->%list_elem_of_singleton];
    [by apply Hst|].
  cbn [dependencies crate_record]. unfold record_edges.
  rewrite fmap_app. apply NoDup_app. split_and!.
  - destruct (decide (tool_sysroot main_target ≠ "")) as [Hs|];
      [|constructor].
    destruct (Htable Hs) as [table Ht]. rewrite Ht. cbn [from_option id].
    destruct (Hsys _ _ Ht) as (n & -> & _).
    rewrite sysroot_edges_synthesized.
    destruct (decide _); cbn;
      repeat (constructor; [set_solver by lia|]); constructor.
  - intros h Hsysroot Hneighbour.
    apply list_elem_of_fmap in Hsysroot as ([h1 nm1] & -> & Hsysroot).
    apply list_elem_of_fmap in Hneighbour as ([h2 nm2] & Heq & Hneighbour).
    cbn [fst] in Heq. subst h2.
    destruct (decide (tool_sysroot main_target ≠ "")) as [Hs|];
      [|by apply elem_of_nil in Hsysroot].
    destruct (Htable Hs) as [table Ht]. rewrite Ht in Hsysroot.
    cbn [from_option id] in Hsysroot.
    apply elem_of_sysroot_edges in Hsysroot as [_ Hh].
    destruct (Hsys _ _ Ht) as (n & -> & Hrecords).
    destruct (synthesized_table_record bs (tool_sysroot main_target)
                _ _ _ Hh) as (k & deps & -> & Hk).
    apply Hrecords in Hk.
    apply list_elem_of_omap in Hneighbour as (dep & _ & Hedge).
    apply recorded_edge_Some in Hedge
      as (_ & info & dep_crate & _ & _ & Hdep & _ & _ & [g Hg]); [|done..].
    rewrite Hk in Hdep. injection Hdep as <-. done.
  - apply NoDup_omap_fst.
    + rewrite gather_crate_deps_push_back_all.
      apply NoDup_push_back_all, NoDup_nil_2.
    + intros x y [h1 nm1] [h2 nm2] _ _ Hx Hy Heq. cbn [fst] in Heq.
      subst h2.
      apply recorded_edge_Some in Hx
        as (_ & ? & c1 & _ & _ & Hc1 & _ & Hr1 & _); [|done..].
      apply recorded_edge_Some in Hy
        as (_ & ? & c2 & _ & _ & Hc2 & _ & Hr2 & _); [|done..].
      congruence.
Qed.

Lemma BuildCrateList_edges_distinct (all_targets : list Target)
    (order : list SourceFile) (st : State) :
  BuildCrateList bs dt all_targets order = Ok st → edges_distinct st.
Proof.
  intros Hrun.
  apply (BuildCrateList_rule bs dt edges_distinct) in Hrun as [_ ?];
    [done|..].
  - by intros r ci s _ Hs _ _.
  - intros s0 s s' _ Hs Hsys. by eapply edges_distinct_sysroot.
  - intros r ci mt s0 s2 _ _ _ _ Hwf Hs2 _ _ Htable _.
    by apply edges_distinct_appended.
  - by intros crate ?%elem_of_nil.
Qed.

(** X24.  No record of the finished crate list names the same record twice
    among its dependencies: the handles of its edges are pairwise
    distinct.  The sysroot edges of a crate point to four different records
    of one sysroot, the edges to neighbours point to the records of
    different crate roots, because the neighbours are gathered without
    repetition and the registry keeps one handle per root, and a sysroot
    record is never the record of a crate root. *)
Theorem edges_have_distinct_handles (all_targets : list Target)
    (order : list SourceFile) (st : State) (crate : Crate) :
  BuildCrateList bs dt all_targets order = Ok st →
  crate ∈ crate_list st →
  NoDup (dependencies crate).*1.
Proof.
  intros Hrun Hc.
  exact (BuildCrateList_edges_distinct _ _ _ Hrun crate Hc).
Qed.

End DistinctEdges.
(** ** Reading the manifest *)

Section ReaderFacts.
Import Manifest.






(** One step of each reader. *)
Lemma read_value_S (fuel : nat) (s : string) :
  read_value (S fuel) s
  = match skip_space s with
      | String c rest =>
          if Ascii.eqb c "{" then
            match skip_space rest with
            | String c' rest' =>
                if Ascii.eqb c' "}" then Some (JObject [], rest')
                else '(members, rest'') ← read_members fuel rest;
                     Some (JObject members, rest'')
            | EmptyString => None
            end
          else if Ascii.eqb c "[" then
            match skip_space rest with
            | String c' rest' =>
                if Ascii.eqb c' "]" then Some (JArray [], rest')
                else '(items, rest'') ← read_items fuel rest;
                     Some (JArray items, rest'')
            | EmptyString => None
            end
          else if Ascii.eqb c quote then
            '(text, rest') ← read_string rest; Some (JString text, rest')
          else if is_digit c then
            let '(n, rest') := read_digits 0 (String c rest) in
            Some (JNumber n, rest')
          else
            match strip "true" (String c rest) with
            | Some rest' => Some (JBool true, rest')
            | None =>
                match strip "false" (String c rest) with
                | Some rest' => Some (JBool false, rest')
                | None =>
                    rest' ← strip "null" (String c rest); Some (JNull, rest')
                end
            end
      | EmptyString => None
      end.
Proof. reflexivity. Qed.

Lemma read_items_S (fuel : nat) (s : string) :
  read_items (S fuel) s
  = '(item, rest) ← read_value fuel s;
      match skip_space rest with
      | String c rest' =>
          if Ascii.eqb c "," then
            '(items, rest'') ← read_items fuel rest';
            Some (item :: items, rest'')
          else if Ascii.eqb c "]" then Some ([item], rest')
          else None
      | EmptyString => None
      end.
Proof. reflexivity. Qed.

Lemma read_members_S (fuel : nat) (s : string) :
  read_members (S fuel) s
  = match skip_space s with
      | String c rest =>
          if Ascii.eqb c quote then
            '(key, rest1) ← read_string rest;
            match skip_space rest1 with
            | String c1 rest2 =>
                if Ascii.eqb c1 ":" then
                  '(value, rest3) ← read_value fuel rest2;
                  match skip_space rest3 with
                  | String c3 rest4 =>
                      if Ascii.eqb c3 "," then
                        '(members, rest5) ← read_members fuel rest4;
                        Some ((key, value) :: members, rest5)
                      else if Ascii.eqb c3 "}"
                      then Some ([(key, value)], rest4)
                      else None
                  | EmptyString => None
                  end
                else None
            | EmptyString => None
            end
          else None
      | EmptyString => None
      end.
Proof. reflexivity. Qed.

Ltac reader_cases :=
  repeat match goal with
    | H : context [match ?x with _ => _ end] |- _ =>
        lazymatch x with
        | context [match _ with _ => _ end] => fail
        | _ => destruct x eqn:?; try discriminate H
        end
    | H : context [mbind _ ?x] |- _ =>
        lazymatch x with
        | context [mbind _ _] => fail
        | _ => destruct x as [?|] eqn:?; cbn [mbind option_bind] in H;
               try discriminate H
        end
    end.




Lemma read_mono (fuel : nat) :
  (∀ s r, read_value fuel s = Some r → read_value (S fuel) s = Some r)
  ∧ (∀ s r, read_items fuel s = Some r → read_items (S fuel) s = Some r)
  ∧ (∀ s r, read_members fuel s = Some r →
            read_members (S fuel) s = Some r).
Proof.
  induction fuel as [|fuel (IHv & IHi & IHm)]; [done|].
  split_and!.
  - intros s r. rewrite (read_value_S (S fuel)), read_value_S. intros H.
    reader_cases.
    all: repeat first [progress cbn [mbind option_bind] | match goal with
           | H : read_items _ _ = Some _ |- _ =>
               apply IHi in H; rewrite H
           | H : read_members _ _ = Some _ |- _ =>
               apply IHm in H; rewrite H
           end]; done.
  - intros s r. rewrite (read_items_S (S fuel)), read_items_S. intros H.
    reader_cases.
    all: repeat first [progress cbn [mbind option_bind] | match goal with
           | H : read_value _ _ = Some _ |- _ =>
               apply IHv in H; rewrite H; cbn [mbind option_bind]
           | H : read_items _ _ = Some _ |- _ =>
               apply IHi in H; rewrite H; cbn [mbind option_bind]
           | H : skip_space _ = _ |- _ => rewrite H; clear H
           | H : Ascii.eqb _ _ = _ |- _ => rewrite H; clear H
           end]; done.
  - intros s r. rewrite (read_members_S (S fuel)), read_members_S. intros H.
    reader_cases.
    all: repeat first [progress cbn [mbind option_bind] | match goal with
           | H : read_value _ _ = Some _ |- _ =>
               apply IHv in H; rewrite H; cbn [mbind option_bind]
           | H : read_members _ _ = Some _ |- _ =>
               apply IHm in H; rewrite H; cbn [mbind option_bind]
           | H : skip_space _ = _ |- _ => rewrite H; clear H
           | H : Ascii.eqb _ _ = _ |- _ => rewrite H; clear H
           end]; done.
Qed.

Lemma read_value_mono (f f' : nat) (s : string) (r : json * string) :
  f ≤ f' → read_value f s = Some r → read_value f' s = Some r.
Proof.
  induction 1 as [|f' _ IH]; [done|]. intros H. by apply read_mono, IH.
Qed.


Lemma read_members_mono (f f' : nat) (s : string)
    (r : list (string * json) * string) :
  f ≤ f' → read_members f s = Some r → read_members f' s = Some r.
Proof.
  induction 1 as [|f' _ IH]; [done|]. intros H. by apply read_mono, IH.
Qed.


(** *** Numbers *)

Lemma append_cons (c : ascii) (s r : string) :
  String c s +:+ r = String c (s +:+ r).
Proof. reflexivity. Qed.

Lemma append_empty (r : string) : EmptyString +:+ r = r.
Proof. reflexivity. Qed.









(** *** Strings *)

Lemma read_string_plain (s rest : string) :
  plain s = true → read_string (s +:+ String quote rest) = Some (s, rest).
Proof.
  induction s as [|c s IH]; cbn [plain].
  - intros _. rewrite append_empty. cbn [read_string].
    by rewrite Ascii.eqb_refl.
  - intros [[Hq%negb_true_iff Hb%negb_true_iff]%andb_prop Hs]%andb_prop.
    rewrite append_cons. cbn [read_string]. rewrite Hq, Hb, IH by done.
    done.
Qed.

(** *** Composition *)

Lemma string_body_plain (s : string) : plain s = true → string_body s s.
Proof. intros Hs rest. by apply read_string_plain. Qed.

Lemma skip_space_space (c : ascii) (s : string) :
  is_space c = true → skip_space (String c s) = skip_space s.
Proof. intros Hc. cbn [skip_space]. by rewrite Hc. Qed.

Lemma reads_value_space (c : ascii) (s : string) (v : json) (r : string) :
  is_space c = true → reads_value s v r → reads_value (String c s) v r.
Proof.
  intros Hc [[|f] Hf]; [done|]. exists (S f).
  rewrite read_value_S in *. by rewrite skip_space_space.
Qed.

Lemma reads_items_space (c : ascii) (s : string) (vs : list json)
    (r : string) :
  is_space c = true → reads_items s vs r → reads_items (String c s) vs r.
Proof.
  intros Hc [[|[|f]] Hf]; [done|done|]. exists (S (S f)).
  rewrite read_items_S, read_value_S in *. by rewrite skip_space_space.
Qed.

Lemma reads_members_space (c : ascii) (s : string)
    (ms : list (string * json)) (r : string) :
  is_space c = true → reads_members s ms r → reads_members (String c s) ms r.
Proof.
  intros Hc [[|f] Hf]; [done|]. exists (S f).
  rewrite read_members_S in *. by rewrite skip_space_space.
Qed.











Lemma reads_members_cons (key_text key s1 : string) (v : json)
    (s2 s3 : string) (ms : list (string * json)) (rest : string) :
  string_body key_text key →
  reads_value s1 v s2 → skip_space s2 = String "," s3 →
  reads_members s3 ms rest →
  reads_members (String quote (key_text +:+ String quote (String ":" s1)))
                ((key, v) :: ms) rest.
Proof.
  intros Hkey [f1 H1] Hs2 [f2 H2]. exists (S (f1 `max` f2)).
  rewrite read_members_S. cbn [skip_space].
  change (is_space quote) with false. cbv iota.
  rewrite Ascii.eqb_refl. cbv iota. rewrite Hkey.
  cbn [mbind option_bind skip_space].
  change (is_space ":") with false. cbv iota.
  change (Ascii.eqb ":" ":") with true. cbv iota.
  rewrite (read_value_mono f1 (f1 `max` f2) _ _ ltac:(lia) H1). cbn [mbind option_bind].
  rewrite Hs2. change (Ascii.eqb "," ",") with true. cbv iota.
  by rewrite (read_members_mono f2 (f1 `max` f2) _ _ ltac:(lia) H2).
Qed.

Lemma reads_members_last (key_text key s1 : string) (v : json)
    (s2 rest : string) :
  string_body key_text key →
  reads_value s1 v s2 → skip_space s2 = String "}" rest →
  reads_members (String quote (key_text +:+ String quote (String ":" s1)))
                [(key, v)] rest.
Proof.
  intros Hkey [f1 H1] Hs2. exists (S f1).
  rewrite read_members_S. cbn [skip_space].
  change (is_space quote) with false. cbv iota.
  rewrite Ascii.eqb_refl. cbv iota. rewrite Hkey.
  cbn [mbind option_bind skip_space].
  change (is_space ":") with false. cbv iota.
  change (Ascii.eqb ":" ":") with true. cbv iota.
  rewrite H1. cbn [mbind option_bind]. by rewrite Hs2.
Qed.


End ReaderFacts.
(** ** The manifest that is written and read *)


Section ManifestFacts.
Context {helpers : Helpers}.
Variable bs : BuildSettings.
Import Manifest.
#[local] Arguments String.append !_ _ / : simpl nomatch.






Lemma newline_cases : NEWLINE = LF ∨ NEWLINE = CRLF.
Proof. unfold NEWLINE. destruct OS_WINDOWS; auto. Qed.

Lemma skip_space_newline (s : string) :
  skip_space (NEWLINE +:+ s) = skip_space s.
Proof. by destruct newline_cases as [-> | ->]. Qed.

Lemma reads_value_newline (s : string) (v : json) (r : string) :
  reads_value s v r → reads_value (NEWLINE +:+ s) v r.
Proof.
  intros H. destruct newline_cases as [-> | ->]; unfold LF, CRLF;
    cbn [String.append]; by repeat apply reads_value_space.
Qed.

Lemma reads_items_newline (s : string) (vs : list json) (r : string) :
  reads_items s vs r → reads_items (NEWLINE +:+ s) vs r.
Proof.
  intros H. destruct newline_cases as [-> | ->]; unfold LF, CRLF;
    cbn [String.append]; by repeat apply reads_items_space.
Qed.

Lemma reads_members_newline (s : string) (ms : list (string * json))
    (r : string) :
  reads_members s ms r → reads_members (NEWLINE +:+ s) ms r.
Proof.
  intros H. destruct newline_cases as [-> | ->]; unfold LF, CRLF;
    cbn [String.append]; by repeat apply reads_members_space.
Qed.

Ltac spaces :=
  repeat first
    [ eapply reads_value_space; [reflexivity|]
    | eapply reads_members_space; [reflexivity|]
    | eapply reads_items_space; [reflexivity|]
    | eapply reads_value_newline
    | eapply reads_members_newline
    | eapply reads_items_newline ].

Ltac skipped :=
  repeat first
    [ rewrite skip_space_newline
    | rewrite skip_space_space by reflexivity ];
  reflexivity.


Ltac member key value :=
  spaces;
  first
    [ eapply (reads_members_cons key key);
      [apply string_body_plain; reflexivity|spaces; value|skipped|]
    | eapply (reads_members_last key key);
      [apply string_body_plain; reflexivity|spaces; value|skipped] ].








Hypothesis escape_ok : escape_reads_back.










End ManifestFacts.

(** * Examples *)

Section Examples.
#[local] Existing Instance sample_helpers.

Lemma PreferredTarget_first_maximal_witness :
  sample_candidates ≠ []
  ∧ ∃ i main_target,
      PreferredTarget "//tc:default" sample_candidates = Some main_target
      ∧ i = 1 ∧ label_name main_target = "//a:a".
Proof.
  split; [done|].
  destruct (PreferredTarget_first_maximal "//tc:default" sample_candidates)
    as (i & main_target & Hsome & _); [done|].
  exists 1, main_target. split; [exact Hsome|].
  vm_compute in Hsome. injection Hsome as <-. split; reflexivity.
Defined.

(** C3, as stated, fails: an argument list that carries the triple in the
    form [--target=...] records no triple, where the claim has the value
    after the prefix. *)
Lemma compiler_target_prefix_form_ignored :
  compiler_target_of sample_prefix_target = None
  ∧ spec_compiler_target (ExtractCompilerArgs sample_prefix_target)
    = Some "x86_64-unknown-fuchsia"
  ∧ option_map (map CompilerTarget)
      (finished_crates
         (BuildCrateList sample_settings "//tc:default"
                         [sample_prefix_target] ["//a/lib.rs"]))
    = Some [None].
Proof. vm_compute. done. Qed.

Lemma GetRustDeps_flattens_groups_witness :
  NoDup (@nil SourceFile)
  ∧ GetRustDeps sample_grouped [] = ["//x/lib.rs"; "//y/lib.rs"]
  ∧ NoDup (GetRustDeps sample_grouped []).
Proof.
  split; [constructor|]. split; [reflexivity|].
  apply (GetRustDeps_flattens_groups sample_grouped []). constructor.
Defined.

Lemma AddSysroot_idempotent_witness :
  (∅ : gmap string (gmap string nat)) !! "sysroot" = None
  ∧ ∃ sl' cl',
      AddSysroot sample_settings "sysroot" (∅, []) = Some (sl', cl')
      ∧ AddSysroot sample_settings "sysroot" (sl', cl') = Some (sl', cl')
      ∧ length cl' = 8.
Proof.
  split; [done|].
  destruct (AddSysroot_idempotent sample_settings "sysroot" ∅ [])
    as (sl' & cl' & Hfirst & Hsecond & Hnew).
  exists sl', cl'. split_and!; [done..|].
  destruct (Hnew eq_refl) as (? & ? & ? & ? & ? & ? & ? & ? & -> & _).
  reflexivity.
Defined.

(** C8, as stated, fails: with the build directory [/root/out/] the root of
    the record of [core] in the sysroot [sysroot] starts with the build
    directory, so it is not the path made of the sysroot path alone. *)
Lemma sysroot_root_starts_with_build_dir :
  ∃ sl' cl' core,
    AddSysroot sample_settings "sysroot" (∅, []) = Some (sl', cl')
    ∧ cl' !! 0 = Some core
    ∧ name core = "core"
    ∧ root core
      = "/root/out/sysroot/lib/rustlib/src/rust/library/core/src/lib.rs"
    ∧ root core ≠ "sysroot/lib/rustlib/src/rust/library/core/src/lib.rs".
Proof.
  eexists _, _, _. rewrite AddSysroot_fresh by done.
  split; [reflexivity|]. split; [reflexivity|]. by vm_compute.
Qed.

Lemma sysroot_crate_record_fields_witness :
  (∅ : gmap string (gmap string nat)) !! "sysroot" = None
  ∧ ∃ sl' cl' table,
      AddSysroot sample_settings "sysroot" (∅, []) = Some (sl', cl')
      ∧ sl' !! "sysroot" = Some table
      ∧ ∃ h, table !! "std" = Some h.
Proof.
  split; [done|].
  destruct (sysroot_crate_record_fields sample_settings "sysroot" ∅ [])
    as (sl' & cl' & table & Hrun & Htable & Hfields); [done|].
  exists sl', cl', table. split_and!; [done..|].
  destruct (Hfields "std") as (h & _ & Hh & _); [by left|]. by exists h.
Defined.

Lemma AddSysroot_order_witness :
  (∅ : gmap string (gmap string nat)) !! "sysroot" = None
  ∧ ∃ sl' new,
      AddSysroot sample_settings "sysroot" (∅, []) = Some (sl', new)
      ∧ index <$> new = [0; 1; 2; 3; 4; 5; 6; 7].
Proof.
  split; [done|].
  destruct (AddSysroot_order sample_settings "sysroot" ∅ [])
    as (sl' & new & table & Hrun & _ & _ & Hindex & _); [done|].
  exists sl', new. split; [exact Hrun|exact Hindex].
Defined.

Lemma handle_ordering_witness :
  ∃ st,
    BuildCrateList sample_settings "//tc:default" [sample_env_target]
                   ["//e/lib.rs"] = Ok st
    ∧ length (crate_list st) = 9
    ∧ ∀ crate h dep_name,
        crate ∈ crate_list st → (h, dep_name) ∈ dependencies crate →
        h < index crate.
Proof.
  assert (option_map length
            (finished_crates
               (BuildCrateList sample_settings "//tc:default"
                               [sample_env_target] ["//e/lib.rs"]))
          = Some 9) as Hlen by (vm_compute; reflexivity).
  destruct (BuildCrateList sample_settings "//tc:default"
              [sample_env_target] ["//e/lib.rs"]) as [st| |] eqn:Hrun;
    [|discriminate Hlen..].
  exists st. split; [reflexivity|]. split.
  - cbn in Hlen. by injection Hlen.
  - pose proof (handle_ordering sample_settings "//tc:default"
                  [sample_env_target] ["//e/lib.rs"]) as [_ Hordered].
    destruct (Hordered st Hrun) as (_ & Hedges & _). exact Hedges.
Defined.

(** C2, as stated, fails: the crates of [//a/lib.rs] and [//h/lib.rs] depend
    on each other; when the record of [//h/lib.rs] is finished its
    neighbour [//a/lib.rs] is marked but has no handle yet.  The run does
    not fail: it returns two records, and the first one, for [//h/lib.rs],
    has no edge at all. *)
Lemma cycle_is_tolerated :
  iteration_order (collect_crates sample_cycle) ["//a/lib.rs"; "//h/lib.rs"]
  ∧ gather_crate_deps sample_helper [sample_helper] = ["//a/lib.rs"]
  ∧ option_map (map (λ crate, (root crate, dependencies crate)))
      (finished_crates
         (BuildCrateList sample_settings "//tc:default" sample_cycle
                         ["//a/lib.rs"; "//h/lib.rs"]))
    = Some [("//h/lib.rs", []); ("//a/lib.rs", [(0, "//h:h")])].
Proof.
  split; [|split; vm_compute; reflexivity].
  unfold iteration_order.
  assert ((map_to_list (collect_crates sample_cycle)).*1
          = ["//a/lib.rs"; "//h/lib.rs"]) as -> by (vm_compute; reflexivity).
  reflexivity.
Qed.

Lemma unassigned_neighbor_passed_over_witness :
  (∀ dep, dep ∈ ["//a/lib.rs"] → dep ≠ "//h/lib.rs" →
     ∃ info,
       lookup (mark_seen "//a/lib.rs" (start_state sample_cycle)) !! dep
       = Some info
       ∧ seen info = true
       ∧ ∀ idx, info_index info = Some idx →
           idx ≤ length (crate_list
                           (mark_seen "//a/lib.rs"
                                      (start_state sample_cycle))))
  ∧ ∃ crate,
      add_crate_dependencies "//h/lib.rs" ["//a/lib.rs"]
        (mark_seen "//a/lib.rs" (start_state sample_cycle))
        (new_Crate "//h/lib.rs" [sample_helper] None 0 "h" "//h:h" "2015")
      = Ok crate
      ∧ dependencies crate = [].
Proof.
  assert (∀ dep, dep ∈ ["//a/lib.rs"] → dep ≠ "//h/lib.rs" →
     ∃ info,
       lookup (mark_seen "//a/lib.rs" (start_state sample_cycle)) !! dep
       = Some info
       ∧ seen info = true
       ∧ ∀ idx, info_index info = Some idx →
           idx ≤ length (crate_list
                           (mark_seen "//a/lib.rs"
                                      (start_state sample_cycle)))) as Hdeps.
  { intros dep ->%list_elem_of_singleton _.
    exists {| targets := [sample_lib; sample_test]; seen := true;
              info_index := None |}.
    split; [vm_compute; reflexivity|]. split; [reflexivity|].
    intros idx Hidx. discriminate Hidx. }
  split; [exact Hdeps|].
  destruct (unassigned_neighbor_passed_over sample_settings "//tc:default")
    as (_ & Hloop & _).
  eexists. split; [apply (Hloop _ _ _ _ Hdeps)|]. vm_compute. reflexivity.
Defined.

Lemma compiler_target_recorded_witness :
  lookup (start_state [sample_env_target]) !! "//e/lib.rs"
  = Some {| targets := [sample_env_target]; seen := false;
            info_index := None |}
  ∧ ∃ st' main_target crate,
      AddCrate 2 sample_settings "//tc:default" "//e/lib.rs"
               (start_state [sample_env_target]) = Ok st'
      ∧ PreferredTarget "//tc:default" [sample_env_target] = Some main_target
      ∧ last (crate_list st') = Some crate
      ∧ CompilerTarget crate = Some "wasm32".
Proof.
  assert (lookup (start_state [sample_env_target]) !! "//e/lib.rs"
          = Some {| targets := [sample_env_target]; seen := false;
                    info_index := None |}) as Hinfo
    by (vm_compute; reflexivity).
  split; [exact Hinfo|].
  assert (option_map length
            (finished_crates
               (AddCrate 2 sample_settings "//tc:default" "//e/lib.rs"
                         (start_state [sample_env_target])))
          = Some 9) as Hlen by (vm_compute; reflexivity).
  destruct (AddCrate 2 sample_settings "//tc:default" "//e/lib.rs"
              (start_state [sample_env_target])) as [st'| |] eqn:Hrun;
    [|discriminate Hlen..].
  destruct (compiler_target_recorded sample_settings "//tc:default" 2
              "//e/lib.rs" (start_state [sample_env_target]) st' _
              Hinfo eq_refl Hrun)
    as (main_target & crate & Hpref & Hlast & Htarget & _).
  exists st', main_target, crate.
  split; [reflexivity|]. split; [exact Hpref|]. split; [exact Hlast|].
  rewrite Htarget. injection Hpref as <-. reflexivity.
Defined.

(** C7, as stated, fails: the value recorded for an entry is not everything
    after the first [=].  White space around the name and the value is
    dropped, and of an entry with two [=] only the text between them is
    kept. *)
Lemma rustenv_value_not_rest_of_entry :
  rustenv_entry " KEY = some value " = Some ("KEY", "some value")
  ∧ spec_rustenv_entry " KEY = some value " = Some (" KEY ", " some value ")
  ∧ rustenv_entry "A=b=c" = Some ("A", "b")
  ∧ spec_rustenv_entry "A=b=c" = Some ("A", "b=c")
  ∧ option_map (map (λ crate, map_to_list (crate_rustenv crate)))
      (finished_crates
         (AddCrate 2 sample_settings "//tc:default" "//e/lib.rs"
                   {| lookup := collect_crates [sample_env_target];
                      sysroot_lookup := {["sysroot" := ∅]};
                      crate_list := [] |}))
    = Some [[("KEY", "some value"); ("A", "b")]].
Proof. vm_compute. repeat split. Qed.

Lemma rustenv_recorded_witness :
  lookup (start_state [sample_env_target]) !! "//e/lib.rs"
  = Some {| targets := [sample_env_target]; seen := false;
            info_index := None |}
  ∧ ∃ st' main_target crate,
      AddCrate 2 sample_settings "//tc:default" "//e/lib.rs"
               (start_state [sample_env_target]) = Ok st'
      ∧ PreferredTarget "//tc:default" [sample_env_target] = Some main_target
      ∧ last (crate_list st') = Some crate
      ∧ map_to_list (crate_rustenv crate)
        = [("KEY", "some value"); ("A", "b")].
Proof.
  assert (lookup (start_state [sample_env_target]) !! "//e/lib.rs"
          = Some {| targets := [sample_env_target]; seen := false;
                    info_index := None |}) as Hinfo
    by (vm_compute; reflexivity).
  split; [exact Hinfo|].
  assert (option_map length
            (finished_crates
               (AddCrate 2 sample_settings "//tc:default" "//e/lib.rs"
                         (start_state [sample_env_target])))
          = Some 9) as Hlen by (vm_compute; reflexivity).
  destruct (AddCrate 2 sample_settings "//tc:default" "//e/lib.rs"
              (start_state [sample_env_target])) as [st'| |] eqn:Hrun;
    [|discriminate Hlen..].
  destruct (rustenv_recorded sample_settings "//tc:default" 2
              "//e/lib.rs" (start_state [sample_env_target]) st' _
              Hinfo eq_refl Hrun)
    as (main_target & crate & Hpref & Hlast & Henv & _).
  exists st', main_target, crate.
  split; [reflexivity|]. split; [exact Hpref|]. split; [exact Hlast|].
  rewrite Henv. injection Hpref as <-. vm_compute. reflexivity.
Defined.

Lemma WriteCrates_shape_witness :
  (∀ crate, crate ∈ [sample_plain_crate] →
     rustenv_is_empty (crate_rustenv crate) = true
     ∧ proc_macro_path crate = None)
  ∧ occurrences cfg_open (WriteCrates sample_settings [sample_plain_crate])
    = 1
  ∧ (env_open ∉ WriteCrates sample_settings [sample_plain_crate])
  ∧ occurrences env_open
      (WriteCrates sample_settings [sample_plain_crate; sample_macro_crate])
    = 1.
Proof.
  assert (∀ crate, crate ∈ [sample_plain_crate] →
            rustenv_is_empty (crate_rustenv crate) = true
            ∧ proc_macro_path crate = None) as Hplain.
  { intros crate ->%list_elem_of_singleton. split; reflexivity. }
  split; [exact Hplain|].
  destruct (WriteCrates_shape sample_settings [sample_plain_crate])
    as (_ & Hcfg & _ & _ & _ & Hnone).
  split; [exact Hcfg|]. split; [exact (proj1 (Hnone Hplain))|].
  destruct (WriteCrates_shape sample_settings
              [sample_plain_crate; sample_macro_crate])
    as (_ & _ & Henv & _).
  rewrite Henv. reflexivity.
Defined.

(** The run on [sample_project]: the eight records of the sysroot, then the
    record of the proc macro and the record of the application. *)
Lemma sample_project_run :
  ∃ st m app,
    BuildCrateList sample_settings "//tc:default" sample_project
                   ["//app/main.rs"; "//m/lib.rs"] = Ok st
    ∧ crate_list st !! 8 = Some m ∧ crate_list st !! 9 = Some app
    ∧ root m = "//m/lib.rs" ∧ gen_dir m = Some "gen/m/"
    ∧ crate_targets m = [sample_macro]
    ∧ root app = "//app/main.rs" ∧ gen_dir app = Some "gen/app/"
    ∧ crate_targets app = [sample_app; sample_app_test]
    ∧ dependencies app = [(0, "core"); (1, "alloc"); (4, "std"); (8, "m")].
Proof.
  assert (option_map
            (λ crates,
               ((λ m, (root m, gen_dir m, crate_targets m))
                  <$> crates !! 8,
                (λ app, (root app, gen_dir app, crate_targets app,
                         dependencies app)) <$> crates !! 9))
            (finished_crates
               (BuildCrateList sample_settings "//tc:default" sample_project
                               ["//app/main.rs"; "//m/lib.rs"]))
          = Some (Some ("//m/lib.rs", Some "gen/m/", [sample_macro]),
                  Some ("//app/main.rs", Some "gen/app/",
                        [sample_app; sample_app_test],
                        [(0, "core"); (1, "alloc"); (4, "std"); (8, "m")])))
    as Hrun by (vm_compute; reflexivity).
  destruct (BuildCrateList sample_settings "//tc:default" sample_project
              ["//app/main.rs"; "//m/lib.rs"]) as [st| |];
    [|discriminate Hrun..].
  cbn [finished_crates option_map] in Hrun.
  destruct (crate_list st !! 8) as [m|] eqn:Hm; [|discriminate Hrun].
  destruct (crate_list st !! 9) as [app|] eqn:Happ; [|discriminate Hrun].
  cbn [fmap option_fmap option_map] in Hrun.
  injection Hrun as Hrm Hgm Htm Hra Hga Hta Hda.
  exists st, m, app. split_and!; done.
Qed.

Lemma one_record_per_crate_root_witness :
  ∃ st info i crate,
    BuildCrateList sample_settings "//tc:default" sample_project
                   ["//app/main.rs"; "//m/lib.rs"] = Ok st
    ∧ collect_crates sample_project !! "//app/main.rs" = Some info
    ∧ crate_list st !! i = Some crate
    ∧ root crate = "//app/main.rs"
    ∧ crate_targets crate = targets info.
Proof.
  destruct sample_project_run as (st & m & app & Hrun & _).
  destruct (one_record_per_crate_root sample_settings "//tc:default"
              sample_project ["//app/main.rs"; "//m/lib.rs"] st Hrun)
    as (Hrecord & _).
  destruct (Hrecord "//app/main.rs")
    as (info & i & crate & Hinfo & Hcrate & Hroot & _ & Htargets);
    [apply list_elem_of_here|].
  exists st, info, i, crate.
  exact (conj Hrun (conj Hinfo (conj Hcrate (conj Hroot Htargets)))).
Defined.

Lemma records_of_the_crate_list_witness :
  ∃ st app,
    BuildCrateList sample_settings "//tc:default" sample_project
                   ["//app/main.rs"; "//m/lib.rs"] = Ok st
    ∧ crate_list st !! 9 = Some app
    ∧ name app = "app" ∧ label app = "//app:app"
    ∧ CompilerArgs app = ["--edition"; "2015"; "--edition=2018"].
Proof.
  destruct sample_project_run
    as (st & m & app & Hrun & _ & Happ & _ & _ & _ & _ & Hgen & Htargets & _).
  exists st, app. split; [exact Hrun|]. split; [exact Happ|].
  destruct (records_of_the_crate_list sample_settings "//tc:default"
              sample_project ["//app/main.rs"; "//m/lib.rs"] st Hrun app)
    as [(Hnone & _)|(main_target & Hmain & _ & _ & _ & _ & _ & Hname
                     & Hlabel & Hargs)].
  - exact (list_elem_of_lookup_2 _ _ _ Happ).
  - rewrite Hgen in Hnone. discriminate Hnone.
  - rewrite Htargets in Hmain. vm_compute in Hmain.
    injection Hmain as <-. rewrite Hname, Hlabel, Hargs.
    split; [reflexivity|]. split; reflexivity.
Defined.

Lemma edition_recorded_witness :
  ∃ st m app,
    BuildCrateList sample_settings "//tc:default" sample_project
                   ["//app/main.rs"; "//m/lib.rs"] = Ok st
    ∧ crate_list st !! 8 = Some m ∧ crate_list st !! 9 = Some app
    ∧ ExtractCompilerArgs sample_app = ["--edition"; "2015"; "--edition=2018"]
    ∧ edition app = "2018"
    ∧ ExtractCompilerArgs sample_macro
      = ["--cfg=feature=x"; "--edition"; "2021"; "--cfg=nightly"]
    ∧ edition m = "2021".
Proof.
  destruct sample_project_run
    as (st & m & app & Hrun & Hm & Happ & _ & Hgm & Htm & _ & Hga & Hta & _).
  exists st, m, app.
  split; [exact Hrun|]. split; [exact Hm|]. split; [exact Happ|].
  split; [reflexivity|]. split; [|split; [reflexivity|]].
  - destruct (edition_recorded sample_settings "//tc:default" sample_project
                ["//app/main.rs"; "//m/lib.rs"] st app sample_app Hrun)
      as [Hprefixed _].
    + exact (list_elem_of_lookup_2 _ _ _ Happ).
    + rewrite Hga. eexists. reflexivity.
    + rewrite Hta. reflexivity.
    + apply (Hprefixed 2 "2018"); [reflexivity|].
      intros [|[|j]] arg w Hj Harg; [| |lia];
        injection Harg as <-; destruct w; discriminate.
  - destruct (edition_recorded sample_settings "//tc:default" sample_project
                ["//app/main.rs"; "//m/lib.rs"] st m sample_macro Hrun)
      as [_ Hstandalone].
    + exact (list_elem_of_lookup_2 _ _ _ Hm).
    + rewrite Hgm. eexists. reflexivity.
    + rewrite Htm. reflexivity.
    + destruct Hstandalone as [Hvalue _].
      * intros arg w Harg.
        repeat (apply elem_of_cons in Harg as [->|Harg];
                [destruct w; discriminate|]).
        apply elem_of_nil in Harg. destruct Harg.
      * apply (Hvalue 1 "2021"); [reflexivity|reflexivity|].
        intros [|j] Hj; [discriminate|lia].
Defined.

Lemma configs_recorded_witness :
  ∃ st m,
    BuildCrateList sample_settings "//tc:default" sample_project
                   ["//app/main.rs"; "//m/lib.rs"] = Ok st
    ∧ crate_list st !! 8 = Some m
    ∧ configs m = ["test"; "debug_assertions"; "feature=x"; "nightly"].
Proof.
  destruct sample_project_run
    as (st & m & app & Hrun & Hm & _ & _ & Hgm & Htm & _).
  exists st, m. split; [exact Hrun|]. split; [exact Hm|].
  destruct (configs_recorded sample_settings "//tc:default" sample_project
              ["//app/main.rs"; "//m/lib.rs"] st m sample_macro Hrun)
    as (own & others & Hconfigs & Hown & _ & _ & Hmoved).
  - exact (list_elem_of_lookup_2 _ _ _ Hm).
  - rewrite Hgm. eexists. reflexivity.
  - rewrite Htm. reflexivity.
  - rewrite Hconfigs, Hown, (Hmoved eq_refl). reflexivity.
Defined.

Lemma proc_macro_recorded_witness :
  ∃ st m,
    BuildCrateList sample_settings "//tc:default" sample_project
                   ["//app/main.rs"; "//m/lib.rs"] = Ok st
    ∧ crate_list st !! 8 = Some m
    ∧ proc_macro_path m = Some "obj/m/libm.so".
Proof.
  destruct sample_project_run
    as (st & m & app & Hrun & Hm & _ & _ & Hgm & Htm & _).
  exists st, m. split; [exact Hrun|]. split; [exact Hm|].
  destruct (proc_macro_recorded sample_settings "//tc:default" sample_project
              ["//app/main.rs"; "//m/lib.rs"] st m Hrun) as [_ Hmacro].
  - exact (list_elem_of_lookup_2 _ _ _ Hm).
  - apply (Hmacro sample_macro).
    + rewrite Hgm. eexists. reflexivity.
    + rewrite Htm. reflexivity.
    + split; reflexivity.
Defined.

Lemma sysroot_edges_recorded_witness :
  ∃ st m n rest,
    BuildCrateList sample_settings "//tc:default" sample_project
                   ["//app/main.rs"; "//m/lib.rs"] = Ok st
    ∧ crate_list st !! 8 = Some m
    ∧ dependencies m
      = [(n, "core"); (n + 1, "alloc"); (n + 4, "std"); (n + 6, "proc_macro")]
        ++ rest
    ∧ name <$> crate_list st !! (n + 6) = Some "proc_macro".
Proof.
  destruct sample_project_run
    as (st & m & app & Hrun & Hm & _ & _ & Hgm & Htm & _).
  destruct (sysroot_edges_recorded sample_settings "//tc:default"
              sample_project ["//app/main.rs"; "//m/lib.rs"] st m
              sample_macro Hrun)
    as (rest & _ & _ & Hsysroot).
  - exact (list_elem_of_lookup_2 _ _ _ Hm).
  - rewrite Hgm. eexists. reflexivity.
  - rewrite Htm. reflexivity.
  - destruct Hsysroot as (n & Hdeps & Hrecords); [discriminate|].
    exists st, m, n, rest. split; [exact Hrun|]. split; [exact Hm|].
    split; [exact Hdeps|]. rewrite (Hrecords 6 _ eq_refl). reflexivity.
Defined.

Lemma edges_name_their_records_witness :
  ∃ st app dep,
    BuildCrateList sample_settings "//tc:default" sample_project
                   ["//app/main.rs"; "//m/lib.rs"] = Ok st
    ∧ crate_list st !! 9 = Some app
    ∧ (8, "m") ∈ dependencies app
    ∧ crate_list st !! 8 = Some dep ∧ index dep = 8 ∧ name dep = "m".
Proof.
  destruct sample_project_run
    as (st & m & app & Hrun & _ & Happ & _ & _ & _ & _ & _ & _ & Hdeps).
  assert ((8, "m") ∈ dependencies app) as Hedge.
  { rewrite Hdeps. do 3 apply list_elem_of_further. apply list_elem_of_here. }
  destruct (edges_name_their_records sample_settings "//tc:default"
              sample_project ["//app/main.rs"; "//m/lib.rs"] st app 8 "m"
              Hrun (list_elem_of_lookup_2 _ _ _ Happ) Hedge)
    as (dep & Hdep & Hindex & Hname & _).
  exists st, app, dep.
  exact (conj Hrun (conj Happ (conj Hedge (conj Hdep (conj Hindex Hname))))).
Defined.

Lemma neighbours_linked_by_order_witness :
  ∃ st app j dep,
    BuildCrateList sample_settings "//tc:default" sample_project
                   ["//app/main.rs"; "//m/lib.rs"] = Ok st
    ∧ crate_list st !! 9 = Some app
    ∧ gather_crate_deps sample_app [sample_app; sample_app_test]
      = ["//m/lib.rs"]
    ∧ crate_list st !! j = Some dep ∧ root dep = "//m/lib.rs"
    ∧ ((j, name dep) ∈ dependencies app ↔ j < index app).
Proof.
  destruct sample_project_run
    as (st & m & app & Hrun & _ & Happ & _ & _ & _ & Hra & Hga & Hta & _).
  destruct (neighbours_linked_by_order sample_settings "//tc:default"
              sample_project ["//app/main.rs"; "//m/lib.rs"] st app
              sample_app "//m/lib.rs" Hrun)
    as (j & dep & Hdep & Hroot & _ & _ & Hedge).
  - exact (list_elem_of_lookup_2 _ _ _ Happ).
  - rewrite Hga. eexists. reflexivity.
  - rewrite Hta. reflexivity.
  - rewrite Hta. apply list_elem_of_here.
  - rewrite Hra. discriminate.
  - exists st, app, j, dep.
    exact (conj Hrun (conj Happ (conj eq_refl (conj Hdep (conj Hroot Hedge))))).
Defined.

Lemma BuildCrateList_succeeds_witness :
  neighbours_registered "//tc:default" sample_project
  ∧ ∃ st,
      BuildCrateList sample_settings "//tc:default" sample_project
                     ["//m/lib.rs"; "//app/main.rs"] = Ok st
      ∧ RenderJSON sample_settings "//tc:default" sample_project
                   ["//m/lib.rs"; "//app/main.rs"]
        = Ok (stream_text (WriteCrates sample_settings (crate_list st))).
Proof.
  assert (neighbours_registered "//tc:default" sample_project) as Hreg.
  { apply neighbours_registered_check_sound. vm_compute. reflexivity. }
  split; [exact Hreg|].
  apply (BuildCrateList_succeeds sample_settings "//tc:default"
           sample_project ["//m/lib.rs"; "//app/main.rs"] Hreg).
  intros crate_root Hroot.
  repeat (apply elem_of_cons in Hroot as [->|Hroot];
          [vm_compute; eexists; reflexivity|]).
  apply elem_of_nil in Hroot. destruct Hroot.
Defined.

Lemma BuildCrateList_unregistered_neighbour_witness :
  gather_crate_deps sample_user [sample_user] = ["//gen/lib.rs"]
  ∧ IsBinary sample_generated = false
  ∧ collect_crates [sample_user] !! "//gen/lib.rs" = None
  ∧ BuildCrateList sample_settings "//tc:default" [sample_user]
                   ["//u/lib.rs"] = Throws out_of_range
  ∧ RenderJSON sample_settings "//tc:default" [sample_user] ["//u/lib.rs"]
    = Throws out_of_range.
Proof.
  split; [reflexivity|]. split; [reflexivity|].
  assert (collect_crates [sample_user] !! "//gen/lib.rs" = None) as Hnone
    by (vm_compute; reflexivity).
  split; [exact Hnone|].
  apply (BuildCrateList_unregistered_neighbour sample_settings
           "//tc:default" [sample_user] ["//u/lib.rs"] "//u/lib.rs"
           "//gen/lib.rs"
           {| targets := [sample_user]; seen := false; info_index := None |}
           sample_user).
  - apply list_elem_of_here.
  - vm_compute. reflexivity.
  - reflexivity.
  - apply list_elem_of_here.
  - discriminate.
  - exact Hnone.
Defined.

Lemma AddCrate_only_appends_witness :
  ∃ st',
    AddCrate 2 sample_settings "//tc:default" "//e/lib.rs"
             (start_state [sample_env_target]) = Ok st'
    ∧ is_seen "//e/lib.rs" st'
    ∧ (∀ k, is_Some (lookup st' !! k)
            ↔ is_Some (collect_crates [sample_env_target] !! k))
    ∧ length (crate_list st') = 9.
Proof.
  assert (option_map length
            (finished_crates
               (AddCrate 2 sample_settings "//tc:default" "//e/lib.rs"
                         (start_state [sample_env_target])))
          = Some 9) as Hlen by (vm_compute; reflexivity).
  destruct (AddCrate 2 sample_settings "//tc:default" "//e/lib.rs"
              (start_state [sample_env_target])) as [st'| |] eqn:Hrun;
    [|discriminate Hlen..].
  destruct (AddCrate_only_appends sample_settings "//tc:default" 2
              "//e/lib.rs" (start_state [sample_env_target]) st' Hrun)
    as (_ & _ & Hkeys & _ & _ & Hseen & _).
  exists st'. split; [reflexivity|]. split; [exact Hseen|].
  split; [exact Hkeys|]. cbn in Hlen. injection Hlen as Hlen. exact Hlen.
Defined.

Lemma RenderJSON_without_crates_witness :
  (∀ t, t ∈ [group "//g:g" [sample_lib]; sample_generated] →
        IsBinary t = false ∨ rust_source_used t = false)
  ∧ RenderJSON sample_settings "//tc:default"
               [group "//g:g" [sample_lib]; sample_generated] []
    = Ok ("{" +:+ LF +:+ "  " +:+ dq +:+ "crates" +:+ dq +:+ ": [" +:+ LF
          +:+ "  ]" +:+ LF +:+ "}" +:+ LF).
Proof.
  assert (∀ t, t ∈ [group "//g:g" [sample_lib]; sample_generated] →
               IsBinary t = false ∨ rust_source_used t = false) as Hnone.
  { intros t Ht.
    repeat (apply elem_of_cons in Ht as [->|Ht]; [left; reflexivity|]).
    apply elem_of_nil in Ht. destruct Ht. }
  split; [exact Hnone|].
  assert (iteration_order
            (collect_crates [group "//g:g" [sample_lib]; sample_generated])
            []) as Horder.
  { unfold iteration_order.
    assert ((map_to_list
               (collect_crates
                  [group "//g:g" [sample_lib]; sample_generated])).*1
            = []) as Hkeys by (vm_compute; reflexivity).
    rewrite Hkeys. reflexivity. }
  destruct (RenderJSON_without_crates sample_settings "//tc:default"
              [group "//g:g" [sample_lib]; sample_generated] [] Hnone Horder)
    as [_ Hjson].
  exact Hjson.
Defined.

Lemma crate_list_length_witness :
  iteration_order (collect_crates sample_project)
                  ["//app/main.rs"; "//m/lib.rs"]
  ∧ ∃ st,
      BuildCrateList sample_settings "//tc:default" sample_project
                     ["//app/main.rs"; "//m/lib.rs"] = Ok st
      ∧ length (crate_list st) = 8 * size (sysroot_lookup st) + 2.
Proof.
  assert (iteration_order (collect_crates sample_project)
                          ["//app/main.rs"; "//m/lib.rs"]) as Horder.
  { unfold iteration_order.
    assert ((map_to_list (collect_crates sample_project)).*1
            = ["//m/lib.rs"; "//app/main.rs"]) as Hkeys
      by (vm_compute; reflexivity).
    rewrite Hkeys. apply perm_swap. }
  split; [exact Horder|].
  destruct sample_project_run as (st & m & app & Hrun & _).
  exists st. split; [exact Hrun|].
  rewrite (crate_list_length sample_settings "//tc:default" sample_project
             ["//app/main.rs"; "//m/lib.rs"] st Hrun Horder).
  assert (size (collect_crates sample_project) = 2) as Hsize
    by (vm_compute; reflexivity).
  rewrite Hsize. reflexivity.
Defined.

Lemma sysroots_of_main_targets_witness :
  ∃ st,
    BuildCrateList sample_settings "//tc:default" sample_project
                   ["//app/main.rs"; "//m/lib.rs"] = Ok st
    ∧ is_Some (sysroot_lookup st !! "sysroot").
Proof.
  destruct sample_project_run
    as (st & m & app & Hrun & Hm & _ & _ & Hgm & Htm & _).
  exists st. split; [exact Hrun|].
  apply (sysroots_of_main_targets sample_settings "//tc:default"
           sample_project ["//app/main.rs"; "//m/lib.rs"] st "sysroot" Hrun).
  split; [discriminate|]. exists m, sample_macro.
  split; [exact (list_elem_of_lookup_2 _ _ _ Hm)|].
  split; [rewrite Hgm; eexists; reflexivity|].
  split; [rewrite Htm; reflexivity|reflexivity].
Defined.

Lemma ApplyPatternToSource_first_missing_property_witness :
  BundleFileRule.is_null
    (BundleFileRule.plugins_dir BundleFileRule.sample_bundle) = true
  ∧ BundleFileRule.ApplyPatternToSource
      (collaborators := BundleFileRule.sample_collaborators)
      [BundleFileRule.mkSubrange
         BundleFileRule.SUBSTITUTION_BUNDLE_CONTENTS_DIR "";
       BundleFileRule.mkSubrange
         BundleFileRule.SUBSTITUTION_BUNDLE_PLUGINS_DIR "";
       BundleFileRule.mkSubrange BundleFileRule.SUBSTITUTION_LITERAL "a.txt"]
      "//app/BUILD.gn" "//app:data" BundleFileRule.sample_bundle
      "//app/a.txt"
    = inr "//out/App.app/Contents/a.txt"
  ∧ BundleFileRule.ApplyPatternToSource
      (collaborators := BundleFileRule.sample_collaborators)
      [BundleFileRule.mkSubrange BundleFileRule.SUBSTITUTION_LITERAL "x/";
       BundleFileRule.mkSubrange
         BundleFileRule.SUBSTITUTION_BUNDLE_RESOURCES_DIR "";
       BundleFileRule.mkSubrange
         BundleFileRule.SUBSTITUTION_BUNDLE_PLUGINS_DIR ""]
      "//app/BUILD.gn" "//app:data" BundleFileRule.sample_bundle
      "//app/a.txt"
    = inl (BundleFileRule.ErrMissingPropertyForExpansion
             (collaborators := BundleFileRule.sample_collaborators)
             "//app/BUILD.gn" "//app:data" "bundle_resources_dir").
Proof.
  split; [reflexivity|]. split.
  - destruct (ApplyPatternToSource_first_missing_property
                (collaborators := BundleFileRule.sample_collaborators)
                "//app/BUILD.gn" "//app:data" BundleFileRule.sample_bundle
                "//app/a.txt"
                [BundleFileRule.mkSubrange
                   BundleFileRule.SUBSTITUTION_BUNDLE_CONTENTS_DIR "";
                 BundleFileRule.mkSubrange
                   BundleFileRule.SUBSTITUTION_BUNDLE_PLUGINS_DIR "";
                 BundleFileRule.mkSubrange
                   BundleFileRule.SUBSTITUTION_LITERAL "a.txt"])
      as (Hall & _).
    apply Hall. repeat constructor; intros dir property_name Htested;
      try discriminate Htested; injection Htested as <- _; reflexivity.
  - destruct (ApplyPatternToSource_first_missing_property
                (collaborators := BundleFileRule.sample_collaborators)
                "//app/BUILD.gn" "//app:data" BundleFileRule.sample_bundle
                "//app/a.txt"
                [BundleFileRule.mkSubrange
                   BundleFileRule.SUBSTITUTION_LITERAL "x/";
                 BundleFileRule.mkSubrange
                   BundleFileRule.SUBSTITUTION_BUNDLE_RESOURCES_DIR "";
                 BundleFileRule.mkSubrange
                   BundleFileRule.SUBSTITUTION_BUNDLE_PLUGINS_DIR ""])
      as (_ & Hstops & _).
    apply (Hstops [BundleFileRule.mkSubrange
                     BundleFileRule.SUBSTITUTION_LITERAL "x/"]
                  (BundleFileRule.mkSubrange
                     BundleFileRule.SUBSTITUTION_BUNDLE_RESOURCES_DIR "")
                  [BundleFileRule.mkSubrange
                     BundleFileRule.SUBSTITUTION_BUNDLE_PLUGINS_DIR ""]
                  (BundleFileRule.resources_dir BundleFileRule.sample_bundle)
                  "bundle_resources_dir");
      [reflexivity| |reflexivity|reflexivity].
    repeat constructor. intros dir property_name Htested.
    discriminate Htested.
Defined.

(** Two orders in which the registry of [sample_project] may be visited. *)
Lemma sample_project_orders :
  iteration_order (collect_crates sample_project)
                  ["//app/main.rs"; "//m/lib.rs"]
  ∧ iteration_order (collect_crates sample_project)
                    ["//m/lib.rs"; "//app/main.rs"].
Proof.
  unfold iteration_order.
  assert ((map_to_list (collect_crates sample_project)).*1
          = ["//m/lib.rs"; "//app/main.rs"]) as Hkeys
    by (vm_compute; reflexivity).
  rewrite Hkeys. split; [apply perm_swap|reflexivity].
Qed.

Lemma success_independent_of_order_witness :
  iteration_order (collect_crates sample_project)
                  ["//app/main.rs"; "//m/lib.rs"]
  ∧ neighbours_registered "//tc:default" sample_project
  ∧ ∃ st,
      BuildCrateList sample_settings "//tc:default" sample_project
                     ["//app/main.rs"; "//m/lib.rs"] = Ok st.
Proof.
  destruct sample_project_orders as [Horder _].
  assert (neighbours_registered "//tc:default" sample_project) as Hreg.
  { apply neighbours_registered_check_sound. vm_compute. reflexivity. }
  split; [exact Horder|]. split; [exact Hreg|].
  destruct (success_independent_of_order sample_settings "//tc:default"
              sample_project ["//app/main.rs"; "//m/lib.rs"] Horder)
    as [[_ Hsucceeds] _].
  exact (Hsucceeds Hreg).
Defined.

Lemma records_independent_of_order_witness :
  ∃ st1 st2,
    BuildCrateList sample_settings "//tc:default" sample_project
                   ["//app/main.rs"; "//m/lib.rs"] = Ok st1
    ∧ BuildCrateList sample_settings "//tc:default" sample_project
                     ["//m/lib.rs"; "//app/main.rs"] = Ok st2
    ∧ length (crate_list st1) = length (crate_list st2)
    ∧ ∀ crate1,
        crate1 ∈ crate_list st1 → is_Some (gen_dir crate1) →
        ∃ crate2, crate2 ∈ crate_list st2 ∧ same_but_handles crate1 crate2.
Proof.
  destruct sample_project_orders as [Horder1 Horder2].
  destruct sample_project_run as (st1 & m & app & Hrun1 & _).
  assert (option_map length
            (finished_crates
               (BuildCrateList sample_settings "//tc:default" sample_project
                               ["//m/lib.rs"; "//app/main.rs"]))
          = Some 10) as Hlen by (vm_compute; reflexivity).
  destruct (BuildCrateList sample_settings "//tc:default" sample_project
              ["//m/lib.rs"; "//app/main.rs"]) as [st2| |] eqn:Hrun2;
    [|discriminate Hlen..].
  destruct (records_independent_of_order sample_settings "//tc:default"
              sample_project ["//app/main.rs"; "//m/lib.rs"]
              ["//m/lib.rs"; "//app/main.rs"] st1 st2
              Horder1 Horder2 Hrun1 Hrun2)
    as (Hlength & _ & Hrecords).
  exists st1, st2.
  exact (conj Hrun1 (conj eq_refl (conj Hlength Hrecords))).
Defined.

Lemma edges_have_distinct_handles_witness :
  ∃ st app,
    BuildCrateList sample_settings "//tc:default" sample_project
                   ["//app/main.rs"; "//m/lib.rs"] = Ok st
    ∧ crate_list st !! 9 = Some app
    ∧ dependencies app = [(0, "core"); (1, "alloc"); (4, "std"); (8, "m")]
    ∧ NoDup (dependencies app).*1.
Proof.
  destruct sample_project_run
    as (st & m & app & Hrun & _ & Happ & _ & _ & _ & _ & _ & _ & Hdeps).
  exists st, app.
  split; [exact Hrun|]. split; [exact Happ|]. split; [exact Hdeps|].
  exact (edges_have_distinct_handles sample_settings "//tc:default"
           sample_project ["//app/main.rs"; "//m/lib.rs"] st app Hrun
           (list_elem_of_lookup_2 _ _ _ Happ)).
Defined.

End Examples.

Section EscapingExamples.
#[local] Existing Instance escaping_helpers.


End EscapingExamples.
